(* ===== verification/_CoqProject ===== *)
-Q . S2P
Prelude.v
MqttPack.v
MqttRead.v
MqttWrite.v
MqttCodec.v
MqttTheorems.v
BufIO.v
PackQueue.v
QueueTheorems.v
Session.v
GateHandler.v
SessionTheorems.v
GateTheorems.v
Registry.v
Selector.v
SelectorTheorems.v
CacheWatch.v
CacheWatchTheorems.v
App.v
AppTheorems.v
RpcArgs.v
RpcArgsTheorems.v
NatsClient.v
NatsClientTheorems.v
RpcServer.v
RpcServerTheorems.v
Agent.v
AgentTheorems.v
GateConn.v
RingQueue.v
RingQueueTheorems.v
SafeMap.v
TimeWheel.v
TimeWheelTheorems.v
Consul.v
ConsulTheorems.v
ConsulWatcher.v
ConsulWatcherTheorems.v
Server.v
Modules.v
ModulesTheorems.v
ServerTheorems.v
NatsServer.v
NatsServerTheorems.v
UriRoute.v
UriRouteTheorems.v
Etcd.v
EtcdTheorems.v
NetServer.v
NetServerTheorems.v
GateModule.v
IdUtils.v
IdUtilsTheorems.v
IpTool.v
RegistryContract.v
RegistryContractTheorems.v
MockRegistry.v
MockRegistryTheorems.v
AppLife.v
AppLifeTheorems.v
HttpGateway.v
HttpGatewayTheorems.v
RemoteCall.v
RemoteCallTheorems.v
ModuleCalls.v
Cluster.v
ClusterTheorems.v
RegistryConfig.v
ServiceOptions.v
Listen.v
RpcLife.v
RpcLifeTheorems.v
CacheCopy.v
Log.v
MiniFmt.v
GoReflect.v
Structs.v
StructsTheorems.v
RpcSetup.v
SelectorOptions.v
