(* ===== verification/Prelude.v ===== *)
(** * mqant, a distributed game-server framework: verification development

    mqant runs a set of modules in each process.  A gate module accepts clients
    over MQTT, keeps a session for each and turns their publications into rpc
    calls; the other modules serve rpc functions over NATS.  Modules announce
    themselves in a service registry, and callers find them through a selector
    that caches what the registry's watcher reports.  This library models these
    parts and proves what makes each correct, and what goes wrong where the code
    does not do what it means to.

    ** Conventions

    A Go slice of bytes or string on the wire is [list byte], other strings are
    [string], machine integers are [Z] with the wrap-around written out
    ([int32], [int64], [uint32], ...; see below), a map is a [gmap] where its order does
    not matter and otherwise a list in the order Go happened to range over it, which
    then is a parameter.  A call that can panic returns an [outcome]; one that also
    changes state and may panic half-way, leaving the state as it then was, runs in
    the monad [ST]; an error value is a [result].  Locks, channels, goroutines
    and time are explicit: a lock that a panic leaves held is a field, what other
    goroutines do between locked sections is a list of actions or a step of a
    machine, a reading of the clock is an argument.  Code that is not the
    repository's (sockets, NATS, consul, etcd, JSON, zlib, protobuf, the reflection on rpc
    functions, random numbers) is a parameter, with what the code relies on as laws in a [Class] or a
    section's hypotheses, and each theorem under such laws is applied to a concrete
    instance by its witness.

    ** The parts, their files and the code they model

    The wire (all below [src/gate/base]):
    - [MqttPack], [MqttRead], [MqttWrite]: [mqtt/mqtt.go] - packets, [ReadPack] over a
      buffered reader, [DelayWritePack] and [WritePack] over the interface [BufWriter].
    - [MqttCodec], [MqttTheorems]: the reference encoding [frame]; what the writer
      appends is exactly it, what the reader returns on it, the typing of every
      packet the reader accepts, and the limit of its length digits.
    - [BufIO]: [src/network/tcp_conn.go] and Go's [bufio.Writer] on it, which
      implements [BufWriter]; a write ends.
    - [PackQueue], [QueueTheorems]: [mqtt/pack_queue.go], [mqtt/mqtt_client_server.go] -
      the queue shared by the writers and the flusher, and the client's read loop;
      frames are never torn or stranded by interleavings, packets get their MQTT
      answers, the loop ends, and an oversized packet deadlocks the queue.

    Sessions and the gate:
    - [Session], [SessionTheorems]: [session.go] - sessions that share settings by
      reference, copies, and the wire form rpc carries.
    - [GateHandler], [GateTheorems]: [gate_handler.go] and the remote half of [session.go] - the
      table of agents and its counter; a session held by another module stays in step
      with the gate's; saved settings are restored on bind.
    - [Agent], [AgentTheorems]: [mqtt_agent.go] - the bounded pool of workers and the
      routing of a publication to an rpc call, its reply included.
    - [GateConn]: client, agent and writers as one machine - a connection from its CONNACK
      on: whole frames, the answers of the packets read, one publication at most for each
      one asked for, and each packet handed on exactly once.
    - [UriRoute], [UriRouteTheorems]: [src/gate/uriroute/uri_route.go] - the
      alternative routing by URI.
    - [NetServer], [NetServerTheorems]: [src/network/tcp_server.go], [ws_server_x.go] and
      [Gate.Run] of [mqtt_gate.go] - the listeners, their connections and wait groups, and
      the order in which the gate closes them: what [Close] waits for, and when [Run]
      returns.
    - [Listen]: how those servers start, or panic, and [WSConn] beside
      [TCPConn].
    - [GateModule]: [src/gate/options.go], [mqtt_gate.go] - the gate's
      options, the settings that fill them in, and [OnInit].
    - [IpTool]: [src/utils/ip/iptool.go], [src/network/ws_conn_x.go] - the
      address of a client behind proxies.

    - [HttpGateway], [HttpGatewayTheorems]: [src/httpgateway] - an http request as a message to
      a service, and the service's answer or error as a response.

    Rpc (below [src/rpc]):
    - [RpcArgs], [RpcArgsTheorems]: [util/argsutil.go], [reply.go] and
      [src/utils/params_bytes.go] - values to tagged bytes and back, reply converters.
    - [NatsClient], [NatsClientTheorems]: [base/nats_client.go], [base/rpc_client.go] - calls
      waiting for answers while the connection fails, closes and recovers: each is
      answered at most once, and none waits for ever after the client stopped.
    - [RpcServer], [RpcServerTheorems]: [base/rpc_server.go] - a request from its lookup to
      its reply, through panics of the function and of callbacks.
    - [NatsServer], [NatsServerTheorems]: [base/nats_server.go] - the server's subscription,
      its receive loop and its shutdown.
    - [RpcSetup]: [base/nats_subscription.go] and the constructors of servers
      and clients; set up, they listen, and otherwise leave nothing on the connection.
    - [RpcLife], [RpcLifeTheorems]: [Done] of [base/rpc_server.go] among the requests that
      come and end, callbacks that panic included: what it waits for, what it does not, and
      how often each request is answered.
    - [RemoteCall], [RemoteCallTheorems]: client, messages and server as one machine - a
      caller that is answered gets what a local call of the function would have given it,
      or its error, whatever is lost or delayed; maps pass as JSON reads them back.
    - [ModuleCalls], [Cluster], [ClusterTheorems]: [src/module/base/base_module.go],
      [server_session.go] with [App] and [RemoteCall] - invocations by module type or server id
      through routing, sessions and servers as one machine: who is answered was answered by
      such a server, with the local result; and the callbacks of a module's listener.

    Discovery:
    - [Registry]: [src/registry/service.go], [latest.go] - services, nodes, latest instances.
    - [Selector], [SelectorTheorems]: [src/selector] - filters, strategies, the default and
      the caching selector, which follows watch events; [CacheWatch],
      [CacheWatchTheorems]: its watch loops, which end when it is closed; [CacheCopy]: what it
      hands out, by reference: copies of everything but the maps;
      [SelectorOptions]: the options of a selector and of a selection.
    - [App], [AppTheorems]: [src/app/app.go] - proxies of instances, sticky routes, and what
      the watcher drops, with other goroutines between the locked sections.
    - [Consul], [ConsulTheorems]: [src/registry/encoding.go], [consul_registry.go] -
      registration and its inverse, discovery: what of a node comes back.
    - [ConsulWatcher], [ConsulWatcherTheorems]: [consul_watcher.go] - the events of a report;
      they bring the selector's cache from the old services to the new, but an empty report
      has none.
    - [Etcd], [EtcdTheorems]: [src/registry/etcdv3] - registration over a key-value store
      with leases.
    - [RegistryConfig]: [src/registry/options.go], the [options.go] of
      [consul] and [etcdv3] and both [configure] - the address and the client of a registry,
      and what configuring again changes.
    - [RegistryContract], [RegistryContractTheorems]: [src/registry/registry.go] - what a
      registry promises to a service, kept by consul and etcd, and a service's whole life
      over any registry that keeps it.
    - [MockRegistry], [MockRegistryTheorems]: [src/registry/mock] - the registry in memory, which
      keeps the contract when its callers do not share objects with it.

    Processes:
    - [Server], [ServerTheorems]: [src/server], [src/service], [src/utils/lib/addr] - what a
      server announces, and the loop that renews it, over the interface [RegistryOps].
    - [ServiceOptions]: [src/server/options.go], [src/service/options.go]
      - the options and their order.
    - [Modules], [ModulesTheorems]: [src/module/base] - [BaseModule] and the [ModuleManager]:
      start and stop in order, and a module's whole life in the registry.
    - [AppLife], [AppLifeTheorems]: [src/app/app.go], [src/module/options.go], [src/conf] - where the
      application's options come from, and [Run] from the configuration file to the end of
      the process.

    Identifiers: [IdUtils], [IdUtilsTheorems] ([src/utils/base62.go], [id.go], [uuid/uuid.go],
    [aes/aes_encrypt.go], [randInt.go]; encodings that read back, ids that do not repeat).

    Reflection: [GoReflect] (what of Go's [reflect] the package below uses),
    [Structs], [StructsTheorems] ([src/utils/fatih/structs]; a structure's map, values and
    fields: the map has every field, the walks are one, and pointers that lead back make
    it run for ever).

    Logs and formats: [Log] ([src/log]; options that can be undone, the logger's
    configuration, spans), [MiniFmt] ([src/utils/minifmt.go]; named fields
    in a format are substituted, as long as braces stand for fields only).

    Containers: [RingQueue] ([src/utils/queue.go], equivalent to a list), [SafeMap]
    ([safemap.go]), [TimeWheel] ([src/module/modules/timer/timingwheel.go]; every timer
    fires at its tick).

    ** Interfaces between components

    [BufWriter]/[BufWriterLaws] (the codec against the buffered writer; [BufIO]
    discharges them from [SocketLaws]), [ServiceSelector] (routing against either
    selector), [RegistryOps] with the laws [RegistryContract] (services against a registry; consul,
    etcd and the registry in memory discharge them).  Sessions, agents and rpc meet
    in the argument encoding of [RpcArgs], the rpc client and server in [RemoteCall],
    and these and routing in [Cluster]; the consul watcher and the cache meet in
    [ConsulWatcherTheorems], modules, services and consul in [ServerTheorems], the modules and
    the application in [AppLifeTheorems], the client and the agent in [GateConn], the listeners and the gate in [NetServerTheorems].

    ** Fuel and bounds

    A loop that is not structural has fuel, chosen from its input and enough because a
    theorem says that it returns: the remaining-length loops read three more digits
    and write five at most; the topic loops take a step per byte of their packet, the
    read loop one per byte left to read ([read_loop_terminates]); [bufio]'s write loop
    has two steps per byte and two ([tcp_pack_write_total]).  Machines that run
    for ever ([NatsClient], [NatsServer], [RpcLife], [Cluster], [CacheWatch], [TimeWheel], [NetServer],
    [GateConn], the agent's pool) are
    stepped by a list of events, and their theorems hold for every list; [run_steps] below is
    the run of such a machine.  Trimming and the digits of [IdUtils] have a step per character
    or per bit; [Structs] one per value
    below another, which is enough for what [well_formed] says is finite.  Where the
    code itself loses bounds (lengths of 2^21 bytes and more, buffers shorter than a
    number, a counter shared by two kinds of timer) the theorem states the bound.

    ** Not modelled

    Generated protobuf code, log messages (which only go on to zap), the WebSocket handshake and TLS,
    and examples.  Beside them, each file's opening comment says what of its own source it
    leaves out: mostly accessors and calls that only forward. *)
(** This file: bytes, fixed-width integers, the outcome types that stand for Go's
    errors and panics, generic lemmas on strings, lists and maps, the hint databases and
    the tactics the component files use. *)
From Stdlib Require Export ZArith Lia Bool.
From Stdlib Require Export Strings.Byte.
From Stdlib Require Import Numbers.DecimalString Numbers.DecimalZ Strings.Ascii.
From coqutil Require Export Byte.
From stdpp Require Export base option list gmap strings.

#[global] Open Scope Z_scope.

Declare Scope mq_scope.
Delimit Scope mq_scope with mq.

(** ** Bytes *)

Abbreviation bz := byte.unsigned.
Abbreviation zb := byte.of_Z.
Abbreviation bytes := (list Byte.byte).

#[global] Instance byte_eq_dec : EqDecision Byte.byte := Byte.byte_eq_dec.

(** Go strings are byte sequences. *)
Abbreviation str_bytes := String.list_byte_of_string.
Abbreviation bytes_str := String.string_of_list_byte.

(** [len(s)] of a Go slice, as the [int] the code computes with. *)
Definition zlen {A} (l : list A) : Z := Z.of_nat (length l).

(** [strings.Split] by a one-character separator; [acc] is the piece read so far. *)
Fixpoint split_on (sep : Ascii.ascii) (s acc : string) : list string :=
  match s with
  | EmptyString => [acc]
  | String c s => if decide (c = sep) then acc :: split_on sep s EmptyString
                  else split_on sep s (String.append acc (String c EmptyString))
  end.

(** ** [strconv] *)

(** A sign, if any, and decimal digits. *)
Definition parse_signed (s : string) : option Z :=
  let '(neg, digits) :=
    match s with
    | String "-"%char s => (true, s)
    | String "+"%char s => (false, s)
    | _ => (false, s)
    end in
  d ← NilZero.uint_of_string digits;
  Some (if neg : bool then - Z.of_uint d else Z.of_uint d).

(** [FormatInt(i, 10)], and [ParseInt(s, 10, 64)] with [None] for its error. *)
Definition FormatInt (i : Z) : string := NilZero.string_of_int (Z.to_int i).

Definition ParseInt (s : string) : option Z :=
  v ← parse_signed s; if (- 2 ^ 63 <=? v) && (v <? 2 ^ 63) then Some v else None.

Lemma parse_signed_FormatInt i : parse_signed (FormatInt i) = Some i.
Proof.
  unfold FormatInt. pose proof (DecimalZ.of_to i) as Hof.
  assert (Hu : forall d, exists d', NilZero.uint_of_string (NilZero.string_of_uint d) = Some d' /\ Z.of_uint d' = Z.of_uint d).
  { intros d. destruct d; [by exists (Decimal.D0 Decimal.Nil)|..]; eexists; (split; [by apply NilZero.usu | done]). }
  destruct (Z.to_int i) as [d|d]; cbn [NilZero.string_of_int Z.of_int] in *; destruct (Hu d) as (d' & Ed & Ez).
  - assert (E : parse_signed (NilZero.string_of_uint d) =
      (d ← NilZero.uint_of_string (NilZero.string_of_uint d); Some (Z.of_uint d))) by (by destruct d).
    rewrite E, Ed. cbn [mbind option_bind]. congruence.
  - unfold parse_signed. rewrite Ed. cbn [mbind option_bind]. congruence.
Qed.

Lemma ParseInt_FormatInt i : - 2 ^ 63 <= i < 2 ^ 63 -> ParseInt (FormatInt i) = Some i.
Proof.
  intros Hi. unfold ParseInt. rewrite parse_signed_FormatInt. cbn [mbind option_bind].
  by rewrite (proj2 (Z.leb_le _ _)), (proj2 (Z.ltb_lt _ _)) by lia.
Qed.

(** No occurrence of a character. *)
Fixpoint no_char (sep : Ascii.ascii) (s : string) : Prop :=
  match s with EmptyString => True | String c s => c <> sep /\ no_char sep s end.

(** ** Fixed-width integers *)

Definition wrap_u (w z : Z) : Z := z mod 2 ^ w.
Definition wrap_s (w z : Z) : Z := (z + 2 ^ (w - 1)) mod 2 ^ w - 2 ^ (w - 1).

Definition u16 (z : Z) : Z := wrap_u 16 z.
Definition int32 (z : Z) : Z := wrap_s 32 z.
Definition int64 (z : Z) : Z := wrap_s 64 z.

(** ** Record update

    [r <| f := v |>] is [r] with its field [f] replaced.  A record type opts in
    by declaring its eta expansion as an instance of [Eta]; the update function
    of a projection is then computed by abstracting that projection in it. *)

Class Eta (R : Type) := eta : R -> R.
Class Setter {R T : Type} (proj : R -> T) := upd : (T -> T) -> R -> R.

Ltac derive_setter :=
  match goal with
  | |- @Setter ?R ?T ?proj =>
      let e := constr:(_ : Eta R) in
      let body := eval hnf in e in
      lazymatch eval pattern proj in body with
      | ?k _ =>
          let t := eval cbv beta in (fun (f : T -> T) => k (fun r => f (proj r))) in
          exact t
      end
  end.

#[global] Hint Extern 1 (Setter _) => derive_setter : typeclass_instances.

#[warnings="-postfix-notation-not-level-1"]
Notation "r <| p := v |>" := (upd (proj := p) (fun _ => v) r)
  (at level 12, p at next level, left associativity) : mq_scope.

(** ** Outcomes *)

(** A Go call that returns a value and an [error]: exactly one is meaningful. *)
Inductive result (E A : Type) : Type :=
| Ok (a : A)
| Err (e : E).
Arguments Ok {E A} a.
Arguments Err {E A} e.

(** A Go expression that yields a value or panics at run time. *)
Inductive outcome (A : Type) : Type :=
| Ret (a : A)
| Panic (why : string).
Arguments Ret {A} a.
Arguments Panic {A} why.

Definition outcome_bind {A B} (m : outcome A) (k : A -> outcome B) : outcome B :=
  match m with Ret a => k a | Panic w => Panic w end.

Notation "x <- m ; k" := (outcome_bind m (fun x => k))
  (at level 100, m at next level, right associativity) : mq_scope.

Definition is_panic {A} (m : outcome A) : bool :=
  match m with Panic _ => true | Ret _ => false end.

(** A call on a mutable state [C]: it returns, panics leaving the state as it
    was at that point, or blocks for ever. *)
Inductive exec (C A : Type) : Type :=
| Done (c : C) (a : A)
| Panicked (c : C) (why : string)
| Blocked.
Arguments Done {C A} c a.
Arguments Panicked {C A} c why.
Arguments Blocked {C A}.

Definition exec_then {C A B} (m : exec C A) (k : A -> C -> exec C B) : exec C B :=
  match m with
  | Done c a => k a c
  | Panicked c why => Panicked c why
  | Blocked => Blocked
  end.

(** The state monad over [exec]. *)
Definition ST (C A : Type) : Type := C -> exec C A.
Definition st_ret {C A} (a : A) : ST C A := fun c => Done c a.
Definition st_panic {C A} (why : string) : ST C A := fun c => Panicked c why.
Definition st_bind {C A B} (m : ST C A) (k : A -> ST C B) : ST C B := fun c => exec_then (m c) k.
Definition st_get {C} : ST C C := fun c => Done c c.
Definition st_mod {C} (f : C -> C) : ST C unit := fun c => Done (f c) tt.

Declare Scope st_scope.
Delimit Scope st_scope with st.
Notation "'let*' x := m 'in' k" := (st_bind m (fun x => k))
  (at level 10, x binder, m at level 100, k at level 200) : st_scope.
Notation "'do*' m 'in' k" := (st_bind m (fun _ => k))
  (at level 10, m at level 100, k at level 200) : st_scope.

Lemma st_bind_done {C A B} (m : ST C A) (k : A -> ST C B) c c' a :
  m c = Done c' a -> st_bind m k c = k a c'.
Proof. intros H. unfold st_bind. by rewrite H. Qed.

(** Runs the first call of a sequence, given what it does. *)
Ltac step L := rewrite (st_bind_done _ _ _ _ _ L).

(** ** Machines

    A component whose parts run concurrently is a function from a state and an event
    (a step of one of the parts) to the next state, [None] where the event cannot
    happen. *)

Section Machine.
Context {S E : Type} (step : S -> E -> option S).

Fixpoint run_steps (evs : list E) (s : S) : option S :=
  match evs with
  | [] => Some s
  | e :: evs => s ← step s e; run_steps evs s
  end.

Lemma run_steps_app evs evs' s : run_steps (evs ++ evs') s = s' ← run_steps evs s; run_steps evs' s'.
Proof. revert s. induction evs as [|e evs IH]; intros s; cbn; [done|]. destruct (step s e); cbn; [apply IH | done]. Qed.

Lemma run_steps_snoc evs e s s' s'' : run_steps evs s = Some s' -> step s' e = Some s'' -> run_steps (evs ++ [e]) s = Some s''.
Proof. intros H1 H2. rewrite run_steps_app, H1. cbn. by rewrite H2. Qed.

(** What steps on events of a kind keep, runs of such events keep. *)
Lemma run_steps_inv (kind : E -> Prop) (I : S -> Prop) :
  (forall s e s', kind e -> I s -> step s e = Some s' -> I s') ->
  forall evs s s', Forall kind evs -> I s -> run_steps evs s = Some s' -> I s'.
Proof.
  intros Hstep. induction evs as [|e evs IH]; intros s s' Hk Hi H; cbn in H; [by injection H as <-|].
  apply Forall_cons in Hk as [Hk Hks]. apply bind_Some in H as (s1 & Hs1 & H). eauto.
Qed.

Lemma run_steps_keep (I : S -> Prop) : (forall s e s', I s -> step s e = Some s' -> I s') ->
  forall evs s s', I s -> run_steps evs s = Some s' -> I s'.
Proof.
  intros Hstep evs s s' Hi H. eapply (run_steps_inv (fun _ => True) I); [|by apply Forall_true|exact Hi|exact H].
  intros x e y _. apply Hstep.
Qed.

(** Steps that lower a measure are bounded by it. *)
Lemma run_steps_bounded (kind : E -> Prop) (I : S -> Prop) (rank : S -> Z) :
  (forall s e s', kind e -> I s -> step s e = Some s' -> I s' /\ rank s' < rank s) -> (forall s, I s -> 0 <= rank s) ->
  forall evs s s', Forall kind evs -> I s -> run_steps evs s = Some s' -> Z.of_nat (length evs) <= rank s.
Proof.
  intros Hstep Hpos. induction evs as [|e evs IH]; intros s s' Hk Hi H; cbn in H; [by apply Hpos|].
  apply Forall_cons in Hk as [Hk Hks]. apply bind_Some in H as (s1 & Hs1 & H).
  destruct (Hstep s e s1 Hk Hi Hs1) as [Hi1 Hr]. specialize (IH s1 s' Hks Hi1 H). cbn [length]. lia.
Qed.

(** Where such a step exists until [final], a run of them reaches it. *)
Lemma run_steps_reach (kind : E -> Prop) (I final : S -> Prop) (rank : S -> Z) :
  (forall s e s', kind e -> I s -> step s e = Some s' -> I s' /\ rank s' < rank s) -> (forall s, I s -> 0 <= rank s) ->
  (forall s, I s -> final s \/ exists e s', kind e /\ step s e = Some s') ->
  forall s, I s -> exists evs s', Forall kind evs /\ run_steps evs s = Some s' /\ final s'.
Proof.
  intros Hstep Hpos Hprog s Hi. remember (rank s) as n eqn:En. revert s Hi En.
  induction n as [n IH] using (well_founded_induction (Z.lt_wf 0)). intros s Hi ->.
  destruct (Hprog s Hi) as [Hf|(e & s1 & Hk & Hs1)]; [by exists [], s|].
  destruct (Hstep s e s1 Hk Hi Hs1) as [Hi1 Hr].
  destruct (IH (rank s1) ltac:(split; [by apply Hpos | done]) s1 Hi1 eq_refl) as (evs & s' & Hks & Hrun & Hfin).
  exists (e :: evs), s'. split; [by constructor|]. split; [|done]. cbn. by rewrite Hs1.
Qed.
End Machine.

(** ** Lemmas on bytes and integers *)

Lemma bz_range b : 0 <= bz b < 256.
Proof. pose proof (byte.unsigned_range b). change (2 ^ 8) with 256 in *. lia. Qed.

Lemma bz_zb z : bz (zb z) = z mod 256.
Proof. rewrite byte.unsigned_of_Z. reflexivity. Qed.

Lemma bz_zb_small z : 0 <= z < 256 -> bz (zb z) = z.
Proof. intros. rewrite bz_zb. apply Z.mod_small. lia. Qed.

Lemma zb_bz b : zb (bz b) = b.
Proof. apply byte.of_Z_unsigned. Qed.

Lemma bz_inj a b : bz a = bz b -> a = b.
Proof. intros H. rewrite <- (zb_bz a), <- (zb_bz b). congruence. Qed.

Lemma u16_range z : 0 <= u16 z < 65536.
Proof. unfold u16, wrap_u. change (2 ^ 16) with 65536. apply Z.mod_pos_bound. lia. Qed.

Lemma u16_small z : 0 <= z < 65536 -> u16 z = z.
Proof. intros. unfold u16, wrap_u. apply Z.mod_small. change (2 ^ 16) with 65536. lia. Qed.

Lemma wrap_s_range w z : 0 < w -> - 2 ^ (w - 1) <= wrap_s w z < 2 ^ (w - 1).
Proof.
  intros Hw. unfold wrap_s.
  assert (E : 2 ^ w = 2 * 2 ^ (w - 1)).
  { replace w with (Z.succ (w - 1)) at 1 by lia. rewrite Z.pow_succ_r by lia. lia. }
  assert (0 < 2 ^ (w - 1)) by (apply Z.pow_pos_nonneg; lia).
  pose proof (Z.mod_pos_bound (z + 2 ^ (w - 1)) (2 ^ w) ltac:(lia)). lia.
Qed.

Lemma wrap_s_small w z : 0 < w -> - 2 ^ (w - 1) <= z < 2 ^ (w - 1) -> wrap_s w z = z.
Proof.
  intros Hw Hz. unfold wrap_s.
  assert (E : 2 ^ w = 2 * 2 ^ (w - 1)).
  { replace w with (Z.succ (w - 1)) at 1 by lia. rewrite Z.pow_succ_r by lia. lia. }
  rewrite Z.mod_small; lia.
Qed.

Lemma wrap_s_wrap_u w z : 0 < w -> wrap_s w (wrap_u w z) = wrap_s w z.
Proof.
  intros Hw. unfold wrap_s, wrap_u. f_equal.
  rewrite Z.add_mod_idemp_l; [reflexivity | apply Z.pow_nonzero; lia].
Qed.

(** ** Lists *)

Lemma zlen_nonneg {A} (l : list A) : 0 <= zlen l.
Proof. unfold zlen. lia. Qed.

Lemma zlen_nil {A} : zlen (@nil A) = 0.
Proof. reflexivity. Qed.

Lemma zlen_cons {A} (x : A) l : zlen (x :: l) = 1 + zlen l.
Proof. unfold zlen. simpl. lia. Qed.

Lemma zlen_app {A} (l k : list A) : zlen (l ++ k) = zlen l + zlen k.
Proof. unfold zlen. rewrite length_app. lia. Qed.

Lemma take_app_exact {A} (l k : list A) n : n = length l -> take n (l ++ k) = l.
Proof. intros ->. apply take_app_length. Qed.

Lemma drop_app_exact {A} (l k : list A) n : n = length l -> drop n (l ++ k) = k.
Proof. intros ->. apply drop_app_length. Qed.

Lemma list_filter_fmap {A B} (f : A -> B) (P : B -> Prop) `{!forall x, Decision (P x)} (l : list A) :
  filter P (f <$> l) = f <$> filter (fun x => P (f x)) l.
Proof.
  induction l as [|x l IH]; [done|]. cbn [fmap list_fmap]. destruct (decide (P (f x))).
  - by rewrite !filter_cons_True, IH.
  - by rewrite !filter_cons_False, IH.
Qed.

Lemma sublist_fmap_mono {A B} (f : A -> B) (l k : list A) :
  l `sublist_of` k -> f <$> l `sublist_of` f <$> k.
Proof. induction 1; cbn; by constructor. Qed.

Lemma NoDup_fmap_elem {A B} (f : A -> B) (l : list A) x y :
  NoDup (f <$> l) -> x ∈ l -> y ∈ l -> f x = f y -> x = y.
Proof.
  induction l as [|z l IH]; [by intros _ ?%not_elem_of_nil|].
  cbn [fmap list_fmap]. intros [Hz Hnd]%NoDup_cons Hx Hy E.
  assert (forall w, w ∈ l -> f z <> f w) as Hne by (intros w Hw Hzw; apply Hz; rewrite Hzw; by apply list_elem_of_fmap_2).
  apply elem_of_cons in Hx as [->|Hx], Hy as [->|Hy]; [done| | |by apply IH].
  - by destruct (Hne y Hy).
  - by destruct (Hne x Hx).
Qed.

(** ** Strings *)

Lemma str_app_nil (s : string) : String.append EmptyString s = s.
Proof. reflexivity. Qed.

Lemma str_app_cons c (r s : string) : String.append (String c r) s = String c (String.append r s).
Proof. reflexivity. Qed.

#[local] Hint Rewrite str_app_nil str_app_cons : strapp.

Lemma str_app_nil_r (s : string) : String.append s EmptyString = s.
Proof. induction s as [|c s IH]; autorewrite with strapp; congruence. Qed.

Lemma str_app_assoc (r s t : string) : String.append (String.append r s) t = String.append r (String.append s t).
Proof. induction r as [|c r IH]; autorewrite with strapp; congruence. Qed.

Lemma no_char_app sep r s : no_char sep (String.append r s) <-> no_char sep r /\ no_char sep s.
Proof. induction r as [|c r IH]; autorewrite with strapp; cbn; [tauto|]. rewrite IH. tauto. Qed.

Lemma str_concat_cons sep x l : l <> [] ->
  String.concat sep (x :: l) = String.append x (String.append sep (String.concat sep l)).
Proof. destruct l; [done|]. reflexivity. Qed.

Lemma split_on_nonempty sep s : forall acc, split_on sep s acc <> [].
Proof. induction s as [|c s IH]; intros acc; cbn; [done|]. by destruct (decide (c = sep)). Qed.

(** Splitting gives the pieces that are free of the separator and join to the
    string. *)
Lemma split_on_join sep s : forall acc, no_char sep acc ->
  Forall (no_char sep) (split_on sep s acc) /\
  String.concat (String sep EmptyString) (split_on sep s acc) = String.append acc s.
Proof.
  induction s as [|c s IH]; intros acc Ha; cbn [split_on].
  - split; [by repeat constructor|]. cbn. by rewrite str_app_nil_r.
  - destruct (decide (c = sep)) as [->|Hc].
    + destruct (IH EmptyString I) as [Hf Hj]. split; [by constructor|].
      rewrite str_concat_cons, Hj by apply split_on_nonempty. reflexivity.
    + destruct (IH (String.append acc (String c EmptyString))) as [Hf Hj]; [by apply no_char_app|].
      split; [done|]. rewrite Hj, str_app_assoc. reflexivity.
Qed.

Lemma split_on_piece sep x : forall s acc, no_char sep x ->
  split_on sep (String.append x s) acc = split_on sep s (String.append acc x).
Proof.
  induction x as [|c x IH]; intros s acc Hx; autorewrite with strapp; [by rewrite str_app_nil_r|].
  destruct Hx as [Hc Hx]. cbn [split_on]. rewrite decide_False, IH, str_app_assoc by done. reflexivity.
Qed.

Lemma split_on_concat sep l : forall x acc, Forall (no_char sep) (x :: l) ->
  split_on sep (String.concat (String sep EmptyString) (x :: l)) acc = String.append acc x :: l.
Proof.
  induction l as [|y l IH]; intros x acc Hf; apply Forall_cons in Hf as [Hx Hf].
  - cbn [String.concat]. rewrite <- (str_app_nil_r x) at 1. by rewrite split_on_piece.
  - rewrite str_concat_cons by done. rewrite split_on_piece by done.
    rewrite str_app_cons, str_app_nil. cbn [split_on]. rewrite decide_True, IH by done. reflexivity.
Qed.

(** Decides a boolean property of a small range of integers by enumeration. *)
Lemma Zrange_forallb (P : Z -> bool) n :
  forallb (fun k => P (Z.of_nat k)) (seq 0 n) = true ->
  forall d, 0 <= d < Z.of_nat n -> P d = true.
Proof.
  intros H d Hd. rewrite forallb_forall in H.
  specialize (H (Z.to_nat d)). rewrite Z2Nat.id in H by lia.
  apply H, in_seq. lia.
Qed.

(** The same with an integer counter, for long ranges. *)
Fixpoint Zall (P : Z -> bool) (n : nat) (z : Z) : bool :=
  match n with O => true | S n => P z && Zall P n (z + 1) end.

Lemma Zall_spec P n : forall z, Zall P n z = true -> forall d, z <= d < z + Z.of_nat n -> P d = true.
Proof.
  induction n as [|n IH]; intros z H d Hd; [lia|]. cbn in H. apply andb_true_iff in H as [H1 H2].
  destruct (Z.eq_dec d z) as [->|]; [done|]. apply (IH (z + 1)); [done | lia].
Qed.

Create HintDb mq discriminated.
Create Rewrite HintDb mqlen.
#[export] Hint Resolve bz_range u16_range zlen_nonneg : mq.
#[export] Hint Rewrite @zlen_nil @zlen_cons @zlen_app : mqlen.

(** [len_lia] solves arithmetic goals about slice lengths. *)
Ltac len_lia :=
  autorewrite with mqlen in *;
  repeat match goal with
  | l : list ?A |- _ => lazymatch goal with
                        | H : 0 <= zlen l |- _ => fail
                        | _ => pose proof (zlen_nonneg l)
                        end
  end; lia.

(** [destr e] case-splits on the innermost scrutinee of the goal or of [H]. *)
Ltac destr_goal :=
  match goal with
  | |- context [match ?x with _ => _ end] =>
      lazymatch x with
      | context [match _ with _ => _ end] => fail
      | _ => let E := fresh "E" in destruct x eqn:E
      end
  end.

Ltac destr_hyp H :=
  match type of H with
  | context [match ?x with _ => _ end] =>
      lazymatch x with
      | context [match _ with _ => _ end] => fail
      | _ => let E := fresh "E" in destruct x eqn:E
      end
  end.

(** Turns boolean tests in the context into propositions. *)
Ltac bool_prop :=
  repeat match goal with
  | H : (_ <? _) = true |- _ => apply Z.ltb_lt in H
  | H : (_ <? _) = false |- _ => apply Z.ltb_ge in H
  | H : (_ <=? _) = true |- _ => apply Z.leb_le in H
  | H : (_ <=? _) = false |- _ => apply Z.leb_gt in H
  | H : (_ =? _) = true |- _ => apply Z.eqb_eq in H
  | H : (_ =? _) = false |- _ => apply Z.eqb_neq in H
  | H : _ && _ = true |- _ => apply andb_true_iff in H; destruct H
  | H : _ && _ = false |- _ => apply andb_false_iff in H
  | H : _ || _ = true |- _ => apply orb_true_iff in H
  | H : _ || _ = false |- _ => apply orb_false_iff in H; destruct H
  | H : negb _ = true |- _ => apply negb_true_iff in H
  | H : negb _ = false |- _ => apply negb_false_iff in H
  end.
