(* ===== verification/MqttPack.v ===== *)
(** * MQTT packets: data model

    [gate/base/mqtt/mqtt.go]: the packet types, their accessors, the connect
    flag decoder and the remaining-length encoder.  A Go [*string] is an
    [option bytes] ([None] is [nil]); the [interface{}] that holds a packet's
    variable part is the sum [variable] of the dynamic types the file stores in
    it. *)
From S2P Require Import Prelude.
#[local] Open Scope mq_scope.

(** ** Message types ([const] block) *)

Definition Rserved : Z := 0.
Definition CONNECT : Z := 1.
Definition CONNACK : Z := 2.
Definition PUBLISH : Z := 3.
Definition PUBACK : Z := 4.
Definition PUBREC : Z := 5.
Definition PUBREL : Z := 6.
Definition PUBCOMP : Z := 7.
Definition SUBSCRIBE : Z := 8.
Definition SUBACK : Z := 9.
Definition UNSUBSCRIBE : Z := 10.
Definition UNSUBACK : Z := 11.
Definition PINGREQ : Z := 12.
Definition PINGRESP : Z := 13.
Definition DISCONNECT : Z := 14.

Definition null_string : bytes := [].

(** ** Variable headers and payloads *)

Record Connect := mkConnect {
  protocol : option bytes;
  version : byte;
  keep_alive_timer : Z;
  conn_return_code : byte;
  user_name : bool;
  password : bool;
  will_retain : bool;
  will_qos : Z;
  will_flag : bool;
  clean_session : bool;
  rserved : bool;
  id : option bytes;
  will_topic : option bytes;
  will_msg : option bytes;
  uname : option bytes;
  upassword : option bytes }.

#[export] Instance Connect_eta : Eta Connect := fun c =>
  mkConnect (protocol c) (version c) (keep_alive_timer c) (conn_return_code c)
    (user_name c) (password c) (will_retain c) (will_qos c) (will_flag c)
    (clean_session c) (rserved c) (id c) (will_topic c) (will_msg c) (uname c)
    (upassword c).

(** [new(Connect)]. *)
Definition new_Connect : Connect :=
  mkConnect None x00 0 x00 false false false 0 false false false None None None None None.

Record Connack := mkConnack { reserved : byte; connack_return_code : byte }.
#[export] Instance Connack_eta : Eta Connack := fun c =>
  mkConnack (reserved c) (connack_return_code c).

Record Publish := mkPublish { topic_name : option bytes; pub_mid : Z; msg : bytes }.
#[export] Instance Publish_eta : Eta Publish := fun p =>
  mkPublish (topic_name p) (pub_mid p) (msg p).

Record Puback := mkPuback { puback_mid : Z }.

Record Topics := mkTopics { top_name : option bytes; top_Qos : byte }.
#[export] Instance Topics_eta : Eta Topics := fun t => mkTopics (top_name t) (top_Qos t).

Record Subscribe := mkSubscribe { sub_mid : Z; sub_topics : list Topics }.
#[export] Instance Subscribe_eta : Eta Subscribe := fun s =>
  mkSubscribe (sub_mid s) (sub_topics s).

Record Suback := mkSuback { suback_mid : Z; suback_Qos : byte }.

Record UNSubscribe := mkUNSubscribe { unsub_mid : Z; unsub_topics : list Topics }.
#[export] Instance UNSubscribe_eta : Eta UNSubscribe := fun s =>
  mkUNSubscribe (unsub_mid s) (unsub_topics s).

Record UNSuback := mkUNSuback { unsuback_mid : Z }.

(** The dynamic types stored in [Pack.variable]; [VNil] is the nil interface. *)
Inductive variable :=
| VNil
| VConnect (c : Connect)
| VConnack (c : Connack)
| VPublish (p : Publish)
| VPuback (a : Puback)
| VSubscribe (s : Subscribe)
| VSuback (a : Suback)
| VUNSubscribe (s : UNSubscribe)
| VUNSuback (a : UNSuback).

Record Pack := mkPack {
  msg_type : byte;
  dup_flag : byte;
  qos_level : byte;
  retain : byte;
  pack_length : Z;
  pvariable : variable }.
#[export] Instance Pack_eta : Eta Pack := fun p =>
  mkPack (msg_type p) (dup_flag p) (qos_level p) (retain p) (pack_length p) (pvariable p).

Definition new_Pack : Pack := mkPack x00 x00 x00 x00 0 VNil.

(** ** Accessors of [Pack] *)

Definition GetVariable (p : Pack) : variable := pvariable p.
Definition GetType (p : Pack) : byte := msg_type p.
Definition SetType (typ : byte) (p : Pack) : Pack := p <| msg_type := typ |>.
Definition GetDup (p : Pack) : byte := dup_flag p.
Definition SetDup (dup : byte) (p : Pack) : Pack := p <| dup_flag := dup |>.
Definition GetQos (p : Pack) : byte := qos_level p.
Definition SetQos (qos : byte) (p : Pack) : Pack := p <| qos_level := qos |>.

(** ** Accessors of [Connect] *)

Definition GetUserName (c : Connect) : option bytes :=
  if negb (user_name c) then Some null_string else uname c.

Definition GetPassword (c : Connect) : option bytes :=
  if negb (password c) then Some null_string else upassword c.

Definition GetWillMsg (c : Connect) : bool * option bytes * option bytes :=
  if negb (will_flag c) then (false, Some null_string, Some null_string)
  else (true, will_topic c, will_msg c).

(** Returns the keep-alive period and the connect packet, whose field it
    defaults to 60 when the client sent 0. *)
Definition GetKeepAlive (c : Connect) : Z * Connect :=
  let c' := if keep_alive_timer c =? 0 then c <| keep_alive_timer := 60 |> else c in
  (keep_alive_timer c', c').

Definition IsCleanSession (c : Connect) : bool := clean_session c.
Definition GetProtocol (c : Connect) : option bytes := protocol c.
Definition GetVersion (c : Connect) : byte := version c.
Definition Connect_GetReturnCode (c : Connect) : byte := conn_return_code c.

(** ** Accessors of the other payloads *)

Definition SetReturnCode (rc : byte) (c : Connack) : Connack := c <| connack_return_code := rc |>.
Definition Publish_SetTopic (t : option bytes) (p : Publish) : Publish := p <| topic_name := t |>.
Definition Publish_SetMid (m : Z) (p : Publish) : Publish := p <| pub_mid := m |>.
Definition Publish_SetMsg (m : bytes) (p : Publish) : Publish := p <| msg := m |>.
Definition Subscribe_addTopics (t : Topics) (s : Subscribe) : Subscribe :=
  s <| sub_topics := sub_topics s ++ [t] |>.
Definition UNSubscribe_addTopics (t : Topics) (s : UNSubscribe) : UNSubscribe :=
  s <| unsub_topics := unsub_topics s ++ [t] |>.

(** ** Connect flags *)

(** [parse_flags]: successive masking of the flag byte, most significant bit
    first. *)
Definition parse_flags (b : byte) (flag : Connect) : Connect :=
  let b := bz b in
  let flag := if negb (Z.shiftr b 7 =? 0) then flag <| user_name := true |> else flag in
  let b := Z.land b 127 in
  let flag := if negb (Z.shiftr b 6 =? 0) then flag <| password := true |> else flag in
  let b := Z.land b 63 in
  let flag := if negb (Z.shiftr b 5 =? 0) then flag <| will_retain := true |> else flag in
  let b := Z.land b 31 in
  let flag := flag <| will_qos := Z.shiftr b 3 |> in
  let b := Z.land b 7 in
  let flag := if negb (Z.shiftr b 2 =? 0) then flag <| will_flag := true |> else flag in
  let b := Z.land b 3 in
  let flag := if negb (Z.shiftr b 1 =? 0) then flag <| clean_session := true |> else flag in
  if negb (Z.land b 1 =? 0) then flag <| rserved := true |> else flag.

(** ** Remaining length *)

(** The digit loop of [getRemainingLength]: [b] is the four-byte array, so a
    fifth digit is an index out of range.  Go's [%] and [/] truncate toward
    zero. *)
Fixpoint remaining_digits (fuel : nat) (count : Z) (length : Z) : outcome bytes :=
  match fuel with
  | O => Panic "fuel"
  | S fuel =>
      let digit := Z.rem length 128 in
      let length := Z.quot length 128 in
      if 4 <=? count then Panic "index out of range"
      else if 0 <? length then
        match remaining_digits fuel (count + 1) length with
        | Ret ds => Ret (zb (Z.lor digit 128) :: ds)
        | Panic w => Panic w
        end
      else Ret [zb digit]
  end.

(** At most four digits are stored before the index check fails, so five
    iterations decide the outcome. *)
Definition getRemainingLength (length : Z) : outcome bytes := remaining_digits 5 0 length.

(** ** Packet constructors *)

Definition GetConnAckPack (return_code : byte) : Pack :=
  let pack := SetType x02 new_Pack in
  pack <| pvariable := VConnack (SetReturnCode return_code (mkConnack x00 x00)) |>.

Definition GetPubPack (qos dup : byte) (mid : Z) (topic : option bytes) (m : bytes) : Pack :=
  let pack := SetType x03 (SetDup dup (SetQos qos new_Pack)) in
  let pub := Publish_SetMsg m (Publish_SetTopic topic (Publish_SetMid mid (mkPublish None 0 []))) in
  pack <| pvariable := VPublish pub |>.

Definition GetPubAckPack (mid : Z) : Pack :=
  SetType x04 new_Pack <| pvariable := VPuback (mkPuback mid) |>.

Definition GetPubRECPack (mid : Z) : Pack :=
  SetType x05 new_Pack <| pvariable := VPuback (mkPuback mid) |>.

Definition GetPubRELPack (mid : Z) : Pack :=
  SetDup x00 (SetQos x01 (SetType x06 new_Pack)) <| pvariable := VPuback (mkPuback mid) |>.

Definition GetPubCOMPPack (mid : Z) : Pack :=
  SetType x07 new_Pack <| pvariable := VPuback (mkPuback mid) |>.

Definition GetSubAckPack (mid : Z) : Pack :=
  SetType x09 new_Pack <| pvariable := VSuback (mkSuback mid x00) |>.

Definition GetUNSubAckPack (mid : Z) : Pack :=
  SetType x0b new_Pack <| pvariable := VUNSuback (mkUNSuback mid) |>.

Definition GetPingResp (qos dup : byte) : Pack :=
  SetType x0d (SetDup dup (SetQos qos new_Pack)).
