(* ===== verification/MqttRead.v ===== *)
(** * Reading MQTT packets

    [ReadPack], [readString] and [readInt] of [gate/base/mqtt/mqtt.go], over a
    model of the buffered reader they call.  [ReadPack] fills in the packet it
    returns as it goes, so it runs in a monad whose state is the reader and the
    packet under construction: an error leaves the partly filled packet, which
    the Go function returns beside the error. *)
From S2P Require Import Prelude MqttPack.
#[local] Open Scope mq_scope.

(** ** The buffered reader *)

(** [io.EOF], [io.ErrUnexpectedEOF] and any other transport error. *)
Inductive ioerr :=
| EOF
| UnexpectedEOF
| IOOther (why : string).

(** The bytes still to come and the error every read gets after them. *)
Record reader := mkReader { rdata : bytes; rend : ioerr }.

Definition ReadByte (r : reader) : result ioerr byte * reader :=
  match rdata r with
  | [] => (Err (rend r), r)
  | b :: d => (Ok b, mkReader d (rend r))
  end.

(** [io.ReadFull(r, make([]byte, n))]: the buffer (zero where nothing was
    read), the error if fewer than [n] bytes came, and the reader. *)
Definition ReadFull (n : Z) (r : reader) : bytes * option ioerr * reader :=
  if n <=? zlen (rdata r) then
    (take (Z.to_nat n) (rdata r), None, mkReader (drop (Z.to_nat n) (rdata r)) (rend r))
  else
    let e := match rdata r, rend r with
             | _ :: _, EOF => UnexpectedEOF
             | _, e => e
             end in
    (rdata r ++ replicate (Z.to_nat n - length (rdata r)) x00, Some e, mkReader [] (rend r)).

(** [binary.BigEndian.Uint16]. *)
Definition be16 (b : bytes) : Z :=
  match b with
  | h :: l :: _ => Z.lor (Z.shiftl (bz h) 8) (bz l)
  | _ => 0
  end.

(** [readInt(r, 2)]; every call in the file reads two bytes. *)
Definition readInt (r : reader) : result ioerr Z * reader :=
  match ReadFull 2 r with
  | (_, Some e, r') => (Err e, r')
  | (buf, None, r') => (Ok (be16 buf), r')
  end.

(** The named results [s], [nn], [err] of [readString]. *)
Definition readString (r : reader) : bytes * Z * option ioerr * reader :=
  match readInt r with
  | (Err e, r') => ([], 0, Some e, r')
  | (Ok nn, r') =>
      if 0 <? nn then
        match ReadFull nn r' with
        | (buf, None, r'') => (buf, nn, None, r'')
        | (_, Some e, r'') => ([], nn, Some e, r'')
        end
      else ([], nn, None, r')
  end.

(** ** Errors of [ReadPack] *)

Inductive rp_err :=
| RIO (e : ioerr)
| PackOutOfMaxLength (max : Z)
| OutOfRange (v : Z)
| IdentifierRejected (n : Z)
| LengthError (v : Z)
| LengthErrorPublish (v : Z)
| BadPackLength (typ : byte) (len : Z).

(** ** The packet-building monad *)

Definition rstate : Type := reader * Pack.
Definition RM (A : Type) : Type := rstate -> result rp_err A * rstate.

Definition rret {A} (a : A) : RM A := fun s => (Ok a, s).
Definition rfail {A} (e : rp_err) : RM A := fun s => (Err e, s).
Definition rbind {A B} (m : RM A) (k : A -> RM B) : RM B := fun s =>
  match m s with
  | (Ok a, s') => k a s'
  | (Err e, s') => (Err e, s')
  end.

Declare Scope rm_scope.
Delimit Scope rm_scope with rm.
Notation "'let!' x := m 'in' k" := (rbind m (fun x => k))
  (at level 10, x binder, m at level 100, k at level 200) : rm_scope.
Notation "'do!' m 'in' k" := (rbind m (fun _ => k))
  (at level 10, m at level 100, k at level 200) : rm_scope.
#[local] Open Scope rm_scope.

Definition get_pack : RM Pack := fun s => (Ok (snd s), s).
Definition upd_pack (f : Pack -> Pack) : RM unit := fun '(r, p) => (Ok tt, (r, f p)).
Definition set_variable (v : variable) : RM unit := upd_pack (fun p => p <| pvariable := v |>).

(** Lifts a read; its error ends [ReadPack]. *)
Definition rd_byte : RM byte := fun '(r, p) =>
  match ReadByte r with
  | (Ok b, r') => (Ok b, (r', p))
  | (Err e, r') => (Err (RIO e), (r', p))
  end.

Definition rd_int : RM Z := fun '(r, p) =>
  match readInt r with
  | (Ok b, r') => (Ok b, (r', p))
  | (Err e, r') => (Err (RIO e), (r', p))
  end.

(** [x.f, n, err = readString(r)]: the string is stored through [store] before
    the error is looked at. *)
Definition rd_string (store : bytes -> Pack -> Pack) : RM Z := fun '(r, p) =>
  let '(s, nn, err, r') := readString r in
  let p' := store s p in
  match err with
  | None => (Ok nn, (r', p'))
  | Some e => (Err (RIO e), (r', p'))
  end.

(** Update of the packet's payload in place, through the pointer the packet
    holds. *)
Definition on_connect (f : Connect -> Connect) (p : Pack) : Pack :=
  match pvariable p with VConnect c => p <| pvariable := VConnect (f c) |> | _ => p end.
Definition on_publish (f : Publish -> Publish) (p : Pack) : Pack :=
  match pvariable p with VPublish c => p <| pvariable := VPublish (f c) |> | _ => p end.
Definition on_subscribe (f : Subscribe -> Subscribe) (p : Pack) : Pack :=
  match pvariable p with VSubscribe c => p <| pvariable := VSubscribe (f c) |> | _ => p end.
Definition on_unsubscribe (f : UNSubscribe -> UNSubscribe) (p : Pack) : Pack :=
  match pvariable p with VUNSubscribe c => p <| pvariable := VUNSubscribe (f c) |> | _ => p end.
Definition get_connect : RM Connect := fun s =>
  (Ok (match pvariable (snd s) with VConnect c => c | _ => new_Connect end), s).

Definition set_str (f : option bytes -> Connect -> Connect) (s : bytes) (p : Pack) : Pack :=
  on_connect (f (Some s)) p.

(** ** The fixed header *)

Definition parse_fixed (fixed : byte) : Pack :=
  let f := bz fixed in
  let p := new_Pack <| msg_type := zb (Z.shiftr f 4) |> in
  let f := Z.land f 15 in
  let p := p <| dup_flag := zb (Z.shiftr f 3) |> in
  let f := Z.land f 7 in
  let p := p <| qos_level := zb (Z.shiftr f 1) |> in
  p <| retain := zb (Z.land f 1) |>.

(** The remaining-length loop: [count_len < 4] bounds it to three bytes. *)
Fixpoint read_remaining (fuel : nat) (temp_byte : byte) (count_len multiplier : Z) : RM unit :=
  match fuel with
  | O => rret tt
  | S fuel =>
      let count_len := count_len + 1 in
      do! upd_pack (fun p => p <| pack_length :=
                    pack_length p + Z.land (bz temp_byte) 127 * multiplier |>) in
      if negb (Z.shiftr (bz temp_byte) 7 =? 0) && (count_len <? 4) then
        let! temp_byte := rd_byte in
        read_remaining fuel temp_byte count_len (multiplier * 128)
      else rret tt
  end.

(** ** The packet bodies, one per case of the type switch *)

(** The will topic and message, which only the will flag announces. *)
Definition read_will (conn : Connect) (playload_len : Z) : RM Z :=
  if will_flag conn then
    let! n := rd_string (set_str (fun s c => c <| will_topic := s |>)) in
    let playload_len := playload_len - n in
    if playload_len <? 0 then rfail (LengthError playload_len) else
    let! n := rd_string (set_str (fun s c => c <| will_msg := s |>)) in
    rret (playload_len - n)
  else rret playload_len.

Definition read_uname (conn : Connect) (playload_len : Z) : RM Z :=
  if user_name conn && (0 <? playload_len) then
    let! n := rd_string (set_str (fun s c => c <| uname := s |>)) in
    let playload_len := playload_len - n in
    if playload_len <? 0 then rfail (LengthError playload_len) else rret playload_len
  else rret playload_len.

Definition read_upassword (conn : Connect) (playload_len : Z) : RM unit :=
  if password conn && (0 <? playload_len) then
    let! n := rd_string (set_str (fun s c => c <| upassword := s |>)) in
    let playload_len := playload_len - n in
    if playload_len <? 0 then rfail (LengthError playload_len) else rret tt
  else rret tt.

Definition read_connect (length : Z) : RM unit :=
  do! set_variable (VConnect new_Connect) in
  let! n := rd_string (set_str (fun s c => c <| protocol := s |>)) in
  if length - 4 <? n then rfail (OutOfRange (length - n)) else
  let! v := rd_byte in
  do! upd_pack (on_connect (fun c => c <| version := v |>)) in
  let! flags := rd_byte in
  let! k := rd_int in
  do! upd_pack (on_connect (fun c => c <| keep_alive_timer := k |>)) in
  do! upd_pack (on_connect (parse_flags flags)) in
  let playload_len := length - 2 - n - 4 in
  let! n := rd_string (set_str (fun s c => c <| id := s |>)) in
  if (64 <? n) || (n <? 1) then
    do! upd_pack (on_connect (fun c => c <| conn_return_code := x02 |>)) in
    rfail (IdentifierRejected n)
  else
  let playload_len := playload_len - n in
  let! conn := get_connect in
  if (n <? 1) && (will_flag conn || password conn || (n <? 0)) then
    rfail (LengthError playload_len)
  else
  let! playload_len := read_will conn playload_len in
  let! playload_len := read_uname conn playload_len in
  read_upassword conn playload_len.

Definition read_publish (length : Z) : RM unit :=
  do! set_variable (VPublish (mkPublish None 0 [])) in
  let! n := rd_string (fun s => on_publish (fun c => c <| topic_name := Some s |>)) in
  let vlen := length - n - 2 in
  if n <? 1 then rfail (LengthError vlen) else
  let! pack := get_pack in
  let! vlen :=
    (if 0 <? bz (GetQos pack) then
       if vlen <? 2 then rfail (LengthErrorPublish vlen) else
       let! m := rd_int in
       do! upd_pack (on_publish (fun c => c <| pub_mid := m |>)) in
       rret (vlen - 2)
     else rret vlen) in
  if vlen <=? 0 then rret tt else
  fun '(r, p) =>
    let '(buf, err, r') := ReadFull vlen r in
    let p' := on_publish (fun c => c <| msg := buf |>) p in
    match err with
    | None => (Ok tt, (r', p'))
    | Some e => (Err (RIO e), (r', p'))
    end.

(** PUBACK, PUBREL, PUBREC and PUBCOMP have the same body. *)
Definition read_ack (length : Z) : RM unit :=
  let! pack := get_pack in
  if length =? 2 then
    let! m := rd_int in
    set_variable (VPuback (mkPuback m))
  else rfail (BadPackLength (msg_type pack) length).

Definition read_suback (length : Z) : RM unit :=
  let! pack := get_pack in
  if length =? 3 then
    let! m := rd_int in
    let! q := rd_byte in
    set_variable (VSuback (mkSuback m q))
  else rfail (BadPackLength (msg_type pack) length).

Definition read_unsuback (length : Z) : RM unit :=
  let! pack := get_pack in
  if length =? 2 then
    let! m := rd_int in
    set_variable (VUNSuback (mkUNSuback m))
  else rfail (BadPackLength (msg_type pack) length).

(** The topic loop of SUBSCRIBE.  The [err] of the loop body is a fresh
    variable, so a failed read only leaves the loop. *)
Fixpoint sub_loop (fuel : nat) (vlen : Z) : RM unit :=
  match fuel with
  | O => rret tt
  | S fuel =>
      if 3 <? vlen then fun '(r, p) =>
        match readInt r with
        | (Err _, r) => (Ok tt, (r, p))
        | (Ok nlen, r) =>
            let '(buf, _, r) := ReadFull nlen r in
            match ReadByte r with
            | (Err _, r) => (Ok tt, (r, p))
            | (Ok tQos, r) =>
                sub_loop fuel (vlen - 2 - nlen - 1)
                  (r, on_subscribe (Subscribe_addTopics (mkTopics (Some buf) tQos)) p)
            end
        end
      else rret tt
  end.

Definition read_subscribe (length : Z) : RM unit :=
  do! set_variable (VSubscribe (mkSubscribe 0 [])) in
  let! m := rd_int in
  do! upd_pack (on_subscribe (fun s => s <| sub_mid := m |>)) in
  sub_loop (Z.to_nat length) length.

(** The topic loop of UNSUBSCRIBE ignores the error of [io.ReadFull] too: a
    short read appends the zero-padded buffer. *)
Fixpoint unsub_loop (fuel : nat) (vlen : Z) : RM unit :=
  match fuel with
  | O => rret tt
  | S fuel =>
      if 3 <? vlen then fun '(r, p) =>
        match readInt r with
        | (Err _, r) => (Ok tt, (r, p))
        | (Ok nlen, r) =>
            let '(buf, _, r) := ReadFull nlen r in
            unsub_loop fuel (vlen - 2 - nlen)
              (r, on_unsubscribe (UNSubscribe_addTopics (mkTopics (Some buf) x00)) p)
        end
      else rret tt
  end.

Definition read_unsubscribe (length : Z) : RM unit :=
  do! set_variable (VUNSubscribe (mkUNSubscribe 0 [])) in
  let! m := rd_int in
  do! upd_pack (on_unsubscribe (fun s => s <| unsub_mid := m |>)) in
  unsub_loop (Z.to_nat length) length.

(** The default case drains a packet of unknown type. *)
Definition read_unknown (length : Z) : RM unit :=
  if 0 <? length then fun '(r, p) =>
    match ReadFull length r with
    | (_, None, r') => (Ok tt, (r', p))
    | (_, Some e, r') => (Err (RIO e), (r', p))
    end
  else rret tt.

(** ** [ReadPack] *)

Definition read_body : RM unit :=
  let! pack := get_pack in
  let t := bz (msg_type pack) in
  let length := pack_length pack in
  if t =? CONNECT then read_connect length
  else if t =? PUBLISH then read_publish length
  else if t =? PUBACK then read_ack length
  else if t =? PUBREL then read_ack length
  else if t =? PUBREC then read_ack length
  else if t =? PUBCOMP then read_ack length
  else if t =? SUBSCRIBE then read_subscribe length
  else if t =? SUBACK then read_suback length
  else if t =? UNSUBSCRIBE then read_unsubscribe length
  else if t =? UNSUBACK then read_unsuback length
  else if t =? PINGREQ then rret tt
  else if t =? DISCONNECT then rret tt
  else read_unknown length.

Definition read_rest (max_pack_length : Z) : RM unit :=
  let! temp_byte := rd_byte in
  do! read_remaining 3 temp_byte 1 1 in
  let! pack := get_pack in
  if max_pack_length <? pack_length pack then rfail (PackOutOfMaxLength max_pack_length)
  else read_body.

(** The returned packet is [nil] only when the first byte cannot be read. *)
Definition ReadPack (r : reader) (max_pack_length : Z) : option Pack * option rp_err * reader :=
  match ReadByte r with
  | (Err e, r') => (None, Some (RIO e), r')
  | (Ok fixed, r') =>
      match read_rest max_pack_length (r', parse_fixed fixed) with
      | (Ok _, (r'', p)) => (Some p, None, r'')
      | (Err e, (r'', p)) => (Some p, Some e, r'')
      end
  end.
