(* ===== verification/MqttWrite.v ===== *)
(** * Writing MQTT packets

    [DelayWritePack], [WritePack] and their helpers of
    [gate/base/mqtt/mqtt.go], over the interface [BufWriter] of the buffered
    writer they call.  [BufWriterLaws] states what a writer promises: a call
    that reports no error has appended its argument, one that fails has
    appended a prefix of it. *)
From S2P Require Import Prelude MqttPack MqttRead.
#[local] Open Scope mq_scope.

(** ** The writer interface *)

(** [w_Write] is [None] when the call does not return. *)
Class BufWriter (W : Type) := {
  w_WriteByte : byte -> W -> W * option ioerr;
  w_Write : bytes -> W -> option (W * Z * option ioerr);
  w_Flush : W -> W * option ioerr }.

Class BufWriterLaws (W : Type) `{BufWriter W} := {
  (** every byte the writer has accepted, flushed or not *)
  w_content : W -> bytes;
  w_WriteByte_ok : forall b w w', w_WriteByte b w = (w', None) ->
    w_content w' = w_content w ++ [b];
  w_WriteByte_err : forall b w w' e, w_WriteByte b w = (w', Some e) ->
    w_content w' = w_content w;
  w_Write_ok : forall bs w w' n, w_Write bs w = Some (w', n, None) ->
    n = zlen bs /\ w_content w' = w_content w ++ bs;
  w_Write_err : forall bs w w' n e, w_Write bs w = Some (w', n, Some e) ->
    exists pre, pre `prefix_of` bs /\ w_content w' = w_content w ++ pre }.

Inductive werr :=
| WIO (e : ioerr)
| NilPointer.

(** A write call returns (with its error), panics, or does not return. *)
Inductive wout (W : Type) :=
| WDone (w : W) (err : option werr)
| WPanic (w : W) (why : string)
| WStuck.
Arguments WDone {W} w err.
Arguments WPanic {W} w why.
Arguments WStuck {W}.

Section Write.
Context {W : Type} `{BufWriter W}.

Definition WM : Type := W -> wout W.

(** [if err = m; err != nil { return }; k]. *)
Definition wseq (m k : WM) : WM := fun w =>
  match m w with
  | WDone w' None => k w'
  | o => o
  end.

Definition wret : WM := fun w => WDone w None.
Definition wpanic (why : string) : WM := fun w => WPanic w why.

Definition writeByte (b : byte) : WM := fun w =>
  let '(w', e) := w_WriteByte b w in WDone w' (WIO <$> e).

(** [writeFull]: the condition tests the size of the last write. *)
Fixpoint writeFull_loop (fuel : nat) (hasRead n : Z) (b : bytes) : WM := fun w =>
  if n <? zlen b then
    match fuel with
    | O => WStuck
    | S fuel =>
        if zlen b <? hasRead then WPanic w "slice bounds out of range" else
        match w_Write (drop (Z.to_nat hasRead) b) w with
        | None => WStuck
        | Some (w', _, Some e) => WDone w' (Some (WIO e))
        | Some (w', n, None) => writeFull_loop fuel (hasRead + n) n b w'
        end
    end
  else WDone w None.

Definition writeFull (b : bytes) : WM := writeFull_loop (S (length b)) 0 0 b.

(** [binary.BigEndian.PutUint16]. *)
Definition put16 (i : Z) : bytes := [zb (Z.shiftr (u16 i) 8); zb (u16 i)].

Definition writeInt (i : Z) : WM := writeFull (put16 i).

Definition writeString (s : option bytes) : WM :=
  match s with
  | None => fun w => WDone w (Some NilPointer)
  | Some data => wseq (writeInt (zlen data)) (writeFull data)
  end.

(** Uses of the remaining length: the whole encoding, or its first byte. *)
Definition write_length (n : Z) : WM :=
  match getRemainingLength n with
  | Ret ds => writeFull ds
  | Panic why => wpanic why
  end.

Definition write_length0 (n : Z) : WM :=
  match getRemainingLength n with
  | Ret (d :: _) => writeByte d
  | Ret [] => wpanic "index out of range"
  | Panic why => wpanic why
  end.

Definition fixed_byte (pack : Pack) : byte :=
  let shl x n := bz (zb (Z.shiftl (bz x) n)) in
  zb (Z.lor (Z.lor (shl (msg_type pack) 4) (shl (dup_flag pack) 3)) (shl (qos_level pack) 1)).

(** ** The packet bodies, one per case of the type switch *)

Definition type_assertion : WM := wpanic "interface conversion".
Definition nil_deref : WM := wpanic "nil pointer dereference".

Definition write_connack (pack : Pack) : WM :=
  match pvariable pack with
  | VConnack ack =>
      wseq (write_length0 2) (writeFull [reserved ack; connack_return_code ack])
  | _ => type_assertion
  end.

Definition write_publish (pack : Pack) : WM :=
  match pvariable pack with
  | VPublish pub =>
      match topic_name pub with
      | None => nil_deref
      | Some t =>
          let q := 0 <? bz (GetQos pack) in
          wseq (write_length ((if q then 4 else 2) + zlen t + zlen (msg pub)))
          (wseq (writeString (topic_name pub))
          (wseq (if q then writeInt (pub_mid pub) else wret)
                (writeFull (msg pub))))
      end
  | _ => type_assertion
  end.

Definition write_ack (pack : Pack) : WM :=
  match pvariable pack with
  | VPuback ack => wseq (write_length0 2) (writeInt (puback_mid ack))
  | _ => type_assertion
  end.

(** [tnum], the sum over the topics of a subscription; [extra] is the QoS
    byte. *)
Fixpoint topics_size (extra : Z) (tops : list Topics) : outcome Z :=
  match tops with
  | [] => Ret 0
  | top :: tops =>
      match top_name top, topics_size extra tops with
      | Some name, Ret n => Ret (2 + zlen name + extra + n)
      | None, _ => Panic "nil pointer dereference"
      | _, p => p
      end
  end.

Fixpoint write_topics (qos : bool) (tops : list Topics) : WM :=
  match tops with
  | [] => wret
  | top :: tops =>
      match top_name top with
      | None => nil_deref
      | Some buf =>
          wseq (writeInt (zlen buf))
          (wseq (writeFull buf)
          (wseq (if qos then writeByte (top_Qos top) else wret)
                (write_topics qos tops)))
      end
  end.

Definition write_subscribe (pack : Pack) : WM :=
  match pvariable pack with
  | VSubscribe sub =>
      match topics_size 1 (sub_topics sub) with
      | Panic why => wpanic why
      | Ret tnum =>
          wseq (write_length0 tnum)
          (wseq (writeInt (sub_mid sub)) (write_topics true (sub_topics sub)))
      end
  | _ => type_assertion
  end.

Definition write_suback (pack : Pack) : WM :=
  match pvariable pack with
  | VSuback ack =>
      wseq (write_length0 3) (wseq (writeInt (suback_mid ack)) (writeByte (suback_Qos ack)))
  | _ => type_assertion
  end.

Definition write_unsubscribe (pack : Pack) : WM :=
  match pvariable pack with
  | VUNSubscribe sub =>
      match topics_size 0 (unsub_topics sub) with
      | Panic why => wpanic why
      | Ret tnum =>
          wseq (write_length0 tnum)
          (wseq (writeInt (unsub_mid sub)) (write_topics false (unsub_topics sub)))
      end
  | _ => type_assertion
  end.

Definition write_unsuback (pack : Pack) : WM :=
  match pvariable pack with
  | VUNSuback ack => wseq (write_length0 2) (writeInt (unsuback_mid ack))
  | _ => type_assertion
  end.

Definition write_body (pack : Pack) : WM :=
  let t := bz (msg_type pack) in
  if t =? CONNACK then write_connack pack
  else if t =? PUBLISH then write_publish pack
  else if t =? PUBACK then write_ack pack
  else if t =? PUBREC then write_ack pack
  else if t =? PUBREL then write_ack pack
  else if t =? PUBCOMP then write_ack pack
  else if t =? SUBSCRIBE then write_subscribe pack
  else if t =? SUBACK then write_suback pack
  else if t =? UNSUBSCRIBE then write_unsubscribe pack
  else if t =? UNSUBACK then write_unsuback pack
  else if t =? PINGRESP then writeByte x00
  else wret.

Definition DelayWritePack (pack : Pack) : WM :=
  wseq (writeByte (fixed_byte pack)) (write_body pack).

Definition WritePack (pack : Pack) : WM :=
  wseq (DelayWritePack pack) (fun w => let '(w', e) := w_Flush w in WDone w' (WIO <$> e)).

End Write.

(** ** An in-memory writer *)

Definition mem_writer : Type := bytes.

#[export] Instance mem_BufWriter : BufWriter mem_writer := {
  w_WriteByte b w := (w ++ [b], None);
  w_Write bs w := Some (w ++ bs, zlen bs, None);
  w_Flush w := (w, None) }.

#[export] Instance mem_BufWriterLaws : BufWriterLaws mem_writer.
Proof.
  refine {| w_content := fun w : mem_writer => (w : bytes) |}; simpl; intros;
    simplify_eq; eauto.
Defined.
