(* ===== verification/MqttCodec.v ===== *)
(** * The MQTT codec: what a frame is, and what reading and writing do to it

    [frame] is the reference encoding of a packet as a byte string.
    [DelayWritePack] is shown to append exactly this string, whatever lawful
    writer it runs on; [ReadPack] is shown to invert it. *)
From S2P Require Import Prelude MqttPack MqttRead MqttWrite.
#[local] Open Scope mq_scope.

(** ** The reference encoding *)

Definition oapp (a b : option bytes) : option bytes :=
  match a, b with Some x, Some y => Some (x ++ y) | _, _ => None end.

Definition rl (n : Z) : option bytes :=
  match getRemainingLength n with Ret ds => Some ds | Panic _ => None end.

Definition rl0 (n : Z) : option bytes :=
  match getRemainingLength n with Ret (d :: _) => Some [d] | _ => None end.

Fixpoint topics_frame (qos : bool) (tops : list Topics) : option bytes :=
  match tops with
  | [] => Some []
  | top :: tops =>
      match top_name top with
      | None => None
      | Some name =>
          oapp (Some (put16 (zlen name) ++ name ++ (if qos then [top_Qos top] else [])))
               (topics_frame qos tops)
      end
  end.

Definition topics_len (extra : Z) (tops : list Topics) : option Z :=
  match topics_size extra tops with Ret n => Some n | Panic _ => None end.

Definition body_frame (p : Pack) : option bytes :=
  let t := bz (msg_type p) in
  match pvariable p with
  | VConnack a =>
      if t =? CONNACK then oapp (rl0 2) (Some [reserved a; connack_return_code a])
      else if t =? PINGRESP then Some [x00] else None
  | VPublish a =>
      if t =? PUBLISH then
        match topic_name a with
        | None => None
        | Some tn =>
            let q := 0 <? bz (GetQos p) in
            oapp (rl ((if q then 4 else 2) + zlen tn + zlen (msg a)))
              (Some (put16 (zlen tn) ++ tn ++ (if q then put16 (pub_mid a) else []) ++ msg a))
        end
      else if t =? PINGRESP then Some [x00] else None
  | VPuback a =>
      if (t =? PUBACK) || (t =? PUBREC) || (t =? PUBREL) || (t =? PUBCOMP)
      then oapp (rl0 2) (Some (put16 (puback_mid a)))
      else if t =? PINGRESP then Some [x00] else None
  | VSubscribe a =>
      if t =? SUBSCRIBE then
        match topics_len 1 (sub_topics a) with
        | Some n => oapp (rl0 n) (oapp (Some (put16 (sub_mid a))) (topics_frame true (sub_topics a)))
        | None => None
        end
      else if t =? PINGRESP then Some [x00] else None
  | VSuback a =>
      if t =? SUBACK then oapp (rl0 3) (Some (put16 (suback_mid a) ++ [suback_Qos a]))
      else if t =? PINGRESP then Some [x00] else None
  | VUNSubscribe a =>
      if t =? UNSUBSCRIBE then
        match topics_len 0 (unsub_topics a) with
        | Some n => oapp (rl0 n) (oapp (Some (put16 (unsub_mid a))) (topics_frame false (unsub_topics a)))
        | None => None
        end
      else if t =? PINGRESP then Some [x00] else None
  | VUNSuback a =>
      if t =? UNSUBACK then oapp (rl0 2) (Some (put16 (unsuback_mid a)))
      else if t =? PINGRESP then Some [x00] else None
  | VNil | VConnect _ => if t =? PINGRESP then Some [x00] else None
  end.

(** Types the encoder has a case for. *)
Definition encodable_type (t : Z) : bool := (2 <=? t) && (t <=? 11) || (t =? 13).

(** The whole frame of a packet; [None] where the encoder panics or reports a
    nil pointer. *)
Definition frame (p : Pack) : option bytes :=
  if encodable_type (bz (msg_type p)) then oapp (Some [fixed_byte p]) (body_frame p)
  else Some [fixed_byte p].

#[global] Arguments oapp : simpl never.
#[global] Arguments rl : simpl never.
#[global] Arguments rl0 : simpl never.
#[global] Arguments put16 : simpl never.
#[global] Arguments write_length0 : simpl never.
#[global] Arguments getRemainingLength : simpl never.

(** ** Writing appends the frame *)

Section Appends.
Context {W : Type} `{BufWriterLaws W}.

(** [m] either appends [o], or fails in the writer after appending a prefix of
    it, or panics or reports a nil pointer on an argument that has no encoding. *)
Definition appends (m : WM) (o : option bytes) : Prop := forall w : W,
  match m w with
  | WDone w' None => exists bs, o = Some bs /\ w_content w' = w_content w ++ bs
  | WDone w' (Some (WIO _)) =>
      exists pre, w_content w' = w_content w ++ pre /\ forall bs, o = Some bs -> pre `prefix_of` bs
  | WDone _ (Some NilPointer) => o = None
  | WPanic _ _ => o = None
  | WStuck => True
  end.

Lemma appends_ret : appends wret (Some []).
Proof. intros w. exists []. by rewrite app_nil_r. Qed.

Lemma appends_panic why : appends (wpanic why) None.
Proof. done. Qed.

Lemma appends_byte b : appends (writeByte b) (Some [b]).
Proof.
  intros w. unfold writeByte. destruct (w_WriteByte b w) as [w' [e|]] eqn:E; simpl.
  - exists []. rewrite (w_WriteByte_err _ _ _ _ E), app_nil_r. eauto using prefix_nil.
  - eauto using w_WriteByte_ok.
Qed.

Lemma appends_full b : appends (writeFull b) (Some b).
Proof.
  intros w. unfold writeFull. simpl. destruct (Z.ltb_spec 0 (zlen b)) as [Hb|Hb].
  - replace (zlen b <? 0) with false by (symmetry; apply Z.ltb_ge; len_lia).
    rewrite drop_0. destruct (w_Write b w) as [[[w' n] [e|]]|] eqn:E; [..|done].
    + destruct (w_Write_err _ _ _ _ _ E) as (pre & Hp & Hc). exists pre.
      split; [done|]. intros ? [= <-]. done.
    + destruct (w_Write_ok _ _ _ _ E) as [-> Hc].
      destruct (length b); simpl; rewrite Z.ltb_irrefl; eauto.
  - assert (b = []) as -> by (destruct b; [done | rewrite zlen_cons in Hb; len_lia]).
    exists []. by rewrite app_nil_r.
Qed.

Lemma appends_seq m k a o :
  appends m (Some a) -> appends k o -> appends (wseq m k) (oapp (Some a) o).
Proof.
  intros Hm Hk w. unfold wseq. specialize (Hm w).
  destruct (m w) as [w' [[e|]|]|w' why|]; [|discriminate Hm| |discriminate Hm|done].
  - destruct Hm as (pre & Hc & Hp). exists pre. split; [done|].
    intros bs. destruct o; simpl; intros [= <-].
    by apply prefix_app_r, Hp.
  - destruct Hm as (bs & [= <-] & Hc). specialize (Hk w').
    destruct (k w') as [w'' [[e|]|]|w'' why|]; [|by rewrite Hk| |by rewrite Hk|done].
    + destruct Hk as (pre & Hc' & Hp). exists (a ++ pre).
      rewrite Hc', Hc, app_assoc. split; [done|].
      intros bs. destruct o as [c|]; simpl; intros [= <-].
      apply prefix_app. by apply Hp.
    + destruct Hk as (bs & -> & Hc'). exists (a ++ bs). by rewrite Hc', Hc, app_assoc.
Qed.

(** The same, for a first part that may itself have no encoding. *)
Lemma appends_seq' m k o o' :
  appends m o -> (forall a, o = Some a -> appends k o') -> appends (wseq m k) (oapp o o').
Proof.
  intros Hm Hk. destruct o as [a|]; [eapply appends_seq; eauto|].
  intros w. unfold wseq. specialize (Hm w).
  destruct (m w) as [w' [[e|]|]|w' why|]; simpl; [|done| |done..].
  - destruct Hm as (pre & Hc & _). exists pre. done.
  - by destruct Hm as (bs & ? & _).
Qed.

Lemma appends_int i : appends (writeInt i) (Some (put16 i)).
Proof. apply appends_full. Qed.

Lemma appends_string s :
  appends (writeString s) (match s with Some d => Some (put16 (zlen d) ++ d) | None => None end).
Proof.
  destruct s as [d|].
  - apply (appends_seq _ _ _ (Some d)); [apply appends_int | apply appends_full].
  - done.
Qed.

Lemma appends_length n : appends (write_length n) (rl n).
Proof.
  unfold write_length, rl. destruct (getRemainingLength n); [apply appends_full | done].
Qed.

Lemma appends_length0 n : appends (write_length0 n) (rl0 n).
Proof.
  unfold write_length0, rl0. destruct (getRemainingLength n) as [[|d ds]|];
    [done | apply appends_byte | done].
Qed.

End Appends.

#[export] Hint Resolve appends_ret appends_panic appends_byte appends_full appends_int
  appends_length appends_length0 : mq.

(** [oapp] is associative with unit [Some []]. *)
Lemma oapp_assoc a b c : oapp a (oapp b c) = oapp (oapp a b) c.
Proof. destruct a, b, c; unfold oapp; try done. by rewrite app_assoc. Qed.

Lemma oapp_nil_l a : oapp (Some []) a = a.
Proof. by destruct a. Qed.

Section DelayWrite.
Context {W : Type} `{BufWriterLaws W}.

Lemma appends_topics (qos : bool) tops :
  appends (write_topics qos tops) (topics_frame qos tops).
Proof.
  induction tops as [|[[name|] q] tops IH];
    cbn [write_topics topics_frame top_name top_Qos]; [eauto with mq| |done].
  replace (Some (put16 (zlen name) ++ name ++ (if qos then [q] else [])))
    with (oapp (Some (put16 (zlen name))) (oapp (Some name) (Some (if qos then [q] else []))))
    by done.
  rewrite <- !oapp_assoc.
  do 2 (apply appends_seq; [eauto with mq|]).
  apply appends_seq; [destruct qos; eauto with mq | done].
Qed.

(** The body of every type of packet is the reference body. *)
Lemma appends_body p : encodable_type (bz (msg_type p)) = true ->
  appends (write_body p) (body_frame p).
Proof.
  intros Ht. unfold write_body, body_frame, write_connack, write_publish, write_ack,
    write_subscribe, write_suback, write_unsubscribe, write_unsuback, topics_len,
    CONNACK, PUBLISH, PUBACK, PUBREC, PUBREL, PUBCOMP, SUBSCRIBE, SUBACK, UNSUBSCRIBE,
    UNSUBACK, PINGRESP in *.
  unfold encodable_type in Ht.
  assert (Hcases : exists k, bz (msg_type p) = k /\ In k [2; 3; 4; 5; 6; 7; 8; 9; 10; 11; 13]).
  { eexists; split; [reflexivity|]. simpl. lia. }
  destruct Hcases as (k & -> & Hk).
  assert (Hpub : forall t a, appends
    (wseq (write_length ((if 0 <? bz (GetQos p) then 4 else 2) + zlen t + zlen (msg a)))
      (wseq (writeString (Some t))
        (wseq (if 0 <? bz (GetQos p) then writeInt (pub_mid a) else wret) (writeFull (msg a)))))
    (oapp (rl ((if 0 <? bz (GetQos p) then 4 else 2) + zlen t + zlen (msg a)))
       (Some (put16 (zlen t) ++ t ++ (if 0 <? bz (GetQos p) then put16 (pub_mid a) else []) ++ msg a)))).
  { intros t a. apply appends_seq'; [eauto with mq|]. intros _ _.
    eapply (appends_seq _ _ (put16 (zlen t) ++ t)
      (oapp (Some (if 0 <? bz (GetQos p) then put16 (pub_mid a) else [])) (Some (msg a)))).
    - apply (appends_string (Some t)).
    - apply appends_seq; [|eauto with mq]. destruct (0 <? _); eauto with mq. }
  destruct (pvariable p) as [|c|a|a|a|a|a|a|a]; simpl in Hk;
    repeat (destruct Hk as [<-|Hk]; [simpl; try done; eauto with mq|]); try done.
  all: lazymatch goal with
       | |- context [topic_name ?a] => destruct (topic_name a); [apply Hpub | done]
       | |- context [topics_frame _ ?l] =>
           destruct (topics_size _ l); [|done]; apply appends_seq'; [eauto with mq|];
           intros _ _; apply appends_seq; [eauto with mq | apply appends_topics]
       | |- context [suback_Qos ?a] =>
           apply appends_seq'; [eauto with mq|]; intros _ _;
           apply (appends_seq _ _ (put16 (suback_mid a)) (Some [suback_Qos a])); eauto with mq
       | _ => apply appends_seq'; [eauto with mq | intros _ _; eauto with mq]
       end.
Qed.

Lemma write_body_other p : encodable_type (bz (msg_type p)) = false -> write_body p = wret (W := W).
Proof.
  intros Ht. unfold encodable_type in Ht. unfold write_body, CONNACK, PUBLISH, PUBACK, PUBREC,
    PUBREL, PUBCOMP, SUBSCRIBE, SUBACK, UNSUBSCRIBE, UNSUBACK, PINGRESP.
  repeat match goal with
         | |- context [?a =? ?b] => replace (a =? b) with false by (symmetry; lia)
         end.
  done.
Qed.

Lemma appends_pack p : appends (DelayWritePack p) (frame p).
Proof.
  unfold DelayWritePack, frame. destruct (encodable_type _) eqn:E.
  - apply appends_seq; [eauto with mq | by apply appends_body].
  - rewrite write_body_other by done.
    apply (appends_seq _ _ [fixed_byte p] (Some [])); eauto with mq.
Qed.

End DelayWrite.

(** ** Writers that keep an invariant

    A writer that keeps [I] as long as it reports no error, always returns, and
    fails only with errors in [E], does so through the whole of
    [DelayWritePack]. *)

Section Safe.
Context {W : Type} `{BufWriter W} (I : W -> Prop) (E : ioerr -> Prop).
Hypothesis I_WriteByte : forall b w, I w ->
  match w_WriteByte b w with (w', None) => I w' | (_, Some e) => E e end.
Hypothesis I_Write : forall bs w, I w ->
  match w_Write bs w with
  | Some (w', n, None) => n = zlen bs /\ I w'
  | Some (_, _, Some e) => E e
  | None => False
  end.

Definition safe (m : WM (W := W)) : Prop := forall w, I w ->
  match m w with
  | WDone w' None => I w'
  | WDone _ (Some (WIO e)) => E e
  | WStuck => False
  | _ => True
  end.

Lemma safe_seq m k : safe m -> safe k -> safe (wseq m k).
Proof.
  intros Hm Hk w Hw. unfold wseq. specialize (Hm w Hw).
  destruct (m w) as [w' [e|]|w' why|]; [done| |done..]. by apply Hk.
Qed.

Lemma safe_ret : safe wret.
Proof. by intros w Hw. Qed.
Lemma safe_panic why : safe (wpanic why).
Proof. by intros w Hw. Qed.
Lemma safe_byte b : safe (writeByte b).
Proof.
  intros w Hw. unfold writeByte. specialize (I_WriteByte b w Hw).
  by destruct (w_WriteByte b w) as [w' [e|]].
Qed.
Lemma safe_full b : safe (writeFull b).
Proof.
  intros w Hw. unfold writeFull. cbn [writeFull_loop].
  destruct (Z.ltb_spec 0 (zlen b)); [|done].
  rewrite (proj2 (Z.ltb_ge (zlen b) 0)) by len_lia. rewrite drop_0.
  specialize (I_Write b w Hw). destruct (w_Write b w) as [[[w' n] [e|]]|]; [done| |done].
  destruct I_Write as [-> Hw']. destruct (length b); cbn [writeFull_loop]; rewrite Z.ltb_irrefl; done.
Qed.
Lemma safe_length n : safe (write_length n).
Proof. unfold write_length. destruct (getRemainingLength n); [apply safe_full | apply safe_panic]. Qed.
Lemma safe_length0 n : safe (write_length0 n).
Proof.
  unfold write_length0. destruct (getRemainingLength n) as [[|]|];
    auto using safe_panic, safe_byte.
Qed.
Lemma safe_string s : safe (writeString s).
Proof. destruct s; [|by intros w Hw]. apply safe_seq; apply safe_full. Qed.

#[local] Hint Resolve safe_seq safe_ret safe_panic safe_byte safe_full safe_length
  safe_length0 safe_string : mq.

Lemma safe_topics qos tops : safe (write_topics qos tops).
Proof.
  induction tops as [|[[name|] q] tops IH]; cbn [write_topics top_name]; [|unfold nil_deref..];
    auto with mq.
  unfold writeInt. destruct qos; auto with mq.
Qed.
#[local] Hint Resolve safe_topics : mq.

Lemma safe_body p : safe (write_body p).
Proof.
  unfold write_body, write_connack, write_publish, write_ack, write_subscribe,
    write_suback, write_unsubscribe, write_unsuback, type_assertion, nil_deref, writeInt.
  repeat match goal with
         | |- safe (if ?b then _ else _) => destruct b
         | |- safe (match ?x with _ => _ end) => destruct x
         end; auto 10 with mq.
  all: apply safe_seq; [auto with mq|]; destruct (0 <? bz (GetQos p)); auto 10 with mq.
Qed.

Lemma safe_pack p : safe (DelayWritePack p).
Proof. apply safe_seq; [apply safe_byte | apply safe_body]. Qed.

End Safe.

(** ** The in-memory writer never fails *)

Section MemTotal.
Lemma mem_safe p : safe (W := mem_writer) (fun _ => True) (fun _ => False) (DelayWritePack p).
Proof. by apply safe_pack. Qed.

(** On the in-memory writer, writing is total: it appends the frame or there is
    no frame. *)
Lemma mem_pack p bs (w : mem_writer) : frame p = Some bs -> DelayWritePack p w = WDone (w ++ bs) None.
Proof.
  intros Hf. pose proof (appends_pack p w) as Ha. pose proof (mem_safe p w I) as Hn.
  rewrite Hf in Ha. destruct (DelayWritePack p w) as [w' [[e|]|]|w' why|]; try done.
  destruct Ha as (bs' & [= <-] & Hc). cbn [w_content mem_BufWriterLaws] in Hc. by subst w'.
Qed.
End MemTotal.

(** ** Reading back: primitive reads *)

Lemma ReadByte_cons b d e : ReadByte (mkReader (b :: d) e) = (Ok b, mkReader d e).
Proof. done. Qed.

Lemma ReadFull_app n bs rest e : n = zlen bs ->
  ReadFull n (mkReader (bs ++ rest) e) = (bs, None, mkReader rest e).
Proof.
  intros ->. unfold ReadFull. cbn [rdata rend].
  replace (zlen bs <=? zlen (bs ++ rest)) with true by (symmetry; apply Z.leb_le; len_lia).
  unfold zlen. rewrite Nat2Z.id, take_app_length, drop_app_length. done.
Qed.

Lemma be16_put16 i : be16 (put16 i) = u16 i.
Proof.
  unfold be16, put16. rewrite !bz_zb. pose proof (u16_range i) as Hr.
  rewrite (Z.mod_small (Z.shiftr (u16 i) 8)).
  2:{ rewrite Z.shiftr_div_pow2 by lia. change (2 ^ 8) with 256.
      split; [apply Z.div_pos; lia | apply Z.div_lt_upper_bound; lia]. }
  change 256 with (2 ^ 8). rewrite <- Z.land_ones by lia.
  apply Z.bits_inj'. intros k Hk.
  rewrite Z.lor_spec, Z.land_spec, Z.testbit_ones_nonneg by lia.
  destruct (Z.ltb_spec k 8).
  - rewrite Z.shiftl_spec_low by lia. by rewrite andb_true_r.
  - rewrite Z.shiftl_spec_high, Z.shiftr_spec by lia.
    replace (k - 8 + 8) with k by lia. rewrite andb_false_r. by rewrite orb_false_r.
Qed.

Lemma zlen_put16 i : zlen (put16 i) = 2.
Proof. done. Qed.
#[export] Hint Rewrite zlen_put16 : mqlen.

Lemma readInt_app i rest e :
  readInt (mkReader (put16 i ++ rest) e) = (Ok (u16 i), mkReader rest e).
Proof. unfold readInt. rewrite ReadFull_app by done. by rewrite be16_put16. Qed.

Lemma readString_app s rest e : zlen s < 65536 ->
  readString (mkReader (put16 (zlen s) ++ s ++ rest) e) = (s, zlen s, None, mkReader rest e).
Proof.
  intros Hs. unfold readString. rewrite readInt_app, u16_small by len_lia.
  destruct (Z.ltb_spec 0 (zlen s)).
  - by rewrite ReadFull_app.
  - assert (s = []) as -> by (destruct s; [done | rewrite zlen_cons in *; len_lia]). done.
Qed.

(** ** The fixed header *)

(** Small bytes are decided by enumeration. *)
Lemma byte_lt_enum b n : 0 <= n -> bz b < n -> b ∈ (zb ∘ Z.of_nat) <$> seq 0 (Z.to_nat n).
Proof.
  intros Hn Hb. pose proof (bz_range b). apply list_elem_of_fmap.
  exists (Z.to_nat (bz b)). split.
  - simpl. rewrite Z2Nat.id by lia. by rewrite zb_bz.
  - apply elem_of_seq. lia.
Qed.

Definition header_ok (p : Pack) : Prop :=
  bz (msg_type p) < 16 /\ bz (dup_flag p) < 2 /\ bz (qos_level p) < 4.

Lemma parse_fixed_fixed_byte p : header_ok p ->
  parse_fixed (fixed_byte p) = mkPack (msg_type p) (dup_flag p) (qos_level p) x00 0 VNil.
Proof.
  destruct p as [t d q rt len v]. unfold header_ok. simpl. intros (Ht & Hd & Hq).
  apply byte_lt_enum in Ht, Hd, Hq; [|lia..].
  assert (Hall : Forall (fun t => Forall (fun d => Forall (fun q =>
      parse_fixed (fixed_byte (mkPack t d q x00 0 VNil)) = mkPack t d q x00 0 VNil)
    ((zb ∘ Z.of_nat) <$> seq 0 4)) ((zb ∘ Z.of_nat) <$> seq 0 2)) ((zb ∘ Z.of_nat) <$> seq 0 16)).
  { repeat constructor. }
  change (fixed_byte (mkPack t d q rt len v)) with (fixed_byte (mkPack t d q x00 0 VNil)).
  rewrite Forall_forall in Hall. specialize (Hall _ Ht).
  rewrite Forall_forall in Hall. specialize (Hall _ Hd).
  rewrite Forall_forall in Hall. exact (Hall _ Hq).
Qed.

(** ** The remaining length *)

Definition max_readable_length : Z := 128 * 128 * 128.

Lemma digit_facts d : 0 <= d < 128 ->
  Z.land (bz (zb (Z.lor d 128))) 127 = d /\ (Z.shiftr (bz (zb (Z.lor d 128))) 7 =? 0) = false /\
  Z.land (bz (zb d)) 127 = d /\ (Z.shiftr (bz (zb d)) 7 =? 0) = true.
Proof.
  intros Hd.
  pose proof (Zrange_forallb (fun d =>
    (Z.land (bz (zb (Z.lor d 128))) 127 =? d) && negb (Z.shiftr (bz (zb (Z.lor d 128))) 7 =? 0) &&
    ((Z.land (bz (zb d)) 127 =? d) && (Z.shiftr (bz (zb d)) 7 =? 0))) 128
    ltac:(vm_compute; reflexivity) d Hd) as H.
  cbv beta in H. apply andb_prop in H as [[H1 H2]%andb_prop [H3 H4]%andb_prop].
  apply Z.eqb_eq in H1, H3. apply negb_true_iff in H2. done.
Qed.

(** One turn of the digit loop on a non-negative number. *)
Lemma remaining_digits_step fuel c n : 0 <= n -> c < 4 ->
  remaining_digits (S fuel) c n =
    if n <? 128 then Ret [zb n]
    else match remaining_digits fuel (c + 1) (n / 128) with
         | Ret ds => Ret (zb (Z.lor (n mod 128) 128) :: ds)
         | Panic w => Panic w
         end.
Proof.
  intros Hn Hc. cbn [remaining_digits].
  rewrite Z.quot_div_nonneg, Z.rem_mod_nonneg by lia.
  rewrite (proj2 (Z.leb_gt 4 c)) by lia.
  destruct (Z.ltb_spec n 128).
  - rewrite Z.div_small, Z.mod_small by lia. done.
  - rewrite (proj2 (Z.ltb_lt 0 (n / 128))); [done|]. apply Z.div_str_pos. lia.
Qed.

(** One, two or three digits, according to the size of [n]. *)
Lemma getRemainingLength_eq n : 0 <= n < max_readable_length ->
  getRemainingLength n =
    Ret (if n <? 128 then [zb n]
         else if n <? 128 * 128 then [zb (Z.lor (n mod 128) 128); zb (n / 128)]
         else [zb (Z.lor (n mod 128) 128); zb (Z.lor (n / 128 mod 128) 128); zb (n / 128 / 128)]).
Proof.
  unfold max_readable_length. intros Hn. unfold getRemainingLength.
  assert (0 <= n / 128) by (apply Z.div_pos; lia).
  assert (0 <= n / 128 / 128 < 128).
  { split; [apply Z.div_pos; lia|]. apply Z.div_lt_upper_bound; [lia|].
    apply Z.div_lt_upper_bound; lia. }
  rewrite !remaining_digits_step by lia.
  rewrite (proj2 (Z.ltb_lt (n / 128 / 128) 128)) by lia.
  destruct (Z.ltb_spec n 128); [done|].
  destruct (Z.ltb_spec n (128 * 128)), (Z.ltb_spec (n / 128) 128); try done.
  - exfalso. assert (n / 128 < 128) by (apply Z.div_lt_upper_bound; lia). lia.
  - exfalso. assert (128 <= n / 128) by (apply Z.div_le_lower_bound; lia). lia.
Qed.

Definition read_length : RM unit :=
  rbind rd_byte (fun t => read_remaining 3 t 1 1).

Definition add_length (k : Z) (p : Pack) : Pack := p <| pack_length := pack_length p + k |>.

Lemma read_remaining_more fuel t t' d e c m p :
  (Z.shiftr (bz t) 7 =? 0) = false -> c + 1 < 4 ->
  read_remaining (S fuel) t c m (mkReader (t' :: d) e, p) =
    read_remaining fuel t' (c + 1) (m * 128)
      (mkReader d e, add_length (Z.land (bz t) 127 * m) p).
Proof.
  intros Ht Hc. cbn [read_remaining]. unfold rbind, upd_pack.
  rewrite Ht, (proj2 (Z.ltb_lt _ _) Hc). done.
Qed.

Lemma read_remaining_last fuel t r c m p :
  (Z.shiftr (bz t) 7 =? 0) = true ->
  read_remaining (S fuel) t c m (r, p) = (Ok tt, (r, add_length (Z.land (bz t) 127 * m) p)).
Proof.
  intros Ht. cbn [read_remaining]. unfold rbind, upd_pack. rewrite Ht. done.
Qed.

Lemma read_length_app n rest e p : 0 <= n < max_readable_length -> pack_length p = 0 ->
  exists ds, getRemainingLength n = Ret ds /\
    read_length (mkReader (ds ++ rest) e, p) = (Ok tt, (mkReader rest e, p <| pack_length := n |>)).
Proof.
  intros Hn Hp. rewrite getRemainingLength_eq by done. eexists. split; [reflexivity|].
  unfold max_readable_length in Hn.
  destruct p as [t d q rt len v]. simpl in Hp. subst len.
  pose proof (Z.div_mod n 128). pose proof (Z.div_mod (n / 128) 128).
  pose proof (Z.mod_pos_bound n 128). pose proof (Z.mod_pos_bound (n / 128) 128).
  assert (0 <= n / 128) by (apply Z.div_pos; lia).
  assert (0 <= n / 128 / 128 < 128).
  { split; [apply Z.div_pos; lia|]. apply Z.div_lt_upper_bound; [lia|].
    apply Z.div_lt_upper_bound; lia. }
  unfold read_length, rbind.
  destruct (Z.ltb_spec n 128); [|destruct (Z.ltb_spec n (128 * 128))]; cbn [app rd_byte ReadByte rdata rend].
  - destruct (digit_facts n) as (_ & _ & E1 & E2); [lia|].
    rewrite read_remaining_last, E1 by done.
    unfold add_length. cbn [upd pack_length]. by rewrite Z.mul_1_r.
  - destruct (digit_facts (n mod 128)) as (E1 & E2 & _); [lia|].
    destruct (digit_facts (n / 128)) as (_ & _ & E3 & E4).
    { split; [lia|]. apply Z.div_lt_upper_bound; lia. }
    rewrite read_remaining_more, read_remaining_last, E1, E3 by (done || lia).
    unfold add_length, upd. cbn [pack_length dup_flag msg_type qos_level retain pvariable].
    do 3 f_equal. lia.
  - destruct (digit_facts (n mod 128)) as (E1 & E2 & _); [lia|].
    destruct (digit_facts (n / 128 mod 128)) as (E3 & E4 & _); [lia|].
    destruct (digit_facts (n / 128 / 128)) as (_ & _ & E5 & E6); [lia|].
    rewrite 2!read_remaining_more, read_remaining_last, E1, E3, E5 by (done || lia).
    unfold add_length, upd. cbn [pack_length dup_flag msg_type qos_level retain pvariable].
    do 3 f_equal. lia.
Qed.

(** ** [ReadPack] on a well-formed header *)

Definition finish (o : result rp_err unit * rstate) : option Pack * option rp_err * reader :=
  match o with
  | (Ok _, (r, p)) => (Some p, None, r)
  | (Err e, (r, p)) => (Some p, Some e, r)
  end.

Lemma rbind_assoc {A B C} (m : RM A) (k : A -> RM B) (h : B -> RM C) s :
  rbind (rbind m k) h s = rbind m (fun a => rbind (k a) h) s.
Proof. unfold rbind. by destruct (m s) as [[a|e] s']. Qed.

Lemma ReadPack_header f n ds rest e max :
  0 <= n < max_readable_length -> n <= max -> getRemainingLength n = Ret ds ->
  ReadPack (mkReader (f :: ds ++ rest) e) max =
    finish (read_body (mkReader rest e, parse_fixed f <| pack_length := n |>)).
Proof.
  intros Hn Hm Hds.
  destruct (read_length_app n rest e (parse_fixed f) Hn eq_refl) as (ds' & Hds' & Hread).
  rewrite Hds in Hds'. injection Hds' as <-.
  unfold ReadPack. rewrite ReadByte_cons. unfold read_rest.
  change (fun temp_byte : byte => rbind (read_remaining 3 temp_byte 1 1) ?k) with
    (fun temp_byte : byte => rbind (read_remaining 3 temp_byte 1 1) k).
  rewrite <- (rbind_assoc rd_byte). fold read_length.
  unfold rbind at 1. rewrite Hread. unfold rbind, get_pack. cbn [snd].
  cbn [pack_length upd]. rewrite (proj2 (Z.ltb_ge max n)) by done.
  unfold finish. change (parse_fixed f <| pack_length := n |>) with
    (upd (proj := pack_length) (fun _ => n) (parse_fixed f)).
  generalize (upd (proj := pack_length) (fun _ => n) (parse_fixed f)) as p. intros p.
  destruct (read_body (mkReader rest e, p)) as [[?|?] [? ?]]; reflexivity.
Qed.
