(* ===== verification/MqttTheorems.v ===== *)
(** * Theorems about the MQTT codec

    Round trips of the packets the server writes, parsing of the frames clients
    send, the typing of what [ReadPack] returns, and the limits of the
    remaining-length reader. *)
From S2P Require Import Prelude MqttPack MqttRead MqttWrite MqttCodec.
#[local] Open Scope mq_scope.
#[local] Open Scope rm_scope.

(** ** Definitions the statements use *)

(** The payload [ReadPack] builds for each type it accepts. *)
Definition typed (p : Pack) : Prop :=
  let t := bz (msg_type p) in
  match pvariable p with
  | VConnect _ => t = CONNECT
  | VConnack _ => False
  | VPublish _ => t = PUBLISH
  | VPuback _ => t = PUBACK \/ t = PUBREC \/ t = PUBREL \/ t = PUBCOMP
  | VSubscribe _ => t = SUBSCRIBE
  | VSuback _ => t = SUBACK
  | VUNSubscribe _ => t = UNSUBSCRIBE
  | VUNSuback _ => t = UNSUBACK
  | VNil => ~ (In t [CONNECT; PUBLISH; PUBACK; PUBREC; PUBREL; PUBCOMP; SUBSCRIBE; SUBACK;
                     UNSUBSCRIBE; UNSUBACK])
  end.

(** The acknowledgement packets the server sends. *)
Definition ack_pack (k : nat) (mid : Z) : Pack :=
  match k with
  | 0%nat => GetPubAckPack mid
  | 1%nat => GetPubRECPack mid
  | 2%nat => GetPubRELPack mid
  | 3%nat => GetPubCOMPPack mid
  | 4%nat => GetSubAckPack mid
  | _ => GetUNSubAckPack mid
  end.

(** A topic as a client sends it, with the QoS byte of SUBSCRIBE or without. *)
Definition topic_bytes (qos : bool) (t : bytes * byte) : bytes :=
  put16 (zlen t.1) ++ t.1 ++ (if qos then [t.2] else []).

Definition topic_of (qos : bool) (t : bytes * byte) : Topics :=
  mkTopics (Some t.1) (if qos then t.2 else x00).

Definition topic_ok (t : bytes * byte) : Prop := 0 < zlen t.1 < 65536.

(** A CONNECT payload: optional will, user name and password. *)
Record connect_msg := mkConnectMsg {
  cm_proto : bytes; cm_version : byte; cm_keep : Z; cm_retain : bool; cm_qos : Z;
  cm_clean : bool; cm_reserved : bool; cm_id : bytes;
  cm_will : option (bytes * bytes); cm_user : option bytes; cm_pass : option bytes }.

Definition b2z (b : bool) : Z := if b then 1 else 0.
Definition is_some {A} (o : option A) : bool := match o with Some _ => true | None => false end.

Definition connect_flags (m : connect_msg) : byte :=
  zb (128 * b2z (is_some (cm_user m)) + 64 * b2z (is_some (cm_pass m)) + 32 * b2z (cm_retain m)
      + 8 * cm_qos m + 4 * b2z (is_some (cm_will m)) + 2 * b2z (cm_clean m) + b2z (cm_reserved m)).

Definition wire_str (s : bytes) : bytes := put16 (zlen s) ++ s.
Definition wire_opt (s : option bytes) : bytes := from_option wire_str [] s.

Definition connect_body (m : connect_msg) : bytes :=
  wire_str (cm_proto m) ++ [cm_version m; connect_flags m] ++ put16 (cm_keep m) ++
  wire_str (cm_id m) ++
  from_option (fun w : bytes * bytes => wire_str w.1 ++ wire_str w.2) [] (cm_will m) ++
  wire_opt (cm_user m) ++ wire_opt (cm_pass m).

Definition short (s : bytes) : Prop := zlen s < 65536.

Definition connect_ok (m : connect_msg) : Prop :=
  short (cm_proto m) /\ 0 <= cm_keep m < 65536 /\ 0 <= cm_qos m < 4 /\ 0 < zlen (cm_id m) <= 64 /\
  from_option (fun w : bytes * bytes => short w.1 /\ short w.2) True (cm_will m) /\
  from_option short True (cm_user m) /\ from_option short True (cm_pass m).

Definition connect_of (m : connect_msg) : Connect :=
  mkConnect (Some (cm_proto m)) (cm_version m) (cm_keep m) x00
    (is_some (cm_user m)) (is_some (cm_pass m)) (cm_retain m) (cm_qos m) (is_some (cm_will m))
    (cm_clean m) (cm_reserved m) (Some (cm_id m))
    (fst <$> cm_will m) (snd <$> cm_will m) (cm_user m) (cm_pass m).

(** ** The cases of the type switch *)

Ltac body_case H := unfold read_body, rbind, get_pack; cbn [snd]; rewrite H; reflexivity.

Lemma read_body_connect r p : msg_type p = x01 -> read_body (r, p) = read_connect (pack_length p) (r, p).
Proof. intros H. body_case H. Qed.
Lemma read_body_publish r p : msg_type p = x03 -> read_body (r, p) = read_publish (pack_length p) (r, p).
Proof. intros H. body_case H. Qed.
Lemma read_body_ack r p : msg_type p ∈ [x04; x05; x06; x07] ->
  read_body (r, p) = read_ack (pack_length p) (r, p).
Proof. intros H. set_unfold in H. repeat destruct H as [H|H]; try done; body_case H. Qed.
Lemma read_body_subscribe r p : msg_type p = x08 -> read_body (r, p) = read_subscribe (pack_length p) (r, p).
Proof. intros H. body_case H. Qed.
Lemma read_body_suback r p : msg_type p = x09 -> read_body (r, p) = read_suback (pack_length p) (r, p).
Proof. intros H. body_case H. Qed.
Lemma read_body_unsubscribe r p : msg_type p = x0a ->
  read_body (r, p) = read_unsubscribe (pack_length p) (r, p).
Proof. intros H. body_case H. Qed.
Lemma read_body_unsuback r p : msg_type p = x0b -> read_body (r, p) = read_unsuback (pack_length p) (r, p).
Proof. intros H. body_case H. Qed.

(** ** Reads of well-formed data *)

Lemma rd_string_app store s rest e p : zlen s < 65536 ->
  rd_string store (mkReader (wire_str s ++ rest) e, p) = (Ok (zlen s), (mkReader rest e, store s p)).
Proof. intros Hs. unfold rd_string, wire_str. rewrite <- app_assoc, readString_app by done. done. Qed.

Lemma rd_int_app i rest e p :
  rd_int (mkReader (put16 i ++ rest) e, p) = (Ok (u16 i), (mkReader rest e, p)).
Proof. unfold rd_int. by rewrite readInt_app. Qed.

Lemma rbind_ok {A B} (m : RM A) (k : A -> RM B) s a s' : m s = (Ok a, s') -> rbind m k s = k a s'.
Proof. intros H. unfold rbind. by rewrite H. Qed.

Lemma rbind_err {A B} (m : RM A) (k : A -> RM B) s e s' : m s = (Err e, s') -> rbind m k s = (Err e, s').
Proof. intros H. unfold rbind. by rewrite H. Qed.

(** [rd] runs the next read of the goal. *)
Ltac rd :=
  first [ rewrite (rbind_ok _ _ _ _ _ (rd_int_app _ _ _ _))
        | match goal with
          | |- context [mkReader (wire_str ?s ++ _) _] =>
              rewrite (rbind_ok _ _ _ _ _ (rd_string_app _ s _ _ _ ltac:(eassumption)))
          end
        | rewrite (rbind_ok (upd_pack _) _ (_, _) tt _ eq_refl)
        | rewrite (rbind_ok (set_variable _) _ (_, _) tt _ eq_refl)
        | rewrite (rbind_ok get_pack _ _ _ _ eq_refl)
        | rewrite (rbind_ok get_connect _ _ _ _ eq_refl)
        | rewrite (rbind_ok rd_byte _ (mkReader (_ :: _) _, _) _ _ eq_refl)
        | rewrite (rbind_ok (rret _) _ _ _ _ eq_refl) ].

(** Computes the packet under construction. *)
Ltac simp_pack :=
  cbn [upd on_publish on_connect on_subscribe on_unsubscribe set_str pvariable msg_type dup_flag
       qos_level retain pack_length topic_name pub_mid msg snd fst GetQos
       sub_mid sub_topics unsub_mid unsub_topics Subscribe_addTopics UNSubscribe_addTopics];
  unfold upd; cbn beta iota.

Definition pub_pack (q d : byte) (n mid : Z) (t m : bytes) : Pack :=
  mkPack x03 d q x00 n (VPublish (mkPublish (Some t) mid m)).

Lemma read_publish_app q d n t (m : bytes) mid rest e :
  0 < zlen t < 65536 ->
  n = (if 0 <? bz q then 4 else 2) + zlen t + zlen m ->
  read_publish n (mkReader (put16 (zlen t) ++ t ++ (if 0 <? bz q then put16 mid else []) ++ m ++ rest) e,
                  mkPack x03 d q x00 n VNil) =
    (Ok tt, (mkReader rest e, pub_pack q d n (if 0 <? bz q then u16 mid else 0) t m)).
Proof.
  intros Ht Hn. unfold read_publish. rd.
  assert (Ht' : zlen t < 65536) by lia.
  rewrite app_assoc. change (put16 (zlen t) ++ t) with (wire_str t).
  rd. rewrite (proj2 (Z.ltb_ge (zlen t) 1)) by lia. rd.
  simp_pack. destruct (0 <? bz q) eqn:Hq.
  - rewrite (proj2 (Z.ltb_ge (n - zlen t - 2) 2)) by len_lia.
    rewrite rbind_assoc. rd. rewrite rbind_assoc. rd. rd. simp_pack.
    destruct (Z.leb_spec (n - zlen t - 2 - 2) 0) as [Hm|Hm].
    + assert (m = []) as -> by (destruct m; [done | rewrite zlen_cons in *; len_lia]). done.
    + rewrite (ReadFull_app _ m) by lia. done.
  - rewrite app_nil_l. rd. destruct (Z.leb_spec (n - zlen t - 2) 0) as [Hm|Hm].
    + assert (m = []) as -> by (destruct m; [done | rewrite zlen_cons in *; len_lia]). done.
    + rewrite (ReadFull_app _ m) by lia. done.
Qed.

Lemma read_ack_app t d q mid rest e : t ∈ [x04; x05; x06; x07] ->
  read_ack 2 (mkReader (put16 mid ++ rest) e, mkPack t d q x00 2 VNil) =
    (Ok tt, (mkReader rest e, mkPack t d q x00 2 (VPuback (mkPuback (u16 mid))))).
Proof. intros Ht. unfold read_ack. rd. rewrite Z.eqb_refl. rd. done. Qed.

Lemma read_suback_app t d q s mid rest e :
  read_suback 3 (mkReader (put16 mid ++ s :: rest) e, mkPack t d q x00 3 VNil) =
    (Ok tt, (mkReader rest e, mkPack t d q x00 3 (VSuback (mkSuback (u16 mid) s)))).
Proof. unfold read_suback. rd. rewrite Z.eqb_refl. rd. rd. done. Qed.

Lemma read_unsuback_app t d q mid rest e :
  read_unsuback 2 (mkReader (put16 mid ++ rest) e, mkPack t d q x00 2 VNil) =
    (Ok tt, (mkReader rest e, mkPack t d q x00 2 (VUNSuback (mkUNSuback (u16 mid))))).
Proof. unfold read_unsuback. rd. rewrite Z.eqb_refl. rd. done. Qed.

(** ** The topic loops *)

Definition topics_bytes (qos : bool) (tops : list (bytes * byte)) : bytes :=
  mjoin (topic_bytes qos <$> tops).

Definition sub_pack (t d q rt : byte) n mid tops : Pack :=
  mkPack t d q rt n (VSubscribe (mkSubscribe mid tops)).
Definition unsub_pack (t d q rt : byte) n mid tops : Pack :=
  mkPack t d q rt n (VUNSubscribe (mkUNSubscribe mid tops)).

Lemma sub_pack_add t d q rt n mid acc x :
  on_subscribe (Subscribe_addTopics x) (sub_pack t d q rt n mid acc) =
    sub_pack t d q rt n mid (acc ++ [x]).
Proof. done. Qed.

Lemma unsub_pack_add t d q rt n mid acc x :
  on_unsubscribe (UNSubscribe_addTopics x) (unsub_pack t d q rt n mid acc) =
    unsub_pack t d q rt n mid (acc ++ [x]).
Proof. done. Qed.

Lemma zlen_topic_bytes qos t : zlen (topic_bytes qos t) = 2 + zlen t.1 + (if qos then 1 else 0).
Proof. unfold topic_bytes. destruct qos; len_lia. Qed.

Lemma zlen_topics_cons qos t tops :
  zlen (topics_bytes qos (t :: tops)) =
    2 + zlen t.1 + (if qos then 1 else 0) + zlen (topics_bytes qos tops).
Proof.
  change (topics_bytes qos (t :: tops)) with (topic_bytes qos t ++ topics_bytes qos tops).
  rewrite zlen_app, zlen_topic_bytes. lia.
Qed.

Lemma sub_loop_app fuel tops vlen t d q rt n mid acc rest e :
  Forall topic_ok tops -> vlen = zlen (topics_bytes true tops) + 2 -> (Z.to_nat vlen <= fuel)%nat ->
  sub_loop fuel vlen (mkReader (topics_bytes true tops ++ rest) e, sub_pack t d q rt n mid acc) =
    (Ok tt, (mkReader rest e, sub_pack t d q rt n mid (acc ++ (topic_of true <$> tops)))).
Proof.
  intros Hok. revert fuel vlen acc. induction Hok as [|[s b] tops Hs Hok IH]; intros fuel vlen acc Hv Hf.
  - rewrite app_nil_r. subst vlen. by destruct fuel.
  - rewrite zlen_topics_cons in Hv. unfold topic_ok in Hs. simpl in Hv, Hs.
    pose proof (zlen_nonneg (topics_bytes true tops)).
    destruct fuel as [|fuel]; [lia|]. cbn [sub_loop].
    rewrite (proj2 (Z.ltb_lt 3 vlen)) by lia.
    change (topics_bytes true ((s, b) :: tops)) with
      ((put16 (zlen s) ++ s ++ [b]) ++ topics_bytes true tops).
    rewrite <- !app_assoc, readInt_app, u16_small, ReadFull_app by (done || lia).
    cbn [app ReadByte rdata rend].
    rewrite sub_pack_add, IH by lia. by rewrite <- app_assoc.
Qed.

Lemma unsub_loop_app fuel tops vlen t d q rt n mid acc rest e :
  Forall topic_ok tops -> vlen = zlen (topics_bytes false tops) + 2 -> (Z.to_nat vlen <= fuel)%nat ->
  unsub_loop fuel vlen (mkReader (topics_bytes false tops ++ rest) e, unsub_pack t d q rt n mid acc) =
    (Ok tt, (mkReader rest e, unsub_pack t d q rt n mid (acc ++ (topic_of false <$> tops)))).
Proof.
  intros Hok. revert fuel vlen acc. induction Hok as [|[s b] tops Hs Hok IH]; intros fuel vlen acc Hv Hf.
  - rewrite app_nil_r. subst vlen. by destruct fuel.
  - rewrite zlen_topics_cons in Hv. unfold topic_ok in Hs. simpl in Hv, Hs.
    pose proof (zlen_nonneg (topics_bytes false tops)).
    destruct fuel as [|fuel]; [lia|]. cbn [unsub_loop].
    rewrite (proj2 (Z.ltb_lt 3 vlen)) by lia.
    change (topics_bytes false ((s, b) :: tops)) with
      ((put16 (zlen s) ++ s ++ []) ++ topics_bytes false tops).
    rewrite <- !app_assoc, readInt_app, u16_small, ReadFull_app by (done || lia).
    cbn [app]. rewrite unsub_pack_add, IH by lia. by rewrite <- app_assoc.
Qed.

(** The loops are given enough fuel: each turn consumes at least two bytes of
    [vlen], so more fuel changes nothing. *)
Lemma readInt_nonneg r n r' : readInt r = (Ok n, r') -> 0 <= n.
Proof.
  unfold readInt. destruct (ReadFull 2 r) as [[buf [e|]] r1]; [done|].
  intros [= <- _]. unfold be16. destruct buf as [|h [|l b]]; [lia..|].
  apply Z.lor_nonneg. pose proof (bz_range h). pose proof (bz_range l).
  split; [apply Z.shiftl_nonneg|]; lia.
Qed.

Lemma sub_loop_fuel f1 : forall f2 vlen s,
  (Z.to_nat vlen <= f1)%nat -> (Z.to_nat vlen <= f2)%nat -> sub_loop f1 vlen s = sub_loop f2 vlen s.
Proof.
  induction f1 as [|f1 IH]; intros [|f2] vlen [r p] H1 H2; [done|..]; cbn [sub_loop].
  1,2: by rewrite (proj2 (Z.ltb_ge 3 vlen)) by lia.
  destruct (Z.ltb_spec 3 vlen); [|done].
  destruct (readInt r) as [[n|e] r1] eqn:E; [|done].
  apply readInt_nonneg in E. destruct (ReadFull n r1) as [[buf ?] r2].
  destruct (ReadByte r2) as [[b|?] r3]; [|done]. apply IH; lia.
Qed.

Lemma unsub_loop_fuel f1 : forall f2 vlen s,
  (Z.to_nat vlen <= f1)%nat -> (Z.to_nat vlen <= f2)%nat -> unsub_loop f1 vlen s = unsub_loop f2 vlen s.
Proof.
  induction f1 as [|f1 IH]; intros [|f2] vlen [r p] H1 H2; [done|..]; cbn [unsub_loop].
  1,2: by rewrite (proj2 (Z.ltb_ge 3 vlen)) by lia.
  destruct (Z.ltb_spec 3 vlen); [|done].
  destruct (readInt r) as [[n|e] r1] eqn:E; [|done].
  apply readInt_nonneg in E. destruct (ReadFull n r1) as [[buf ?] r2]. apply IH; lia.
Qed.

(** ** CONNECT *)

Lemma parse_flags_bits u pw r q w cs rs p v k : 0 <= q < 4 ->
  parse_flags (zb (128 * b2z u + 64 * b2z pw + 32 * b2z r + 8 * q + 4 * b2z w + 2 * b2z cs + b2z rs))
    (mkConnect p v k x00 false false false 0 false false false None None None None None) =
  mkConnect p v k x00 u pw r q w cs rs None None None None None.
Proof.
  intros Hq. assert (q = 0 \/ q = 1 \/ q = 2 \/ q = 3) as [-> | [-> | [-> | ->]]] by lia;
    destruct u, pw, r, w, cs, rs; reflexivity.
Qed.

Definition conn_pack (n : Z) (c : Connect) : Pack := mkPack x01 x00 x00 x00 n (VConnect c).

Lemma on_connect_pack f n c : on_connect f (conn_pack n c) = conn_pack n (f c).
Proof. done. Qed.

Lemma set_str_pack f s n c : set_str f s (conn_pack n c) = conn_pack n (f (Some s) c).
Proof. done. Qed.

Lemma get_connect_pack (k : Connect -> RM unit) r n c :
  rbind get_connect k (r, conn_pack n c) = k c (r, conn_pack n c).
Proof. done. Qed.

Definition will_bytes (m : connect_msg) : bytes :=
  from_option (fun w : bytes * bytes => wire_str w.1 ++ wire_str w.2) [] (cm_will m).

Lemma zlen_wire_str s : zlen (wire_str s) = 2 + zlen s.
Proof. unfold wire_str. len_lia. Qed.
#[local] Hint Rewrite zlen_wire_str : mqlen.

(** The packet under construction after each stage. *)
Definition conn_stage (m : connect_msg) (will user pass : bool) : Connect :=
  mkConnect (Some (cm_proto m)) (cm_version m) (cm_keep m) x00
    (is_some (cm_user m)) (is_some (cm_pass m)) (cm_retain m) (cm_qos m) (is_some (cm_will m))
    (cm_clean m) (cm_reserved m) (Some (cm_id m))
    (if will then fst <$> cm_will m else None) (if will then snd <$> cm_will m else None)
    (if user then cm_user m else None) (if pass then cm_pass m else None).

Lemma read_will_app m n plen rest e : connect_ok m -> zlen (will_bytes m) + 2 <= plen ->
  exists plen', plen - zlen (will_bytes m) <= plen' /\
  read_will (conn_stage m false false false) plen
    (mkReader (will_bytes m ++ rest) e, conn_pack n (conn_stage m false false false)) =
  (Ok plen', (mkReader rest e, conn_pack n (conn_stage m true false false))).
Proof.
  destruct m as [p v k rt q cs rs i w u pw]. intros (_ & _ & _ & _ & Hw & _) Hlen.
  unfold will_bytes, short, conn_stage, read_will in *. cbn in Hw, Hlen |- *.
  destruct w as [[wt wm]|]; cbn [from_option is_some] in *.
  - destruct Hw as [Hw1 Hw2]. cbn [fst snd] in *. autorewrite with mqlen in *. exists (plen - zlen wt - zlen wm).
    split; [len_lia|]. rewrite <- app_assoc. rd.
    rewrite set_str_pack, (proj2 (Z.ltb_ge (plen - zlen wt) 0)) by len_lia.
    rd. done.
  - exists plen. split; [len_lia | done].
Qed.

Lemma read_uname_app m n plen rest e : connect_ok m -> zlen (wire_opt (cm_user m)) + 2 <= plen ->
  exists plen', plen - zlen (wire_opt (cm_user m)) <= plen' /\
  read_uname (conn_stage m false false false) plen
    (mkReader (wire_opt (cm_user m) ++ rest) e, conn_pack n (conn_stage m true false false)) =
  (Ok plen', (mkReader rest e, conn_pack n (conn_stage m true true false))).
Proof.
  destruct m as [p v k rt q cs rs i w u pw]. intros (_ & _ & _ & _ & _ & Hu & _) Hlen.
  unfold wire_opt, short, conn_stage, read_uname in *. cbn in Hu, Hlen |- *.
  destruct u as [u|]; cbn [from_option is_some andb] in *.
  - autorewrite with mqlen in *. exists (plen - zlen u).
    split; [len_lia|]. rewrite (proj2 (Z.ltb_lt 0 plen)) by len_lia. rd.
    rewrite (proj2 (Z.ltb_ge (plen - zlen u) 0)) by len_lia. done.
  - exists plen. split; [len_lia | done].
Qed.

Lemma read_upassword_app m n plen rest e : connect_ok m -> zlen (wire_opt (cm_pass m)) + 2 <= plen ->
  read_upassword (conn_stage m false false false) plen
    (mkReader (wire_opt (cm_pass m) ++ rest) e, conn_pack n (conn_stage m true true false)) =
  (Ok tt, (mkReader rest e, conn_pack n (connect_of m))).
Proof.
  destruct m as [p v k rt q cs rs i w u pw]. intros (_ & _ & _ & _ & _ & _ & Hp) Hlen.
  unfold wire_opt, short, conn_stage, read_upassword in *. cbn in Hp, Hlen |- *.
  destruct pw as [pw|]; cbn [from_option is_some andb] in *; [|done].
  autorewrite with mqlen in *. rewrite (proj2 (Z.ltb_lt 0 plen)) by len_lia. rd.
  rewrite (proj2 (Z.ltb_ge (plen - zlen pw) 0)) by len_lia. done.
Qed.

Lemma zlen_connect_body m : zlen (connect_body m) =
  2 + zlen (cm_proto m) + 2 + 2 + 2 + zlen (cm_id m) + zlen (will_bytes m) +
  zlen (wire_opt (cm_user m)) + zlen (wire_opt (cm_pass m)).
Proof.
  unfold connect_body. fold (will_bytes m). autorewrite with mqlen. lia.
Qed.

Lemma read_connect_app m rest e : connect_ok m ->
  read_connect (zlen (connect_body m))
    (mkReader (connect_body m ++ rest) e, mkPack x01 x00 x00 x00 (zlen (connect_body m)) VNil) =
  (Ok tt, (mkReader rest e, conn_pack (zlen (connect_body m)) (connect_of m))).
Proof.
  intros Hok. pose proof Hok as (Hp & Hk & Hq & Hi & _). unfold short in Hp.
  pose proof (zlen_nonneg (will_bytes m)). pose proof (zlen_nonneg (wire_opt (cm_user m))).
  pose proof (zlen_nonneg (wire_opt (cm_pass m))). pose proof (zlen_nonneg (cm_proto m)).
  pose proof (zlen_connect_body m) as Hl. set (n := zlen (connect_body m)) in *. clearbody n.
  unfold connect_body. fold (will_bytes m). rewrite <- !app_assoc.
  unfold read_connect. rd.
  change (mkPack x01 x00 x00 x00 n VNil <| pvariable := VConnect new_Connect |>) with
    (conn_pack n new_Connect).
  rd. rewrite (proj2 (Z.ltb_ge (n - 4) _)) by lia. cbn [app].
  do 2 rd. rd. rd. rd. rd.
  rewrite set_str_pack, !on_connect_pack, u16_small by lia.
  match goal with |- context [parse_flags ?f ?c] =>
    replace (parse_flags f c) with
      (mkConnect (Some (cm_proto m)) (cm_version m) (cm_keep m) x00 (is_some (cm_user m))
         (is_some (cm_pass m)) (cm_retain m) (cm_qos m) (is_some (cm_will m)) (cm_clean m)
         (cm_reserved m) None None None None None)
      by (symmetry; apply parse_flags_bits; done)
  end.
  assert (Hi' : zlen (cm_id m) < 65536) by lia. rd.
  replace (64 <? zlen (cm_id m)) with false by (symmetry; apply Z.ltb_ge; lia).
  replace (zlen (cm_id m) <? 1) with false by (symmetry; apply Z.ltb_ge; lia).
  cbn [orb andb]. rewrite set_str_pack, get_connect_pack.
  fold (conn_stage m false false false).
  destruct (read_will_app m n (n - 2 - zlen (cm_proto m) - 4 - zlen (cm_id m))
    (wire_opt (cm_user m) ++ wire_opt (cm_pass m) ++ rest) e Hok ltac:(lia)) as (l1 & Hl1 & E1).
  rewrite (rbind_ok _ _ _ _ _ E1).
  destruct (read_uname_app m n l1 (wire_opt (cm_pass m) ++ rest) e Hok ltac:(lia)) as (l2 & Hl2 & E2).
  rewrite (rbind_ok _ _ _ _ _ E2).
  apply read_upassword_app; [done | lia].
Qed.

(** ** Typing of the packets [ReadPack] returns *)

(** Partial-correctness triples on the packet under construction. *)
Definition tri {A} (P : Pack -> Prop) (m : RM A) (Q : A -> Pack -> Prop) : Prop :=
  forall r p a r' p', P p -> m (r, p) = (Ok a, (r', p')) -> Q a p'.

Lemma tri_bind {A B} P (m : RM A) R (k : A -> RM B) Q :
  tri P m R -> (forall a, tri (R a) (k a) Q) -> tri P (rbind m k) Q.
Proof.
  intros Hm Hk r p b r2 p2 HP. unfold rbind. destruct (m (r, p)) as [[a|e] [r' p']] eqn:E; [|done].
  intros H. eapply Hk; [|exact H]. eapply Hm; eauto.
Qed.

Lemma tri_ret {A} (a : A) P : tri P (rret a) (fun _ => P).
Proof. intros r p ? ? ? HP [= <- <- <-]. done. Qed.
Lemma tri_fail {A} e P Q : tri P (rfail (A := A) e) Q.
Proof. intros ? ? ? ? ? _ H. discriminate H. Qed.
Lemma tri_get P : tri P get_pack (fun q p => P p /\ q = p).
Proof. intros r p ? ? ? HP [= <- <- <-]. done. Qed.
Lemma tri_conn P : tri P get_connect (fun _ => P).
Proof. intros r p ? ? ? HP [= <- <- <-]. done. Qed.
Lemma tri_upd f (P Q : Pack -> Prop) : (forall p, P p -> Q (f p)) -> tri P (upd_pack f) (fun _ => Q).
Proof. intros Hf r p ? ? ? HP [= <- <- <-]. eauto. Qed.
Lemma tri_same f (P : Pack -> Prop) : (forall p, P p -> P (f p)) -> tri P (upd_pack f) (fun _ => P).
Proof. apply tri_upd. Qed.
Lemma tri_byte P : tri P rd_byte (fun _ => P).
Proof.
  intros r p ? ? ? HP. unfold rd_byte. destruct (ReadByte r) as [[?|?] ?]; [|done].
  intros [= <- <- <-]. done.
Qed.
Lemma tri_int P : tri P rd_int (fun _ => P).
Proof.
  intros r p ? ? ? HP. unfold rd_int. destruct (readInt r) as [[?|?] ?]; [|done].
  intros [= <- <- <-]. done.
Qed.
Lemma tri_string store (P : Pack -> Prop) :
  (forall s p, P p -> P (store s p)) -> tri P (rd_string store) (fun _ => P).
Proof.
  intros Hs r p ? ? ? HP. unfold rd_string. destruct (readString r) as [[[s nn] [e|]] r1]; [done|].
  intros [= <- <- <-]. eauto.
Qed.
Lemma tri_weaken {A} P (P' : Pack -> Prop) (m : RM A) Q :
  tri P m Q -> (forall p, P' p -> P p) -> tri P' m Q.
Proof. intros Hm HP r p a r' p' Hp. apply Hm. auto. Qed.

(** The invariant of a body: the header is fixed and the payload has the shape
    [K]. *)
Definition shaped (h : Pack) (K : variable -> Prop) (p : Pack) : Prop :=
  msg_type p = msg_type h /\ pack_length p = pack_length h /\ K (pvariable p).

Definition is_connect (v : variable) : Prop := match v with VConnect _ => True | _ => False end.
Definition is_publish (n : Z) (v : variable) : Prop :=
  match v with VPublish p => zlen (msg p) <= Z.max n 0 | _ => False end.
Definition is_puback (v : variable) : Prop := match v with VPuback _ => True | _ => False end.
Definition is_subscribe (v : variable) : Prop := match v with VSubscribe _ => True | _ => False end.
Definition is_suback (v : variable) : Prop := match v with VSuback _ => True | _ => False end.
Definition is_unsubscribe (v : variable) : Prop := match v with VUNSubscribe _ => True | _ => False end.
Definition is_unsuback (v : variable) : Prop := match v with VUNSuback _ => True | _ => False end.
Definition is_nil (v : variable) : Prop := v = VNil.

Ltac shaped_upd :=
  let p := fresh "p" in
  intros; match goal with H : shaped _ _ ?p |- _ => destruct H as (? & ? & ?); destruct p as [? ? ? ? ? []] end;
  unfold shaped in *; simpl in *; try done.

Ltac tri_step :=
  first
    [ apply tri_fail
    | eapply tri_bind; [first [apply tri_byte | apply tri_int | apply tri_conn | apply tri_get
                              | (apply tri_string; shaped_upd; fail)
                              | (apply tri_same; shaped_upd; fail) ] | intros ?]
    | apply tri_ret
    | match goal with |- tri _ (if ?b then _ else _) _ => destruct b eqn:? end
    | (apply tri_same; shaped_upd; fail) ].

Lemma tri_set h v (K K' : variable -> Prop) :
  K' v -> tri (shaped h K) (set_variable v) (fun _ => shaped h K').
Proof. intros HK. apply tri_upd. shaped_upd. Qed.

Lemma tri_read_will h conn n :
  tri (shaped h is_connect) (read_will conn n) (fun _ => shaped h is_connect).
Proof. unfold read_will. repeat tri_step. Qed.

Lemma tri_read_uname h conn n :
  tri (shaped h is_connect) (read_uname conn n) (fun _ => shaped h is_connect).
Proof. unfold read_uname. repeat tri_step. Qed.

Lemma tri_read_upassword h conn n :
  tri (shaped h is_connect) (read_upassword conn n) (fun _ => shaped h is_connect).
Proof. unfold read_upassword. repeat tri_step. Qed.

Lemma tri_read_connect h n : tri (shaped h is_nil) (read_connect n) (fun _ => shaped h is_connect).
Proof.
  unfold read_connect. eapply tri_bind; [apply (tri_set _ _ _ is_connect); done|]. intros ?.
  repeat first [ eapply tri_bind; [first [apply tri_read_will | apply tri_read_uname] | intros ?]
               | apply tri_read_upassword | tri_step ].
Qed.

Lemma ReadFull_len n r buf o r' : ReadFull n r = (buf, o, r') -> zlen buf <= Z.max n 0.
Proof.
  unfold ReadFull. destruct (Z.leb_spec n (zlen (rdata r))) as [Hn|Hn]; intros [= <- _ _].
  - unfold zlen in *. rewrite length_take. lia.
  - unfold zlen in *. rewrite length_app, length_replicate. lia.
Qed.

Lemma tri_read_publish h n : pack_length h = n ->
  tri (shaped h is_nil) (read_publish n) (fun _ => shaped h (is_publish n)).
Proof.
  intros Hn. unfold read_publish.
  eapply tri_bind.
  { apply (tri_set _ _ _ (is_publish n)). unfold is_publish. cbn [msg]. rewrite zlen_nil. lia. }
  intros ?. eapply tri_bind; [apply tri_string; shaped_upd|]. intros k. simpl.
  destruct (Z.ltb_spec k 1); [apply tri_fail|].
  eapply tri_bind; [apply tri_get|]. intros pk. cbn beta.
  apply (tri_weaken (shaped h (is_publish n))); [|by intros ? [? _]].
  eapply (tri_bind _ _ (fun v p => shaped h (is_publish n) p /\ v <= n)).
  - destruct (0 <? _).
    + destruct (_ <? _); [apply tri_fail|].
      eapply tri_bind; [apply tri_int|]. intros mid. simpl.
      eapply tri_bind; [apply tri_same; shaped_upd|]. intros ?. simpl.
      intros r p ? ? ? Hp [= <- <- <-]. split; [done | lia].
    + intros r p ? ? ? Hp [= <- <- <-]. split; [done | lia].
  - intros v. simpl. destruct (Z.leb_spec v 0) as [Hv|Hv].
    + intros r p ? ? ? [Hp _] [= <- <- <-]. done.
    + intros r p ? r' p' [Hp Hle] HH.
      destruct (ReadFull v r) as [[buf [e|]] r1] eqn:E; [done|]. injection HH as <- <- <-.
      apply ReadFull_len in E. destruct Hp as (H1 & H2 & H3).
      destruct p as [? ? ? ? ? []]; simpl in *; try done. unfold shaped. simpl.
      split; [done|]. split; [done|]. lia.
Qed.

Ltac tri_small K :=
  eapply tri_bind; [apply tri_get|]; intros ?;
  eapply tri_weaken; [|intros ? [? _]; eassumption];
  destruct (_ =? _); [|apply tri_fail];
  eapply tri_bind; [apply tri_int|]; intros ?;
  try (eapply tri_bind; [apply tri_byte|]; intros ?);
  apply (tri_set _ _ _ K); done.

Lemma tri_read_ack h n : tri (shaped h is_nil) (read_ack n) (fun _ => shaped h is_puback).
Proof. unfold read_ack. tri_small is_puback. Qed.
Lemma tri_read_suback h n : tri (shaped h is_nil) (read_suback n) (fun _ => shaped h is_suback).
Proof. unfold read_suback. tri_small is_suback. Qed.
Lemma tri_read_unsuback h n : tri (shaped h is_nil) (read_unsuback n) (fun _ => shaped h is_unsuback).
Proof. unfold read_unsuback. tri_small is_unsuback. Qed.

Lemma tri_sub_loop h f : forall v,
  tri (shaped h is_subscribe) (sub_loop f v) (fun _ => shaped h is_subscribe).
Proof.
  induction f as [|f IH]; intros v; cbn [sub_loop]; [apply tri_ret|].
  destruct (3 <? v); [|apply tri_ret].
  intros r p a r' p' Hp. destruct (readInt r) as [[n|e] r1]; [|by intros [= <- <- <-]].
  destruct (ReadFull n r1) as [[buf o] r2]. destruct (ReadByte r2) as [[b|e] r3];
    [|by intros [= <- <- <-]].
  apply IH. shaped_upd.
Qed.

Lemma tri_unsub_loop h f : forall v,
  tri (shaped h is_unsubscribe) (unsub_loop f v) (fun _ => shaped h is_unsubscribe).
Proof.
  induction f as [|f IH]; intros v; cbn [unsub_loop]; [apply tri_ret|].
  destruct (3 <? v); [|apply tri_ret].
  intros r p a r' p' Hp. destruct (readInt r) as [[n|e] r1]; [|by intros [= <- <- <-]].
  destruct (ReadFull n r1) as [[buf o] r2]. apply IH. shaped_upd.
Qed.

Lemma tri_read_subscribe h n : tri (shaped h is_nil) (read_subscribe n) (fun _ => shaped h is_subscribe).
Proof.
  unfold read_subscribe. eapply tri_bind; [by apply (tri_set _ _ _ is_subscribe)|]. intros ?.
  repeat first [apply tri_sub_loop | tri_step].
Qed.

Lemma tri_read_unsubscribe h n :
  tri (shaped h is_nil) (read_unsubscribe n) (fun _ => shaped h is_unsubscribe).
Proof.
  unfold read_unsubscribe. eapply tri_bind; [by apply (tri_set _ _ _ is_unsubscribe)|]. intros ?.
  repeat first [apply tri_unsub_loop | tri_step].
Qed.

Definition body_ok (p : Pack) : Prop :=
  typed p /\ forall b, pvariable p = VPublish b -> zlen (msg b) <= Z.max (pack_length p) 0.

Lemma shaped_ok h K p : shaped h K p ->
  (forall v, K v -> typed (mkPack (msg_type h) x00 x00 x00 0 v)) ->
  (forall b, K (VPublish b) -> zlen (msg b) <= Z.max (pack_length h) 0) -> body_ok p.
Proof.
  intros (H1 & H2 & H3) Ht Hb. split.
  - apply Ht in H3. unfold typed in *. simpl in H3. rewrite H1. done.
  - intros b Hv. rewrite H2. apply Hb. by rewrite <- Hv.
Qed.

Lemma tri_read_unknown h n : tri (shaped h is_nil) (read_unknown n) (fun _ => shaped h is_nil).
Proof.
  unfold read_unknown. destruct (0 <? n); [|apply tri_ret].
  intros r p a r' p' Hp. destruct (ReadFull n r) as [[? [?|]] ?]; [done|].
  intros [= <- <- <-]. done.
Qed.

Ltac use_body L :=
  match goal with
  | Hfin : (forall (m : RM unit) K, _), Hm : _ = (Ok _, _) |- _ =>
      eapply (Hfin _ _ L);
      [ intros []; unfold typed, is_nil; simpl; intuition (congruence || auto)
      | intros ? Hk; first [exact Hk | discriminate Hk | destruct Hk]
      | exact Hm ]
  end.

(** The type switch dispatches each type to the body that builds its payload. *)
Lemma read_body_typed h r p a r' p' : shaped h is_nil p ->
  read_body (r, p) = (Ok a, (r', p')) -> body_ok p' /\ pack_length p' = pack_length h.
Proof.
  intros Hp. pose proof Hp as (Ht & Hl & Hv). unfold read_body, rbind, get_pack. cbn [snd].
  rewrite Ht, Hl.
  assert (Hfin : forall (m : RM unit) K, tri (shaped h is_nil) m (fun _ => shaped h K) ->
     (forall v, K v -> typed (mkPack (msg_type h) x00 x00 x00 0 v)) ->
     (forall b, K (VPublish b) -> zlen (msg b) <= Z.max (pack_length h) 0) ->
     m (r, p) = (Ok a, (r', p')) -> body_ok p' /\ pack_length p' = pack_length h).
  { intros m K Htri HK Hb Hm. specialize (Htri _ _ _ _ _ Hp Hm).
    cbn beta in Htri. split; [by eapply shaped_ok | exact (proj1 (proj2 Htri))]. }
  repeat match goal with
         | |- context [if ?t =? ?c then _ else _] => destruct (Z.eqb_spec t c) as [?|?]
         end; intros Hm.
  - use_body (tri_read_connect h (pack_length h)).
  - use_body (tri_read_publish h (pack_length h) eq_refl).
  - use_body (tri_read_ack h (pack_length h)).
  - use_body (tri_read_ack h (pack_length h)).
  - use_body (tri_read_ack h (pack_length h)).
  - use_body (tri_read_ack h (pack_length h)).
  - use_body (tri_read_subscribe h (pack_length h)).
  - use_body (tri_read_suback h (pack_length h)).
  - use_body (tri_read_unsubscribe h (pack_length h)).
  - use_body (tri_read_unsuback h (pack_length h)).
  - use_body (tri_ret tt (shaped h is_nil)).
  - use_body (tri_ret tt (shaped h is_nil)).
  - use_body (tri_read_unknown h (pack_length h)).
Qed.

(** ** Reads never give bytes back *)

Definition left_in (s : rstate) : nat := length (rdata (fst s)).
Definition mono {A} (m : RM A) : Prop := forall s, (left_in (snd (m s)) <= left_in s)%nat.

Lemma mono_bind {A B} (m : RM A) (k : A -> RM B) : mono m -> (forall a, mono (k a)) -> mono (rbind m k).
Proof.
  intros Hm Hk s. unfold rbind. specialize (Hm s). destruct (m s) as [[a|e] s']; [|done].
  specialize (Hk a s'). simpl in *. lia.
Qed.

Lemma ReadByte_mono r : (length (rdata (snd (ReadByte r))) <= length (rdata r))%nat.
Proof. unfold ReadByte. destruct (rdata r) eqn:E; simpl; rewrite ?E; simpl; lia. Qed.

Lemma ReadFull_mono n r : (length (rdata (snd (ReadFull n r))) <= length (rdata r))%nat.
Proof. unfold ReadFull. destruct (n <=? _); cbn [snd rdata]; [rewrite length_drop|cbn]; lia. Qed.

Lemma readInt_mono r : (length (rdata (snd (readInt r))) <= length (rdata r))%nat.
Proof.
  unfold readInt. pose proof (ReadFull_mono 2 r). by destruct (ReadFull 2 r) as [[? [?|]] ?].
Qed.

Lemma readString_mono r : (length (rdata (snd (readString r))) <= length (rdata r))%nat.
Proof.
  unfold readString. pose proof (readInt_mono r) as Hi. destruct (readInt r) as [[n|e] r1]; [|done].
  destruct (0 <? n); [|done]. pose proof (ReadFull_mono n r1) as Hf.
  destruct (ReadFull n r1) as [[? [?|]] ?]; simpl in *; lia.
Qed.

Lemma mono_ret {A} (a : A) : mono (rret a). Proof. by intros s. Qed.
Lemma mono_fail {A} e : mono (rfail (A := A) e). Proof. by intros s. Qed.
Lemma mono_get : mono get_pack. Proof. by intros s. Qed.
Lemma mono_conn : mono get_connect. Proof. by intros s. Qed.
Lemma mono_upd f : mono (upd_pack f). Proof. by intros [r p]. Qed.
Lemma mono_byte : mono rd_byte.
Proof.
  intros [r p]. unfold rd_byte, left_in. pose proof (ReadByte_mono r).
  by destruct (ReadByte r) as [[?|?] ?].
Qed.
Lemma mono_int : mono rd_int.
Proof.
  intros [r p]. unfold rd_int, left_in. pose proof (readInt_mono r).
  by destruct (readInt r) as [[?|?] ?].
Qed.
Lemma mono_string store : mono (rd_string store).
Proof.
  intros [r p]. unfold rd_string, left_in. pose proof (readString_mono r).
  by destruct (readString r) as [[[? ?] [?|]] ?].
Qed.
Lemma mono_full_end n (k : bytes -> Pack -> Pack) : mono (fun '(r, p) =>
  let '(buf, err, r') := ReadFull n r in
  match err with None => (Ok tt, (r', k buf p)) | Some e => (Err (RIO e), (r', k buf p)) end).
Proof.
  intros [r p]. unfold left_in. pose proof (ReadFull_mono n r).
  by destruct (ReadFull n r) as [[? [?|]] ?].
Qed.

#[local] Hint Resolve mono_ret mono_fail mono_get mono_conn mono_upd mono_byte mono_int mono_string : mq.

Ltac mono_tac :=
  repeat first
    [ solve [auto with mq]
    | apply mono_full_end
    | apply mono_bind; [|intros ?]
    | match goal with |- mono (if ?b then _ else _) => destruct b end ].

Lemma mono_remaining f : forall t c m, mono (read_remaining f t c m).
Proof. induction f as [|f IH]; intros t c m; cbn [read_remaining]; mono_tac. Qed.

Lemma mono_sub_loop f : forall v, mono (sub_loop f v).
Proof.
  induction f as [|f IH]; intros v; cbn [sub_loop]; mono_tac. intros [r p]. unfold left_in in *.
  pose proof (readInt_mono r) as H1. destruct (readInt r) as [[n|e] r1]; [|done]. simpl in H1.
  pose proof (ReadFull_mono n r1) as H2. destruct (ReadFull n r1) as [[? ?] r2]. simpl in H2.
  pose proof (ReadByte_mono r2) as H3. destruct (ReadByte r2) as [[b|?] r3]; simpl in *; [|lia].
  match goal with |- context [_ f ?v ?s] => pose proof (IH v s) as H4 end.
  unfold left_in in H4. simpl in *. lia.
Qed.

Lemma mono_unsub_loop f : forall v, mono (unsub_loop f v).
Proof.
  induction f as [|f IH]; intros v; cbn [unsub_loop]; mono_tac. intros [r p]. unfold left_in in *.
  pose proof (readInt_mono r) as H1. destruct (readInt r) as [[n|e] r1]; [|done]. simpl in H1.
  pose proof (ReadFull_mono n r1) as H2. destruct (ReadFull n r1) as [[? ?] r2]. simpl in H2.
  match goal with |- context [_ f ?v ?s] => pose proof (IH v s) as H4 end.
  unfold left_in in H4. simpl in *. lia.
Qed.

Lemma mono_read_rest max : mono (read_rest max).
Proof.
  unfold read_rest, read_body, read_connect, read_will, read_uname, read_upassword, read_publish,
    read_ack, read_subscribe, read_suback, read_unsubscribe, read_unsuback, read_unknown, set_variable.
  repeat first [apply mono_remaining | apply mono_sub_loop | apply mono_unsub_loop | mono_tac
               | apply (mono_full_end _ (fun _ p => p)) ].
  all: try apply (mono_full_end _ (fun buf => on_publish (fun c => c <| msg := buf |>))).
  all: intros [r p]; unfold left_in; match goal with |- context [ReadFull ?n ?r] =>
    pose proof (ReadFull_mono n r); by destruct (ReadFull n r) as [[? [?|]] ?] end.
Qed.

(** Whatever [ReadPack] accepts, it has read at least the first byte of. *)
Lemma ReadPack_consumes r max p r' : ReadPack r max = (Some p, None, r') ->
  (length (rdata r') < length (rdata r))%nat.
Proof.
  unfold ReadPack, ReadByte. destruct (rdata r) as [|b d]; [done|].
  pose proof (mono_read_rest max (mkReader d (rend r), parse_fixed b)) as Hm.
  destruct (read_rest _ _) as [[u|?] [r2 p2]]; [|done]. intros [= <- <-].
  unfold left_in in Hm. simpl in *. lia.
Qed.

(** ** Properties *)

(** What [ReadPack] gives back for each packet the server writes: its header,
    the remaining length, and the payload with its message id taken modulo
    2^16, which a publication of QoS 0 has none of.  [ReadPack] has no case for CONNACK
    and PINGRESP: it drops their body. *)
Inductive server_pack : Pack -> Pack -> Prop :=
| sp_publish q d mid t m n :
    bz q < 4 -> bz d < 2 -> 0 < zlen t < 65536 ->
    n = (if 0 <? bz q then 4 else 2) + zlen t + zlen m -> n < max_readable_length ->
    server_pack (GetPubPack q d mid (Some t) m)
                (pub_pack q d n (if 0 <? bz q then u16 mid else 0) t m)
| sp_connack rc : server_pack (GetConnAckPack rc) (mkPack x02 x00 x00 x00 2 VNil)
| sp_pingresp q d : bz q < 4 -> bz d < 2 -> server_pack (GetPingResp q d) (mkPack x0d d q x00 0 VNil)
| sp_puback mid : server_pack (GetPubAckPack mid) (mkPack x04 x00 x00 x00 2 (VPuback (mkPuback (u16 mid))))
| sp_pubrec mid : server_pack (GetPubRECPack mid) (mkPack x05 x00 x00 x00 2 (VPuback (mkPuback (u16 mid))))
| sp_pubrel mid : server_pack (GetPubRELPack mid) (mkPack x06 x00 x01 x00 2 (VPuback (mkPuback (u16 mid))))
| sp_pubcomp mid : server_pack (GetPubCOMPPack mid) (mkPack x07 x00 x00 x00 2 (VPuback (mkPuback (u16 mid))))
| sp_suback mid : server_pack (GetSubAckPack mid) (mkPack x09 x00 x00 x00 3 (VSuback (mkSuback (u16 mid) x00)))
| sp_unsuback mid : server_pack (GetUNSubAckPack mid)
    (mkPack x0b x00 x00 x00 2 (VUNSuback (mkUNSuback (u16 mid)))).

Lemma read_frame p body n bs rest e max q :
  header_ok p -> 0 <= n < max_readable_length -> n <= max ->
  oapp (rl n) (Some body) = Some bs ->
  read_body (mkReader (body ++ rest) e,
             mkPack (msg_type p) (dup_flag p) (qos_level p) x00 n VNil) = (Ok tt, (mkReader rest e, q)) ->
  ReadPack (mkReader ((fixed_byte p :: bs) ++ rest) e) max = (Some q, None, mkReader rest e).
Proof.
  intros Hh Hn Hm Hbs Hr. unfold rl in Hbs. destruct (getRemainingLength n) as [ds|] eqn:E; [|done].
  unfold oapp in Hbs. injection Hbs as <-. cbn [app]. rewrite <- app_assoc.
  rewrite (ReadPack_header _ n) by done. rewrite parse_fixed_fixed_byte by done.
  unfold upd. cbn [msg_type dup_flag qos_level retain pack_length pvariable].
  rewrite Hr. done.
Qed.

(** What a server packet needs to come back from the wire. *)
Definition round_trips (p p' : Pack) : Prop := exists body bs,
  header_ok p /\ 0 <= pack_length p' < max_readable_length /\
  frame p = Some (fixed_byte p :: bs) /\ oapp (rl (pack_length p')) (Some body) = Some bs /\
  forall rest e, read_body (mkReader (body ++ rest) e,
    mkPack (msg_type p) (dup_flag p) (qos_level p) x00 (pack_length p') VNil)
    = (Ok tt, (mkReader rest e, p')).

Lemma rl_total n : 0 <= n < max_readable_length -> exists ds, rl n = Some ds.
Proof. intros Hn. unfold rl. rewrite getRemainingLength_eq by done. eauto. Qed.

(** Packets whose body is a fixed number of bytes. *)
Ltac round_small body :=
  exists body; eexists; split; [done|]; split; [done|]; split; [reflexivity|]; split; [reflexivity|];
  intros rest e; cbn [SetType SetDup SetQos upd msg_type dup_flag qos_level pack_length pvariable].

Lemma read_body_unknown r p : msg_type p = x02 \/ msg_type p = x0d -> read_body (r, p) = read_unknown (pack_length p) (r, p).
Proof. intros [H|H]; body_case H. Qed.

Lemma read_unknown_app n bs rest e p : n = zlen bs ->
  read_unknown n (mkReader (bs ++ rest) e, p) = (Ok tt, (mkReader rest e, p)).
Proof.
  intros Hn. unfold read_unknown. destruct (Z.ltb_spec 0 n); [by rewrite ReadFull_app|].
  destruct bs; [done|]. unfold zlen in Hn. cbn in Hn. lia.
Qed.

Lemma server_round p p' : server_pack p p' -> round_trips p p'.
Proof.
  destruct 1 as [q d mid t m n Hq Hd Ht -> Hn|rc|q d Hq Hd|mid|mid|mid|mid|mid|mid].
  - destruct (rl_total (pack_length (pub_pack q d ((if 0 <? bz q then 4 else 2) + zlen t + zlen m) 0 t m)))
      as [ds Hds]; [cbn [pack_length pub_pack]; destruct (0 <? bz q); len_lia|].
    cbn [pack_length pub_pack] in Hds.
    exists (put16 (zlen t) ++ t ++ (if 0 <? bz q then put16 mid else []) ++ m), (ds ++
      put16 (zlen t) ++ t ++ (if 0 <? bz q then put16 mid else []) ++ m).
    split; [done|]. split; [cbn [pack_length pub_pack]; destruct (0 <? bz q); len_lia|].
    split.
    { unfold frame, body_frame, GetQos.
      cbn [GetPubPack SetType SetDup SetQos upd msg_type dup_flag qos_level pvariable topic_name
           Publish_SetMsg Publish_SetTopic Publish_SetMid pub_mid msg].
      cbn. rewrite Hds. done. }
    cbn [pack_length pub_pack]. split; [by rewrite Hds|]. intros rest e.
    rewrite read_body_publish by done. rewrite <- !app_assoc. by apply read_publish_app.
  - round_small [x00; rc]. rewrite read_body_unknown by auto. by apply read_unknown_app.
  - round_small (@nil byte). rewrite read_body_unknown by auto. by apply read_unknown_app.
  - round_small (put16 mid). rewrite read_body_ack by set_solver. apply read_ack_app. set_solver.
  - round_small (put16 mid). rewrite read_body_ack by set_solver. apply read_ack_app. set_solver.
  - round_small (put16 mid). rewrite read_body_ack by set_solver. apply read_ack_app. set_solver.
  - round_small (put16 mid). rewrite read_body_ack by set_solver. apply read_ack_app. set_solver.
  - round_small (put16 mid ++ [x00]). rewrite read_body_suback by done. apply read_suback_app.
  - round_small (put16 mid). rewrite read_body_unsuback by done. apply read_unsuback_app.
Qed.

(** The remaining-length reader only adds to [pack_length], and at most three
    digits. *)
Lemma read_remaining_bound f : forall t c m r p a r' p', 0 <= m ->
  read_remaining f t c m (r, p) = (Ok a, (r', p')) ->
  pvariable p' = pvariable p /\ pack_length p <= pack_length p' <= pack_length p + m * (128 ^ Z.of_nat f - 1).
Proof.
  induction f as [|f IH]; intros t c m r p a r' p' Hm; cbn [read_remaining].
  { intros [= <- <- <-]. split; [done|]. simpl. lia. }
  assert (Hd : 0 <= Z.land (bz t) 127 <= 127).
  { change 127 with (Z.ones 7) at 1 2. rewrite Z.land_ones by lia.
    pose proof (Z.mod_pos_bound (bz t) (2 ^ 7)). lia. }
  assert (0 < 128 ^ Z.of_nat f) by (apply Z.pow_pos_nonneg; lia).
  rewrite Nat2Z.inj_succ, Z.pow_succ_r by lia. unfold rbind, upd_pack. cbv beta iota.
  match goal with |- context [(r, ?q)] => set (p1 := q) end.
  assert (Hp1 : pvariable p1 = pvariable p) by done.
  assert (Hl1 : pack_length p1 = pack_length p + Z.land (bz t) 127 * m) by done. clearbody p1.
  destruct (_ && _).
  - unfold rd_byte. destruct (ReadByte r) as [[b|?] r1]; [|done]. intros Hr.
    apply IH in Hr; [|lia]. destruct Hr as [-> Hr]. split; [done|]. nia.
  - intros [= <- <- <-]. split; [done|]. nia.
Qed.

Lemma read_rest_ok max r p r' p' a : pvariable p = VNil -> pack_length p = 0 ->
  read_rest max (r, p) = (Ok a, (r', p')) ->
  body_ok p' /\ 0 <= pack_length p' < max_readable_length /\ pack_length p' <= max.
Proof.
  intros Hv Hl. unfold read_rest, rbind, rd_byte. destruct (ReadByte r) as [[b|?] r1]; [|done].
  destruct (read_remaining 3 b 1 1 (r1, p)) as [[u|?] [r2 p2]] eqn:E; [|done].
  apply read_remaining_bound in E; [|lia]. destruct E as [Hv2 Hl2].
  change (1 * (128 ^ Z.of_nat 3 - 1)) with (max_readable_length - 1) in Hl2.
  unfold get_pack. cbn [snd]. destruct (Z.ltb_spec max (pack_length p2)); [done|].
  intros H1. apply (read_body_typed p2) in H1.
  - destruct H1 as [Hb ->]. split; [done|]. lia.
  - split; [done|]. split; [done|]. unfold is_nil. by rewrite Hv2, Hv.
Qed.

Lemma ReadPack_body_ok r max p r' : ReadPack r max = (Some p, None, r') ->
  body_ok p /\ 0 <= pack_length p < max_readable_length /\ pack_length p <= max.
Proof.
  unfold ReadPack. destruct (ReadByte r) as [[f|?] r1]; [|done].
  destruct (read_rest max (r1, parse_fixed f)) as [[u|?] [r2 p2]] eqn:E; [|done].
  intros [= <- <-]. by apply read_rest_ok in E.
Qed.

Lemma ReadPack_typed r max p r' : ReadPack r max = (Some p, None, r') -> typed p.
Proof. intros H. apply ReadPack_body_ok in H. apply H. Qed.

(** C3. For every lawful buffered writer, [DelayWritePack] that reports no error
    has appended exactly the reference frame of the packet; if the writer fails
    midway only a prefix of the frame was appended; and it panics or reports a
    nil pointer only for packets that have no frame. *)
Theorem DelayWritePack_refines_frame (W : Type) `{BufWriterLaws W} (p : Pack) (w : W) :
  match DelayWritePack p w with
  | WDone w' None => exists bs, frame p = Some bs /\ w_content w' = w_content w ++ bs
  | WDone w' (Some (WIO _)) =>
      exists pre, w_content w' = w_content w ++ pre /\
                  forall bs, frame p = Some bs -> pre `prefix_of` bs
  | WDone _ (Some NilPointer) => frame p = None
  | WPanic _ _ => frame p = None
  | WStuck => True
  end.
Proof. exact (appends_pack p w). Qed.

Lemma DelayWritePack_refines_frame_witness :
  DelayWritePack (GetPubAckPack 258) ([] : mem_writer) = WDone [x40; x02; x01; x02] None /\
  exists bs, frame (GetPubAckPack 258) = Some bs /\ [x40; x02; x01; x02] = [] ++ bs.
Proof.
  split; [vm_compute; reflexivity|].
  exact (DelayWritePack_refines_frame mem_writer (GetPubAckPack 258) ([] : mem_writer)).
Defined.

(** C4. Every packet the server writes is read back: the
    bytes [DelayWritePack] appends are consumed exactly, whatever follows them,
    and give the same header and payload, message ids modulo 2^16.  The frame must be
    within the limit passed in, and QoS and dup fit their bits of the header; a publication
    needs a topic that is not empty and shorter than 65536 bytes and a remaining length
    below 2^21, and of QoS 0 comes back with message id 0, which its wire form has no place
    for.  CONNACK and PINGRESP come back without a payload: [ReadPack] skips the body of a
    type it has no case for. *)
Theorem server_packet_roundtrip (p p' : Pack) (max : Z) (rest : bytes) (e : ioerr)
  (Hp : server_pack p p') (Hmax : pack_length p' <= max) :
  exists bs, DelayWritePack p ([] : mem_writer) = WDone bs None /\
    ReadPack (mkReader (bs ++ rest) e) max = (Some p', None, mkReader rest e).
Proof.
  destruct (server_round _ _ Hp) as (body & bs & Hh & Hn & Hf & Hrl & Hr).
  exists (fixed_byte p :: bs). split; [by apply (mem_pack _ _ [])|].
  eapply read_frame; eauto.
Qed.

Lemma server_packet_roundtrip_witness :
  exists bs, DelayWritePack (GetPubPack x01 x00 7 (Some [x61; x2f]) [x68; x69]) ([] : mem_writer)
               = WDone bs None /\
    ReadPack (mkReader (bs ++ [xff]) EOF) 65535 =
      (Some (pub_pack x01 x00 8 7 [x61; x2f] [x68; x69]), None, mkReader [xff] EOF).
Proof.
  apply (server_packet_roundtrip (GetPubPack x01 x00 7 (Some [x61; x2f]) [x68; x69])).
  - apply (sp_publish x01 x00 7 [x61; x2f] [x68; x69] 8); vm_compute; auto; split; reflexivity.
  - vm_compute. discriminate.
Defined.

(** A SUBSCRIBE or UNSUBSCRIBE frame of a conforming client is parsed topic
    by topic, in order, up to its last byte and no further. *)
Lemma topic_requests_parse (qos : bool) (mid : Z) (tops : list (bytes * byte)) (max : Z)
  (rest : bytes) (e : ioerr) (n : Z)
  (Htops : Forall topic_ok tops) (Hn : n = 2 + zlen (topics_bytes qos tops))
  (Hmax : n <= max) (Hlen : n < max_readable_length) :
  exists ds, getRemainingLength n = Ret ds /\
    ReadPack (mkReader ((if qos then x82 else xa2) :: ds ++ put16 mid ++ topics_bytes qos tops ++ rest) e) max =
      (Some (if qos then sub_pack x08 x00 x01 x00 n (u16 mid) (topic_of true <$> tops)
             else unsub_pack x0a x00 x01 x00 n (u16 mid) (topic_of false <$> tops)),
       None, mkReader rest e).
Proof.
  pose proof (zlen_nonneg (topics_bytes qos tops)).
  eexists. split; [apply getRemainingLength_eq; lia|].
  rewrite (ReadPack_header _ n) by (done || lia || (apply getRemainingLength_eq; lia)).
  change (parse_fixed (if qos then x82 else xa2) <| pack_length := n |>) with
    (upd (proj := pack_length) (fun _ => n) (parse_fixed (if qos then x82 else xa2))).
  destruct qos.
  - rewrite read_body_subscribe by done. unfold read_subscribe. cbn [pack_length upd parse_fixed].
    rd. rd. rd. 
    change (upd_pack _) with (upd_pack (on_subscribe (fun s => s <| sub_mid := u16 mid |>))).
    rewrite (sub_loop_app _ tops _ x08 x00 x01 x00 n (u16 mid) []) by (done || lia). done.
  - rewrite read_body_unsubscribe by done. unfold read_unsubscribe. cbn [pack_length upd parse_fixed].
    rd. rd. rd.
    rewrite (unsub_loop_app _ tops _ x0a x00 x01 x00 n (u16 mid) []) by (done || lia). done.
Qed.

Lemma topic_requests_parse_witness :
  exists ds, getRemainingLength 11 = Ret ds /\
    ReadPack (mkReader (x82 :: ds ++ put16 5 ++ topics_bytes true [([x61], x01); ([x62; x63], x00)] ++ []) EOF) 65535 =
      (Some (sub_pack x08 x00 x01 x00 11 (u16 5) (topic_of true <$> [([x61], x01); ([x62; x63], x00)])),
       None, mkReader [] EOF).
Proof.
  apply (topic_requests_parse true 5 [([x61], x01); ([x62; x63], x00)]).
  - repeat constructor.
  - reflexivity.
  - vm_compute. discriminate.
  - reflexivity.
Defined.

(** C5. A CONNECT frame of a conforming client (client id of 1 to 64 bytes) is
    parsed into exactly the fields it carries, the optional will, user name and
    password included, and is consumed whole. *)
Theorem connect_parses (m : connect_msg) (max : Z) (rest : bytes) (e : ioerr)
  (Hm : connect_ok m) (Hmax : zlen (connect_body m) <= max)
  (Hlen : zlen (connect_body m) < max_readable_length) :
  exists ds, getRemainingLength (zlen (connect_body m)) = Ret ds /\
    ReadPack (mkReader (x10 :: ds ++ connect_body m ++ rest) e) max =
      (Some (mkPack x01 x00 x00 x00 (zlen (connect_body m)) (VConnect (connect_of m))),
       None, mkReader rest e).
Proof.
  pose proof (zlen_nonneg (connect_body m)).
  eexists. split; [apply getRemainingLength_eq; lia|].
  rewrite (ReadPack_header _ (zlen (connect_body m))) by (done || lia || (apply getRemainingLength_eq; lia)).
  rewrite read_body_connect by done.
  change (parse_fixed x10 <| pack_length := zlen (connect_body m) |>) with
    (mkPack x01 x00 x00 x00 (zlen (connect_body m)) VNil).
  cbn [pack_length]. by rewrite read_connect_app.
Qed.

Definition sample_connect : connect_msg :=
  mkConnectMsg [x4d; x51] x04 60 false 1 true false [x63; x31] (Some ([x77], [x6d])) (Some [x75]) None.

Lemma connect_parses_witness :
  exists ds, getRemainingLength (zlen (connect_body sample_connect)) = Ret ds /\
    ReadPack (mkReader (x10 :: ds ++ connect_body sample_connect ++ [xc0]) EOF) 65535 =
      (Some (mkPack x01 x00 x00 x00 (zlen (connect_body sample_connect)) (VConnect (connect_of sample_connect))),
       None, mkReader [xc0] EOF).
Proof.
  apply (connect_parses sample_connect).
  - unfold connect_ok, short, sample_connect; cbn; unfold zlen; cbn; lia.
  - vm_compute. discriminate.
  - reflexivity.
Defined.



(** C7. A four-digit remaining length, which [getRemainingLength] writes for a
    body of 2^21 bytes or more, is cut after its third digit: the packet gets
    the length modulo 2^21 and the last digit is left in front of the body. *)
Theorem four_digit_length_desyncs (n : Z) (f : byte) (rest : bytes) (e : ioerr) (max : Z)
  (Hn : 2 ^ 21 <= n < 2 ^ 28) (Hmax : n mod 2 ^ 21 <= max) :
  exists d1 d2 d3 d4, getRemainingLength n = Ret [d1; d2; d3; d4] /\
    ReadPack (mkReader (f :: [d1; d2; d3; d4] ++ rest) e) max =
      finish (read_body (mkReader (d4 :: rest) e, parse_fixed f <| pack_length := n mod 2 ^ 21 |>)).
Proof.
  change (2 ^ 21) with (128 * 128 * 128) in *. change (2 ^ 28) with (128 * 128 * 128 * 128) in Hn.
  pose proof (Z.div_mod n 128). pose proof (Z.div_mod (n / 128) 128).
  pose proof (Z.div_mod (n / 128 / 128) 128).
  pose proof (Z.mod_pos_bound n 128). pose proof (Z.mod_pos_bound (n / 128) 128).
  pose proof (Z.mod_pos_bound (n / 128 / 128) 128).
  destruct (digit_facts (n mod 128)) as (E1 & E2 & _); [lia|].
  destruct (digit_facts (n / 128 mod 128)) as (E3 & E4 & _); [lia|].
  destruct (digit_facts (n / 128 / 128 mod 128)) as (E5 & E6 & _); [lia|].
  do 4 eexists. split.
  { unfold getRemainingLength. rewrite !remaining_digits_step by lia.
    rewrite !(proj2 (Z.ltb_ge _ 128)) by lia.
    rewrite (proj2 (Z.ltb_lt (n / 128 / 128 / 128) 128)) by lia. reflexivity. }
  cbn [app]. unfold ReadPack, read_rest. cbn [ReadByte rdata rend].
  unfold rbind at 1, rd_byte at 1. cbn [ReadByte rdata rend].
  assert (Hmod : n mod (128 * 128 * 128) =
    n mod 128 * 1 + n / 128 mod 128 * (1 * 128) + n / 128 / 128 mod 128 * (1 * 128 * 128)).
  { symmetry. apply (Z.mod_unique _ _ (n / 128 / 128 / 128)); lia. }
  unfold rbind at 1. rewrite 2!read_remaining_more by (done || lia).
  cbn [read_remaining]. unfold rbind, upd_pack, get_pack. rewrite E6. cbn [negb andb snd].
  unfold add_length, upd. cbn [pack_length msg_type dup_flag qos_level retain pvariable parse_fixed].
  rewrite E1, E3, E5. change (pack_length (parse_fixed f)) with 0.
  rewrite Z.add_0_l, <- Hmod. change (1 + 1 + 1 + 1 <? 4) with false. unfold rret.
  cbn [snd pack_length].
  rewrite (proj2 (Z.ltb_ge max _)) by done. reflexivity.
Qed.

Lemma four_digit_length_desyncs_witness :
  exists d1 d2 d3 d4, getRemainingLength (2 ^ 21) = Ret [d1; d2; d3; d4] /\
    ReadPack (mkReader (xc0 :: [d1; d2; d3; d4] ++ []) EOF) 100 =
      finish (read_body (mkReader (d4 :: []) EOF, parse_fixed xc0 <| pack_length := 2 ^ 21 mod 2 ^ 21 |>)).
Proof.
  apply (four_digit_length_desyncs (2 ^ 21) xc0 [] EOF 100); vm_compute; [split|]; congruence.
Defined.
