(* ===== verification/BufIO.v ===== *)
(** * The buffered writer over a TCP connection

    [TCPConn] of [network/tcp_conn.go] (its close flag and its [Write]), and the
    [bufio.Writer] of Go's standard library that [gate/base/mqtt_agent.go] puts
    on top of it.  The operating system's socket is a parameter: its [Write]
    and [Close], with the contract of [io.Writer] as the laws of [SocketLaws].
    The buffered writer is an instance of the interface [BufWriter] of
    MqttWrite, and discharges its laws whatever the connection does. *)
From S2P Require Import Prelude MqttPack MqttRead MqttWrite MqttCodec.
#[local] Open Scope mq_scope.

(** ** The socket *)

Class Socket (Sock : Type) := {
  net_Write : bytes -> Sock -> Sock * Z * option ioerr;
  net_Close : Sock -> Sock * option ioerr }.

Class SocketLaws (Sock : Type) `{Socket Sock} := {
  (** the bytes handed to the network *)
  net_sent : Sock -> bytes;
  net_Write_law : forall b s s' n e, net_Write b s = (s', n, e) ->
    0 <= n <= zlen b /\ net_sent s' = net_sent s ++ take (Z.to_nat n) b /\
    (n < zlen b -> e <> None);
  net_Close_law : forall s s' e, net_Close s = (s', e) -> net_sent s' = net_sent s }.

(** [io.ErrShortWrite] *)
Definition ErrShortWrite : ioerr := IOOther "short write".

Section BufIO.
Context {Sock : Type} `{Socket Sock}.

(** ** [TCPConn] *)

Record TCPConn := mkTCPConn { tc_conn : Sock; closeFlag : bool }.

#[local] Instance eta_TCPConn : Eta TCPConn := fun r => mkTCPConn (tc_conn r) (closeFlag r).

Definition newTCPConn (conn : Sock) : TCPConn := mkTCPConn conn false.

(** [doDestroy] and [Destroy]: [SetLinger] has no effect the model observes. *)
Definition Destroy (c : TCPConn) : TCPConn :=
  let '(s, _) := net_Close (tc_conn c) in
  let c := c <| tc_conn := s |> in
  if closeFlag c then c else c <| closeFlag := true |>.

Definition TCPConn_Close (c : TCPConn) : TCPConn * option ioerr :=
  if closeFlag c then (c, None)
  else
    let c := c <| closeFlag := true |> in
    let '(s, e) := net_Close (tc_conn c) in
    (c <| tc_conn := s |>, e).

(** A closed connection reports that it wrote nothing, without an error.  The
    slices the code passes are never nil. *)
Definition TCPConn_Write (b : bytes) (c : TCPConn) : TCPConn * Z * option ioerr :=
  if closeFlag c then (c, 0, None)
  else
    let '(s, n, e) := net_Write b (tc_conn c) in
    (c <| tc_conn := s |>, n, e).

(** ** [bufio.Writer] *)

Record bufw := mkBufw { b_size : Z; b_buf : bytes; b_err : option ioerr; b_wr : TCPConn }.

#[local] Instance eta_bufw : Eta bufw := fun r => mkBufw (b_size r) (b_buf r) (b_err r) (b_wr r).

Definition Buffered (w : bufw) : Z := zlen (b_buf w).
Definition Available (w : bufw) : Z := b_size w - Buffered w.

(** [bufio.NewWriterSize]: a size that is not positive means 4096. *)
Definition NewWriterSize (c : TCPConn) (size : Z) : bufw :=
  mkBufw (if size <=? 0 then 4096 else size) [] None c.

Definition Flush (w : bufw) : bufw * option ioerr :=
  match b_err w with
  | Some e => (w, Some e)
  | None =>
      if Buffered w =? 0 then (w, None)
      else
        let '(c, n, e) := TCPConn_Write (b_buf w) (b_wr w) in
        let e := match e with
                 | None => if n <? Buffered w then Some ErrShortWrite else None
                 | Some e => Some e
                 end in
        match e with
        | Some e => (mkBufw (b_size w) (drop (Z.to_nat n) (b_buf w)) (Some e) c, Some e)
        | None => (mkBufw (b_size w) [] None c, None)
        end
  end.

Definition bufw_WriteByte (b : byte) (w : bufw) : bufw * option ioerr :=
  match b_err w with
  | Some e => (w, Some e)
  | None =>
      if Available w <=? 0 then
        match Flush w with
        | (w, Some e) => (w, Some e)
        | (w, None) => (w <| b_buf := b_buf w ++ [b] |>, None)
        end
      else (w <| b_buf := b_buf w ++ [b] |>, None)
  end.

(** The loop of [Write]; [nn] counts the bytes taken.  [None] means that the
    fuel is used up. *)
Fixpoint bufw_write_loop (fuel : nat) (p : bytes) (nn : Z) (w : bufw) :
    option (bufw * Z * option ioerr) :=
  match b_err w with
  | Some e => Some (w, nn, Some e)
  | None =>
      if Available w <? zlen p then
        match fuel with
        | O => None
        | S fuel =>
            if Buffered w =? 0 then
              let '(c, n, e) := TCPConn_Write p (b_wr w) in
              bufw_write_loop fuel (drop (Z.to_nat n) p) (nn + n) (mkBufw (b_size w) (b_buf w) e c)
            else
              let copied := take (Z.to_nat (Available w)) p in
              let '(w, _) := Flush (w <| b_buf := b_buf w ++ copied |>) in
              bufw_write_loop fuel (drop (length copied) p) (nn + zlen copied) w
        end
      else Some (w <| b_buf := b_buf w ++ p |>, nn + zlen p, None)
  end.

Definition bufw_Write (p : bytes) (w : bufw) : option (bufw * Z * option ioerr) :=
  bufw_write_loop (2 * length p + 2) p 0 w.

#[export] Instance bufw_BufWriter : BufWriter bufw :=
  { w_WriteByte := bufw_WriteByte; w_Write := bufw_Write; w_Flush := Flush }.

End BufIO.
Arguments TCPConn Sock : clear implicits.
Arguments bufw Sock : clear implicits.

#[export] Instance eta_TCPConn' Sock : Eta (TCPConn Sock) :=
  fun r => mkTCPConn (tc_conn r) (closeFlag r).
#[export] Instance eta_bufw' Sock : Eta (bufw Sock) :=
  fun r => mkBufw (b_size r) (b_buf r) (b_err r) (b_wr r).

(** ** A socket that accepts everything, for concrete runs *)

Definition mem_sock : Type := bytes.

#[export] Instance mem_Socket : Socket mem_sock :=
  { net_Write := fun b s => (s ++ b, zlen b, None); net_Close := fun s => (s, None) }.

#[export, refine] Instance mem_SocketLaws : SocketLaws mem_sock := { net_sent := fun s => s }.
Proof.
  - intros b s s' n e [= <- <- <-]. split; [len_lia|]. split; [|lia].
    unfold zlen. by rewrite Nat2Z.id, firstn_all.
  - by intros s s' e [= <- <-].
Defined.

(** ** The writer keeps its contract *)

Section Laws.
Context {Sock : Type} `{SocketLaws Sock}.

Definition content (w : bufw Sock) : bytes := net_sent (tc_conn (b_wr w)) ++ b_buf w.

Lemma TCPConn_Write_law b c c' n e : TCPConn_Write b c = (c', n, e) ->
  0 <= n <= zlen b /\ net_sent (tc_conn c') = net_sent (tc_conn c) ++ take (Z.to_nat n) b /\
  closeFlag c' = closeFlag c /\ (closeFlag c = false -> n < zlen b -> e <> None).
Proof.
  unfold TCPConn_Write. destruct (closeFlag c) eqn:Hc.
  - intros [= <- <- <-]. rewrite app_nil_r. split; [len_lia|]. done.
  - destruct (net_Write b (tc_conn c)) as [[s m] o] eqn:E. intros [= <- <- <-].
    apply net_Write_law in E. destruct E as (? & ? & ?). done.
Qed.

Lemma take_zlen {A} n (l : list A) : n = zlen l -> take (Z.to_nat n) l = l.
Proof. intros ->. unfold zlen. by rewrite Nat2Z.id, firstn_all. Qed.

Lemma take_drop_copied {A} n (p : list A) : take n p ++ drop (length (take n p)) p = p.
Proof.
  rewrite length_take. destruct (decide (n <= length p)%nat).
  - rewrite Nat.min_l by done. apply take_drop.
  - by rewrite take_ge, Nat.min_r, drop_ge, app_nil_r by lia.
Qed.

(** [Flush] never loses a byte, and a flush without error leaves none. *)
Lemma Flush_law w w' e : Flush w = (w', e) ->
  content w' = content w /\ b_size w' = b_size w /\ b_err w' = e /\
  (e = None -> b_buf w' = []) /\ closeFlag (b_wr w') = closeFlag (b_wr w).
Proof.
  unfold Flush, content. destruct (b_err w) as [e0|] eqn:He; [by intros [= <- <-]|].
  unfold Buffered. destruct (Z.eqb_spec (zlen (b_buf w)) 0) as [Hb|Hb].
  { intros [= <- <-]. destruct w as [sz [|x buf] er c]; [done|]. cbn in Hb. len_lia. }
  destruct (TCPConn_Write (b_buf w) (b_wr w)) as [[c n] o] eqn:E.
  apply TCPConn_Write_law in E. destruct E as (Hn & Hs & Hc & Hl).
  destruct o as [e1|]; [|destruct (Z.ltb_spec n (zlen (b_buf w)))]; intros [= <- <-]; cbn; rewrite Hs.
  1,2: rewrite <- app_assoc, take_drop; done.
  rewrite take_zlen by lia. by rewrite app_nil_r.
Qed.

Lemma WriteByte_law b w w' e : bufw_WriteByte b w = (w', e) ->
  content w' = content w ++ (match e with Some _ => [] | None => [b] end) /\ b_size w' = b_size w.
Proof.
  unfold bufw_WriteByte. destruct (b_err w) as [e0|]; [intros [= <- <-]; by rewrite app_nil_r|].
  destruct (Available w <=? 0).
  - destruct (Flush w) as [w1 [e1|]] eqn:E; apply Flush_law in E; intros [= <- <-].
    + rewrite app_nil_r. by destruct E as (? & ? & _).
    + destruct E as (<- & <- & _). unfold content. cbn. by rewrite app_assoc.
  - intros [= <- <-]. unfold content. cbn. by rewrite app_assoc.
Qed.

Lemma write_loop_law fuel : forall p nn w w' n e,
  bufw_write_loop fuel p nn w = Some (w', n, e) ->
  exists pre, pre `prefix_of` p /\ content w' = content w ++ pre /\
    (e = None -> pre = p /\ n = nn + zlen p).
Proof.
  assert (Hdone : forall p nn (w w' : bufw Sock) n (e : option ioerr),
    Some (w <| b_buf := b_buf w ++ p |>, nn + zlen p, None) = Some (w', n, e) ->
    exists pre, pre `prefix_of` p /\ content w' = content w ++ pre /\
      (e = None -> pre = p /\ n = nn + zlen p)).
  { intros p nn w w' n e [= <- <- <-]. exists p. unfold content. cbn. by rewrite app_assoc. }
  assert (Herr : forall (p : bytes) (nn : Z) (w w' : bufw Sock) (n : Z) (e : option ioerr) (e0 : ioerr), Some (w, nn, Some e0) = Some (w', n, e) ->
    exists pre, pre `prefix_of` p /\ content w' = content w ++ pre /\
      (e = None -> pre = p /\ n = nn + zlen p)).
  { intros p nn w w' n e e0 [= <- <- <-]. exists []. rewrite app_nil_r.
    split; [apply prefix_nil | done]. }
  induction fuel as [|fuel IH]; intros p nn w w' n e; cbn [bufw_write_loop];
    destruct (b_err w) eqn:He; eauto; destruct (Available w <? zlen p) eqn:Ha; eauto.
  { done. }
  destruct (Z.eqb_spec (Buffered w) 0) as [Hb|Hb].
  - destruct (TCPConn_Write p (b_wr w)) as [[c m] o] eqn:E. intros Hl.
    apply TCPConn_Write_law in E. destruct E as (Hm & Hs & _ & _).
    apply IH in Hl. destruct Hl as (pre & Hp & Hc & Hn).
    exists (take (Z.to_nat m) p ++ pre). split.
    { rewrite <- (take_drop (Z.to_nat m) p) at 2. by apply prefix_app. }
    split.
    + rewrite Hc. unfold content. cbn. rewrite Hs.
      destruct (b_buf w) as [|x l] eqn:Hbuf; [by rewrite !app_nil_r, app_assoc|].
      unfold Buffered in Hb. rewrite Hbuf in Hb. len_lia.
    + intros He'. destruct (Hn He') as [-> ->]. split; [apply take_drop|].
      unfold zlen in *. rewrite length_drop. lia.
  - set (copied := take (Z.to_nat (Available w)) p).
    destruct (Flush _) as [w1 o] eqn:E. apply Flush_law in E. destruct E as (Hs & _).
    intros Hl. apply IH in Hl. destruct Hl as (pre & Hp & Hc & Hn).
    assert (Hcp : copied ++ drop (length copied) p = p).
    { apply take_drop_copied. }
    exists (copied ++ pre). split; [rewrite <- Hcp; by apply prefix_app|]. split.
    + rewrite Hc, Hs. unfold content. cbn. by rewrite <- !app_assoc.
    + intros He'. destruct (Hn He') as [-> ->]. split; [done|].
      assert (zlen p = zlen copied + zlen (drop (length copied) p)) by (by rewrite <- zlen_app, Hcp).
      lia.
Qed.

#[export, refine] Instance bufw_laws : BufWriterLaws (bufw Sock) := { w_content := content }.
Proof.
  - intros b w w' Hw. by apply WriteByte_law in Hw as [? _].
  - intros b w w' e Hw. apply WriteByte_law in Hw as [-> _]. apply app_nil_r.
  - intros bs w w' n Hw. apply write_loop_law in Hw as (pre & _ & Hc & Hn).
    destruct (Hn eq_refl) as [-> ->]. split; [lia | done].
  - intros bs w w' n e Hw. apply write_loop_law in Hw as (pre & Hp & Hc & _). eauto.
Defined.

End Laws.

(** ** The writer always returns *)

Section Returns.
Context {Sock : Type} `{SocketLaws Sock}.

Definition wf_bufw (w : bufw Sock) : Prop := 0 < b_size w /\ 0 <= Available w.

(** Past the first byte of a packet a closed connection is met by a flush of a
    buffer that is not empty, which reports the short write. *)
Definition primed (w : bufw Sock) : Prop :=
  wf_bufw w /\ (closeFlag (b_wr w) = true -> 0 < Buffered w).

Lemma primed_WriteByte b w : wf_bufw w ->
  match bufw_WriteByte b w with (w', None) => primed w' | (_, Some e) => True end.
Proof.
  intros [Hs Ha]. unfold bufw_WriteByte. destruct (b_err w); [done|].
  assert (Hp : forall w1 : bufw Sock, b_size w1 = b_size w -> 0 < Available w1 ->
    primed (w1 <| b_buf := b_buf w1 ++ [b] |>)).
  { intros w1 E1 H1. unfold primed, wf_bufw, Available, Buffered in *. cbn.
    autorewrite with mqlen. pose proof (zlen_nonneg (b_buf w1)). lia. }
  destruct (Z.leb_spec (Available w) 0); [|by apply Hp].
  destruct (Flush w) as [w1 [e|]] eqn:E; [done|]. apply Flush_law in E.
  destruct E as (_ & E1 & _ & E2 & _). apply Hp; [done|].
  unfold Available, Buffered, zlen. rewrite E1, E2 by done. simpl. lia.
Qed.

Definition returns (o : option (bufw Sock * Z * option ioerr)) : Prop :=
  match o with
  | Some (w', _, None) => primed w'
  | Some (_, _, Some _) => True
  | None => False
  end.

(** A write that fits, or finds an error, returns at once. *)
Lemma write_loop_exit fuel p nn w :
  b_err w <> None \/ primed w /\ zlen p <= Available w ->
  returns (bufw_write_loop fuel p nn w).
Proof.
  intros Hx. destruct fuel; cbn [bufw_write_loop]; (destruct (b_err w) eqn:E; [done|]);
    (destruct Hx as [Hx|[[[Hs Ha] Hb] Hp]]; [done|]); rewrite (proj2 (Z.ltb_ge _ _) Hp);
    unfold returns, primed, wf_bufw, Available, Buffered in *; cbn; autorewrite with mqlen;
    pose proof (zlen_nonneg p); (split; [|intros Hc; specialize (Hb Hc)]; lia).
Qed.

(** With an empty buffer and an open connection the socket takes it all or
    fails. *)
Lemma write_loop_direct fuel p nn w :
  wf_bufw w -> Buffered w = 0 -> closeFlag (b_wr w) = false ->
  returns (bufw_write_loop (S fuel) p nn w).
Proof.
  intros Hw Hb Hc. destruct (Z.ltb_spec (Available w) (zlen p)) as [Hp|Hp].
  2:{ apply write_loop_exit. right. split; [|done]. split; [done|]. by rewrite Hc. }
  cbn [bufw_write_loop]. destruct (b_err w); [done|].
  rewrite (proj2 (Z.ltb_lt _ _) Hp), Hb. cbn.
  destruct (TCPConn_Write p (b_wr w)) as [[c n] e] eqn:E.
  apply TCPConn_Write_law in E. destruct E as (Hn & _ & Hcf & Hl).
  apply write_loop_exit. cbn. destruct e; [by left|]. right.
  assert (n = zlen p) as -> by (destruct (decide (n < zlen p)); [by destruct (Hl Hc) | lia]).
  rewrite drop_ge by (unfold zlen; lia).
  unfold primed, wf_bufw, Available, Buffered in *. cbn. rewrite Hcf, Hc.
  split; [split; [lia | done] | len_lia].
Qed.

Lemma Flush_closed w : b_err w = None -> 0 < Buffered w -> closeFlag (b_wr w) = true ->
  exists w', Flush w = (w', Some ErrShortWrite).
Proof.
  intros He Hb Hc. unfold Flush. rewrite He, (proj2 (Z.eqb_neq _ _)) by lia.
  unfold TCPConn_Write. rewrite Hc. rewrite (proj2 (Z.ltb_lt _ _) Hb). eauto.
Qed.

Lemma write_loop_returns fuel p nn w : primed w -> returns (bufw_write_loop (S (S fuel)) p nn w).
Proof.
  intros Hw. destruct (Z.ltb_spec (Available w) (zlen p)) as [Hp|Hp].
  2:{ apply write_loop_exit. by right. }
  destruct Hw as [Hwf Hcl]. destruct (Z.eqb_spec (Buffered w) 0) as [Hb|Hb].
  { apply write_loop_direct; [done..|]. destruct (closeFlag (b_wr w)); [|done].
    specialize (Hcl eq_refl). lia. }
  remember (S fuel) as f1. cbn [bufw_write_loop]. destruct (b_err w) eqn:He; [done|].
  rewrite (proj2 (Z.ltb_lt _ _) Hp), (proj2 (Z.eqb_neq _ _) Hb).
  set (copied := take _ p). set (w1 := w <| b_buf := b_buf w ++ copied |>).
  assert (Hb1 : 0 < Buffered w1).
  { unfold Buffered in *. change (b_buf w1) with (b_buf w ++ copied).
    pose proof (zlen_nonneg (b_buf w)). len_lia. }
  destruct (Flush w1) as [w2 e] eqn:E. pose proof E as E'. apply Flush_law in E'.
  destruct E' as (_ & Hs & Hee & Hemp & Hcf). destruct e as [e|].
  { apply write_loop_exit. left. by rewrite Hee. }
  subst f1. destruct Hwf as [Hsz _]. change (b_size w1) with (b_size w) in Hs.
  apply write_loop_direct; unfold wf_bufw, Available, Buffered.
  - unfold zlen. rewrite Hs, Hemp by done. simpl. lia.
  - by rewrite Hemp.
  - rewrite Hcf. destruct (closeFlag (b_wr w1)) eqn:Hc1; [|done].
    destruct (Flush_closed w1) as [w3 E3]; [done..|]. congruence.
Qed.

Lemma primed_Write p w : primed w ->
  match bufw_Write p w with
  | Some (w', n, None) => n = zlen p /\ primed w'
  | Some (_, _, Some e) => True
  | None => False
  end.
Proof.
  intros Hw. unfold bufw_Write. rewrite Nat.add_comm. cbn [Nat.add].
  pose proof (write_loop_returns (2 * length p) p 0 w Hw) as Hr. unfold returns in Hr.
  destruct (bufw_write_loop _ p 0 w) as [[[w' n] [e|]]|] eqn:E; [done| |done].
  apply write_loop_law in E as (pre & _ & _ & Hn). destruct (Hn eq_refl) as [_ ->]. split; [lia | done].
Qed.

(** [DelayWritePack] returns on any well-formed writer, its connection open or
    closed, and leaves it well formed. *)
Lemma pack_returns p w : wf_bufw w ->
  match DelayWritePack p w with
  | WDone w' None => primed w'
  | WStuck => False
  | _ => True
  end.
Proof.
  intros Hw. unfold DelayWritePack, wseq, writeByte. cbn [w_WriteByte bufw_BufWriter].
  pose proof (primed_WriteByte (fixed_byte p) w Hw) as Hb.
  destruct (bufw_WriteByte (fixed_byte p) w) as [w' [e|]]; [done|]. cbn [option_map fmap option_fmap].
  pose proof (safe_body (W := bufw Sock) primed (fun _ => True)) as Hs.
  cbn [w_WriteByte w_Write bufw_BufWriter] in Hs.
  specialize (Hs (fun b w H => primed_WriteByte b w (proj1 H)) primed_Write p w' Hb).
  destruct (write_body p w') as [w'' [[|]|]| |]; done.
Qed.

End Returns.

(** ** Properties *)

(** Writing a packet through [bufio.Writer] to a [TCPConn] always returns,
    even when the connection is already closed (where [TCPConn.Write] reports
    zero bytes and no error): without an error exactly the reference frame has
    been accepted, in order, behind what was there; with one, only a prefix. *)
Lemma tcp_pack_write_total {Sock : Type} `{SocketLaws Sock} (p : Pack) (w : bufw Sock)
  (Hw : wf_bufw w) :
  match DelayWritePack p w with
  | WDone w' None => wf_bufw w' /\ exists bs, frame p = Some bs /\ content w' = content w ++ bs
  | WDone w' (Some (WIO _)) => exists pre, content w' = content w ++ pre /\
                                 forall bs, frame p = Some bs -> pre `prefix_of` bs
  | WDone _ (Some NilPointer) => frame p = None
  | WPanic _ _ => frame p = None
  | WStuck => False
  end.
Proof.
  pose proof (appends_pack p w) as Ha. pose proof (pack_returns p w Hw) as Hr.
  destruct (DelayWritePack p w) as [w' [[e|]|]| |]; try done.
  split; [apply Hr | apply Ha].
Qed.

Lemma tcp_pack_write_total_witness :
  DelayWritePack (GetPubAckPack 258) (NewWriterSize (mkTCPConn ([] : mem_sock) true) 16) =
    WDone (mkBufw 16 [x40; x02; x01; x02] None (mkTCPConn [] true)) None /\
  (wf_bufw (mkBufw 16 [x40; x02; x01; x02] None (mkTCPConn ([] : mem_sock) true)) /\
   exists bs, frame (GetPubAckPack 258) = Some bs /\ [x40; x02; x01; x02] = [] ++ bs).
Proof.
  split; [vm_compute; reflexivity|].
  exact (tcp_pack_write_total (GetPubAckPack 258) (NewWriterSize (mkTCPConn ([] : mem_sock) true) 16)
           ltac:(split; vm_compute; congruence)).
Defined.
