(* ===== verification/PackQueue.v ===== *)
(** * The write queue and the MQTT client

    [PackQueue] of [gate/base/mqtt/pack_queue.go] and [Client] of
    [gate/base/mqtt/mqtt_client_server.go], over the buffered TCP writer of
    BufIO.  A call runs to completion, blocks for ever ([Blocked]: on a lock that
    is never released or on a full channel nobody reads) or lets a panic out. *)
From Stdlib Require Import Floats.SpecFloat.
From S2P Require Import Prelude MqttPack MqttRead MqttWrite MqttCodec BufIO MqttTheorems.
#[local] Open Scope mq_scope.

(** ** Constants *)

Definition NO_DELAY : Z := 0.
Definition DELAY : Z := 1.
Definition FLUSH : Z := 2.
Definition DISCONNECTED : Z := 3.
Definition CONNECTED : Z := 4.
Definition CLOSED : Z := 5.
Definition RECONNECTING : Z := 6.
Definition CONNECTING : Z := 7.

(** The capacity of [fch]. *)
Definition fch_cap : Z := 256.

(** ** Keep-alive arithmetic in float32 *)

Definition f32_of_Z (z : Z) : spec_float := binary_normalize 24 128 z 0 false.

(** Conversion to [int] truncates toward zero. *)
Definition f32_trunc (f : spec_float) : Z :=
  match f with
  | S754_finite s m e =>
      let a := if 0 <=? e then Z.shiftl (Zpos m) e else Z.shiftr (Zpos m) (- e) in
      if s then - a else a
  | _ => 0
  end.

Definition f32_1_5 : spec_float := SFdiv 24 128 (f32_of_Z 3) (f32_of_Z 2).

(** [int(float32(alive)*1.5 + 1)] *)
Definition stretch (alive : Z) : Z :=
  f32_trunc (SFadd 24 128 (SFmul 24 128 (f32_of_Z alive) f32_1_5) (f32_of_Z 1)).

(** ** Errors *)

Inductive qerr :=
| QDisconnect
| QFull
| QWrite (e : werr)
| QPanic (why : string)
| QRead (e : rp_err)
| QNotConnect.

Section Queue.
Context {Sock : Type} `{Socket Sock}.

(** ** [PackQueue]

    [fch_tokens] counts the signals waiting in [fch]; [locked] says that
    [writelock] is held by a call that has ended. *)
Record PackQueue := mkPackQueue {
  ReadTimeout : Z; writeError : option qerr; fch_tokens : Z; fch_open : bool; locked : bool;
  q_r : reader; q_w : bufw Sock; has_conn : bool; alive : Z; MaxPackSize : Z; status : Z }.

#[local] Instance eta_PackQueue : Eta PackQueue := fun r =>
  mkPackQueue (ReadTimeout r) (writeError r) (fch_tokens r) (fch_open r) (locked r)
    (q_r r) (q_w r) (has_conn r) (alive r) (MaxPackSize r) (status r).

Definition SetAlive (a : Z) (q : PackQueue) : PackQueue :=
  let a := if a <? 1 then ReadTimeout q else a in
  q <| alive := stretch a |>.

Definition NewPackQueue (read_timeout : Z) (r : reader) (w : bufw Sock) (conn : bool)
    (a max : Z) : PackQueue :=
  let max := if max <? 1 then 65535 else max in
  SetAlive a (mkPackQueue read_timeout None 0 true false r w conn a max CONNECTED).

Definition isConnected (q : PackQueue) : bool := status q =? CONNECTED.

(** [close] of a closed channel panics, which [CloseFch] recovers. *)
Definition CloseFch (q : PackQueue) : PackQueue := q <| fch_open := false |>.

Definition close_conn (q : PackQueue) : PackQueue :=
  if has_conn q then q <| q_w := q_w q <| b_wr := fst (TCPConn_Close (b_wr (q_w q))) |> |> else q.

(** The four writes are one step here: nothing locks them in the code, where another
    goroutine can see the channel closed and the status not yet. *)
Definition Close (err : option qerr) (q : PackQueue) : PackQueue :=
  close_conn (CloseFch (q <| writeError := err |>) <| status := CLOSED |>).

(** [WritePack] up to the release of [writelock].  A panic inside
    [DelayWritePack] is recovered without releasing the lock. *)
Inductive wp_mid :=
| WpDone (err : option qerr)
| WpSend (err : option werr).

Definition wp_locked (pack : Pack) (q : PackQueue) : exec PackQueue wp_mid :=
  if locked q then Blocked else
  if negb (isConnected q) then Done q (WpDone (Some QDisconnect)) else
  match writeError q with
  | Some e => Done q (WpDone (Some e))
  | None =>
      if Available (q_w q) <=? 0 then Done q (WpDone (Some QFull)) else
      match DelayWritePack pack (q_w q) with
      | WStuck => Blocked
      | WPanic w why =>
          let err := Some (QPanic why) in
          Done (Close err (q <| q_w := w |> <| locked := true |>)) (WpDone err)
      | WDone w err => Done (q <| q_w := w |>) (WpSend err)
      end
  end.

(** The rest of [WritePack]: the signal to the flusher, then the error.  The
    send on a closed [fch] panics and is recovered. *)
Definition wp_send (err : option werr) (q : PackQueue) : exec PackQueue (option qerr) :=
  if negb (fch_open q) then
    let err := Some (QPanic "send on closed channel") in Done (Close err q) err
  else if fch_cap <=? fch_tokens q then Blocked
  else
    let q := q <| fch_tokens := fch_tokens q + 1 |> in
    match err with
    | None => Done q None
    | Some e => Done (Close (Some (QWrite e)) q) (Some (QWrite e))
    end.

Definition queue_WritePack (pack : Pack) (q : PackQueue) : exec PackQueue (option qerr) :=
  match wp_locked pack q with
  | Done q (WpDone err) => Done q err
  | Done q (WpSend err) => wp_send err q
  | Panicked q why => Panicked q why
  | Blocked => Blocked
  end.

(** One turn of [Flusher]: [None] when the loop ends, [Blocked] when it waits. *)
Definition flusher_turn (q : PackQueue) : exec PackQueue bool :=
  if negb (isConnected q) then Done q false else
  if fch_tokens q <=? 0 then (if fch_open q then Blocked else Done q false) else
  let q := q <| fch_tokens := fch_tokens q - 1 |> in
  if locked q then Blocked else
  if negb (isConnected q) then Done q false else
  if 0 <? Buffered (q_w q) then
    match Flush (q_w q) with
    | (w, Some _) => Done (q <| q_w := w |>) false
    | (w, None) => Done (q <| q_w := w |>) true
    end
  else Done q true.

End Queue.
Arguments PackQueue Sock : clear implicits.

#[export] Instance eta_PackQueue' Sock : Eta (PackQueue Sock) := fun r =>
  mkPackQueue (ReadTimeout r) (writeError r) (fch_tokens r) (fch_open r) (locked r)
    (q_r r) (q_w r) (has_conn r) (alive r) (MaxPackSize r) (status r).

(** ** [Client]

    The receiver of the packets is the interface [PackRecover]: a state of its
    own, and a call that may panic. *)
Class PackRecover (A : Type) := OnRecover : Pack -> A -> A * option string.

Section Client.
Context {Sock : Type} `{Socket Sock} {A : Type} `{PackRecover A}.

Record Client := mkClient { queue : PackQueue Sock; recover : A; isStop : bool; curr_id : Z }.

#[local] Instance eta_Client : Eta Client := fun r =>
  mkClient (queue r) (recover r) (isStop r) (curr_id r).

Definition NewClient (read_timeout : Z) (rec : A) (r : reader) (w : bufw Sock) (conn : bool)
    (a max : Z) : Client :=
  mkClient (NewPackQueue read_timeout r w conn a max) rec false 0.

Definition GetError (c : Client) : option qerr := writeError (queue c).

(** The next message id: 1 after [math.MaxUint16]. *)
Definition getOnlineMsgId (c : Client) : Client * Z :=
  let id := if curr_id c =? 65535 then 1 else curr_id c + 1 in
  (c <| curr_id := id |>, id).

(** Calls of the client on its queue and its receiver. *)
Definition c_write (pack : Pack) (c : Client) : exec Client (option qerr) :=
  match queue_WritePack pack (queue c) with
  | Done q e => Done (c <| queue := q |>) e
  | Panicked q why => Panicked (c <| queue := q |>) why
  | Blocked => Blocked
  end.

Definition c_recover {B} (pack : Pack) (b : B) (c : Client) : exec Client B :=
  match OnRecover pack (recover c) with
  | (a, None) => Done (c <| recover := a |>) b
  | (a, Some why) => Panicked (c <| recover := a |>) why
  end.

Definition bad_assertion {B} (c : Client) : exec Client B := Panicked c "interface conversion".

(** The acknowledgements of a SUBSCRIBE: one per topic of QoS 2; [err] is that
    of the last write. *)
Fixpoint suback_topics (mid : Z) (tops : list Topics) (err : option qerr) (c : Client) :
    exec Client (option qerr) :=
  match tops with
  | [] => Done c err
  | top :: tops =>
      if bz (top_Qos top) =? 2 then
        exec_then (c_write (GetSubAckPack mid) c) (fun err => suback_topics mid tops err)
      else suback_topics mid tops err c
  end.

Definition waitPack (pack : Pack) (perr : option qerr) (c : Client) : exec Client (option qerr) :=
  match perr with
  | Some e => Done c (Some e)
  | None =>
      let t := bz (GetType pack) in
      if t =? CONNECT then
        match GetVariable pack with
        | VConnect conn =>
            c_write (GetConnAckPack x00) (c <| queue := SetAlive (fst (GetKeepAlive conn)) (queue c) |>)
        | _ => Done c (Some QNotConnect)
        end
      else if t =? PUBLISH then
        match GetVariable pack with
        | VPublish pub =>
            exec_then (if bz (GetQos pack) =? 1 then c_write (GetPubAckPack (pub_mid pub)) c
                    else if bz (GetQos pack) =? 2 then c_write (GetPubRECPack (pub_mid pub)) c
                    else Done c None)
              (fun err => c_recover pack err)
        | _ => bad_assertion c
        end
      else if t =? PUBACK then Done c None
      else if t =? PUBREC then
        match GetVariable pack with
        | VPuback ack => c_write (GetPubRELPack (puback_mid ack)) c
        | _ => bad_assertion c
        end
      else if t =? PUBREL then
        match GetVariable pack with
        | VPuback ack => c_write (GetPubCOMPPack (puback_mid ack)) c
        | _ => bad_assertion c
        end
      else if t =? PUBCOMP then Done c None
      else if t =? SUBSCRIBE then
        match GetVariable pack with
        | VSubscribe sub =>
            exec_then (suback_topics (sub_mid sub) (sub_topics sub) None c) (fun err => c_recover pack err)
        | _ => bad_assertion c
        end
      else if t =? UNSUBSCRIBE then
        match GetVariable pack with
        | VUNSubscribe sub =>
            exec_then (c_write (GetUNSubAckPack (unsub_mid sub)) c) (fun err => c_recover pack err)
        | _ => bad_assertion c
        end
      else if t =? PINGREQ then
        exec_then (c_write (GetPingResp x00 (GetDup pack)) c) (fun err => c_recover pack err)
      else Done c None
  end.

Definition set_reader (r : reader) (c : Client) : Client :=
  let q := queue c in c <| queue := q <| q_r := r |> |>.

(** [queue.Close(err); break loop] *)
Definition stop_reading (e : qerr) (c : Client) : exec Client unit :=
  Done (c <| queue := Close (Some e) (queue c) |>) tt.

(** [ReadPackInLoop]; every turn that goes on has consumed a packet. *)
Fixpoint ReadPackInLoop (fuel : nat) (c : Client) : exec Client unit :=
  match fuel with
  | O => Blocked
  | S fuel =>
      if isConnected (queue c) then
        if negb (has_conn (queue c)) then Panicked c "nil pointer dereference" else
        let '(pack, err, r) := ReadPack (q_r (queue c)) (MaxPackSize (queue c)) in
        let c := set_reader r c in
        match err, pack with
        | Some e, _ => stop_reading (QRead e) c
        | None, None => Panicked c "nil pointer dereference"
        | None, Some pack =>
            exec_then (waitPack pack None c) (fun err c =>
              match err with
              | Some e => stop_reading e c
              | None => ReadPackInLoop fuel c
              end)
        end
      else Done c tt
  end.

Definition read_fuel (c : Client) : nat := S (length (rdata (q_r (queue c)))).

(** [Listen_loop]: a panic of the read loop is swallowed and leaves [isStop]
    as it was. *)
Definition Listen_loop (c : Client) : exec Client unit :=
  match ReadPackInLoop (read_fuel c) c with
  | Done c _ => Done (c <| isStop := true |>) tt
  | Panicked c _ => Done c tt
  | Blocked => Blocked
  end.

Definition WriteMsg (topic body : bytes) (c : Client) : exec Client (option qerr) :=
  if isStop c then Done c (Some QDisconnect)
  else
    let '(c, id) := getOnlineMsgId c in
    c_write (GetPubPack x00 x00 id (Some topic) body) c.

End Client.
Arguments Client Sock A : clear implicits.

#[export] Instance eta_Client' Sock A : Eta (Client Sock A) := fun r =>
  mkClient (queue r) (recover r) (isStop r) (curr_id r).

(** ** The byte buffer of the same file *)

Record buffer := mkBuffer { buf_index : Z; buf_data : bytes }.

Definition newBuffer (data : bytes) : buffer := mkBuffer 0 data.

(** A negative length passes the check and makes the slice expression panic. *)
Definition buffer_readString (length : Z) (b : buffer) : outcome (result unit bytes * buffer) :=
  if zlen (buf_data b) <? length + buf_index b then Ret (Err tt, b)
  else if length <? 0 then Panic "slice bounds out of range"
  else Ret (Ok (take (Z.to_nat length) (drop (Z.to_nat (buf_index b)) (buf_data b))),
            mkBuffer (buf_index b + length) (buf_data b)).

Definition buffer_readByte (b : buffer) : result unit byte * buffer :=
  match buf_data b !! Z.to_nat (buf_index b) with
  | Some c => (Ok c, mkBuffer (buf_index b + 1) (buf_data b))
  | None => (Err tt, b)
  end.
