(* ===== verification/QueueTheorems.v ===== *)
(** * Theorems about the write queue and the MQTT client *)
From S2P Require Import Prelude MqttPack MqttRead MqttWrite MqttCodec BufIO MqttTheorems PackQueue.
#[local] Open Scope mq_scope.

(** ** Interleavings of writers, flusher and closers

    [writelock] makes the locked part of [WritePack] and a turn of the flusher
    atomic; between the release of the lock and the signal to the flusher other
    goroutines may run.  [senders] holds the results of the writers that are
    at that point, [sent_packs] the packets written without error so far. *)
Record qsys (Sock : Type) := mkQsys {
  qs_queue : PackQueue Sock; senders : list (option werr); flusher : bool; sent_packs : list Pack }.
Arguments mkQsys {Sock}.
Arguments qs_queue {Sock}.
Arguments senders {Sock}.
Arguments flusher {Sock}.
Arguments sent_packs {Sock}.

Inductive qstep {Sock : Type} `{Socket Sock} : qsys Sock -> qsys Sock -> Prop :=
| step_refused q q' ss fl ps p err :
    wp_locked p q = Done q' (WpDone err) ->
    qstep (mkQsys q ss fl ps) (mkQsys q' ss fl ps)
| step_write q q' ss fl ps p err :
    wp_locked p q = Done q' (WpSend err) ->
    qstep (mkQsys q ss fl ps)
          (mkQsys q' (ss ++ [err]) fl (ps ++ match err with None => [p] | Some _ => [] end))
| step_send q q' ss1 ss2 fl ps err e :
    wp_send err q = Done q' e ->
    qstep (mkQsys q (ss1 ++ err :: ss2) fl ps) (mkQsys q' (ss1 ++ ss2) fl ps)
| step_flush q q' ss fl ps :
    flusher_turn q = Done q' fl ->
    qstep (mkQsys q ss true ps) (mkQsys q' ss fl ps)
| step_close q ss fl ps err :
    qstep (mkQsys q ss fl ps) (mkQsys (Close err q) ss fl ps).

(** The reference encodings, one after the other. *)
Definition frames (ps : list Pack) : bytes := mjoin ((fun p => default [] (frame p)) <$> ps).

#[global] Arguments frames : simpl never.

(** The packets a received packet is answered with. *)
Definition replies (p : Pack) : list Pack :=
  match pvariable p with
  | VConnect _ => [GetConnAckPack x00]
  | VPublish b => if bz (qos_level p) =? 1 then [GetPubAckPack (pub_mid b)]
                  else if bz (qos_level p) =? 2 then [GetPubRECPack (pub_mid b)] else []
  | VPuback b => if bz (msg_type p) =? PUBREC then [GetPubRELPack (puback_mid b)]
                 else if bz (msg_type p) =? PUBREL then [GetPubCOMPPack (puback_mid b)] else []
  | VSubscribe s => (fun _ => GetSubAckPack (sub_mid s)) <$>
                      filter (fun t => bz (top_Qos t) = 2) (sub_topics s)
  | VUNSubscribe s => [GetUNSubAckPack (unsub_mid s)]
  | VNil => if bz (msg_type p) =? PINGREQ then [GetPingResp x00 (dup_flag p)] else []
  | _ => []
  end.

(** The packets handed to [OnRecover]. *)
Definition delivers (p : Pack) : bool :=
  let t := bz (msg_type p) in
  (t =? PUBLISH) || (t =? SUBSCRIBE) || (t =? UNSUBSCRIBE) || (t =? PINGREQ).

(** A receiver that keeps what it is given. *)
Definition inbox : Type := list Pack.
#[export] Instance inbox_PackRecover : PackRecover inbox := fun p l => (l ++ [p], None).

(** ** The queue *)

Section Queue.
Context {Sock : Type} `{SocketLaws Sock}.

Lemma content_close w : content (w <| b_wr := fst (TCPConn_Close (b_wr w)) |>) = content w.
Proof.
  unfold content, TCPConn_Close. cbn. destruct (closeFlag (b_wr w)); [done|].
  destruct (net_Close _) as [s e] eqn:E. cbn. by rewrite (net_Close_law _ _ _ E).
Qed.

Lemma Close_status err (q : PackQueue Sock) :
  status (Close err q) = CLOSED /\ writeError (Close err q) = err /\
  fch_open (Close err q) = false /\ content (q_w (Close err q)) = content (q_w q).
Proof.
  unfold Close, close_conn, CloseFch. cbn.
  destruct (has_conn q) eqn:Hc; cbn; rewrite ?Hc; cbn; rewrite ?content_close; done.
Qed.

Lemma Close_not_connected err (q : PackQueue Sock) : isConnected (Close err q) = false.
Proof. unfold isConnected. destruct (Close_status err q) as (-> & _). done. Qed.

Lemma Close_tokens err (q : PackQueue Sock) : fch_tokens (Close err q) = fch_tokens q.
Proof. unfold Close, close_conn, CloseFch. cbn. by destruct (has_conn q). Qed.

(** What the locked part of a write does. *)
Lemma wp_locked_inv p q q' (m : wp_mid) : wp_locked p q = Done q' m ->
  fch_tokens q' = fch_tokens q /\
  match m with
  | WpDone err => err <> None /\ (q' = q \/ isConnected q' = false)
  | WpSend err => isConnected q = true /\ status q' = status q /\
      match err with
      | None => exists bs, frame p = Some bs /\ content (q_w q') = content (q_w q) ++ bs
      | Some _ => True
      end
  end.
Proof.
  unfold wp_locked. destruct (locked q); [done|].
  destruct (isConnected q) eqn:Hc; cbn [negb]; [|intros [= <- <-]; by eauto].
  destruct (writeError q) as [e|]; [intros [= <- <-]; by eauto|].
  destruct (_ <=? _); [intros [= <- <-]; by eauto|].
  pose proof (appends_pack p (q_w q)) as Ha.
  destruct (DelayWritePack p (q_w q)) as [w err|w why|]; [..|done]; intros [= <- <-].
  - by destruct err.
  - rewrite Close_tokens. split; [done|]. split; [done|]. right. apply Close_not_connected.
Qed.

Lemma wp_send_inv err q q' e : wp_send err q = Done q' e -> 0 <= fch_tokens q ->
  0 <= fch_tokens q' /\
  (isConnected q' = false \/
   err = None /\ status q' = status q /\ q_w q' = q_w q /\ 0 < fch_tokens q').
Proof.
  unfold wp_send. intros Hq Ht. destruct (negb (fch_open q)).
  { injection Hq as <- _. rewrite Close_tokens. split; [done|]. left; apply Close_not_connected. }
  destruct (_ <=? _); [done|]. destruct err; injection Hq as <- _.
  - rewrite Close_tokens. cbn. split; [lia|]. left; apply Close_not_connected.
  - cbn. split; [lia|]. right. repeat split. lia.
Qed.

Lemma flusher_turn_inv q q' fl : flusher_turn q = Done q' fl ->
  status q' = status q /\ content (q_w q') = content (q_w q) /\ fch_tokens q' <= fch_tokens q /\
  (fl = true -> Buffered (q_w q') = 0) /\ (0 <= fch_tokens q -> 0 <= fch_tokens q').
Proof.
  unfold flusher_turn. destruct (isConnected q) eqn:Hc; cbn [negb]; [|by intros [= <- <-]].
  destruct (Z.leb_spec (fch_tokens q) 0); [destruct (fch_open q); [done|by intros [= <- <-]]|].
  change (isConnected (q <| fch_tokens := fch_tokens q - 1 |>)) with (isConnected q).
  rewrite Hc. cbn [negb]. cbn. destruct (locked q); [done|].
  destruct (Z.ltb_spec 0 (Buffered (q_w q))) as [Hb|Hb].
  - destruct (Flush (q_w q)) as [w e] eqn:E. apply Flush_law in E. destruct E as (E & _ & _ & Hw & _).
    destruct e; intros [= <- <-]; cbn; (split; [done|]; split; [done|]; split; [lia|]);
      (split; [|lia]); [done|]. intros _. unfold Buffered. by rewrite Hw.
  - intros [= <- <-]. cbn. split; [done|]. split; [done|]. split; [lia|]. split; [|lia].
    intros _. unfold Buffered in *. pose proof (zlen_nonneg (b_buf (q_w q))). lia.
Qed.

(** ** The invariant of the interleavings *)

(** While the connection is up: what the writer accepted is the initial content
    and whole frames in the order of the locked writes, unless a failing writer
    has yet to close the queue; and a running flusher has been told, or is about
    to be told, of every buffered byte. *)
Definition qinv (c0 : bytes) (s : qsys Sock) : Prop :=
  0 <= fch_tokens (qs_queue s) /\
  (isConnected (qs_queue s) = true ->
    (Forall (fun e => e = None) (senders s) ->
       content (q_w (qs_queue s)) = c0 ++ frames (sent_packs s)) /\
    (flusher s = true ->
       Buffered (q_w (qs_queue s)) = 0 \/ 0 < fch_tokens (qs_queue s) \/ senders s <> [])).

Lemma frames_app ps ps' : frames (ps ++ ps') = frames ps ++ frames ps'.
Proof. unfold frames. by rewrite fmap_app, join_app. Qed.

Lemma frames_snoc ps p bs : frame p = Some bs -> frames (ps ++ [p]) = frames ps ++ bs.
Proof. intros Hf. rewrite frames_app. unfold frames. cbn. by rewrite Hf, app_nil_r. Qed.

Lemma isConnected_status (q q' : PackQueue Sock) : status q' = status q -> isConnected q' = isConnected q.
Proof. unfold isConnected. by intros ->. Qed.

Lemma qstep_inv c0 s s' : qinv c0 s -> qstep s s' -> qinv c0 s'.
Proof.
  intros [Ht Hi] Hs. destruct Hs as [q q' ss fl ps p err Hl|q q' ss fl ps p err Hl
    |q q' ss1 ss2 fl ps err e Hl|q q' ss fl ps Hl|q ss fl ps err]; unfold qinv in *; cbn in *.
  - apply wp_locked_inv in Hl. destruct Hl as (Htk & _ & [-> | Hc]); [done|].
    rewrite Hc, Htk. done.
  - apply wp_locked_inv in Hl. destruct Hl as (Htk & Hc & Hst & He).
    rewrite Htk. split; [done|]. intros _. destruct (Hi Hc) as [H1 H2]. split.
    + rewrite Forall_app, Forall_singleton. intros [Hss ->]. cbv iota. destruct He as (bs & Hf & ->).
      rewrite (frames_snoc _ _ bs), H1 by done. by rewrite app_assoc.
    + intros _. right; right. by destruct ss.
  - apply wp_send_inv in Hl; [|done]. destruct Hl as [Ht' [Hc|(-> & Hst & Hw & Hpos)]].
    + by rewrite Hc.
    + split; [done|]. rewrite (isConnected_status q) by done. rewrite Hw. intros Hc.
      destruct (Hi Hc) as [H1 H2]. split; [|by right; left].
      rewrite Forall_app. intros [??]. apply H1. rewrite Forall_app. by repeat constructor.
  - apply flusher_turn_inv in Hl. destruct Hl as (Hst & Hcon & _ & Hb & Htk).
    split; [auto|]. rewrite (isConnected_status q) by done. rewrite Hcon. intros Hc.
    destruct (Hi Hc) as [H1 H2]. split; [done|]. intros Hf. left. auto.
  - rewrite Close_not_connected, Close_tokens. done.
Qed.

Lemma qsteps_inv c0 s s' : qinv c0 s -> rtc qstep s s' -> qinv c0 s'.
Proof. intros Hi Hs. induction Hs; eauto using qstep_inv. Qed.

End Queue.

(** ** One call of [WritePack] *)

Section Write.
Context {Sock : Type} `{SocketLaws Sock}.

Definition sticks (q : PackQueue Sock) : Prop := forall p q', queue_WritePack p q <> Done q' None.

Lemma not_connected_sticks (q : PackQueue Sock) : isConnected q = false -> sticks q.
Proof.
  intros Hc p q'. unfold queue_WritePack, wp_locked. destruct (locked q); [done|].
  rewrite Hc. done.
Qed.

Lemma Close_reader e (q : PackQueue Sock) : q_r (Close e q) = q_r q.
Proof. unfold Close, close_conn. cbn. by destruct (has_conn q). Qed.

Lemma Close_sticks e (q : PackQueue Sock) : sticks (Close e q).
Proof. apply not_connected_sticks, Close_not_connected. Qed.

Lemma wp_locked_reader p q q' m : wp_locked p q = Done q' m -> q_r q' = q_r q.
Proof.
  unfold wp_locked. intros Hl. repeat (destr_hyp Hl; try done);
    injection Hl as <- _; by rewrite ?Close_reader.
Qed.

(** A refusal lasts: nothing in the queue has changed, or it is closed. *)
Lemma wp_locked_refuses p q q' err : wp_locked p q = Done q' (WpDone err) -> sticks q'.
Proof.
  unfold wp_locked. intros Hl. destruct (locked q) eqn:E1; [done|].
  destruct (negb (isConnected q)) eqn:E2.
  { injection Hl as <- _. apply not_connected_sticks. by destruct (isConnected q). }
  destruct (writeError q) as [e|] eqn:E3.
  { injection Hl as <- _. intros p' q1. unfold queue_WritePack, wp_locked. by rewrite E1, E2, E3. }
  destruct (_ <=? _) eqn:E4.
  { injection Hl as <- _. intros p' q1. unfold queue_WritePack, wp_locked. by rewrite E1, E2, E3, E4. }
  destruct (DelayWritePack p (q_w q)); [done| |done]. injection Hl as <- _. apply Close_sticks.
Qed.

Lemma wp_send_reader err q q' e : wp_send err q = Done q' e ->
  q_r q' = q_r q /\ match e with
                    | Some _ => sticks q'
                    | None => err = None /\ q_w q' = q_w q
                    end.
Proof.
  unfold wp_send. destruct (negb _).
  { intros [= <- <-]. rewrite Close_reader. auto using Close_sticks. }
  destruct (_ <=? _); [done|]. destruct err; intros [= <- <-]; [|done].
  rewrite Close_reader. auto using Close_sticks.
Qed.

(** A write that returns no error has appended the frame; one that returns an
    error leaves a queue no write succeeds on. *)
Lemma queue_WritePack_inv p q : match queue_WritePack p q with
  | Done q' None => q_r q' = q_r q /\
      exists bs, frame p = Some bs /\ content (q_w q') = content (q_w q) ++ bs
  | Done q' (Some _) => q_r q' = q_r q /\ sticks q'
  | Panicked _ _ => False
  | Blocked => True
  end.
Proof.
  unfold queue_WritePack. destruct (wp_locked p q) as [q2 [e|e]|q2 why|] eqn:El; [..|done].
  - pose proof (wp_locked_reader _ _ _ _ El) as Hr. pose proof (wp_locked_refuses _ _ _ _ El).
    apply wp_locked_inv in El as (_ & He & _). by destruct e.
  - pose proof (wp_locked_reader _ _ _ _ El) as Hr. apply wp_locked_inv in El as (_ & _ & _ & He).
    destruct (wp_send e q2) as [q3 o|q3 why|] eqn:Es; [| |done].
    + apply wp_send_reader in Es as [Hr' Ho]. rewrite Hr', Hr. destruct o; [done|].
      destruct Ho as [-> ->]. done.
    + unfold wp_send in Es. repeat (destr_hyp Es; try done).
  - unfold wp_locked in El. repeat (destr_hyp El; try done).
Qed.

(** A queue that is connected after a write was so before, and a write that
    failed then has changed nothing. *)
Lemma queue_WritePack_connected p q q' e : queue_WritePack p q = Done q' e -> isConnected q' = true ->
  isConnected q = true /\ (e <> None -> q' = q).
Proof.
  unfold queue_WritePack. destruct (wp_locked p q) as [q2 [e2|e2]|q2 why|] eqn:El; [..|done|done].
  - intros [= <- <-] Hc. apply wp_locked_inv in El as (_ & _ & [-> | Hn]); [done | congruence].
  - apply wp_locked_inv in El as (_ & Hc & _). intros Hs Hc'. split; [done|].
    unfold wp_send in Hs. repeat (destr_hyp Hs; try done);
      injection Hs as <- <-; try done; by rewrite Close_not_connected in Hc'.
Qed.

(** ** The client *)

Context {A : Type} `{PackRecover A}.

Definition client_content (c : Client Sock A) : bytes := content (q_w (queue c)).

Lemma c_write_inv p (c : Client Sock A) : match c_write p c with
  | Done c' None => recover c' = recover c /\ q_r (queue c') = q_r (queue c) /\
      client_content c' = client_content c ++ frames [p]
  | Done c' (Some _) => recover c' = recover c /\ q_r (queue c') = q_r (queue c) /\ sticks (queue c')
  | Panicked _ _ => False
  | Blocked => True
  end.
Proof.
  unfold c_write, client_content. pose proof (queue_WritePack_inv p (queue c)) as Hq.
  destruct (queue_WritePack p (queue c)) as [q [e|]|q why|]; try done.
  destruct Hq as (? & bs & Hf & Hc). cbn. unfold frames. cbn. rewrite Hf, app_nil_r. done.
Qed.

(** What [ps] the connection was given, as far as it is still up. *)
Definition puts (ps : list Pack) (c c' : Client Sock A) : Prop :=
  isConnected (queue c') = true ->
  isConnected (queue c) = true /\ client_content c' = client_content c ++ frames ps.

Lemma puts_nil c c' : queue c' = queue c -> puts [] c c'.
Proof. unfold puts, client_content. intros ->. unfold frames. cbn. by rewrite app_nil_r. Qed.

Lemma puts_app ps1 ps2 c1 c2 c3 : puts ps1 c1 c2 -> puts ps2 c2 c3 -> puts (ps1 ++ ps2) c1 c3.
Proof.
  intros Hp1 Hp2 Hc. destruct (Hp2 Hc) as [Hc2 E2]. destruct (Hp1 Hc2) as [Hc1 E1].
  by rewrite E2, E1, frames_app, app_assoc.
Qed.

Lemma c_write_puts p (c c' : Client Sock A) e : c_write p c = Done c' e ->
  puts (if e is Some _ then [] else [p]) c c'.
Proof.
  intros Hw Hc'. pose proof (c_write_inv p c) as Hi. rewrite Hw in Hi. unfold c_write in Hw.
  destruct (queue_WritePack p (queue c)) as [q e'|q why|] eqn:Eq; [|done..]. injection Hw as <- ->.
  destruct (queue_WritePack_connected _ _ _ _ Eq Hc') as [Hc Hn]. split; [done|].
  destruct e as [e|]; [|apply Hi]. apply (puts_nil c); [by apply Hn | done].
Qed.

Lemma c_write_sticks p (c c' : Client Sock A) : sticks (queue c) -> c_write p c <> Done c' None.
Proof.
  intros Hs. unfold c_write. specialize (Hs p).
  destruct (queue_WritePack p (queue c)) as [q [e|]|q why|] eqn:E; try done.
  by destruct (Hs q).
Qed.

(** What a call that answers packets [ps] and touches nothing else does. *)
Definition answers (ps : list Pack) (c : Client Sock A) (o : exec (Client Sock A) (option qerr)) : Prop :=
  match o with
  | Done c' e => recover c' = recover c /\ q_r (queue c') = q_r (queue c) /\
                 (e = None -> client_content c' = client_content c ++ frames ps) /\
                 exists ps', ps' `sublist_of` ps /\ puts ps' c c' /\ (e = None -> ps' = ps)
  | Panicked _ _ => False
  | Blocked => True
  end.

Lemma answers_write p c : answers [p] c (c_write p c).
Proof.
  pose proof (c_write_inv p c) as Hw. pose proof (c_write_puts p c) as Hp. unfold answers.
  destruct (c_write p c) as [c' e| |]; [|done..]. specialize (Hp c' e eq_refl).
  destruct e; split_and!; try naive_solver. exists []. by split; [apply sublist_nil_l|].
Qed.

Lemma answers_none c : answers [] c (Done c None).
Proof.
  split_and!; [done..| |].
  - intros _. unfold frames. cbn. by rewrite app_nil_r.
  - exists []. by auto using puts_nil.
Qed.

Definition suback_replies (mid : Z) (tops : list Topics) : list Pack :=
  (fun _ => GetSubAckPack mid) <$> filter (fun t => bz (top_Qos t) = 2) tops.

Lemma suback_topics_inv mid tops : forall err c, (err <> None -> sticks (queue c)) ->
  answers (suback_replies mid tops) c (suback_topics mid tops err c) /\
  (err <> None -> forall c', suback_topics mid tops err c <> Done c' None).
Proof.
  induction tops as [|t tops IH]; intros err c Hs; cbn [suback_topics].
  { split; [|by destruct err]. destruct (answers_none c) as (? & ? & ? & ps & ? & ? & ?).
    unfold answers, suback_replies. cbn. split_and!; try done; [naive_solver|]. exists ps. naive_solver. }
  unfold suback_replies. destruct (Z.eqb_spec (bz (top_Qos t)) 2) as [Hq|Hq].
  2:{ rewrite filter_cons_False by done. by apply IH. }
  rewrite filter_cons_True by done. cbn [fmap list_fmap].
  pose proof (c_write_inv (GetSubAckPack mid) c) as Hw.
  pose proof (c_write_sticks (GetSubAckPack mid) c) as Hws.
  pose proof (c_write_puts (GetSubAckPack mid) c) as Hwp.
  destruct (c_write (GetSubAckPack mid) c) as [c1 [e|]| |]; cbn [exec_then]; try done;
    specialize (Hwp c1 _ eq_refl); cbn in Hwp.
  - destruct Hw as (Hw1 & Hw2 & Hw3). destruct (IH (Some e) c1) as [Ha Hb]; [done|].
    specialize (Hb ltac:(done)). split; [|by intros _].
    unfold answers in *. destruct (suback_topics mid tops (Some e) c1) as [c2 e2| |]; [|done..].
    rewrite Hw1, Hw2 in Ha. destruct Ha as (? & ? & _ & ps & Hps & Hpt & _).
    split_and!; try done; [intros ->; by destruct (Hb c2)|].
    exists ps. split_and!; [by apply sublist_cons | exact (puts_app [] ps c c1 c2 Hwp Hpt) | intros ->; by destruct (Hb c2)].
  - destruct Hw as (Hw1 & Hw2 & Hw3). destruct (IH None c1) as [Ha _]; [done|].
    split; [|intros He; by destruct (Hws c1 (Hs He))].
    unfold answers in *. destruct (suback_topics mid tops None c1) as [c2 e2| |]; [|done..].
    destruct Ha as (-> & -> & Ha & ps & Hps & Hpt & Hpe). split_and!; [done..| |].
    + intros He. rewrite (Ha He), Hw3, <- app_assoc. f_equal.
    + exists (GetSubAckPack mid :: ps). split_and!; [by apply sublist_skip | exact (puts_app [_] ps c c1 c2 Hwp Hpt)|].
      intros He. by rewrite (Hpe He).
Qed.

(** What [waitPack] does with a packet: [ps] are answered, and [OnRecover] runs
    when [d] says so. *)
Definition handled (ps : list Pack) (d : bool) (p : Pack) (c : Client Sock A)
    (o : exec (Client Sock A) (option qerr)) : Prop :=
  match o with
  | Done c' e =>
      recover c' = (if d then fst (OnRecover p (recover c)) else recover c) /\
      q_r (queue c') = q_r (queue c) /\
      (e = None -> client_content c' = client_content c ++ frames ps) /\
      exists ps', ps' `sublist_of` ps /\ puts ps' c c' /\ (e = None -> ps' = ps)
  | Panicked c' why => d = true /\ OnRecover p (recover c) = (recover c', Some why) /\
      exists ps', ps' `sublist_of` ps /\ puts ps' c c'
  | Blocked => True
  end.

Lemma answers_handled ps p c o : answers ps c o -> handled ps false p c o.
Proof. unfold answers, handled. destruct o; [done|done|done]. Qed.

Lemma answers_recovered ps p c o : answers ps c o ->
  handled ps true p c (exec_then o (fun err => c_recover p err)).
Proof.
  unfold answers, handled. destruct o as [c' e|c' why|]; cbn [exec_then]; [|done..].
  intros (Hr & Hq & Hc & ps' & Hs & Hp & He). unfold c_recover. rewrite Hr.
  destruct (OnRecover p (recover c)) as [a [why|]]; cbn; split_and!; try done; by exists ps'.
Qed.

Lemma waitPack_handled p c : typed p -> handled (replies p) (delivers p) p c (waitPack p None c).
Proof.
  intros Ht. unfold waitPack, typed, replies, delivers, GetType, GetVariable, GetQos, GetDup in *.
  destruct (pvariable p) as [|v|v|v|v|v|v|v|v]; simpl in Ht.
  - assert (Hn : forall k, In k [CONNECT; PUBLISH; PUBACK; PUBREC; PUBREL; PUBCOMP; SUBSCRIBE; SUBACK;
                     UNSUBSCRIBE; UNSUBACK] -> (bz (msg_type p) =? k) = false).
    { intros k Hk. apply Z.eqb_neq. intros E. apply Ht. simpl in Hk. rewrite E. tauto. }
    rewrite (Hn CONNECT), (Hn PUBLISH), (Hn PUBACK), (Hn PUBREC), (Hn PUBREL), (Hn PUBCOMP),
      (Hn SUBSCRIBE), (Hn UNSUBSCRIBE) by (simpl; tauto). cbn [orb].
    destruct (bz (msg_type p) =? PINGREQ).
    + apply answers_recovered, answers_write.
    + apply answers_handled, answers_none.
  - rewrite Ht. apply answers_handled.
    exact (answers_write (GetConnAckPack x00)
      (mkClient (SetAlive (fst (GetKeepAlive v)) (queue c)) (recover c) (isStop c) (curr_id c))).
  - done.
  - rewrite Ht. apply answers_recovered.
    destruct (bz (qos_level p) =? 1); [apply answers_write|].
    destruct (bz (qos_level p) =? 2); [apply answers_write | apply answers_none].
  - destruct Ht as [-> | [-> | [-> | ->]]]; apply answers_handled;
      first [apply answers_none | apply answers_write].
  - rewrite Ht. apply answers_recovered. by apply suback_topics_inv.
  - rewrite Ht. apply answers_handled, answers_none.
  - rewrite Ht. apply answers_recovered, answers_write.
  - rewrite Ht. apply answers_handled, answers_none.
Qed.

(** ** The read loop *)

Lemma ReadPackInLoop_fuel f : forall c f2, (read_fuel c <= f)%nat -> (read_fuel c <= f2)%nat ->
  ReadPackInLoop f c = ReadPackInLoop f2 c.
Proof.
  unfold read_fuel. induction f as [|f IH]; intros c [|f2] Hf1 Hf2; [lia..|]. cbn [ReadPackInLoop].
  destruct (isConnected (queue c)); [|done]. destruct (negb _); [done|].
  destruct (ReadPack (q_r (queue c)) (MaxPackSize (queue c))) as [[o e] r] eqn:Er.
  destruct e; [done|]. destruct o as [p|]; [|done].
  pose proof (ReadPack_typed _ _ _ _ Er) as Ht. apply ReadPack_consumes in Er.
  pose proof (waitPack_handled p (set_reader r c) Ht) as Hw. unfold handled in Hw.
  destruct (waitPack p None (set_reader r c)) as [c' [e|]| |]; cbn [exec_then]; try done.
  destruct Hw as (_ & Hr & _). cbn in Hr. apply IH; rewrite Hr; lia.
Qed.

Lemma ReadPackInLoop_closed f : forall (c c' : Client Sock A) u,
  ReadPackInLoop f c = Done c' u -> isConnected (queue c') = false.
Proof.
  induction f as [|f IH]; intros c c' u; cbn [ReadPackInLoop]; [done|].
  destruct (isConnected (queue c)) eqn:Hc; [|by intros [= <- <-]]. destruct (negb _); [done|].
  destruct (ReadPack _ _) as [[o e] r]. destruct e as [e|].
  { intros [= <- <-]. apply Close_not_connected. }
  destruct o as [p|]; [|done].
  destruct (waitPack p None (set_reader r c)) as [c1 [e|]| |]; cbn [exec_then]; try done; [|apply IH].
  intros [= <- <-]. apply Close_not_connected.
Qed.

End Write.

(** ** Numbers *)

Lemma stretch_small_bool :
  Zall (fun a => stretch a =? 3 * a / 2 + 1) (Z.to_nat 65536) 0 = true.
Proof. vm_compute. reflexivity. Qed.

Lemma stretch_small a : 0 <= a < 65536 -> stretch a = 3 * a / 2 + 1.
Proof.
  intros Ha. apply Z.eqb_eq. apply (Zall_spec _ _ _ stretch_small_bool).
  rewrite Z2Nat.id by lia. lia.
Qed.

(** The message ids of [k] publications in a row. *)
Fixpoint next_ids {Sock A} (k : nat) (c : Client Sock A) : list Z :=
  match k with
  | O => []
  | S k => let '(c, id) := getOnlineMsgId c in id :: next_ids k c
  end.

Lemma next_ids_eq {Sock A} k : forall c : Client Sock A, 0 <= curr_id c <= 65535 ->
  next_ids k c = (fun i => (curr_id c + Z.of_nat i) mod 65535 + 1) <$> seq 0 k.
Proof.
  induction k as [|k IH]; intros c Hc; [done|]. cbn [next_ids getOnlineMsgId].
  destruct (Z.eqb_spec (curr_id c) 65535) as [E|E]; cbn [seq fmap list_fmap].
  - f_equal; [by rewrite E|]. rewrite IH by (cbn; lia). rewrite <- fmap_S_seq, <- list_fmap_compose.
    apply list_fmap_ext. intros _ i _. cbn -[Z.of_nat Z.modulo]. rewrite E. f_equal.
    rewrite <- (Z_mod_plus_full (1 + Z.of_nat i) 1 65535). f_equal. lia.
  - f_equal; [rewrite Z.add_0_r, Z.mod_small by lia; lia|]. rewrite IH by (cbn; lia).
    rewrite <- fmap_S_seq, <- list_fmap_compose. apply list_fmap_ext. intros _ i _.
    cbn -[Z.of_nat Z.modulo]. f_equal. f_equal. lia.
Qed.

Lemma getRemainingLength_panics n : 2 ^ 28 <= n -> getRemainingLength n = Panic "index out of range".
Proof.
  change (2 ^ 28) with (128 * 128 * 128 * 128). intros Hn.
  assert (H1 : 128 * 128 * 128 <= n / 128) by (apply Z.div_le_lower_bound; lia).
  assert (H2 : 128 * 128 <= n / 128 / 128) by (apply Z.div_le_lower_bound; lia).
  assert (H3 : 128 <= n / 128 / 128 / 128) by (apply Z.div_le_lower_bound; lia).
  unfold getRemainingLength. rewrite !remaining_digits_step by lia.
  rewrite !(proj2 (Z.ltb_ge _ 128)) by lia. reflexivity.
Qed.

(** ** Properties *)

(** C8. Under every interleaving of writers, flusher and closers, as long as the
    queue is connected: (1) the connection has been given, or the buffer holds,
    whole frames in the order of the writes, as long as no failing writer has
    yet to close the queue; (2) when the running flusher waits on an empty
    channel and no writer is on its way to signal it, the buffer is empty, so no
    accepted byte is left behind. *)
Theorem queue_no_torn_or_stranded_frames {Sock : Type} `{SocketLaws Sock}
  (q : PackQueue Sock) (s : qsys Sock)
  (Hq : fch_tokens q = 0) (Hb : Buffered (q_w q) = 0)
  (Hs : rtc qstep (mkQsys q [] true []) s) (Hc : isConnected (qs_queue s) = true) :
  (Forall (fun e => e = None) (senders s) ->
     content (q_w (qs_queue s)) = content (q_w q) ++ frames (sent_packs s)) /\
  (flusher s = true -> senders s = [] -> fch_tokens (qs_queue s) = 0 ->
     Buffered (q_w (qs_queue s)) = 0).
Proof.
  apply (qsteps_inv (content (q_w q))) in Hs.
  - destruct Hs as [Ht Hi]. destruct (Hi Hc) as [H1 H2]. split; [done|].
    intros Hf Hn Htk. destruct (H2 Hf) as [?|[?|?]]; [done | lia | done].
  - split; cbn; [lia|]. intros _. split; [|by left]. by rewrite app_nil_r.
Qed.

Definition sample_queue : PackQueue mem_sock :=
  NewPackQueue 60 (mkReader [] EOF) (NewWriterSize (newTCPConn []) 64) true 10 0.
Definition sample_queue' : PackQueue mem_sock :=
  match wp_locked (GetPingResp x00 x00) sample_queue with Done q _ => q | _ => sample_queue end.

Lemma queue_no_torn_or_stranded_frames_witness :
  (Forall (fun e : option werr => e = None) [None] ->
     content (q_w sample_queue') = content (q_w sample_queue) ++ frames [GetPingResp x00 x00]) /\
  (true = true -> [None : option werr] = [] -> fch_tokens sample_queue' = 0 ->
     Buffered (q_w sample_queue') = 0).
Proof.
  apply (queue_no_torn_or_stranded_frames sample_queue
           (mkQsys sample_queue' [None] true [GetPingResp x00 x00])); [reflexivity | reflexivity | | reflexivity].
  apply rtc_once. apply (step_write _ _ [] true [] (GetPingResp x00 x00) None). vm_compute. reflexivity.
Defined.

(** For a packet [ReadPack] accepts, [waitPack] never fails a type assertion:
    it appends to the connection exactly the frames of the protocol's answers
    (PUBACK or PUBREC by QoS, PUBREL to PUBREC, PUBCOMP to PUBREL, SUBACK,
    UNSUBACK, PINGRESP, CONNACK) with the packet's message id when it reports no
    error, and passes PUBLISH, SUBSCRIBE, UNSUBSCRIBE and PINGREQ to the
    receiver, once, whether the answer could be written or not; only the receiver
    can panic. *)
Lemma waitPack_answers {Sock : Type} `{SocketLaws Sock} {A : Type} `{PackRecover A}
  (c : Client Sock A) (r r' : reader) (p : Pack) (Hp : ReadPack r (MaxPackSize (queue c)) = (Some p, None, r')) :
  match waitPack p None c with
  | Done c' e =>
      recover c' = (if delivers p then fst (OnRecover p (recover c)) else recover c) /\
      (e = None -> content (q_w (queue c')) = content (q_w (queue c)) ++ frames (replies p))
  | Panicked _ why => delivers p = true /\ snd (OnRecover p (recover c)) = Some why
  | Blocked => True
  end.
Proof.
  apply ReadPack_typed in Hp. pose proof (waitPack_handled p c Hp) as Hw. unfold handled in Hw.
  destruct (waitPack p None c); [split; apply Hw| |done]. by destruct Hw as (? & -> & _).
Qed.

Definition sample_client : Client mem_sock inbox :=
  NewClient 60 [] (mkReader [x32; x05; x00; x01; x61; x00; x09] EOF)
    (NewWriterSize (newTCPConn []) 64) true 10 0.

Lemma waitPack_answers_witness :
  match waitPack (pub_pack x01 x00 5 9 [x61] []) None sample_client with
  | Done c' e =>
      recover c' = [pub_pack x01 x00 5 9 [x61] []] /\
      (e = None -> content (q_w (queue c')) = [] ++ frames [GetPubAckPack 9])
  | Panicked _ why => true = true /\ None = Some why
  | Blocked => True
  end.
Proof.
  exact (waitPack_answers sample_client (mkReader [x32; x05; x00; x01; x61; x00; x09] EOF)
           (mkReader [] EOF) (pub_pack x01 x00 5 9 [x61] []) eq_refl).
Defined.

(** The read loop ends: each turn consumes input, so the fuel the model runs
    it with is never used up, and it returns only with the queue closed, so that
    [Listen_loop] leaves a client whose writes are refused. *)
Lemma read_loop_terminates {Sock : Type} `{SocketLaws Sock} {A : Type} `{PackRecover A}
  (c : Client Sock A) (k : nat) :
  ReadPackInLoop (read_fuel c + k) c = ReadPackInLoop (read_fuel c) c /\
  forall c' u, ReadPackInLoop (read_fuel c) c = Done c' u ->
    isConnected (queue c') = false /\ sticks (queue c').
Proof.
  split; [apply ReadPackInLoop_fuel; lia|]. intros c' u Hr. apply ReadPackInLoop_closed in Hr.
  split; [done | by apply not_connected_sticks].
Qed.

(** The message ids of publications are those of MQTT, 1 to 65535, never 0,
    and 65535 publications in a row have different ids. *)
Theorem message_ids_cycle {Sock A : Type} (c : Client Sock A) (k : nat)
  (Hc : 0 <= curr_id c <= 65535) :
  Forall (fun id => 1 <= id <= 65535) (next_ids k c) /\
  ((k <= Z.to_nat 65535)%nat -> NoDup (next_ids k c)).
Proof.
  rewrite next_ids_eq by done. split.
  - rewrite Forall_fmap, Forall_forall. intros i _. cbn -[Z.modulo].
    pose proof (Z.mod_pos_bound (curr_id c + Z.of_nat i) 65535). lia.
  - intros Hk. apply NoDup_fmap_2_strong; [|apply NoDup_ListNoDup, seq_NoDup].
    intros i j Hi Hj E. apply elem_of_seq in Hi, Hj.
    assert (E' : (curr_id c + Z.of_nat i) mod 65535 = (curr_id c + Z.of_nat j) mod 65535) by lia.
    pose proof (Z.div_mod (curr_id c + Z.of_nat i) 65535). pose proof (Z.div_mod (curr_id c + Z.of_nat j) 65535).
    nia.
Qed.

Lemma message_ids_cycle_witness :
  Forall (fun id => 1 <= id <= 65535) (next_ids 3 (mkClient sample_queue ([] : inbox) false 65534)) /\
  ((3 <= Z.to_nat 65535)%nat -> NoDup (next_ids 3 (mkClient sample_queue ([] : inbox) false 65534))).
Proof. apply (message_ids_cycle (mkClient sample_queue ([] : inbox) false 65534) 3). cbn. lia. Defined.

(** A publication whose remaining length needs a fifth digit panics inside
    [DelayWritePack] with [writelock] held: this write returns an error and
    closes the queue, and every later write blocks for ever. *)
Lemma oversized_write_deadlocks {Sock : Type} `{SocketLaws Sock} (q : PackQueue Sock)
  (qos dup : byte) (mid : Z) (t m : bytes)
  (Hl : locked q = false) (Hc : isConnected q = true) (He : writeError q = None)
  (Ha : 0 < Available (q_w q)) (Hw : b_err (q_w q) = None)
  (Hn : 2 ^ 28 <= 2 + zlen t + zlen m) :
  exists q' why, queue_WritePack (GetPubPack qos dup mid (Some t) m) q = Done q' (Some (QPanic why)) /\
    status q' = CLOSED /\ forall p, queue_WritePack p q' = Blocked.
Proof.
  set (p := GetPubPack qos dup mid (Some t) m).
  assert (Hd : exists w why, DelayWritePack p (q_w q) = WPanic w why).
  { unfold DelayWritePack, wseq, writeByte. cbn [w_WriteByte bufw_BufWriter]. unfold bufw_WriteByte.
    rewrite Hw, (proj2 (Z.leb_gt (Available (q_w q)) 0)) by done. cbn [fmap option_fmap option_map].
    unfold write_body, write_publish, write_length, wseq.
    cbn [p GetPubPack msg_type pvariable topic_name SetType SetDup SetQos upd Publish_SetMsg
         Publish_SetTopic Publish_SetMid msg]. cbn [bz Byte.to_N].
    rewrite getRemainingLength_panics by (destruct (0 <? _); lia). by do 2 eexists. }
  destruct Hd as (w & why & Hd). unfold queue_WritePack at 1, wp_locked.
  rewrite Hl, Hc, He, (proj2 (Z.leb_gt (Available (q_w q)) 0)), Hd by done. cbn [negb].
  do 2 eexists. split; [reflexivity|]. split; [apply Close_status|].
  intros p'. unfold queue_WritePack, wp_locked, Close, close_conn. cbn. by destruct (has_conn q).
Qed.

Lemma oversized_write_deadlocks_witness :
  exists q' why,
    queue_WritePack (GetPubPack x00 x00 1 (Some [x61]) (replicate (Z.to_nat (2 ^ 28)) x00)) sample_queue
      = Done q' (Some (QPanic why)) /\
    status q' = CLOSED /\ forall p, queue_WritePack p q' = Blocked.
Proof.
  apply (oversized_write_deadlocks sample_queue x00 x00 1 [x61] (replicate (Z.to_nat (2 ^ 28)) x00));
    [reflexivity..|]. 
  unfold zlen. rewrite length_replicate, Z2Nat.id by lia. lia.
Defined.
