(* ===== verification/Session.v ===== *)
(** * Gate sessions

    [sessionagent] of [gate/base/session.go]: its construction, its local
    accessors, its copies and its wire form.  The settings of a session are a Go
    map held by reference, so the model has a store of maps ([sw_maps]) and a
    store of session objects ([sw_sess]); a [None] reference is a nil map.  A
    lock that a panicking call did not release stays held ([held]), and the next
    call that takes it blocks.

    Outside the model: the protobuf codec ([proto_marshal], [proto_unmarshal]),
    the random ids ([gen_id]), the guest predicates ([run_judge]) and the order
    in which Go visits a map ([range_order]). *)
From Stdlib Require Import Strings.Ascii.
From S2P Require Import Prelude.
#[local] Open Scope mq_scope.
#[local] Open Scope st_scope.
#[local] Open Scope string_scope.
#[local] Open Scope Z_scope.

Abbreviation mref := positive.
Abbreviation sref := positive.

(** ** State *)

Record SessionImp := mkSessionImp {
  IP : string; Network : string; UserId : string; SessionId : string; ServerId : string;
  GateInstanceId : string; TraceId : string; SpanId : string; Topic : string;
  Settings : option mref }.

#[export] Instance eta_SessionImp : Eta SessionImp := fun r =>
  mkSessionImp (IP r) (Network r) (UserId r) (SessionId r) (ServerId r) (GateInstanceId r)
    (TraceId r) (SpanId r) (Topic r) (Settings r).

Definition new_SessionImp : SessionImp := mkSessionImp "" "" "" "" "" "" "" "" "" None.

(** [app] says whether the application pointer is set; [judgeGuest] names the
    predicate installed. *)
Record sessionagent := mkSessionagent {
  app : bool; session : SessionImp; held : bool; userdata : option nat; judgeGuest : option nat }.

#[export] Instance eta_sessionagent : Eta sessionagent := fun r =>
  mkSessionagent (app r) (session r) (held r) (userdata r) (judgeGuest r).

Record sworld := mkSworld {
  sw_maps : gmap mref (gmap string string); sw_sess : gmap sref sessionagent; sw_ids : nat }.

#[export] Instance eta_sworld : Eta sworld := fun r => mkSworld (sw_maps r) (sw_sess r) (sw_ids r).

(** A session as the wire carries it: protobuf does not tell a nil map from an
    empty one. *)
Record snapshot := mkSnapshot {
  sn_IP : string; sn_Network : string; sn_UserId : string; sn_SessionId : string;
  sn_ServerId : string; sn_GateInstanceId : string; sn_TraceId : string; sn_SpanId : string;
  sn_Topic : string; sn_Settings : gmap string string }.

#[export] Instance eta_snapshot : Eta snapshot := fun r =>
  mkSnapshot (sn_IP r) (sn_Network r) (sn_UserId r) (sn_SessionId r) (sn_ServerId r)
    (sn_GateInstanceId r) (sn_TraceId r) (sn_SpanId r) (sn_Topic r) (sn_Settings r).

#[export] Instance snapshot_eq_dec : EqDecision snapshot.
Proof. solve_decision. Defined.

(** The values of a [map[string]interface{}] that the code looks at. *)
Inductive gval :=
| GNil
| GString (s : string)
| GSettings (m : option mref)
| GOther.

Abbreviation SM := (ST sworld).

(** ** The stores *)

Definition new_map (m : gmap string string) : SM mref := fun w =>
  let r := fresh (dom (sw_maps w)) in Done (w <| sw_maps := <[r := m]> (sw_maps w) |>) r.

Definition new_session (s : sessionagent) : SM sref := fun w =>
  let r := fresh (dom (sw_sess w)) in Done (w <| sw_sess := <[r := s]> (sw_sess w) |>) r.

(** The contents of a map; a nil map reads as empty. *)
Definition read_map (w : sworld) (r : option mref) : gmap string string :=
  match r with Some r => default ∅ (sw_maps w !! r) | None => ∅ end.

Definition write_map (r : mref) (f : gmap string string -> gmap string string) : SM unit :=
  st_mod (fun w => w <| sw_maps := alter f r (sw_maps w) |>).

(** The receiver of a method call; a nil pointer panics. *)
Definition this (s : sref) : SM sessionagent := fun w =>
  match sw_sess w !! s with
  | Some a => Done w a
  | None => Panicked w "nil pointer dereference"
  end.

Definition put (s : sref) (f : sessionagent -> sessionagent) : SM unit :=
  st_mod (fun w => w <| sw_sess := alter f s (sw_sess w) |>).

Definition on_imp (f : SessionImp -> SessionImp) (a : sessionagent) : sessionagent :=
  let i := session a in a <| session := f i |>.

(** [lock.Lock()] and [lock.RLock()] wait for a holder. *)
Definition Lock (s : sref) : SM unit :=
  let* a := this s in
  if held a then fun _ => Blocked else put s (fun a => a <| held := true |>).
Definition Unlock (s : sref) : SM unit := put s (fun a => a <| held := false |>).
Definition RLock (s : sref) : SM unit :=
  let* a := this s in
  if held a then fun _ => Blocked else st_ret tt.

(** [lock.Lock(); defer lock.Unlock()]: the lock is released on a panic too. *)
Definition deferred {A} (s : sref) (m : SM A) : SM A :=
  do* Lock s in
  fun w => match m w with
           | Done w a => exec_then (Unlock s w) (fun _ w => Done w a)
           | Panicked w why => exec_then (Unlock s w) (fun _ w => Panicked w why)
           | Blocked => Blocked
           end.

Section Session.
Context (proto_marshal : snapshot -> result string bytes)
        (proto_unmarshal : bytes -> result string snapshot)
        (gen_id : nat -> string)
        (run_judge : nat -> SessionImp -> bool)
        (global_judge : option nat)
        (range_order : gmap string string -> list (string * string)).

(** [mqanttools.GenerateID().String()] *)
Definition GenerateID : SM string := fun w =>
  Done (w <| sw_ids := S (sw_ids w) |>) (gen_id (sw_ids w)).

(** ** Wire form *)

Definition snap (w : sworld) (i : SessionImp) : snapshot :=
  mkSnapshot (IP i) (Network i) (UserId i) (SessionId i) (ServerId i) (GateInstanceId i)
    (TraceId i) (SpanId i) (Topic i) (read_map w (Settings i)).

Definition Serializable (s : sref) : SM (result string bytes) :=
  do* RLock s in
  let* a := this s in
  let* w := st_get in
  st_ret (proto_marshal (snap w (session a))).

(** [proto.Unmarshal] into a fresh message: its map is nil when the wire has no
    entry. *)
Definition unmarshal_imp (data : bytes) : SM (result string SessionImp) :=
  match proto_unmarshal data with
  | Err e => st_ret (Err e)
  | Ok n =>
      let* m := (if decide (sn_Settings n = ∅) then st_ret None
                 else let* r := new_map (sn_Settings n) in st_ret (Some r)) in
      st_ret (Ok (mkSessionImp (sn_IP n) (sn_Network n) (sn_UserId n) (sn_SessionId n)
        (sn_ServerId n) (sn_GateInstanceId n) (sn_TraceId n) (sn_SpanId n) (sn_Topic n) m))
  end.

(** [if GetSettings() == nil { Settings = make(map[string]string) }] *)
Definition make_settings (i : SessionImp) : SM SessionImp :=
  match Settings i with
  | Some _ => st_ret i
  | None => let* r := new_map ∅ in st_ret (i <| Settings := Some r |>)
  end.

Definition Unmarshal (s : sref) (data : bytes) : SM (option string) :=
  let* o := unmarshal_imp data in
  match o with
  | Err e => st_ret (Some e)
  | Ok se =>
      do* put s (fun a => a <| session := se |>) in
      match Settings se with
      | Some _ => st_ret None
      | None =>
          do* Lock s in
          let* r := new_map ∅ in
          do* put s (on_imp (fun i => i <| Settings := Some r |>)) in
          do* Unlock s in st_ret None
      end
  end.

(** ** Construction *)

Definition NewSession (ap : bool) (data : bytes) : SM (result string sref) :=
  let* o := unmarshal_imp data in
  match o with
  | Err e => st_ret (Err e)
  | Ok se =>
      let* se := make_settings se in
      let* r := new_session (mkSessionagent ap se false None (if ap then global_judge else None)) in
      st_ret (Ok r)
  end.

(** [x := s[k]; if x != nil { f(x.(string)) }] *)
Definition field_if (s : sref) (v : option gval) (f : string -> SessionImp -> SessionImp) : SM unit :=
  match v with
  | None | Some GNil => st_ret tt
  | Some (GString x) => put s (on_imp (f x))
  | Some _ => st_panic "interface conversion"
  end.

(** [if x, ok := s[k]; ok { f(x.(string)) }]: a nil value panics here. *)
Definition field_ok (s : sref) (v : option gval) (f : string -> SessionImp -> SessionImp) : SM unit :=
  match v with
  | None => st_ret tt
  | Some (GString x) => put s (on_imp (f x))
  | Some _ => st_panic "interface conversion"
  end.

Definition updateMap (s : sref) (d : gmap string gval) : SM unit :=
  do* field_if s (d !! "Userid") (fun x i => i <| UserId := x |>) in
  do* field_if s (d !! "IP") (fun x i => i <| IP := x |>) in
  do* field_ok s (d !! "Topic") (fun x i => i <| Topic := x |>) in
  do* field_if s (d !! "Network") (fun x i => i <| Network := x |>) in
  do* field_if s (d !! "Sessionid") (fun x i => i <| SessionId := x |>) in
  do* field_if s (d !! "Serverid") (fun x i => i <| ServerId := x |>) in
  do* field_ok s (d !! "GateInstanceID") (fun x i => i <| GateInstanceId := x |>) in
  match d !! "Settings" with
  | None | Some GNil => st_ret tt
  | Some (GSettings m) =>
      do* Lock s in
      do* put s (on_imp (fun i => i <| Settings := m |>)) in
      Unlock s
  | Some _ => do* Lock s in st_panic "interface conversion"
  end.

Definition NewSessionByMap (ap : bool) (d : gmap string gval) : SM sref :=
  let* s := new_session (mkSessionagent ap new_SessionImp false None None) in
  do* updateMap s d in
  let* a := this s in
  let* i := make_settings (session a) in
  do* put s (fun a => a <| session := i |>) in
  do* put s (fun a => if ap then a <| judgeGuest := global_judge |> else a) in
  st_ret s.

(** ** Accessors *)

(** Getters that take the read lock, and getters that do not. *)
Definition locked_get {A} (f : SessionImp -> A) (s : sref) : SM A :=
  do* RLock s in let* a := this s in st_ret (f (session a)).
Definition plain_get {A} (f : SessionImp -> A) (s : sref) : SM A :=
  let* a := this s in st_ret (f (session a)).

Definition GetIP : sref -> SM string := locked_get IP.
Definition GetTopic : sref -> SM string := locked_get Topic.
Definition GetNetwork : sref -> SM string := locked_get Network.
Definition GetUserID : sref -> SM string := plain_get UserId.
Definition GetSessionID : sref -> SM string := plain_get SessionId.
Definition GetServerID : sref -> SM string := plain_get ServerId.
Definition GetGateInstanceID : sref -> SM string := plain_get GateInstanceId.
Definition TraceID : sref -> SM string := plain_get TraceId.
Definition SpanID : sref -> SM string := plain_get SpanId.
Definition GetUserIDInt64 : sref -> SM Z := plain_get (fun i => default (-1) (ParseInt (UserId i))).

Definition locked_set (f : SessionImp -> SessionImp) (s : sref) : SM unit :=
  do* Lock s in do* put s (on_imp f) in Unlock s.
Definition plain_set (f : SessionImp -> SessionImp) (s : sref) : SM unit :=
  do* this s in put s (on_imp f).

Definition SetIP (x : string) : sref -> SM unit := locked_set (fun i => i <| IP := x |>).
Definition SetTopic (x : string) : sref -> SM unit := locked_set (fun i => i <| Topic := x |>).
Definition SetNetwork (x : string) : sref -> SM unit := locked_set (fun i => i <| Network := x |>).
Definition SetUserID (x : string) : sref -> SM unit := locked_set (fun i => i <| UserId := x |>).
Definition SetSessionID (x : string) : sref -> SM unit := plain_set (fun i => i <| SessionId := x |>).
Definition SetServerID (x : string) : sref -> SM unit := plain_set (fun i => i <| ServerId := x |>).
Definition SetGateInstanceID (x : string) : sref -> SM unit :=
  plain_set (fun i => i <| GateInstanceId := x |>).
Definition SetSettings (m : option mref) : sref -> SM unit := locked_set (fun i => i <| Settings := m |>).
Definition SetLocalUserData (d : option nat) (s : sref) : SM unit :=
  do* this s in put s (fun a => a <| userdata := d |>).
Definition LocalUserData (s : sref) : SM (option nat) := let* a := this s in st_ret (userdata a).
Definition JudgeGuest (j : option nat) (s : sref) : SM unit :=
  do* this s in put s (fun a => a <| judgeGuest := j |>).

(** ** Settings *)

(** [SettingsRange]: the callback works on a state of its own until it answers
    false. *)
Fixpoint range_while {B} (f : string -> string -> B -> B * bool) (l : list (string * string)) (b : B) : B :=
  match l with
  | [] => b
  | (k, v) :: l => let '(b, go) := f k v b in if go then range_while f l b else b
  end.

Definition SettingsRange {B} (f : string -> string -> B -> B * bool) (b : B) (s : sref) : SM B :=
  deferred s (
    let* a := this s in
    match Settings (session a) with
    | None => st_ret b
    | Some r => let* w := st_get in st_ret (range_while f (range_order (read_map w (Some r))) b)
    end).

(** [ImportSettings]: the keys already there win; a nil map of the session is
    replaced by the argument itself. *)
Definition ImportSettings (m : option mref) (s : sref) : SM unit :=
  do* Lock s in
  let* a := this s in
  do* (match Settings (session a) with
       | None => put s (on_imp (fun i => i <| Settings := m |>))
       | Some r => let* w := st_get in write_map r (fun own => own ∪ read_map w m)
       end) in
  Unlock s.

Definition CloneSettings (s : sref) : SM mref :=
  deferred s (let* a := this s in let* w := st_get in new_map (read_map w (Settings (session a)))).

(** Assignment to an entry of a nil map panics, here with the lock held. *)
Definition set_entry (s : sref) (key value : string) : SM unit :=
  let* a := this s in
  match Settings (session a) with
  | None => st_panic "assignment to entry in nil map"
  | Some r => write_map r <[key := value]>
  end.

Definition SetLocalKV (key value : string) (s : sref) : SM unit :=
  do* Lock s in do* set_entry s key value in Unlock s.

Definition RemoveLocalKV (key : string) (s : sref) : SM unit :=
  do* Lock s in
  let* a := this s in
  do* (match Settings (session a) with
       | None => st_ret tt
       | Some r => write_map r (delete key)
       end) in
  Unlock s.

Definition Load (key : string) (s : sref) : SM (string * bool) :=
  do* RLock s in
  let* a := this s in
  let* w := st_get in
  st_ret (match read_map w (Settings (session a)) !! key with
          | Some v => (v, true)
          | None => ("", false)
          end).

Definition Get (key : string) (s : sref) : SM string :=
  do* RLock s in
  let* a := this s in
  let* w := st_get in
  st_ret (default "" (read_map w (Settings (session a)) !! key)).

(** ** Copies *)

(** [update]: the fields of another session, and its settings in a map of our
    own. *)
Definition update (s src : sref) : SM unit :=
  let* x := GetUserID src in do* plain_set (fun i => i <| UserId := x |>) s in
  let* x := GetIP src in do* plain_set (fun i => i <| IP := x |>) s in
  let* x := GetTopic src in do* plain_set (fun i => i <| Topic := x |>) s in
  let* x := GetNetwork src in do* plain_set (fun i => i <| Network := x |>) s in
  let* x := GetSessionID src in do* plain_set (fun i => i <| SessionId := x |>) s in
  let* x := GetServerID src in do* plain_set (fun i => i <| ServerId := x |>) s in
  let* x := GetGateInstanceID src in do* plain_set (fun i => i <| GateInstanceId := x |>) s in
  let* m := SettingsRange (fun k v m => (<[k := v]> m, true)) (∅ : gmap string string) src in
  let* r := new_map m in
  locked_set (fun i => i <| Settings := Some r |>) s.

(** [Clone] copies the settings; the topic and the guest predicate are not
    copied. *)
Definition Clone (s : sref) : SM sref :=
  do* Lock s in
  let* a := this s in
  let* w := st_get in
  let* tmp := new_map (read_map w (Settings (session a))) in
  let* span := GenerateID in
  let i := session a in
  let* r := new_session (mkSessionagent (app a)
    (mkSessionImp (IP i) (Network i) (UserId i) (SessionId i) (ServerId i) (GateInstanceId i)
       (TraceId i) span "" (Some tmp)) false (userdata a) None) in
  do* Unlock s in st_ret r.

Definition CreateTrace (s : sref) : SM unit :=
  let* t := GenerateID in
  do* plain_set (fun i => i <| TraceId := t |>) s in
  let* sp := GenerateID in
  plain_set (fun i => i <| SpanId := sp |>) s.

(** [ExtractSpan] shares the settings map of the session. *)
Definition ExtractSpan (s : sref) : SM sref :=
  let* a := this s in
  let* span := GenerateID in
  let i := session a in
  new_session (mkSessionagent (app a)
    (mkSessionImp (IP i) (Network i) (UserId i) (SessionId i) (ServerId i) (GateInstanceId i)
       (TraceId i) span "" (Settings i)) false (userdata a) None).

Definition IsGuest (s : sref) : SM bool :=
  let* a := this s in
  match judgeGuest a with
  | Some j => st_ret (run_judge j (session a))
  | None => st_ret (bool_decide (UserId (session a) = ""))
  end.

(** ** Rpc arguments: the session branch of [Gate.Serialize] and
    [Gate.Deserialize] *)

Definition Serialize : sref -> SM (result string bytes) := Serializable.

Definition Deserialize (ap : bool) (b : bytes) : SM (result string sref) :=
  let* o := NewSession ap b in
  match o with
  | Err e => st_ret (Err e)
  | Ok mps => let* c := Clone mps in st_ret (Ok c)
  end.

End Session.
