(* ===== verification/GateHandler.v ===== *)
(** * The gate's session handler, and sessions in other modules

    [handler] of [gate/base/gate_handler.go], which keeps the connected agents
    by session id and serves the session rpcs; and the rpc methods of
    [sessionagent] in [gate/base/session.go] that other modules call and that
    end up in it.

    Outside the model: what an agent does with a message ([agent_WriteMsg],
    [agent_Close]), the storage and learner interfaces an application installs,
    and the order in which [sync.Map] is walked ([walk_order]). *)
From S2P Require Import Prelude Session.
#[local] Open Scope mq_scope.
#[local] Open Scope st_scope.
#[local] Open Scope string_scope.
#[local] Open Scope Z_scope.

Abbreviation aref := positive.

(** [gate.Agent]: its session once the handshake has built it, the handshake
    flag, the close flag and whatever state its connection has. *)
Record gagent (Conn : Type) := mkGagent {
  ag_session : option sref; protocol_ok : bool; isclose : bool; ag_conn : Conn }.
Arguments mkGagent {Conn}.
Arguments ag_session {Conn}.
Arguments protocol_ok {Conn}.
Arguments isclose {Conn}.
Arguments ag_conn {Conn}.

#[export] Instance eta_gagent Conn : Eta (gagent Conn) := fun r =>
  mkGagent (ag_session r) (protocol_ok r) (isclose r) (ag_conn r).

Inductive learner_event :=
| LConnect (s : option sref)
| LDisConnect (s : sref).

(** The state of the gate process: sessions, agents, the handler's two fields,
    the storage behind the storage handler and what the learner was told. *)
Record hworld (Conn St : Type) := mkHworld {
  hw_sess : sworld; hw_agents : gmap aref (gagent Conn); sessions : gmap string aref;
  agentNum : Z; hw_storage : St; hw_events : list learner_event }.
Arguments mkHworld {Conn St}.
Arguments hw_sess {Conn St}.
Arguments hw_agents {Conn St}.
Arguments sessions {Conn St}.
Arguments agentNum {Conn St}.
Arguments hw_storage {Conn St}.
Arguments hw_events {Conn St}.

#[export] Instance eta_hworld Conn St : Eta (hworld Conn St) := fun r =>
  mkHworld (hw_sess r) (hw_agents r) (sessions r) (agentNum r) (hw_storage r) (hw_events r).

(** The rpcs of a session, with their arguments. *)
Inductive request :=
| RUpdate (sid : string)
| RBind (sid uid : string)
| RUnBind (sid : string)
| RPush (sid : string) (settings : gmap string string)
| RSet (sid key value : string)
| RRemove (sid key : string)
| RSend (sid topic : string) (body : bytes)
| RSendBatch (sids topic : string) (body : bytes)
| RBroadCast (topic : string) (body : bytes)
| RIsConnect (sid uid : string)
| RClose (sid : string).

(** What a call gives back: a session of the caller's process, or a value. *)
Inductive reply :=
| ANil
| ASession (s : sref)
| AInt (n : Z)
| ABool (b : bool)
| AString (s : string).

(** [strings.Split(s, ",")] *)
Definition split_comma (s : string) : list string := split_on (Ascii.ascii_of_nat 44) s "".

Section Handler.
Context {Conn St : Type}
        (proto_marshal : snapshot -> result string bytes)
        (proto_unmarshal : bytes -> result string snapshot)
        (gen_id : nat -> string)
        (global_judge : option nat)
        (range_order : gmap string string -> list (string * string))
        (walk_order : gmap string aref -> list (string * aref))
        (agent_WriteMsg : string -> bytes -> Conn -> Conn * option string)
        (agent_Close : Conn -> Conn)
        (has_storage : bool)
        (storage_Query : string -> St -> St * result string (option bytes))
        (storage_Storage : snapshot -> St -> St * option string)
        (has_learner : bool)
        (learner_returns : sref -> bool).

Abbreviation HM := (ST (hworld Conn St)).

(** Session code runs on the session part of the state. *)
Definition lift {A} (m : SM A) : HM A := fun w =>
  match m (hw_sess w) with
  | Done s a => Done (w <| hw_sess := s |>) a
  | Panicked s why => Panicked (w <| hw_sess := s |>) why
  | Blocked => Blocked
  end.

Definition this_agent (a : aref) : HM (gagent Conn) := fun w =>
  match hw_agents w !! a with
  | Some g => Done w g
  | None => Panicked w "nil pointer dereference"
  end.

(** A method call on [agent.GetSession()] when that is nil panics. *)
Definition session_of (a : aref) : HM sref :=
  let* g := this_agent a in
  match ag_session g with
  | Some s => st_ret s
  | None => st_panic "nil pointer dereference"
  end.

Definition put_agent (a : aref) (f : gagent Conn -> gagent Conn) : HM unit :=
  st_mod (fun w => w <| hw_agents := alter f a (hw_agents w) |>).

Definition note (e : learner_event) : HM unit := st_mod (fun w => w <| hw_events := (hw_events w ++ [e])%list |>).

(** A deferred [recover()]: the panic ends there. *)
Definition recovered (m : HM unit) : HM unit := fun w =>
  match m w with
  | Panicked w _ => Done w tt
  | o => o
  end.

(** ** Connections *)

Definition add_agentNum (d : Z) : HM unit := st_mod (fun w => w <| agentNum := agentNum w + d |>).

Definition Connect (a : aref) : HM unit := recovered (
  let* g := this_agent a in
  do* (match ag_session g with
       | None => st_ret tt
       | Some s =>
           let* sid := lift (GetSessionID s) in
           do* st_mod (fun w => w <| sessions := <[sid := a]> (sessions w) |>) in
           if protocol_ok g then add_agentNum 1 else st_ret tt
       end) in
  if has_learner then note (LConnect (ag_session g)) else st_ret tt).

(** The deferred part of [DisConnect]. *)
Definition forget (a : aref) : HM unit :=
  let* g := this_agent a in
  match ag_session g with
  | None => st_ret tt
  | Some s =>
      let* sid := lift (GetSessionID s) in
      do* st_mod (fun w => w <| sessions := delete sid (sessions w) |>) in
      if protocol_ok g then add_agentNum (-1) else st_ret tt
  end.

Definition DisConnect (a : aref) : HM unit :=
  do* recovered (
    let* g := this_agent a in
    if has_learner then
      match ag_session g with
      | None => st_ret tt
      | Some s =>
          do* note (LDisConnect s) in
          if learner_returns s then st_ret tt else st_panic "learner"
      end
    else st_ret tt) in
  forget a.

Definition close_agent (a : aref) : HM unit :=
  put_agent a (fun g => let c := ag_conn g in g <| ag_conn := agent_Close c |>).

Fixpoint close_all (l : list (string * aref)) : HM unit :=
  match l with
  | [] => st_ret tt
  | (sid, a) :: l =>
      do* close_agent a in
      do* st_mod (fun w => w <| sessions := delete sid (sessions w) |>) in
      close_all l
  end.

Definition OnDestroy : HM unit := let* w := st_get in close_all (walk_order (sessions w)).

Definition GetAgentNum : HM Z := fun w => Done w (agentNum w).

(** ** Session rpcs *)

Definition no_session : string := "No Sesssion found".

(** [h.sessions.Load(id)], then the rest of the handler or its error. *)
Definition with_agent {A} (sid : string) (none : A) (k : aref -> HM (A * string)) : HM (A * string) :=
  fun w => match sessions w !! sid with
           | None => Done w (none, no_session)
           | Some a => k a w
           end.

Definition GetAgent (sid : string) : HM (option aref * string) :=
  with_agent sid None (fun a => st_ret (Some a, "")).

(** [GetStorageHandler() != nil && GetUserID() != ""] *)
Definition storable (s : sref) : HM bool :=
  if has_storage then
    let* u := lift (GetUserID s) in st_ret (negb (bool_decide (u = "")))
  else st_ret false.

Definition store (s : sref) : HM unit :=
  let* a := lift (this s) in
  st_mod (fun w => w <| hw_storage := fst (storage_Storage (snap (hw_sess w) (session a)) (hw_storage w)) |>).

Definition persist (s : sref) : HM unit :=
  let* b := storable s in if b then store s else st_ret tt.

Definition Update (sid : string) : HM (option sref * string) :=
  with_agent sid None (fun a => let* g := this_agent a in st_ret (ag_session g, "")).

(** The settings saved by an earlier connection of the user, below those of this
    one. *)
Definition restore (s : sref) (uid : string) : HM unit := fun w =>
  let '(st, o) := storage_Query uid (hw_storage w) in
  let w := w <| hw_storage := st |> in
  match o with
  | Ok (Some data) =>
      exec_then (lift (NewSession proto_unmarshal global_judge true data) w) (fun imp =>
        match imp with
        | Ok imp => let* m := lift (CloneSettings imp) in lift (ImportSettings (Some m) s)
        | Err _ => st_ret tt
        end)
  | _ => Done w tt
  end.

Definition Bind (sid uid : string) : HM (option sref * string) :=
  with_agent sid None (fun a =>
    let* s := session_of a in
    do* lift (SetUserID uid s) in
    let* b := storable s in
    do* (if b then do* restore s uid in store s else st_ret tt) in
    st_ret (Some s, "")).

Definition UnBind (sid : string) : HM (option sref * string) :=
  with_agent sid None (fun a =>
    let* s := session_of a in
    do* lift (SetUserID "" s) in
    st_ret (Some s, "")).

Fixpoint set_all (s : sref) (l : list (string * string)) : SM unit :=
  match l with
  | [] => st_ret tt
  | (k, v) :: l => do* SetLocalKV k v s in set_all s l
  end.

Definition Push (sid : string) (settings : gmap string string) : HM (option sref * string) :=
  with_agent sid None (fun a =>
    do* (let l := range_order settings in
         match l with [] => st_ret tt | _ => let* s := session_of a in lift (set_all s l) end) in
    let* g := this_agent a in
    do* (if has_storage then let* s := session_of a in persist s else st_ret tt) in
    st_ret (ag_session g, "")).

Definition Set_ (sid key value : string) : HM (option sref * string) :=
  fun w => match sessions w !! sid with
           | None => Done w (None, "no Sesssion found")
           | Some a =>
               (let* s := session_of a in
                do* lift (SetLocalKV key value s) in
                do* persist s in
                st_ret (Some s, "")) w
           end.

Definition Remove (sid key : string) : HM (option sref * string) :=
  with_agent sid None (fun a =>
    let* s := session_of a in
    do* lift (RemoveLocalKV key s) in
    do* persist s in
    st_ret (Some s, "")).

Definition write_agent (a : aref) (topic : string) (body : bytes) : HM (option string) :=
  let* g := this_agent a in
  let '(c, e) := agent_WriteMsg topic body (ag_conn g) in
  do* put_agent a (fun g => g <| ag_conn := c |>) in
  st_ret e.

Definition Send (sid topic : string) (body : bytes) : HM (option string * string) :=
  with_agent sid None (fun a =>
    let* e := write_agent a topic body in
    st_ret (match e with Some e => (None, e) | None => (Some "success", "") end)).

Fixpoint send_each (sids : list string) (topic : string) (body : bytes) (count : Z) : HM Z :=
  match sids with
  | [] => st_ret count
  | sid :: sids => fun w =>
      match sessions w !! sid with
      | None => send_each sids topic body count w
      | Some a =>
          exec_then (write_agent a topic body w) (fun e =>
            send_each sids topic body (match e with None => count + 1 | Some _ => count end))
      end
  end.

Definition SendBatch (sids topic : string) (body : bytes) : HM (Z * string) :=
  let* n := send_each (split_comma sids) topic body 0 in st_ret (n, "").

Fixpoint write_each (l : list (string * aref)) (topic : string) (body : bytes) (count : Z) : HM Z :=
  match l with
  | [] => st_ret count
  | (_, a) :: l =>
      let* e := write_agent a topic body in
      write_each l topic body (match e with None => count + 1 | Some _ => count end)
  end.

Definition BroadCast (topic : string) (body : bytes) : HM (Z * string) :=
  let* w := st_get in
  let* n := write_each (walk_order (sessions w)) topic body 0 in
  st_ret (n, "").

(** The first agent of the walk with that user id decides. *)
Fixpoint find_user (l : list (string * aref)) (uid : string) : HM (option aref) :=
  match l with
  | [] => st_ret None
  | (_, a) :: l =>
      let* s := session_of a in
      let* u := lift (GetUserID s) in
      if decide (u = uid) then st_ret (Some a) else find_user l uid
  end.

Definition IsConnect (sid uid : string) : HM (bool * string) :=
  let* w := st_get in
  let* o := find_user (walk_order (sessions w)) uid in
  match o with
  | None => st_ret (false, "The gateway did not find the corresponding userId 【" ++ uid ++ "】")
  | Some a => let* g := this_agent a in st_ret (negb (isclose g), "")
  end.

Definition Close (sid : string) : HM (unit * string) :=
  with_agent sid tt (fun a => do* close_agent a in st_ret (tt, "")).

(** ** Sessions held by other modules

    [GetServerByInstanceID] finds the gate process a session names, [Call] sends
    a request there. *)
Section Remote.
Context {Srv : Type}
        (GetServerByInstanceID : string -> result string Srv)
        (Call : Srv -> request -> HM (result string reply))
        (CallNR : Srv -> request -> HM (option string)).

Definition gateServer (s : sref) : HM (result string Srv) :=
  let* a := lift (this s) in
  if negb (app a) then st_ret (Err "Module.App is nil") else
  let* i := lift (GetGateInstanceID s) in
  if decide (i = "") then st_ret (Err "session GateInstanceID is empty") else
  st_ret (match GetServerByInstanceID i with
          | Ok srv => Ok srv
          | Err e => Err ("gate instance not found (" ++ i ++ "): " ++ e)
          end).

(** The common shape of the rpcs that give the session back: [update] takes over
    what the gate returned. *)
Definition call_update (s : sref) (req : HM request) : HM (option string) :=
  let* srv := gateServer s in
  match srv with
  | Err e => st_ret (Some e)
  | Ok srv =>
      let* req := req in
      let* o := Call srv req in
      match o with
      | Err e => st_ret (Some e)
      | Ok ANil => st_ret None
      | Ok (ASession src) => do* lift (update range_order s src) in st_ret None
      | Ok _ => st_panic "interface conversion"
      end
  end.

Definition own_id (s : sref) : HM string := let* a := lift (this s) in st_ret (SessionId (session a)).
Definition with_id (s : sref) (f : string -> request) : HM request :=
  let* i := own_id s in st_ret (f i).

Definition s_Update (s : sref) : HM (option string) := call_update s (with_id s RUpdate).
Definition s_Bind (uid : string) (s : sref) : HM (option string) :=
  call_update s (with_id s (fun i => RBind i uid)).
Definition s_UnBind (s : sref) : HM (option string) := call_update s (with_id s RUnBind).
Definition s_Push (s : sref) : HM (option string) :=
  call_update s (
    do* lift (Lock s) in
    let* a := lift (this s) in
    let* w := st_get in
    do* lift (Unlock s) in
    with_id s (fun i => RPush i (read_map (hw_sess w) (Settings (session a))))).
Definition s_Set (key value : string) (s : sref) : HM (option string) :=
  call_update s (with_id s (fun i => RSet i key value)).
Definition s_SetBatch (settings : gmap string string) (s : sref) : HM (option string) :=
  call_update s (with_id s (fun i => RPush i settings)).
Definition s_Remove (key : string) (s : sref) : HM (option string) :=
  call_update s (with_id s (fun i => RRemove i key)).

(** [SetPush] writes the entry into the local settings first. *)
Definition s_SetPush (key value : string) (s : sref) : HM (option string) :=
  let* a := lift (this s) in
  if negb (app a) then st_ret (Some "Module.App is nil") else
  do* (match Settings (session a) with
       | Some _ => st_ret tt
       | None => let* r := lift (new_map ∅) in
                 lift (put s (on_imp (fun i => i <| Settings := Some r |>)))
       end) in
  do* lift (SetLocalKV key value s) in
  s_Push s.

(** The calls whose answer is a value: [want] is the type assertion. *)
Definition call_value {A} (s : sref) (req : HM request) (zero : A) (want : reply -> option A) :
    HM (A * option string) :=
  let* srv := gateServer s in
  match srv with
  | Err e => st_ret (zero, Some e)
  | Ok srv =>
      let* req := req in
      let* o := Call srv req in
      match o with
      | Err e => st_ret (zero, Some e)
      | Ok r => match want r with
                | Some a => st_ret (a, None)
                | None => st_panic "interface conversion"
                end
      end
  end.

Definition any (r : reply) : option unit := Some tt.
Definition s_Send (topic : string) (body : bytes) (s : sref) : HM (unit * option string) :=
  call_value s (with_id s (fun i => RSend i topic body)) tt any.
Definition s_SendBatch (sids topic : string) (body : bytes) (s : sref) : HM (Z * option string) :=
  call_value s (st_ret (RSendBatch sids topic body)) 0
    (fun r => match r with AInt n => Some n | _ => None end).
Definition s_IsConnect (uid : string) (s : sref) : HM (bool * option string) :=
  call_value s (with_id s (fun i => RIsConnect i uid)) false
    (fun r => match r with ABool b => Some b | _ => None end).
Definition s_Close (s : sref) : HM (unit * option string) := call_value s (with_id s RClose) tt any.

(** [SendNR] does not wait for the gate's answer. *)
Definition s_SendNR (topic : string) (body : bytes) (s : sref) : HM (option string) :=
  let* srv := gateServer s in
  match srv with
  | Err e => st_ret (Some e)
  | Ok srv => let* req := with_id s (fun i => RSend i topic body) in CallNR srv req
  end.

End Remote.

(** ** The two ends joined

    A request runs its handler; a session in the answer crosses the wire through
    [Serialize] and [Deserialize]; an error string other than [""] is the
    error of the call. *)
Definition answer_session (o : option sref * string) : HM (result string reply) :=
  match o with
  | (Some s, "") =>
      let* b := lift (Serialize proto_marshal s) in
      match b with
      | Err e => st_ret (Err e)
      | Ok b =>
          let* r := lift (Deserialize proto_unmarshal gen_id global_judge true b) in
          st_ret (match r with Ok s => Ok (ASession s) | Err e => Err e end)
      end
  | (None, "") => st_ret (Ok ANil)
  | (_, e) => st_ret (Err e)
  end.

Definition answer_value {A} (f : A -> reply) (o : A * string) : HM (result string reply) :=
  match o with
  | (a, "") => st_ret (Ok (f a))
  | (_, e) => st_ret (Err e)
  end.

Definition serve (req : request) : HM (result string reply) :=
  match req with
  | RUpdate sid => st_bind (Update sid) answer_session
  | RBind sid uid => st_bind (Bind sid uid) answer_session
  | RUnBind sid => st_bind (UnBind sid) answer_session
  | RPush sid m => st_bind (Push sid m) answer_session
  | RSet sid k v => st_bind (Set_ sid k v) answer_session
  | RRemove sid k => st_bind (Remove sid k) answer_session
  | RSend sid topic body =>
      st_bind (Send sid topic body)
        (answer_value (fun o => match o with Some s => AString s | None => ANil end))
  | RSendBatch sids topic body => st_bind (SendBatch sids topic body) (answer_value AInt)
  | RBroadCast topic body => st_bind (BroadCast topic body) (answer_value AInt)
  | RIsConnect sid uid => st_bind (IsConnect sid uid) (answer_value ABool)
  | RClose sid => st_bind (Close sid) (answer_value (fun _ => ANil))
  end.

End Handler.
