(* ===== verification/SessionTheorems.v ===== *)
(** * Theorems about gate sessions

    Copies and wire round trips of a session, aliasing of its settings, and the
    lock a panicking write leaves held. *)
From S2P Require Import Prelude Session.
#[local] Open Scope mq_scope.
#[local] Open Scope st_scope.
#[local] Open Scope string_scope.
#[local] Open Scope Z_scope.

(** ** Runs of the session operations on a known session *)

(** [sat w s a]: session [s] is [a], and its lock is free. *)
Definition sat (w : sworld) (s : sref) (a : sessionagent) : Prop :=
  sw_sess w !! s = Some a /\ held a = false.

Definition set_session (s : sref) (a : sessionagent) (w : sworld) : sworld :=
  w <| sw_sess := <[s := a]> (sw_sess w) |>.

#[global] Arguments set_session : simpl never.

Lemma set_session_id w s a : sw_sess w !! s = Some a -> set_session s a w = w.
Proof. intros H. unfold set_session. destruct w. cbn in *. by rewrite insert_id. Qed.

Lemma set_session_twice w s a b : set_session s b (set_session s a w) = set_session s b w.
Proof. unfold set_session, upd. cbn. by rewrite insert_insert_eq. Qed.

Lemma lookup_set_session w s a : sw_sess (set_session s a w) !! s = Some a.
Proof. apply lookup_insert_eq. Qed.

Lemma lookup_set_session_ne w s t a : s <> t -> sw_sess (set_session s a w) !! t = sw_sess w !! t.
Proof. apply lookup_insert_ne. Qed.

Lemma maps_set_session w s a : sw_maps (set_session s a w) = sw_maps w.
Proof. done. Qed.

Lemma this_done w s a : sw_sess w !! s = Some a -> this s w = Done w a.
Proof. unfold this. by intros ->. Qed.

Lemma put_done w s a f : sw_sess w !! s = Some a -> put s f w = Done (set_session s (f a) w) tt.
Proof.
  intros H. unfold put, st_mod, set_session. f_equal. unfold upd. f_equal.
  apply map_eq. intros t. destruct (decide (s = t)) as [->|Hn].
  - by rewrite lookup_alter_eq, lookup_insert_eq, H.
  - by rewrite lookup_alter_ne, lookup_insert_ne.
Qed.

Lemma Lock_done w s a : sat w s a -> Lock s w = Done (set_session s (a <| held := true |>) w) tt.
Proof.
  intros [H Hh]. unfold Lock. rewrite (st_bind_done _ _ _ _ _ (this_done _ _ _ H)), Hh.
  by apply put_done.
Qed.

Lemma RLock_done w s a : sat w s a -> RLock s w = Done w tt.
Proof.
  intros [H Hh]. unfold RLock. by rewrite (st_bind_done _ _ _ _ _ (this_done _ _ _ H)), Hh.
Qed.

Lemma Unlock_done w s a : sw_sess w !! s = Some a ->
  Unlock s w = Done (set_session s (a <| held := false |>) w) tt.
Proof. apply put_done. Qed.

Lemma held_false a : held a = false -> a <| held := false |> = a.
Proof. destruct a. cbn. by intros ->. Qed.

Lemma locked_set_done w s a f : sat w s a -> locked_set f s w = Done (set_session s (on_imp f a) w) tt.
Proof.
  intros [H Hh]. unfold locked_set.
  rewrite (st_bind_done _ _ _ _ _ (Lock_done _ _ _ (conj H Hh))).
  rewrite (st_bind_done _ _ _ _ _ (put_done _ _ _ _ (lookup_set_session _ _ _))).
  rewrite (Unlock_done _ _ _ (lookup_set_session _ _ _)), !set_session_twice.
  destruct a. cbn in Hh. by subst.
Qed.

Lemma plain_set_done w s a f : sw_sess w !! s = Some a ->
  plain_set f s w = Done (set_session s (on_imp f a) w) tt.
Proof.
  intros H. unfold plain_set. rewrite (st_bind_done _ _ _ _ _ (this_done _ _ _ H)).
  by apply put_done.
Qed.

Lemma plain_get_done {A} w s a (f : SessionImp -> A) : sw_sess w !! s = Some a ->
  plain_get f s w = Done w (f (session a)).
Proof. intros H. unfold plain_get. by rewrite (st_bind_done _ _ _ _ _ (this_done _ _ _ H)). Qed.

Lemma locked_get_done {A} w s a (f : SessionImp -> A) : sat w s a ->
  locked_get f s w = Done w (f (session a)).
Proof.
  intros H. unfold locked_get. rewrite (st_bind_done _ _ _ _ _ (RLock_done _ _ _ H)).
  by rewrite (st_bind_done _ _ _ _ _ (this_done _ _ _ (proj1 H))).
Qed.

(** A deferred section that only reads leaves the session as it was. *)
Lemma deferred_done {A} w s a (m : SM A) w1 x : sat w s a ->
  m (set_session s (a <| held := true |>) w) = Done w1 x ->
  sw_sess w1 = sw_sess (set_session s (a <| held := true |>) w) ->
  deferred s m w = Done (mkSworld (sw_maps w1) (sw_sess w) (sw_ids w1)) x.
Proof.
  intros Hs Hm Hw. unfold deferred. rewrite (st_bind_done _ _ _ _ _ (Lock_done _ _ _ Hs)), Hm.
  erewrite Unlock_done by (rewrite Hw; apply lookup_set_session). cbn [exec_then].
  destruct Hs as [H Hh]. f_equal. unfold set_session, upd. rewrite Hw. cbn. f_equal.
  unfold set_session. cbn. rewrite insert_insert_eq. apply insert_id.
  rewrite H. f_equal. destruct a. cbn in Hh. by subst.
Qed.

Lemma new_map_done m w : exists r, sw_maps w !! r = None /\
  new_map m w = Done (w <| sw_maps := <[r := m]> (sw_maps w) |>) r.
Proof.
  exists (fresh (dom (sw_maps w))). split; [|done]. apply not_elem_of_dom, is_fresh.
Qed.

Lemma new_session_done a w : exists r, sw_sess w !! r = None /\
  new_session a w = Done (set_session r a w) r.
Proof.
  exists (fresh (dom (sw_sess w))). split; [|done]. apply not_elem_of_dom, is_fresh.
Qed.

Section Ops.
Context (proto_marshal : snapshot -> result string bytes)
        (proto_unmarshal : bytes -> result string snapshot)
        (gen_id : nat -> string) (global_judge : option nat)
        (range_order : gmap string string -> list (string * string)).
Hypothesis range_perm : forall m, range_order m ≡ₚ map_to_list m.

(** Visiting a map in any order and storing each entry rebuilds it. *)
Lemma range_while_insert (l : list (string * string)) : forall b : gmap string string, NoDup l.*1 ->
  range_while (fun k v m => (<[k := v]> m, true)) l b = list_to_map l ∪ b.
Proof.
  induction l as [|[k v] l IH]; intros b Hnd; cbn.
  - by rewrite (left_id_L ∅ (∪)).
  - cbn in Hnd. apply NoDup_cons in Hnd as [Hk Hnd]. rewrite IH by done.
    apply map_eq. intros j. rewrite !lookup_union. destruct (decide (j = k)) as [->|Hj].
    + rewrite not_elem_of_list_to_map_1 by done. rewrite !lookup_insert_eq. by destruct (b !! k).
    + by rewrite !lookup_insert_ne.
Qed.

Lemma rebuild_map (m : gmap string string) :
  range_while (fun k v m => (<[k := v]> m, true)) (range_order m) (∅ : gmap string string) = m.
Proof.
  rewrite range_while_insert.
  - rewrite (right_id_L ∅ (∪)). transitivity (list_to_map (M := gmap string string) (map_to_list m)).
    + apply list_to_map_proper.
      * rewrite range_perm. apply NoDup_fst_map_to_list.
      * apply range_perm.
    + apply list_to_map_to_list.
  - rewrite range_perm. apply NoDup_fst_map_to_list.
Qed.

Lemma SettingsRange_done w s a : sat w s a ->
  SettingsRange range_order (fun k v m => (<[k := v]> m, true)) (∅ : gmap string string) s w =
    Done w (read_map w (Settings (session a))).
Proof.
  intros Hs. unfold SettingsRange.
  rewrite (deferred_done w s a _ (set_session s (a <| held := true |>) w)
             (read_map w (Settings (session a)))); [by destruct w|done| |done].
  step (this_done _ _ _ (lookup_set_session w s (a <| held := true |>))).
  cbn [session upd]. destruct (Settings (session a)) as [r|] eqn:Hm; [|done].
  unfold st_bind, st_get, exec_then, st_ret.
  change (sw_maps (set_session s (a <| held := true |>) w)) with (sw_maps w).
  f_equal. unfold read_map. apply rebuild_map.
Qed.

(** The session [update] leaves in [s]: the fields of the other one and a map of
    its own. *)
Definition updated (i j : SessionImp) (r : mref) : SessionImp :=
  mkSessionImp (IP j) (Network j) (UserId j) (SessionId j) (ServerId j) (GateInstanceId j)
    (TraceId i) (SpanId i) (Topic j) (Some r).

Lemma sat_set_ne w s t a b : s <> t -> sat w t b -> sat (set_session s a w) t b.
Proof. intros Hn [H Hh]. split; [|done]. by rewrite lookup_set_session_ne. Qed.

Lemma sat_set w s a : held a = false -> sat (set_session s a w) s a.
Proof. intros Hh. split; [apply lookup_set_session | done]. Qed.

Lemma held_on_imp f a : held (on_imp f a) = held a.
Proof. done. Qed.

(** One field taken over from [src]. *)
Lemma copy_plain {X B} (f : SessionImp -> X) (g : X -> SessionImp -> SessionImp) w s src a b (k : SM B) :
  s <> src -> sat w src b ->
  (let* x := plain_get f src in do* plain_set (g x) s in k) (set_session s a w) =
    k (set_session s (on_imp (g (f (session b))) a) w).
Proof.
  intros Hn Hb. pose proof (sat_set_ne w s src a b Hn Hb) as [H _].
  step (plain_get_done _ _ _ f H).
  step (plain_set_done _ _ _ (g (f (session b))) (lookup_set_session w s a)).
  by rewrite set_session_twice.
Qed.

Lemma copy_locked {X B} (f : SessionImp -> X) (g : X -> SessionImp -> SessionImp) w s src a b (k : SM B) :
  s <> src -> sat w src b ->
  (let* x := locked_get f src in do* plain_set (g x) s in k) (set_session s a w) =
    k (set_session s (on_imp (g (f (session b))) a) w).
Proof.
  intros Hn Hb. pose proof (sat_set_ne w s src a b Hn Hb) as H.
  step (locked_get_done _ _ _ f H).
  step (plain_set_done _ _ _ (g (f (session b))) (lookup_set_session w s a)).
  by rewrite set_session_twice.
Qed.

Lemma update_done w s src a b : s <> src -> sat w s a -> sat w src b ->
  exists r, sw_maps w !! r = None /\
    update range_order s src w =
      Done (set_session s (a <| session := updated (session a) (session b) r |>)
              (w <| sw_maps := <[r := read_map w (Settings (session b))]> (sw_maps w) |>)) tt.
Proof.
  intros Hn Hs Hb.
  replace (update range_order s src w) with (update range_order s src (set_session s a w))
    by (by rewrite set_session_id by apply Hs).
  unfold update, GetUserID, GetIP, GetTopic, GetNetwork, GetSessionID, GetServerID, GetGateInstanceID.
  rewrite (copy_plain UserId (fun x i => i <| UserId := x |>) w s src a b) by done.
  rewrite (copy_locked IP (fun x i => i <| IP := x |>) w s src _ b) by done.
  rewrite (copy_locked Topic (fun x i => i <| Topic := x |>) w s src _ b) by done.
  rewrite (copy_locked Network (fun x i => i <| Network := x |>) w s src _ b) by done.
  rewrite (copy_plain SessionId (fun x i => i <| SessionId := x |>) w s src _ b) by done.
  rewrite (copy_plain ServerId (fun x i => i <| ServerId := x |>) w s src _ b) by done.
  rewrite (copy_plain GateInstanceId (fun x i => i <| GateInstanceId := x |>) w s src _ b) by done.
  match goal with |- context [st_bind _ _ (set_session s ?x w)] => set (a1 := x) end.
  step (SettingsRange_done _ _ _ (sat_set_ne w s src a1 b Hn Hb)).
  change (read_map (set_session s a1 w)) with (read_map w).
  destruct (new_map_done (read_map w (Settings (session b))) (set_session s a1 w)) as (r & Hr & Hm).
  exists r. split; [done|]. step Hm.
  rewrite (locked_set_done _ _ a1).
  - f_equal. unfold set_session, upd. cbn. rewrite insert_insert_eq. by destruct a, session.
  - split; [apply lookup_insert_eq | apply Hs].
Qed.

(** [NewSession] and [Clone] build new objects over new maps. *)
Lemma NewSession_done ap data n w : proto_unmarshal data = Ok n ->
  exists s r, sw_sess w !! s = None /\ sw_maps w !! r = None /\
    NewSession proto_unmarshal global_judge ap data w =
      Done (set_session s (mkSessionagent ap
              (mkSessionImp (sn_IP n) (sn_Network n) (sn_UserId n) (sn_SessionId n) (sn_ServerId n)
                 (sn_GateInstanceId n) (sn_TraceId n) (sn_SpanId n) (sn_Topic n) (Some r))
              false None (if ap then global_judge else None))
              (w <| sw_maps := <[r := sn_Settings n]> (sw_maps w) |>)) (Ok s).
Proof.
  intros Hu. destruct (new_map_done (sn_Settings n) w) as (r & Hr & Hm).
  set (w1 := w <| sw_maps := <[r := sn_Settings n]> (sw_maps w) |>).
  match goal with |- exists s r, _ /\ _ /\ _ = Done (set_session s (mkSessionagent _ (@?i r) _ _ _) _) _ =>
    destruct (new_session_done (mkSessionagent ap (i r) false None (if ap then global_judge else None)) w1)
      as (s & Hs & Hns) end.
  cbv beta in Hns. exists s, r. split; [done|]. split; [done|].
  unfold NewSession, unmarshal_imp. rewrite Hu. unfold st_bind, st_ret, make_settings.
  destruct (decide (sn_Settings n = ∅)) as [He|He]; cbn [exec_then Settings];
    unfold st_bind, st_ret; [rewrite <- He at 1|]; rewrite Hm; cbn [exec_then Settings];
    exact (f_equal (fun o => exec_then o (fun (r0 : sref) c => Done c (Ok (E := string) r0))) Hns).
Qed.

(** The copy [Clone] makes of [i]. *)
Definition cloned (i : SessionImp) (span : string) (r : mref) : SessionImp :=
  mkSessionImp (IP i) (Network i) (UserId i) (SessionId i) (ServerId i) (GateInstanceId i)
    (TraceId i) span "" (Some r).

Lemma Clone_done w s a : sat w s a ->
  exists t r, sw_sess w !! t = None /\ sw_maps w !! r = None /\
    Clone gen_id s w =
      Done (set_session t (mkSessionagent (app a) (cloned (session a) (gen_id (sw_ids w)) r) false
              (userdata a) None)
              (mkSworld (<[r := read_map w (Settings (session a))]> (sw_maps w)) (sw_sess w)
                 (S (sw_ids w)))) t.
Proof.
  intros Hs. set (wl := set_session s (a <| held := true |>) w).
  destruct (new_map_done (read_map w (Settings (session a))) wl) as (r & Hr & Hm).
  set (w1 := mkSworld (<[r := read_map w (Settings (session a))]> (sw_maps w)) (sw_sess wl) (S (sw_ids w))).
  destruct (new_session_done (mkSessionagent (app a) (cloned (session a) (gen_id (sw_ids w)) r) false
              (userdata a) None) w1) as (t & Ht & Hns).
  assert (Hts : t <> s).
  { intros ->. cbn in Ht. unfold wl in Ht. by rewrite lookup_set_session in Ht. }
  exists t, r. split; [|split; [done|]].
  { cbn in Ht. unfold wl in Ht. by rewrite lookup_set_session_ne in Ht. }
  unfold Clone. step (Lock_done _ _ _ Hs). step (this_done _ _ _ (lookup_set_session w s (a <| held := true |>))).
  unfold st_bind at 1, st_get at 1. cbn [exec_then].
  change (read_map (set_session s (a <| held := true |>) w)) with (read_map w). cbn [session upd].
  fold wl. step Hm. unfold st_bind at 1, GenerateID at 1. cbn [exec_then].
  unfold cloned in Hns. step Hns.
  assert (Hl : sw_sess (set_session t (mkSessionagent (app a) (cloned (session a) (gen_id (sw_ids w)) r) false
              (userdata a) None) w1) !! s = Some (a <| held := true |>)).
  { rewrite lookup_set_session_ne by done. cbn. apply lookup_set_session. }
  step (Unlock_done _ _ _ Hl). unfold st_ret. f_equal.
  destruct Hs as [Hs Hh]. unfold set_session, upd. cbn. f_equal. unfold wl, set_session. cbn.
  rewrite (insert_insert_ne _ s t), insert_insert_eq by done. f_equal. apply insert_id.
  rewrite Hs. f_equal. destruct a. cbn in Hh. by subst.
Qed.

End Ops.

(** ** Settings *)

Lemma SetLocalKV_done w s a r k v : sat w s a -> Settings (session a) = Some r ->
  SetLocalKV k v s w = Done (w <| sw_maps := alter <[k := v]> r (sw_maps w) |>) tt.
Proof.
  intros Hs Hr. unfold SetLocalKV, set_entry. step (Lock_done _ _ _ Hs). unfold st_bind at 1.
  step (this_done _ _ _ (lookup_set_session w s (a <| held := true |>))).
  cbn [session upd]. rewrite Hr. unfold write_map, st_mod. cbn [exec_then].
  erewrite Unlock_done by apply lookup_set_session. f_equal.
  destruct Hs as [Hs Hh]. unfold set_session, upd. cbn. f_equal. rewrite insert_insert_eq. apply insert_id.
  rewrite Hs. f_equal. destruct a. cbn in Hh. by subst.
Qed.

Lemma Get_done w s a k : sat w s a ->
  Get k s w = Done w (default "" (read_map w (Settings (session a)) !! k)).
Proof.
  intros Hs. unfold Get. step (RLock_done _ _ _ Hs). by step (this_done _ _ _ (proj1 Hs)).
Qed.

Lemma SetLocalKV_nil w s a k v : sat w s a -> Settings (session a) = None ->
  SetLocalKV k v s w =
    Panicked (set_session s (a <| held := true |>) w) "assignment to entry in nil map".
Proof.
  intros Hs Hr. unfold SetLocalKV, set_entry. step (Lock_done _ _ _ Hs). unfold st_bind at 1.
  step (this_done _ _ _ (lookup_set_session w s (a <| held := true |>))).
  cbn [session upd]. by rewrite Hr.
Qed.

Lemma Lock_held w s a : sw_sess w !! s = Some a -> held a = true -> Lock s w = Blocked.
Proof. intros H Hh. unfold Lock. step (this_done _ _ _ H). by rewrite Hh. Qed.

(** Restoring the lock bit restores the session. *)
Lemma unlock_restores w s a : sat w s a ->
  set_session s (a <| held := true |> <| held := false |>) w = w.
Proof.
  intros [H Hh]. rewrite <- (set_session_id w s a H) at 2. f_equal. destruct a. cbn in Hh. by subst.
Qed.

Lemma ImportSettings_done w s a r mo : sat w s a -> Settings (session a) = Some r ->
  ImportSettings mo s w =
    Done (w <| sw_maps := alter (fun own => own ∪ read_map w mo) r (sw_maps w) |>) tt.
Proof.
  intros Hs Hr. unfold ImportSettings. step (Lock_done _ _ _ Hs).
  step (this_done _ _ _ (lookup_set_session w s (a <| held := true |>))).
  cbn [session upd]. rewrite Hr. unfold st_bind, st_get, write_map, st_mod. cbn [exec_then].
  erewrite Unlock_done by apply lookup_set_session. f_equal.
  rewrite <- (unlock_restores w s a Hs) at 2. unfold set_session, upd. cbn. by rewrite insert_insert_eq.
Qed.

Lemma CloneSettings_done w s a : sat w s a ->
  exists r, sw_maps w !! r = None /\
    CloneSettings s w = Done (w <| sw_maps := <[r := read_map w (Settings (session a))]> (sw_maps w) |>) r.
Proof.
  intros Hs. set (wl := set_session s (a <| held := true |>) w).
  destruct (new_map_done (read_map w (Settings (session a))) wl) as (r & Hr & Hm).
  exists r. split; [done|]. unfold CloneSettings.
  rewrite (deferred_done w s a _ (wl <| sw_maps := <[r := read_map w (Settings (session a))]> (sw_maps wl) |>) r Hs);
    [by destruct w| |done].
  fold wl. step (this_done _ _ _ (lookup_set_session w s (a <| held := true |>))). exact Hm.
Qed.

(** A settings map that exists. *)
Definition live_map (w : sworld) (r : mref) (m : gmap string string) : Prop := sw_maps w !! r = Some m.

(** ** Properties *)

(** C9. A session sent as an rpc argument arrives with the same identity,
    trace and settings: [Serialize] and [Deserialize] rebuild every field except
    the topic, which is emptied, and the span id, which is new; the settings are
    in a fresh map, the sender's session and every existing map are untouched,
    and no guest predicate is installed. *)
Theorem session_wire_roundtrip
  (proto_marshal : snapshot -> result string bytes) (proto_unmarshal : bytes -> result string snapshot)
  (gen_id : nat -> string) (global_judge : option nat) (ap : bool)
  (w : sworld) (s : sref) (a : sessionagent) (b : bytes)
  (Hproto : forall n b, proto_marshal n = Ok b -> proto_unmarshal b = Ok n)
  (Hs : sat w s a) (Hb : Serialize proto_marshal s w = Done w (Ok b)) :
  exists t w' i, Deserialize proto_unmarshal gen_id global_judge ap b w = Done w' (Ok t) /\
    sat w' t (mkSessionagent ap i false None None) /\
    snap w' i = snap w (session a) <| sn_Topic := "" |> <| sn_SpanId := gen_id (sw_ids w) |> /\
    sat w' s a /\ forall r m, live_map w r m -> live_map w' r m /\ Settings i <> Some r.
Proof.
  unfold Serialize, Serializable in Hb.
  rewrite (st_bind_done _ _ _ _ _ (RLock_done _ _ _ Hs)) in Hb.
  rewrite (st_bind_done _ _ _ _ _ (this_done _ _ _ (proj1 Hs))) in Hb.
  unfold st_bind, st_get, st_ret in Hb. cbn [exec_then] in Hb. injection Hb as Hb. apply Hproto in Hb.
  destruct (NewSession_done proto_unmarshal global_judge ap b _ w Hb) as (s1 & r1 & Hs1 & Hr1 & H1).
  unfold Deserialize. step H1.
  match goal with |- context [set_session s1 ?x ?y] => set (a1 := x); set (w1 := y) end.
  destruct (Clone_done gen_id (set_session s1 a1 w1) s1 a1 (sat_set w1 s1 a1 eq_refl))
    as (t & r & Ht & Hr & H2).
  do 3 eexists. split; [step H2; reflexivity|].
  assert (Hts : t <> s). { intros ->. destruct (decide (s1 = s)) as [->|Hn].
    - by rewrite lookup_set_session in Ht.
    - rewrite lookup_set_session_ne in Ht by done. cbn in Ht. by rewrite (proj1 Hs) in Ht. }
  assert (Hs1s : s1 <> s) by (intros ->; by rewrite (proj1 Hs) in Hs1).
  rewrite maps_set_session in Hr.
  assert (Hrr : r <> r1). { intros ->. cbn in Hr. by rewrite lookup_insert_eq in Hr. }
  split; [apply sat_set; done|]. split; [|split].
  - unfold snap, cloned, read_map. rewrite !maps_set_session. cbn. by rewrite !lookup_insert_eq.
  - split; [|apply Hs]. rewrite lookup_set_session_ne by done. cbn.
    rewrite lookup_set_session_ne by done. apply Hs.
  - intros r2 m Hm. unfold live_map in *. rewrite !maps_set_session. cbn.
    assert (r1 <> r2) by (intros ->; congruence).
    assert (r <> r2). { intros ->. cbn in Hr. rewrite lookup_insert_ne in Hr by done. congruence. }
    rewrite !lookup_insert_ne by done. split; [done|]. congruence.
Qed.

Definition demo_imp : SessionImp :=
  mkSessionImp "10.0.0.1:80" "tcp" "u1" "s1" "gate" "gate@1" "t" "sp" "chat/hi" (Some 1%positive).
Definition demo_agent : sessionagent := mkSessionagent true demo_imp false None (Some 0%nat).
Definition demo_world : sworld :=
  mkSworld {[ 1%positive := {[ "k" := "v" ]} ]} {[ 1%positive := demo_agent ]} 0.
(** A codec that keeps one message. *)
Definition demo_marshal (n : snapshot) : result string bytes :=
  if decide (n = snap demo_world demo_imp) then Ok [x01] else Err "not the demo session".
Definition demo_unmarshal (b : bytes) : result string snapshot :=
  if decide (b = [x01]) then Ok (snap demo_world demo_imp) else Err "bad wire".

Lemma session_wire_roundtrip_witness :
  exists t w' i, Deserialize demo_unmarshal (fun _ => "id") None true [x01] demo_world = Done w' (Ok t) /\
    sat w' t (mkSessionagent true i false None None) /\
    snap w' i = snap demo_world demo_imp <| sn_Topic := "" |> <| sn_SpanId := "id" |> /\
    sat w' 1%positive demo_agent /\
    forall r m, live_map demo_world r m -> live_map w' r m /\ Settings i <> Some r.
Proof.
  apply (session_wire_roundtrip demo_marshal demo_unmarshal (fun _ => "id") None true demo_world
           1%positive demo_agent [x01]).
  - intros n b. unfold demo_marshal, demo_unmarshal. destruct (decide _) as [->|]; [|done].
    intros [= <-]. reflexivity.
  - split; reflexivity.
  - vm_compute. reflexivity.
Defined.

(** [Clone] isolates: an entry set on the copy does not show in the
    original.  [ExtractSpan] does not: the span shares the settings map, so the
    entry shows in the session it was taken from. *)
Lemma clone_isolates_span_aliases (gen_id : nat -> string) (w : sworld) (s : sref)
  (a : sessionagent) (r : mref) (m : gmap string string) (k v : string)
  (Hs : sat w s a) (Hr : Settings (session a) = Some r) (Hm : live_map w r m) :
  (exists t w1 w2, Clone gen_id s w = Done w1 t /\ SetLocalKV k v t w1 = Done w2 tt /\
     Get k t w2 = Done w2 v /\ Get k s w2 = Done w2 (default "" (m !! k))) /\
  (exists t w1 w2, ExtractSpan gen_id s w = Done w1 t /\ SetLocalKV k v t w1 = Done w2 tt /\
     Get k s w2 = Done w2 v).
Proof.
  unfold live_map in Hm. split.
  - destruct (Clone_done gen_id w s a Hs) as (t & r1 & Ht & Hr1 & Hc).
    assert (Hts : t <> s) by (intros ->; by rewrite (proj1 Hs) in Ht).
    assert (Hrr : r1 <> r) by (intros ->; congruence).
    match type of Hc with _ = Done (set_session t ?x ?y) _ => set (b := x) in *; set (w1 := y) in * end.
    exists t, (set_session t b w1). eexists. split; [done|].
    split; [apply (SetLocalKV_done _ t b r1); [by apply sat_set | done]|].
    match goal with |- Get k t ?x = _ /\ _ => set (w2 := x) end.
    assert (Hb2 : sat w2 t b) by (apply (sat_set w1 t b); done).
    assert (Ha2 : sat w2 s a).
    { split; [|apply Hs]. cbn. rewrite lookup_set_session_ne by done. apply Hs. }
    rewrite (Get_done _ _ _ _ Hb2), (Get_done _ _ _ _ Ha2), Hr. cbn.
    rewrite lookup_alter_eq, lookup_alter_ne by done. rewrite maps_set_session. cbn.
    rewrite lookup_insert_eq, lookup_insert_ne by done. cbn. rewrite lookup_insert_eq, Hm. done.
  - unfold ExtractSpan. step (this_done _ _ _ (proj1 Hs)). unfold st_bind, GenerateID. cbn [exec_then].
    match goal with |- context [new_session ?x ?y] => set (b := x); set (w0 := y) end.
    destruct (new_session_done b w0) as (t & Ht & Hns).
    assert (Hts : t <> s) by (intros ->; cbn in Ht; by rewrite (proj1 Hs) in Ht).
    exists t, (set_session t b w0). eexists. split; [exact Hns|].
    split; [apply (SetLocalKV_done _ t b r); [by apply sat_set | done]|].
    match goal with |- Get k s ?x = _ => set (w2 := x) end.
    assert (Ha2 : sat w2 s a).
    { split; [|apply Hs]. cbn. rewrite lookup_set_session_ne by done. apply Hs. }
    rewrite (Get_done _ _ _ _ Ha2), Hr. cbn.
    rewrite lookup_alter_eq, maps_set_session. cbn. rewrite Hm. cbn. by rewrite lookup_insert_eq.
Qed.

Lemma clone_isolates_span_aliases_witness :
  (exists t w1 w2, Clone (fun _ => "id") 1%positive demo_world = Done w1 t /\
     SetLocalKV "k" "new" t w1 = Done w2 tt /\
     Get "k" t w2 = Done w2 "new" /\
     Get "k" 1%positive w2 = Done w2 (default "" (({[ "k" := "v" ]} : gmap string string) !! "k"))) /\
  (exists t w1 w2, ExtractSpan (fun _ => "id") 1%positive demo_world = Done w1 t /\
     SetLocalKV "k" "new" t w1 = Done w2 tt /\ Get "k" 1%positive w2 = Done w2 "new").
Proof.
  apply (clone_isolates_span_aliases (fun _ => "id") demo_world 1%positive demo_agent 1%positive
           {[ "k" := "v" ]} "k" "new"); [split; reflexivity | reflexivity..].
Defined.

(** A write to a session whose settings are nil panics while it holds the
    session's lock: afterwards every call that takes the lock blocks for ever. *)
Lemma nil_settings_write_keeps_lock (gen_id : nat -> string) (w : sworld) (s : sref)
  (a : sessionagent) (k v : string) (Hs : sat w s a) (Hn : Settings (session a) = None) :
  exists w' why, SetLocalKV k v s w = Panicked w' why /\
    (forall k' v', SetLocalKV k' v' s w' = Blocked) /\ (forall k', Get k' s w' = Blocked) /\
    (forall x, SetUserID x s w' = Blocked) /\ Clone gen_id s w' = Blocked.
Proof.
  do 2 eexists. split; [by apply (SetLocalKV_nil w s a)|].
  match goal with |- context [set_session s ?x w] => set (b := x) end.
  assert (Hl : Lock s (set_session s b w) = Blocked)
    by (apply (Lock_held _ s b); [apply lookup_set_session | done]).
  assert (Hrl : RLock s (set_session s b w) = Blocked).
  { unfold RLock. by step (this_done _ _ _ (lookup_set_session w s b)). }
  repeat split; intros; unfold SetLocalKV, Get, SetUserID, locked_set, Clone, st_bind at 1;
    by rewrite ?Hl, ?Hrl.
Qed.

Lemma nil_settings_write_keeps_lock_witness :
  let w := mkSworld ∅ {[ 1%positive := mkSessionagent true new_SessionImp false None None ]} 0 in
  exists w' why, SetLocalKV "k" "v" 1%positive w = Panicked w' why /\
    (forall k' v', SetLocalKV k' v' 1%positive w' = Blocked) /\
    (forall k', Get k' 1%positive w' = Blocked) /\
    (forall x, SetUserID x 1%positive w' = Blocked) /\ Clone (fun _ => "id") 1%positive w' = Blocked.
Proof.
  apply (nil_settings_write_keeps_lock (fun _ => "id") _ 1%positive
           (mkSessionagent true new_SessionImp false None None)); [split|]; reflexivity.
Defined.
