(* ===== verification/GateTheorems.v ===== *)
(** * Theorems about the gate handler

    The count of connected agents, the binding of a session with stored settings,
    and the synchronisation of a session copy held by another module. *)
From S2P Require Import Prelude Session GateHandler SessionTheorems.
#[local] Open Scope mq_scope.
#[local] Open Scope st_scope.
#[local] Open Scope string_scope.
#[local] Open Scope Z_scope.

(** ** Connections and disconnections *)

Inductive conn_event :=
| EvConnect (a : aref)
| EvDisConnect (a : aref).

(** The agents counted as connected after the events [evs], newest first in the
    history. *)
Definition live_step (l : gset aref) (e : conn_event) : gset aref :=
  match e with EvConnect a => {[ a ]} ∪ l | EvDisConnect a => l ∖ {[ a ]} end.

Section Connections.
Context {Conn St : Type} (has_learner : bool) (learner_returns : sref -> bool).

Abbreviation world := (hworld Conn St).

Lemma lift_done {A} (m : SM A) (w : world) s x :
  m (hw_sess w) = Done s x -> lift m w = Done (w <| hw_sess := s |>) x.
Proof. intros H. unfold lift. by rewrite H. Qed.

Lemma lift_same {A} (m : SM A) (w : world) x :
  m (hw_sess w) = Done (hw_sess w) x -> lift m w = Done w x.
Proof. intros H. rewrite (lift_done _ _ _ _ H). by destruct w. Qed.

Lemma this_agent_done (w : world) a g : hw_agents w !! a = Some g -> this_agent a w = Done w g.
Proof. unfold this_agent. by intros ->. Qed.

Lemma session_of_done (w : world) a g s : hw_agents w !! a = Some g -> ag_session g = Some s ->
  session_of a w = Done w s.
Proof. intros H Hs. unfold session_of. step (this_agent_done _ _ _ H). by rewrite Hs. Qed.

(** The agents of the gate do not change while they come and go: each has
    finished its handshake and has a session id of its own. *)
Definition roster (w : world) (sid_of : aref -> string) (all : gset aref) : Prop :=
  (forall a, a ∈ all -> exists g s i, hw_agents w !! a = Some g /\ ag_session g = Some s /\
     protocol_ok g = true /\ sw_sess (hw_sess w) !! s = Some i /\ SessionId (session i) = sid_of a) /\
  (forall a b, a ∈ all -> b ∈ all -> sid_of a = sid_of b -> a = b).

Definition run_event (e : conn_event) : ST world unit :=
  match e with
  | EvConnect a => Connect has_learner a
  | EvDisConnect a => DisConnect has_learner learner_returns a
  end.

Fixpoint run_events (evs : list conn_event) : ST world unit :=
  match evs with
  | [] => st_ret tt
  | e :: evs => do* run_event e in run_events evs
  end.

(** Agents connect when they are not connected and disconnect when they are. *)
Fixpoint alternating (all live : gset aref) (evs : list conn_event) : Prop :=
  match evs with
  | [] => True
  | e :: evs =>
      (match e with
       | EvConnect a => a ∈ all /\ a ∉ live
       | EvDisConnect a => a ∈ live
       end) /\ alternating all (live_step live e) evs
  end.

Definition counted (w : world) (sid_of : aref -> string) (live : gset aref) : Prop :=
  agentNum w = Z.of_nat (size live) /\
  forall sid a, sessions w !! sid = Some a <-> a ∈ live /\ sid_of a = sid.

Lemma Connect_run w sid_of all live a : roster w sid_of all -> live ⊆ all -> counted w sid_of live ->
  a ∈ all -> a ∉ live ->
  exists w', run_event (EvConnect a) w = Done w' tt /\ roster w' sid_of all /\
    counted w' sid_of ({[ a ]} ∪ live).
Proof.
  intros [Hr Hinj] Hsub [Hn Hc] Ha Hl. destruct (Hr a Ha) as (g & s & i & Hg & Hs & Hp & Hi & Hid).
  set (w1 := w <| sessions := <[sid_of a := a]> (sessions w) |> <| agentNum := agentNum w + 1 |>).
  exists (if has_learner then w1 <| hw_events := (hw_events w ++ [LConnect (Some s)])%list |> else w1).
  split; [|split].
  - cbn [run_event]. unfold Connect, recovered. step (this_agent_done _ _ _ Hg). rewrite Hs, Hp.
    unfold st_bind at 1.
    step (lift_same (GetSessionID s) w (sid_of a)
            ltac:(unfold GetSessionID; rewrite (plain_get_done _ _ _ _ Hi), Hid; done)).
    unfold st_bind, st_mod, add_agentNum, st_mod, note. cbn [exec_then]. by destruct has_learner.
  - destruct has_learner; split; done.
  - assert (Hc1 : counted w1 sid_of ({[ a ]} ∪ live)).
    { split.
      - cbn. rewrite Hn, size_union, size_singleton by set_solver. lia.
      - intros sid b. cbn. destruct (decide (sid_of a = sid)) as [<-|Hne].
        + rewrite lookup_insert_eq. split; [intros [= <-]; set_solver|].
          intros [Hb Hbs]. f_equal. apply Hinj; [done| |done]. set_solver.
        + rewrite lookup_insert_ne by done. rewrite Hc. set_solver. }
    by destruct has_learner.
Qed.

Lemma DisConnect_run w sid_of all live a : roster w sid_of all -> live ⊆ all -> counted w sid_of live ->
  a ∈ live ->
  exists w', run_event (EvDisConnect a) w = Done w' tt /\ roster w' sid_of all /\
    counted w' sid_of (live ∖ {[ a ]}).
Proof.
  intros [Hr Hinj] Hsub [Hn Hc] Ha. destruct (Hr a (Hsub _ Ha)) as (g & s & i & Hg & Hs & Hp & Hi & Hid).
  set (w0 := if has_learner then w <| hw_events := (hw_events w ++ [LDisConnect s])%list |> else w).
  assert (H0 : hw_agents w0 = hw_agents w /\ hw_sess w0 = hw_sess w /\ sessions w0 = sessions w /\
               agentNum w0 = agentNum w) by (unfold w0; by destruct has_learner).
  destruct H0 as (E1 & E2 & E3 & E4).
  exists (w0 <| sessions := delete (sid_of a) (sessions w0) |> <| agentNum := agentNum w0 + -1 |>).
  split; [|split].
  - cbn [run_event]. unfold DisConnect. unfold st_bind at 1.
    assert (Hrec : forall m, recovered (let* g := this_agent a in m g) w = recovered (m g) w)
      by (intros m; unfold recovered; by step (this_agent_done _ _ _ Hg)).
    rewrite Hrec, Hs.
    assert (Hl : recovered (if has_learner then
        do* note (LDisConnect s) in
        (if learner_returns s then st_ret tt else st_panic "learner") else st_ret tt) w = Done w0 tt).
    { unfold recovered, w0. destruct has_learner; [|done]. unfold st_bind, note, st_mod. cbn [exec_then].
      by destruct (learner_returns s). }
    rewrite Hl. cbn [exec_then]. unfold forget. rewrite <- E1 in Hg. step (this_agent_done _ _ _ Hg).
    rewrite Hs, Hp. rewrite <- E2 in Hi.
    step (lift_same (GetSessionID s) w0 (sid_of a)
            ltac:(unfold GetSessionID; rewrite (plain_get_done _ _ _ _ Hi), Hid; done)).
    done.
  - split; [|done]. cbn. by rewrite E1, E2.
  - split; cbn.
    + rewrite E4, Hn, size_difference by set_solver. rewrite size_singleton.
      assert (size live <> 0)%nat by (intros Hz; apply size_empty_inv in Hz; set_solver). lia.
    + intros sid b. rewrite E3. destruct (decide (sid_of a = sid)) as [<-|Hne].
      * rewrite lookup_delete_eq. split; [done|]. intros [Hb Hbs].
        assert (b = a) as -> by (apply Hinj; set_solver). set_solver.
      * rewrite lookup_delete_ne by done. rewrite Hc. set_solver.
Qed.

Lemma run_events_counted evs : forall w sid_of all live,
  roster w sid_of all -> live ⊆ all -> counted w sid_of live -> alternating all live evs ->
  exists w', run_events evs w = Done w' tt /\ counted w' sid_of (foldl live_step live evs).
Proof.
  induction evs as [|e evs IH]; intros w sid_of all live Hr Hsub Hc Halt; [by exists w|].
  destruct Halt as [He Halt]. cbn [run_events foldl].
  assert (Hsub' : live_step live e ⊆ all) by (destruct e; set_solver).
  assert (exists w1, run_event e w = Done w1 tt /\ roster w1 sid_of all /\
            counted w1 sid_of (live_step live e)) as (w1 & E1 & Hr1 & Hc1).
  { destruct e as [a|a]; [destruct He; by apply Connect_run | by apply DisConnect_run]. }
  step E1. by apply (IH w1 sid_of all).
Qed.

End Connections.

(** ** A session and its copy elsewhere *)

Section Gate.
Context {Conn St : Type}
        (proto_marshal : snapshot -> result string bytes)
        (proto_unmarshal : bytes -> result string snapshot)
        (gen_id : nat -> string)
        (global_judge : option nat)
        (range_order : gmap string string -> list (string * string))
        (walk_order : gmap string aref -> list (string * aref))
        (agent_WriteMsg : string -> bytes -> Conn -> Conn * option string)
        (agent_Close : Conn -> Conn)
        (has_storage : bool)
        (storage_Query : string -> St -> St * result string (option bytes))
        (storage_Storage : snapshot -> St -> St * option string)
        (range_perm : forall m, range_order m ≡ₚ map_to_list m).

Abbreviation world := (hworld Conn St).

Abbreviation serve_ :=
  (serve proto_marshal proto_unmarshal gen_id global_judge range_order walk_order agent_WriteMsg
     agent_Close has_storage storage_Query storage_Storage).

(** What reaches a copy of [n]: the trace stays its own, the topic is lost. *)
Definition synced (own n : snapshot) : snapshot :=
  n <| sn_Topic := "" |> <| sn_TraceId := sn_TraceId own |> <| sn_SpanId := sn_SpanId own |>.

(** The wire carries [n]. *)
Definition carries (n : snapshot) : Prop :=
  exists b, proto_marshal n = Ok b /\ proto_unmarshal b = Ok n.

Lemma Deserialize_done ap b n w : proto_unmarshal b = Ok n ->
  exists t i w', Deserialize proto_unmarshal gen_id global_judge ap b w = Done w' (Ok t) /\
    sw_sess w !! t = None /\ sat w' t (mkSessionagent ap i false None None) /\
    snap w' i = n <| sn_Topic := "" |> <| sn_SpanId := gen_id (sw_ids w) |> /\
    (forall s a, sw_sess w !! s = Some a -> sw_sess w' !! s = Some a) /\
    (forall r m, live_map w r m -> live_map w' r m) /\
    (exists r m, Settings i = Some r /\ live_map w' r m).
Proof.
  intros Hb. destruct (NewSession_done proto_unmarshal global_judge ap b n w Hb) as (s1 & r1 & Hs1 & Hr1 & H1).
  match type of H1 with _ = Done (set_session s1 ?x ?y) _ => set (a1 := x) in *; set (w1 := y) in * end.
  destruct (Clone_done gen_id (set_session s1 a1 w1) s1 a1 (sat_set w1 s1 a1 eq_refl))
    as (t & r & Ht & Hr & H2).
  assert (Hts : t <> s1) by (intros ->; by rewrite lookup_set_session in Ht).
  rewrite lookup_set_session_ne in Ht by done. rewrite maps_set_session in Hr.
  assert (Hrr : r <> r1) by (intros ->; cbn in Hr; by rewrite lookup_insert_eq in Hr).
  exists t. do 2 eexists. split; [unfold Deserialize; step H1; by step H2|].
  split; [done|]. split; [by apply sat_set|].
  split; [unfold snap, cloned, read_map; rewrite !maps_set_session; cbn; by rewrite !lookup_insert_eq|].
  split; [|split].
  - intros s a Ha. assert (t <> s) by (intros ->; cbn in Ht; congruence).
    rewrite lookup_set_session_ne by done. cbn. assert (s1 <> s) by (intros ->; congruence).
    by rewrite lookup_set_session_ne.
  - intros r2 m Hm. unfold live_map in *. rewrite !maps_set_session. cbn.
    assert (r1 <> r2) by (intros ->; congruence).
    assert (r <> r2). { intros ->. cbn in Hr. rewrite lookup_insert_ne in Hr by done. congruence. }
    by rewrite !lookup_insert_ne.
  - do 2 eexists. split; [done|]. unfold live_map. rewrite !maps_set_session. cbn. apply lookup_insert_eq.
Qed.

(** A session of the world whose settings map exists. *)
Definition has (w : world) (s : sref) (a : sessionagent) (n : snapshot) : Prop :=
  sat (hw_sess w) s a /\ snap (hw_sess w) (session a) = n /\
  exists r m, Settings (session a) = Some r /\ live_map (hw_sess w) r m.

(** The answer of a session handler, taken over by the caller's [update]. *)
Lemma answer_update c g a b n own (w : world) :
  c <> g -> has w c a own -> has w g b n -> carries n ->
  exists w' a' r, (let* o := answer_session proto_marshal proto_unmarshal gen_id global_judge (Some g, "") in
             match o with
             | Ok (ASession src) => do* lift (update range_order c src) in st_ret None
             | Ok ANil => st_ret None
             | Ok _ => st_panic "interface conversion"
             | Err e => st_ret (Some e)
             end) w = Done w' None /\
    has w' g b n /\ has w' c a' (synced own n) /\ held a' = false /\
    Settings (session a') = Some r /\ Settings (session b) <> Some r /\
    hw_agents w' = hw_agents w /\ sessions w' = sessions w /\ hw_storage w' = hw_storage w.
Proof.
  intros Hcg (Ha & Hown & ra & ma & Hra & Hma) (Hb & Hn & rb & mb & Hrb & Hmb) (wire & Hw1 & Hw2).
  assert (Hser : Serialize proto_marshal g (hw_sess w) = Done (hw_sess w) (Ok wire)).
  { unfold Serialize, Serializable. step (RLock_done _ _ _ Hb). step (this_done _ _ _ (proj1 Hb)).
    unfold st_bind, st_get, st_ret. cbn [exec_then]. by rewrite Hn, Hw1. }
  destruct (Deserialize_done true wire n (hw_sess w) Hw2)
    as (t & i & s1 & Hd & Ht & Hti & Hi & Hold & Hmaps & ri & mi & Hri & Hmi).
  assert (Hct : c <> t) by (intros ->; destruct Ha; congruence).
  assert (Ha1 : sat s1 c a) by (split; [apply Hold; apply Ha | apply Ha]).
  assert (Hb1 : sat s1 g b) by (split; [apply Hold; apply Hb | apply Hb]).
  destruct (update_done range_order range_perm s1 c t _ _ Hct Ha1 Hti) as (r & Hr & Hu).
  set (w1 := w <| hw_sess := s1 |>).
  eexists _, (a <| session := updated (session a) i r |>), r. split.
  { unfold answer_session at 1. unfold st_bind at 1.
    step (lift_same (Serialize proto_marshal g) w (Ok wire) Hser).
    step (lift_done (Deserialize proto_unmarshal gen_id global_judge true wire) w s1 (Ok t) Hd).
    unfold st_ret at 1. cbn [exec_then]. step (lift_done (update range_order c t) w1 _ tt Hu).
    reflexivity. }
  unfold has. cbn [hw_sess upd]. assert (r <> rb) by (intros ->; specialize (Hmaps _ _ Hmb); congruence).
  split; [|split; [|split; [apply Ha|]]].
  - split; [|split].
    + apply sat_set_ne; [done|]. done.
    + rewrite <- Hn. unfold snap. f_equal. unfold read_map. rewrite Hrb, maps_set_session. cbn.
      rewrite lookup_insert_ne by done. by rewrite (Hmaps _ _ Hmb), Hmb.
    + exists rb, mb. split; [done|]. unfold live_map. rewrite maps_set_session. cbn. rewrite lookup_insert_ne by done. by apply Hmaps.
  - split; [|split].
    + apply sat_set. apply Ha.
    + unfold snap, synced, updated, read_map. rewrite maps_set_session. cbn. rewrite lookup_insert_eq. cbn.
      assert (Hi' : snap s1 i = n <| sn_Topic := "" |> <| sn_SpanId := gen_id (sw_ids (hw_sess w)) |>) by done.
      rewrite <- Hown. destruct n. unfold snap, upd in Hi'. cbn in Hi'. injection Hi' as -> -> -> -> -> -> _ _ -> <-.
      done.
    + eexists r, _. split; [done|]. unfold live_map. rewrite maps_set_session. cbn. apply lookup_insert_eq.
  - split; [done|]. split; [rewrite Hrb; congruence|]. done.
Qed.

(** ** The calls of a session copy *)

Section Call.
Context {Srv : Type} (GetServerByInstanceID : string -> result string Srv).

Lemma gateServer_done c a own srv (w : world) :
  has w c a own -> app a = true -> sn_GateInstanceId own <> "" ->
  GetServerByInstanceID (sn_GateInstanceId own) = Ok srv ->
  gateServer GetServerByInstanceID c w = Done w (Ok srv).
Proof.
  intros ([Hc _] & <- & _) Happ Hi Hsrv. unfold gateServer.
  step (lift_same (this c) w a (this_done _ _ _ Hc)). rewrite Happ. cbn [negb].
  step (lift_same (GetGateInstanceID c) w _ (plain_get_done _ _ _ GateInstanceId Hc)).
  destruct (decide _); [done|]. change (GateInstanceId (session a)) with
    (sn_GateInstanceId (snap (hw_sess w) (session a))). by rewrite Hsrv.
Qed.

Lemma with_id_done c a own f (w : world) : has w c a own ->
  with_id c f w = Done w (f (sn_SessionId own)).
Proof.
  intros ([Hc _] & <- & _). unfold with_id, own_id, st_bind at 1.
  by step (lift_same (this c) w a (this_done _ _ _ Hc)).
Qed.

(** A call whose handler returns the gate's session leaves the copy in step with
    it. *)
Lemma call_update_syncs c g a b own n srv req f (w w1 : world) :
  c <> g -> has w c a own -> app a = true -> sn_GateInstanceId own <> "" ->
  GetServerByInstanceID (sn_GateInstanceId own) = Ok srv ->
  req = f (sn_SessionId own) ->
  serve_ req w = (let* o := st_ret (Some g, "") in
                  answer_session proto_marshal proto_unmarshal gen_id global_judge o) w1 ->
  has w1 c a own -> has w1 g b n -> carries n ->
  exists w' a' r, call_update range_order GetServerByInstanceID (fun _ => serve_) c (with_id c f) w = Done w' None /\
    has w' g b n /\ has w' c a' (synced own n) /\
    Settings (session a') = Some r /\ Settings (session b) <> Some r /\ hw_storage w' = hw_storage w1.
Proof.
  intros Hcg Hc Happ Hi Hsrv -> Hserve Hc1 Hg1 Hn.
  destruct (answer_update c g a b n own w1 Hcg Hc1 Hg1 Hn) as (w' & a' & r & Hu & H1 & H2 & _ & H3 & H4 & _ & _ & H5).
  exists w', a', r. split; [|done]. unfold call_update.
  step (gateServer_done _ _ _ _ _ Hc Happ Hi Hsrv). step (with_id_done _ _ _ f _ Hc).
  unfold st_bind in Hserve, Hu |- * at 1. rewrite Hserve. exact Hu.
Qed.
End Call.

(** The gate's own session, reached through its id. *)
Definition gate_session (w : world) (sid : string) (g : sref) : Prop :=
  exists ag ga, sessions w !! sid = Some ag /\ hw_agents w !! ag = Some ga /\ ag_session ga = Some g.

End Gate.

(** ** Binding and setting with a store *)

Section Storage.
Context {Conn St : Type} (proto_unmarshal : bytes -> result string snapshot) (global_judge : option nat)
        (has_storage : bool) (storage_Query : string -> St -> St * result string (option bytes))
        (storage_Storage : snapshot -> St -> St * option string).
Abbreviation world := (hworld Conn St).

(** The settings [Bind] finds for a user, and whether it looks. *)
Definition restored (uid : string) (st : St) : gmap string string :=
  match snd (storage_Query uid st) with
  | Ok (Some data) => match proto_unmarshal data with Ok d => sn_Settings d | Err _ => ∅ end
  | _ => ∅
  end.
Definition keeps (uid : string) : bool := has_storage && negb (bool_decide (uid = "")).

(** Other sessions than [g] and other maps than [r] are as they were. *)
Definition spares (g : sref) (r : mref) (w w' : world) : Prop :=
  (forall s a, s <> g -> sat (hw_sess w) s a -> sat (hw_sess w') s a) /\
  (forall r' m, r' <> r -> live_map (hw_sess w) r' m -> live_map (hw_sess w') r' m).

Lemma has_spared g r (w w' : world) c a own : spares g r w w' -> c <> g -> Settings (session a) <> Some r ->
  has w c a own -> has w' c a own.
Proof.
  intros [Hs Hm] Hc Hr (Ha & <- & rc & mc & Hrc & Hmc). assert (Hne : rc <> r) by congruence.
  pose proof (Hm _ _ Hne Hmc) as Hmc'. split; [by apply Hs|]. split; [|by exists rc, mc].
  unfold snap, read_map. rewrite Hrc. unfold live_map in *. cbn. by rewrite Hmc, Hmc'.
Qed.

(** Saved settings end up below the live ones; nothing else changes. *)
Lemma restore_done (w : world) g b r m uid :
  sat (hw_sess w) g b -> Settings (session b) = Some r -> live_map (hw_sess w) r m ->
  exists w', restore proto_unmarshal global_judge storage_Query g uid w = Done w' tt /\
    sat (hw_sess w') g b /\ live_map (hw_sess w') r (m ∪ restored uid (hw_storage w)) /\ spares g r w w' /\
    hw_storage w' = fst (storage_Query uid (hw_storage w)).
Proof.
  intros Hb Hr Hm. unfold restore, restored. destruct (storage_Query uid (hw_storage w)) as [st' o]. cbn [fst snd].
  set (w0 := w <| hw_storage := st' |>).
  assert (Hno : exists w', Done w0 tt = Done w' tt /\ sat (hw_sess w') g b /\ live_map (hw_sess w') r (m ∪ ∅) /\
    spares g r w w' /\ hw_storage w' = st') by (exists w0; rewrite map_union_empty; done).
  destruct o as [[data|]|]; [|exact Hno..]. destruct (proto_unmarshal data) as [d|e] eqn:Hd.
  2: { unfold lift, NewSession, unmarshal_imp, st_bind, st_ret. rewrite Hd. destruct w0 eqn:E; cbn. exact Hno. }
  unfold live_map in Hm.
  destruct (NewSession_done proto_unmarshal global_judge true data d (hw_sess w) Hd) as (t & rd & Ht & Hrd & Hnew).
  match type of Hnew with _ = Done (set_session t ?x ?y) _ =>
    set (e := x) in *; set (y1 := y) in *; set (s2 := set_session t e y1) in * end.
  assert (Hold : forall s a, sat (hw_sess w) s a -> sat s2 s a).
  { intros s a Ha. apply sat_set_ne; [|exact Ha]. intros ->. destruct Ha. congruence. }
  assert (Hrrd : r <> rd) by (intros ->; congruence).
  assert (Hm2 : sw_maps s2 = <[rd := sn_Settings d]> (sw_maps (hw_sess w))) by done.
  destruct (CloneSettings_done s2 t e (sat_set y1 t e eq_refl)) as (rc & Hrc & Hclone).
  assert (Hread : read_map s2 (Settings (session e)) = sn_Settings d).
  { unfold read_map. rewrite Hm2. cbn. by rewrite lookup_insert_eq. }
  rewrite Hread in Hclone. rewrite Hm2 in Hrc.
  assert (Hrcr : r <> rc) by (intros ->; rewrite lookup_insert_ne in Hrc by done; congruence).
  set (s3 := s2 <| sw_maps := <[rc := sn_Settings d]> (sw_maps s2) |>) in *.
  pose proof (ImportSettings_done s3 g b r (Some rc) (Hold _ _ Hb) Hr) as Himp.
  assert (Hread3 : read_map s3 (Some rc) = sn_Settings d) by (cbn; by rewrite lookup_insert_eq).
  rewrite Hread3 in Himp.
  set (s4 := s3 <| sw_maps := alter (fun own => own ∪ sn_Settings d) r (sw_maps s3) |>) in *.
  exists (w0 <| hw_sess := s4 |>). split; [|split; [exact (Hold _ _ Hb)|split; [|split; [split|done]]]].
  - match goal with |- exec_then (lift ?m0 ?w0) _ = _ => pose proof (lift_done m0 w0 s2 (Ok t) Hnew) as Hl end.
    rewrite Hl. cbn [exec_then]. step (lift_done (CloneSettings t) (w0 <| hw_sess := s2 |>) s3 rc Hclone).
    exact (lift_done (ImportSettings (Some rc) g) (w0 <| hw_sess := s3 |>) s4 tt Himp).
  - unfold live_map. cbn. rewrite lookup_alter_eq, lookup_insert_ne, Hm2, lookup_insert_ne, Hm by done. done.
  - intros s a _ Ha. exact (Hold s a Ha).
  - intros r' m' Hr' Hm'. unfold live_map in *. cbn. rewrite lookup_alter_ne by done.
    assert (r' <> rd) by (intros ->; congruence).
    assert (r' <> rc) by (intros ->; rewrite lookup_insert_ne in Hrc by done; congruence).
    by rewrite lookup_insert_ne, Hm2, lookup_insert_ne.
Qed.

Lemma storable_done (w : world) g b : sat (hw_sess w) g b -> storable has_storage g w = Done w (keeps (UserId (session b))).
Proof.
  intros Hb. unfold storable, keeps. destruct has_storage; [|done].
  by step (lift_same (GetUserID g) w _ (plain_get_done _ _ _ UserId (proj1 Hb))).
Qed.

Definition put_storage (n : snapshot) (w : world) : world := w <| hw_storage := fst (storage_Storage n (hw_storage w)) |>.

Lemma store_done (w : world) g b n : has w g b n -> store storage_Storage g w = Done (put_storage n w) tt.
Proof.
  intros (Hb & <- & _). unfold store. by step (lift_same (this g) w b (this_done _ _ _ (proj1 Hb))).
Qed.

Lemma has_put_storage n' (w : world) c a n : has (put_storage n' w) c a n <-> has w c a n.
Proof. done. Qed.

(** [Bind] on the gate: the user id, the saved settings below the live ones, and the result
    stored. *)
Lemma Bind_done (w : world) sid uid g b n r : gate_session w sid g -> has w g b n -> Settings (session b) = Some r ->
  let n' := n <| sn_UserId := uid |> <| sn_Settings := sn_Settings n ∪ (if keeps uid then restored uid (hw_storage w) else ∅) |> in
  exists w' b', Bind proto_unmarshal global_judge has_storage storage_Query storage_Storage sid uid w = Done w' (Some g, "") /\
    has w' g b' n' /\ Settings (session b') = Some r /\ spares g r w w' /\
    hw_storage w' = if keeps uid then fst (storage_Storage n' (fst (storage_Query uid (hw_storage w)))) else hw_storage w.
Proof.
  intros (ag & ga & H1 & H2 & H3) (Hs & Hn & r' & m & Hr' & Hm) Hr n'. assert (r' = r) as -> by congruence.
  set (b1 := on_imp (fun i => i <| UserId := uid |>) b). set (w1 := w <| hw_sess := set_session g b1 (hw_sess w) |>).
  assert (Hb1 : sat (hw_sess w1) g b1) by (apply sat_set; apply Hs).
  assert (Hsp : spares g r w w1) by (split; [intros s a Hne; by apply sat_set_ne | done]).
  assert (Hsnap : forall (x : world) s, sw_maps (hw_sess x) !! r = Some (m ∪ s) ->
    snap (hw_sess x) (session b1) = n <| sn_UserId := uid |> <| sn_Settings := sn_Settings n ∪ s |>).
  { intros x s Hx. rewrite <- Hn. unfold snap, read_map. change (Settings (session b1)) with (Settings (session b)).
    rewrite Hr. unfold live_map in Hm. cbn. by rewrite Hx, Hm. }
  assert (HB : Bind proto_unmarshal global_judge has_storage storage_Query storage_Storage sid uid w =
    st_bind (if keeps uid then do* restore proto_unmarshal global_judge storage_Query g uid in store storage_Storage g else st_ret tt)
      (fun _ => st_ret (Some g, "")) w1).
  { unfold Bind, with_agent. rewrite H1. step (session_of_done w _ _ _ H2 H3).
    step (lift_done (SetUserID uid g) w _ tt (locked_set_done _ _ _ (fun i => i <| UserId := uid |>) Hs)).
    fold b1 w1. by step (storable_done w1 g b1 Hb1). }
  rewrite HB. destruct (keeps uid).
  - destruct (restore_done w1 g b1 r m uid Hb1 Hr Hm) as (w2 & Hres & Hb2 & Hm2 & [Hsp1 Hsp2] & Hst).
    assert (Hg2 : has w2 g b1 n') by (split; [done|]; split; [by apply Hsnap | by exists r, (m ∪ restored uid (hw_storage w))]).
    exists (put_storage n' w2), b1. split_and!; [|done|done| |cbn; by rewrite Hst].
    + unfold st_bind at 1. step Hres. by rewrite (store_done w2 g b1 n' Hg2).
    + split; [|exact Hsp2]. intros s a Hne Ha. apply Hsp1; [done|]. by apply Hsp.
  - exists w1, b1. split_and!; [done| |done..]. split; [done|]. split; [|by exists r, m].
    apply Hsnap. by rewrite map_union_empty.
Qed.

(** [Set] on the gate: the entry, and the result stored. *)
Lemma Set_done (w : world) sid k v g b n r : gate_session w sid g -> has w g b n -> Settings (session b) = Some r ->
  let n' := n <| sn_Settings := <[k := v]> (sn_Settings n) |> in
  exists w', Set_ has_storage storage_Storage sid k v w = Done w' (Some g, "") /\ has w' g b n' /\ spares g r w w' /\
    hw_storage w' = if keeps (sn_UserId n) then fst (storage_Storage n' (hw_storage w)) else hw_storage w.
Proof.
  intros (ag & ga & H1 & H2 & H3) (Hs & Hn & r' & m & Hr' & Hm) Hr n'. assert (r' = r) as -> by congruence.
  set (w1 := w <| hw_sess := hw_sess w <| sw_maps := alter <[k := v]> r (sw_maps (hw_sess w)) |> |>).
  assert (Hg1 : has w1 g b n').
  { split; [done|]. unfold live_map in Hm. split.
    - unfold n'. rewrite <- Hn. unfold snap, read_map. rewrite Hr. cbn. by rewrite lookup_alter_eq, Hm.
    - eexists r, _. split; [done|]. unfold live_map. cbn. by rewrite lookup_alter_eq, Hm. }
  assert (Hsp : spares g r w w1).
  { split; [done|]. intros r' m' Hne Hm'. unfold live_map in *. cbn. by rewrite lookup_alter_ne. }
  assert (HS : Set_ has_storage storage_Storage sid k v w =
    st_bind (if keeps (sn_UserId n) then store storage_Storage g else st_ret tt) (fun _ => st_ret (Some g, "")) w1).
  { unfold Set_. rewrite H1. step (session_of_done _ _ _ _ H2 H3).
    step (lift_done (SetLocalKV k v g) w _ tt (SetLocalKV_done _ _ _ r k v Hs Hr)).
    unfold persist, st_bind at 1 2. fold w1. rewrite (storable_done w1 g b (proj1 Hg1)). cbn [exec_then]. by rewrite <- Hn. }
  rewrite HS. destruct (keeps (sn_UserId n)).
  - exists (put_storage n' w1). split_and!; [|done..]. unfold st_bind. by rewrite (store_done w1 g b n' Hg1).
  - by exists w1.
Qed.
End Storage.

(** ** Properties *)

(** C10. Under every alternating history of connections and disconnections of
    agents with distinct session ids, the handler's agent count is the number of
    agents connected and its session table lists exactly those, even when the
    learner panics on the way. *)
Theorem agent_count_is_connections {Conn St : Type} (has_learner : bool) (learner_returns : sref -> bool)
  (w : hworld Conn St) (sid_of : aref -> string) (all : gset aref) (evs : list conn_event)
  (Hr : roster w sid_of all) (Hn : agentNum w = 0) (He : sessions w = ∅) (Hevs : alternating all ∅ evs) :
  exists w', run_events has_learner learner_returns evs w = Done w' tt /\
    agentNum w' = Z.of_nat (size (foldl live_step ∅ evs)) /\
    forall sid a, sessions w' !! sid = Some a <-> a ∈ foldl live_step ∅ evs /\ sid_of a = sid.
Proof.
  apply (run_events_counted has_learner learner_returns evs w sid_of all ∅); [done | set_solver | | done].
  split; [by rewrite Hn|]. intros sid a. rewrite He, lookup_empty. set_solver.
Qed.

Definition demo_gate : hworld unit unit :=
  mkHworld demo_world {[ 1%positive := mkGagent (Some 1%positive) true false tt ]} ∅ 0 tt [].

Lemma agent_count_is_connections_witness :
  exists w', run_events true (fun _ => false) [EvConnect 1%positive; EvDisConnect 1%positive] demo_gate = Done w' tt /\
    agentNum w' = Z.of_nat (size (foldl live_step ∅ [EvConnect 1%positive; EvDisConnect 1%positive])) /\
    forall sid a, sessions w' !! sid = Some a <->
      a ∈ foldl live_step ∅ [EvConnect 1%positive; EvDisConnect 1%positive] /\ (fun _ => "s1") a = sid.
Proof.
  apply (agent_count_is_connections true (fun _ => false) demo_gate (fun _ => "s1") {[ 1%positive ]}).
  - split.
    + intros a Ha. apply elem_of_singleton in Ha as ->.
      exists (mkGagent (Some 1%positive) true false tt), 1%positive, demo_agent. done.
    + intros a b Ha Hb _. set_solver.
  - reflexivity.
  - reflexivity.
  - cbn. set_solver.
Defined.

(** C11. A session copy in another module (one with its App, of a session still connected,
    whose gate is found by its instance id) stays in step with the gate's session,
    with or without a storage handler, whatever it answers, as long as protobuf carries
    the result.  [Bind] through the copy gives the
    gate's session the new user id and, where a handler is installed and the id is not
    empty, the settings saved for that user below its own; [Set] gives it the new entry;
    with a handler, and a user, the result is stored.  Then the copy has every field and
    setting of the gate's session, in a settings map of its own; only the topic, which the
    wire form drops, and the copy's own trace differ. *)
Theorem remote_session_stays_in_step {Conn St Srv : Type}
  (proto_marshal : snapshot -> result string bytes) (proto_unmarshal : bytes -> result string snapshot)
  (gen_id : nat -> string) (global_judge : option nat)
  (range_order : gmap string string -> list (string * string))
  (walk_order : gmap string aref -> list (string * aref))
  (agent_WriteMsg : string -> bytes -> Conn -> Conn * option string) (agent_Close : Conn -> Conn)
  (has_storage : bool) (storage_Query : string -> St -> St * result string (option bytes))
  (storage_Storage : snapshot -> St -> St * option string)
  (GetServerByInstanceID : string -> result string Srv) (srv : Srv)
  (w : hworld Conn St) (c g : sref) (a b : sessionagent) (own n : snapshot) (uid k v : string)
  (Hperm : forall m, range_order m ≡ₚ map_to_list m)
  (Hcg : c <> g) (Hc : has w c a own) (Hg : has w g b n)
  (Happ : app a = true) (Hi : sn_GateInstanceId own <> "")
  (Hsrv : GetServerByInstanceID (sn_GateInstanceId own) = Ok srv)
  (Hsid : gate_session w (sn_SessionId own) g) (Hmaps : Settings (session a) <> Settings (session b)) :
  let gate := serve proto_marshal proto_unmarshal gen_id global_judge range_order walk_order agent_WriteMsg
                agent_Close has_storage storage_Query storage_Storage in
  let saved := if keeps has_storage uid then restored proto_unmarshal storage_Query uid (hw_storage w) else ∅ in
  let bound := n <| sn_UserId := uid |> <| sn_Settings := sn_Settings n ∪ saved |> in
  let entered := n <| sn_Settings := <[k := v]> (sn_Settings n) |> in
  (carries proto_marshal proto_unmarshal bound ->
   exists w' b' a', s_Bind range_order GetServerByInstanceID (fun _ => gate) uid c w = Done w' None /\
     has w' g b' bound /\ has w' c a' (synced own bound) /\ Settings (session a') <> Settings (session b') /\
     hw_storage w' = if keeps has_storage uid then fst (storage_Storage bound (fst (storage_Query uid (hw_storage w)))) else hw_storage w) /\
  (carries proto_marshal proto_unmarshal entered ->
   exists w' b' a', s_Set range_order GetServerByInstanceID (fun _ => gate) k v c w = Done w' None /\
     has w' g b' entered /\ has w' c a' (synced own entered) /\ Settings (session a') <> Settings (session b') /\
     hw_storage w' = if keeps has_storage (sn_UserId n) then fst (storage_Storage entered (hw_storage w)) else hw_storage w).
Proof.
  intros gate saved bound entered. pose proof Hg as (_ & _ & r & _ & Hr & _).
  assert (Har : Settings (session a) <> Some r) by congruence. split; intros Hwire.
  - destruct (Bind_done proto_unmarshal global_judge has_storage storage_Query storage_Storage w _ uid g b n r Hsid Hg Hr)
      as (w1 & b1 & HB & Hg1 & Hr1 & Hsp & Hst).
    destruct (call_update_syncs proto_marshal proto_unmarshal gen_id global_judge range_order walk_order
      agent_WriteMsg agent_Close has_storage storage_Query storage_Storage Hperm GetServerByInstanceID
      c g a b1 own bound srv (RBind (sn_SessionId own) uid) (fun i => RBind i uid) w w1) as (w' & a' & r' & Hrun & H1 & H2 & H3 & H4 & H5);
      [done|done|done|done|done|done| | |done|done|].
    + cbn [serve]. unfold st_bind at 1. by rewrite HB.
    + by eapply has_spared.
    + exists w', b1, a'. split_and!; [done|done|done|congruence|by rewrite H5].
  - destruct (Set_done has_storage storage_Storage w _ k v g b n r Hsid Hg Hr) as (w1 & HS & Hg1 & Hsp & Hst).
    destruct (call_update_syncs proto_marshal proto_unmarshal gen_id global_judge range_order walk_order
      agent_WriteMsg agent_Close has_storage storage_Query storage_Storage Hperm GetServerByInstanceID
      c g a b own entered srv (RSet (sn_SessionId own) k v) (fun i => RSet i k v) w w1) as (w' & a' & r' & Hrun & H1 & H2 & H3 & H4 & H5);
      [done|done|done|done|done|done| | |done|done|].
    + cbn [serve]. unfold st_bind at 1. by rewrite HS.
    + by eapply has_spared.
    + exists w', b, a'. split_and!; [done|done|done|congruence|by rewrite H5].
Qed.

Definition copy_imp : SessionImp :=
  mkSessionImp "10.0.0.1:80" "tcp" "" "s1" "gate" "gate@1" "t2" "sp2" "" (Some 2%positive).
Definition copy_agent : sessionagent := mkSessionagent true copy_imp false None None.
Definition pair_sess : sworld :=
  mkSworld {[ 1%positive := {[ "k" := "v" ]}; 2%positive := ∅ ]}
           {[ 1%positive := demo_agent; 2%positive := copy_agent ]} 0.
Definition pair_gate : hworld unit (list snapshot) :=
  mkHworld pair_sess {[ 1%positive := mkGagent (Some 1%positive) true false tt ]}
    {[ "s1" := 1%positive ]} 1 [] [].
Definition gate_snap : snapshot := snap pair_sess demo_imp.
(** What an earlier connection of the user saved: one entry is new, the other is
    overridden by the live one. *)
Definition saved_snap : snapshot := gate_snap <| sn_Settings := {[ "k" := "old"; "lang" := "go" ]} |>.
Definition bound_snap : snapshot := gate_snap <| sn_UserId := "u2" |> <| sn_Settings := {[ "k" := "v"; "lang" := "go" ]} |>.
Definition set_snap : snapshot := gate_snap <| sn_Settings := <["x" := "y"]> (sn_Settings gate_snap) |>.
(** A codec for three messages, a store that has one of them and keeps what it is given. *)
Definition three_marshal (n : snapshot) : result string bytes :=
  if decide (n = bound_snap) then Ok [x01] else if decide (n = set_snap) then Ok [x02] else Err "unknown".
Definition three_unmarshal (b : bytes) : result string snapshot :=
  if decide (b = [x01]) then Ok bound_snap else if decide (b = [x02]) then Ok set_snap
  else if decide (b = [x03]) then Ok saved_snap else Err "unknown".
Definition demo_Query (uid : string) (st : list snapshot) : list snapshot * result string (option bytes) :=
  (st, if decide (uid = "u2") then Ok (Some [x03]) else Ok None).
Definition demo_Storage (n : snapshot) (st : list snapshot) : list snapshot * option string := (n :: st, None).

Lemma bound_is : (gate_snap <| sn_UserId := "u2" |> <| sn_Settings := sn_Settings gate_snap ∪ sn_Settings saved_snap |>) = bound_snap.
Proof. vm_compute. reflexivity. Qed.

Lemma remote_session_stays_in_step_witness :
  let gate := serve (Conn := unit) three_marshal three_unmarshal (fun _ => "id") None map_to_list map_to_list
                (fun _ _ c => (c, None)) (fun c => c) true demo_Query demo_Storage in
  (exists w' b' a', s_Bind map_to_list (fun _ => Ok tt) (fun _ => gate) "u2" 2%positive pair_gate = Done w' None /\
     has w' 1%positive b' bound_snap /\ has w' 2%positive a' (synced (snap pair_sess copy_imp) bound_snap) /\
     Settings (session a') <> Settings (session b') /\ hw_storage w' = [bound_snap]) /\
  (exists w' b' a', s_Set map_to_list (fun _ => Ok tt) (fun _ => gate) "x" "y" 2%positive pair_gate = Done w' None /\
     has w' 1%positive b' set_snap /\ has w' 2%positive a' (synced (snap pair_sess copy_imp) set_snap) /\
     Settings (session a') <> Settings (session b') /\ hw_storage w' = [set_snap]).
Proof.
  pose proof (remote_session_stays_in_step three_marshal three_unmarshal (fun _ => "id") None map_to_list map_to_list
    (fun _ _ c => (c, None)) (fun c => c) true demo_Query demo_Storage
    (fun _ => Ok tt) tt pair_gate 2%positive 1%positive copy_agent demo_agent (snap pair_sess copy_imp) gate_snap
    "u2" "x" "y" (fun m => reflexivity _)) as H.
  change (restored three_unmarshal demo_Query "u2" (hw_storage pair_gate)) with (sn_Settings saved_snap) in H.
  change (keeps true "u2") with true in H. cbn zeta iota in H. rewrite bound_is in H.
  destruct H as [HB HS].
  - done.
  - split; [by split|]. split; [done|]. by exists 2%positive, ∅.
  - split; [by split|]. split; [done|]. by exists 1%positive, {[ "k" := "v" ]}.
  - done.
  - done.
  - done.
  - by exists 1%positive, (mkGagent (Some 1%positive) true false tt).
  - done.
  - split; [apply HB; exists [x01] | apply HS; exists [x02]]; (split; [vm_compute; reflexivity|vm_compute; reflexivity]).
Defined.
