(* ===== verification/Registry.v ===== *)
(** * Services and nodes

    The data of [registry/service.go] and [LatestServices] of
    [registry/latest.go], which keeps, of the instances registered for one
    logical server, the latest started. *)
From S2P Require Import Prelude.
#[local] Open Scope mq_scope.
#[local] Open Scope string_scope.
#[local] Open Scope list_scope.
#[local] Open Scope Z_scope.

(** ** Data *)

Record Node := mkNode {
  StartedAt : Z; ServerID : string; InstanceID : string; Address : string; Port : Z;
  n_Metadata : option (gmap string string) }.

Inductive Value := mkValue (v_Name v_Type : string) (Values : list Value).

Record Endpoint := mkEndpoint {
  ep_Name : string; Request : option Value; Response : option Value;
  ep_Metadata : gmap string string }.

Record Service := mkService {
  Name : string; Version : string; s_Metadata : gmap string string;
  Endpoints : list Endpoint; Nodes : list Node }.

#[export] Instance eta_Service : Eta Service := fun r =>
  mkService (Name r) (Version r) (s_Metadata r) (Endpoints r) (Nodes r).

#[export] Instance Node_eq_dec : EqDecision Node.
Proof. solve_decision. Defined.

(** ** [LatestServices] *)

Definition position : Type := nat * nat.

(** [service.Name + "\x00" + node.ServerID] *)
Definition latest_key (name server : string) : string :=
  (name ++ String (Ascii.ascii_of_nat 0) server)%string.

(** The nodes in the order of the two loops, with the position of each. *)
Definition node_entries (si : nat) (s : Service) : list (position * (string * Node)) :=
  imap (fun ni n => ((si, ni), (Name s, n))) (Nodes s).
Definition entries (services : list Service) : list (position * (string * Node)) :=
  mjoin (imap node_entries services).

Definition node_at (services : list Service) (p : position) : option Node :=
  s ← services !! p.1; Nodes s !! p.2.

(** [node.StartedAt < previous.StartedAt || (equal && node.InstanceID <=
    previous.InstanceID)]; Go compares strings bytewise. *)
Definition not_later (n previous : Node) : bool :=
  (StartedAt n <? StartedAt previous) ||
  ((StartedAt n =? StartedAt previous) && String.leb (InstanceID n) (InstanceID previous)).

Definition latest_step (services : list Service) (latest : gmap string position)
    (e : position * (string * Node)) : gmap string position :=
  let '(p, (name, node)) := e in
  if decide (ServerID node = "") then latest
  else
    let key := latest_key name (ServerID node) in
    match latest !! key with
    | Some current =>
        match node_at services current with
        | Some previous => if not_later node previous then latest else <[key := p]> latest
        | None => latest
        end
    | None => <[key := p]> latest
    end.

Definition latest_map (services : list Service) : gmap string position :=
  foldl (latest_step services) ∅ (entries services).

Definition keeps (latest : gmap string position) (name : string) (p : position) (node : Node) : bool :=
  bool_decide (ServerID node = "") ||
  bool_decide (latest !! latest_key name (ServerID node) = Some p).

Definition keep_nodes (latest : gmap string position) (si : nat) (s : Service) : list Node :=
  snd <$> filter (fun e => keeps latest (Name s) (si, e.1) e.2) (imap (fun ni n => (ni, n)) (Nodes s)).

Definition LatestServices (services : list Service) : list Service :=
  let latest := latest_map services in
  omap (fun o => o) (imap (fun si s =>
    match keep_nodes latest si s with
    | [] => None
    | nodes => Some (s <| Nodes := nodes |>)
    end) services).

(** ** Lemmas *)

Lemma leb_refl s : String.leb s s = true.
Proof. destruct (String.leb_total s s); done. Qed.

Lemma leb_trans a b c : String.leb a b = true -> String.leb b c = true -> String.leb a c = true.
Proof.
  intros H1 H2. apply Is_true_true. change (String.le a c).
  transitivity b; by apply Is_true_true.
Qed.

Lemma not_later_refl n : not_later n n = true.
Proof. unfold not_later. rewrite Z.eqb_refl, leb_refl. by rewrite orb_true_r. Qed.

Lemma not_later_trans a b c : not_later a b = true -> not_later b c = true -> not_later a c = true.
Proof.
  unfold not_later. rewrite !orb_true_iff, !andb_true_iff, !Z.ltb_lt, !Z.eqb_eq.
  intros [?|[? ?]] [?|[? ?]]; [left; lia | left; lia | left; lia | right].
  split; [lia|]. eapply leb_trans; eauto.
Qed.

Lemma not_later_total a b : not_later a b = false -> not_later b a = true.
Proof.
  unfold not_later. rewrite orb_false_iff, andb_false_iff, Z.ltb_ge, Z.eqb_neq,
    orb_true_iff, andb_true_iff, Z.ltb_lt, Z.eqb_eq.
  intros [H1 [H2|H2]]; [left; lia|]. destruct (decide (StartedAt b < StartedAt a)); [by left|].
  right. split; [lia|]. destruct (String.leb_total (InstanceID a) (InstanceID b)); congruence.
Qed.

(** An entry of the loops is a node at its position. *)
Lemma elem_of_entries services p name n :
  (p, (name, n)) ∈ entries services <->
  exists s, services !! p.1 = Some s /\ Nodes s !! p.2 = Some n /\ name = Name s.
Proof.
  unfold entries. rewrite list_elem_of_join. split.
  - intros (l & Hin & Hl). apply elem_of_lookup_imap in Hl as (si & s & -> & Hs).
    unfold node_entries in Hin. apply elem_of_lookup_imap in Hin as (ni & n' & [= -> -> ->] & Hn).
    by exists s.
  - destruct p as [si ni]. cbn. intros (s & Hs & Hn & ->). exists (node_entries si s). split.
    + apply elem_of_lookup_imap. by exists ni, n.
    + apply elem_of_lookup_imap. by exists si, s.
Qed.

Lemma node_at_entries services p name n : (p, (name, n)) ∈ entries services -> node_at services p = Some n.
Proof.
  intros (s & Hs & Hn & _)%elem_of_entries. unfold node_at. rewrite Hs. exact Hn.
Qed.

Definition entry_key (e : position * (string * Node)) : string := latest_key e.2.1 (ServerID e.2.2).
Definition named (e : position * (string * Node)) : Prop := ServerID e.2.2 <> "".

(** What the first loop has found after the entries [l]: for each key the
    position of an entry no other entry of that key is later than. *)
Definition found (l : list (position * (string * Node))) (m : gmap string position) : Prop :=
  forall k, match m !! k with
            | Some p => exists e, e ∈ l /\ e.1 = p /\ named e /\ entry_key e = k /\
                          forall e', e' ∈ l -> named e' -> entry_key e' = k ->
                            not_later e'.2.2 e.2.2 = true
            | None => forall e, e ∈ l -> named e -> entry_key e <> k
            end.

Lemma latest_step_found services l m e : (forall e', e' ∈ l ++ [e] -> e' ∈ entries services) ->
  found l m -> found (l ++ [e]) (latest_step services m e).
Proof.
  intros Hsub Hf. destruct e as [p [name n]]. unfold latest_step.
  destruct (decide (ServerID n = "")) as [Hs|Hs].
  { intros k. specialize (Hf k). destruct (m !! k) as [q|].
    - destruct Hf as (e & He & Hq & Hne & Hk & Hmax). exists e. split; [set_solver|].
      split; [done|]. split; [done|]. split; [done|].
      intros e' He' Hn' Hk'. apply elem_of_app in He' as [He'|He']; [by apply Hmax|].
      apply list_elem_of_singleton in He' as ->. done.
    - intros e' He' Hn'. apply elem_of_app in He' as [He'|He']; [by apply Hf|].
      apply list_elem_of_singleton in He' as ->. done. }
  set (e := (p, (name, n))). set (key := latest_key name (ServerID n)).
  assert (Hnew : forall m', (forall e', e' ∈ l -> named e' -> entry_key e' = key -> not_later e'.2.2 n = true) ->
    m' = <[key := p]> m -> found (l ++ [e]) m').
  { intros m' Hmax -> k. specialize (Hf k). destruct (decide (key = k)) as [<-|Hk].
    - rewrite lookup_insert_eq. exists e. split; [set_solver|]. split; [done|]. split; [done|].
      split; [done|]. intros e' He' Hn' Hk'. apply elem_of_app in He' as [He'|He']; [by apply Hmax|].
      apply list_elem_of_singleton in He' as ->. apply not_later_refl.
    - rewrite lookup_insert_ne by done. destruct (m !! k) as [q|].
      + destruct Hf as (e0 & He0 & Hq & Hne & Hk0 & Hmax0). exists e0. split; [set_solver|].
        split; [done|]. split; [done|]. split; [done|].
        intros e' He' Hn' Hk'. apply elem_of_app in He' as [He'|He']; [by apply Hmax0|].
        apply list_elem_of_singleton in He' as ->. done.
      + intros e' He' Hn'. apply elem_of_app in He' as [He'|He']; [by apply Hf|].
        apply list_elem_of_singleton in He' as ->. done. }
  destruct (m !! key) as [q|] eqn:Hm.
  - pose proof (Hf key) as Hk. rewrite Hm in Hk. destruct Hk as (e0 & He0 & Hq & Hne & Hk0 & Hmax).
    assert (node_at services q = Some e0.2.2) as ->.
    { destruct e0 as [p0 [name0 n0]]. cbn in Hq. subst q.
      apply (node_at_entries _ _ name0). apply Hsub. set_solver. }
    destruct (not_later n e0.2.2) eqn:Hl.
    + intros k. specialize (Hf k). destruct (m !! k) as [q'|] eqn:Hmk.
      * destruct Hf as (e1 & He1 & Hq1 & Hn1 & Hk1 & Hmax1). exists e1. split; [set_solver|].
        split; [done|]. split; [done|]. split; [done|].
        intros e' He' Hn' Hk'. apply elem_of_app in He' as [He'|He']; [by apply Hmax1|].
        apply list_elem_of_singleton in He' as ->. eapply not_later_trans; [exact Hl|].
        apply Hmax1; [done|done|]. change (key = k) in Hk'. congruence.
      * intros e' He' Hn'. apply elem_of_app in He' as [He'|He']; [by apply Hf|].
        apply list_elem_of_singleton in He' as ->. intros Hk'. change (key = k) in Hk'. congruence.
    + apply Hnew; [|done]. intros e' He' Hn' Hk'. eapply not_later_trans; [by apply Hmax|].
      by apply not_later_total.
  - apply Hnew; [|done]. intros e' He' Hn' Hk'. pose proof (Hf key) as Hk. rewrite Hm in Hk.
    by destruct (Hk e' He' Hn').
Qed.

Lemma latest_map_found services : found (entries services) (latest_map services).
Proof.
  unfold latest_map.
  assert (forall l m pre, (forall e, e ∈ pre ++ l -> e ∈ entries services) -> found pre m ->
            found (pre ++ l) (foldl (latest_step services) m l)) as Hgen.
  { induction l as [|e l IH]; intros m pre Hsub Hf; [by rewrite app_nil_r|].
    cbn [foldl]. rewrite (cons_middle e), app_assoc. apply IH.
    - by rewrite <- app_assoc.
    - apply latest_step_found; [|done]. intros e' He'. apply Hsub. set_solver. }
  apply (Hgen (entries services) ∅ []); [done|].
  intros k. rewrite lookup_empty. intros e He. by apply not_elem_of_nil in He.
Qed.

(** The nodes of a list of services, in order, with the service's name. *)
Definition pairs (services : list Service) : list (string * Node) :=
  mjoin ((fun s => (fun n => (Name s, n)) <$> Nodes s) <$> services).

Definition kept (latest : gmap string position) (e : position * (string * Node)) : bool :=
  keeps latest e.2.1 e.1 e.2.2.

Lemma filter_keep_nodes latest si s :
  (fun n => (Name s, n)) <$> keep_nodes latest si s =
    snd <$> filter (fun e => kept latest e) (node_entries si s).
Proof.
  unfold keep_nodes, node_entries.
  replace (imap (fun ni n => (si, ni, (Name s, n))) (Nodes s)) with
    ((fun e : nat * Node => ((si, e.1), (Name s, e.2))) <$> imap (fun ni n => (ni, n)) (Nodes s))
    by (by rewrite fmap_imap).
  rewrite list_filter_fmap, <- !list_fmap_compose. done.
Qed.

Lemma pairs_Latest services :
  pairs (LatestServices services) = snd <$> filter (fun e => kept (latest_map services) e) (entries services).
Proof.
  unfold LatestServices, entries, pairs. generalize (latest_map services) as latest. intros latest.
  assert (forall (l : list Service) (f : nat -> nat),
    mjoin ((fun s => (fun n => (Name s, n)) <$> Nodes s) <$> omap (fun o => o)
      (imap (fun si s => match keep_nodes latest (f si) s with
                         | [] => None | nodes => Some (s <| Nodes := nodes |>) end) l)) =
    snd <$> filter (fun e => kept latest e) (mjoin (imap (fun si s => node_entries (f si) s) l))) as Hgen;
    [|apply (Hgen services (fun x => x))].
  induction l as [|s l IH]; intros f; [done|].
  rewrite !imap_cons. cbn [omap list_omap mjoin list_join]. rewrite filter_app, fmap_app, <- filter_keep_nodes.
  destruct (keep_nodes latest (f 0%nat) s) as [|n ns] eqn:E; [apply (IH (f ∘ S))|].
  cbn [fmap list_fmap mjoin list_join Nodes Name upd]. f_equal. apply (IH (f ∘ S)).
Qed.

Lemma snd_entries services : snd <$> entries services = pairs services.
Proof.
  unfold entries, pairs.
  assert (forall (l : list Service) (f : nat -> nat),
    snd <$> mjoin (imap (fun si s => node_entries (f si) s) l) =
    mjoin ((fun s => (fun n => (Name s, n)) <$> Nodes s) <$> l)) as Hgen;
    [|apply (Hgen services (fun x => x))].
  induction l as [|s l IH]; intros f; [done|].
  rewrite imap_cons. cbn [mjoin list_join fmap list_fmap]. rewrite fmap_app. f_equal; [|apply IH].
  unfold node_entries. rewrite fmap_imap.
  exact (imap_const (fun n => (Name s, n)) (Nodes s)).
Qed.

Lemma positions_node_entries si s : fst <$> node_entries si s = pair si <$> seq 0 (length (Nodes s)).
Proof. unfold node_entries. rewrite fmap_imap. exact (imap_seq_0 (Nodes s) (pair si)). Qed.

Lemma NoDup_positions services : NoDup (fst <$> entries services).
Proof.
  unfold entries.
  assert (forall (l : list Service) (f : nat -> nat), Inj (=) (=) f ->
    NoDup (fst <$> mjoin (imap (fun si s => node_entries (f si) s) l))) as Hgen;
    [|apply (Hgen services (fun x => x)); by intros ??].
  induction l as [|s l IH]; intros f Hf; [constructor|].
  rewrite imap_cons. cbn [mjoin list_join]. rewrite fmap_app. apply NoDup_app. split; [|split].
  - rewrite positions_node_entries.
    apply NoDup_fmap_2; [by intros ?? [=]|]. apply NoDup_ListNoDup, seq_NoDup.
  - intros p Hp Hp'. apply list_elem_of_fmap in Hp as ([q x] & -> & Hq), Hp' as ([q' x'] & Heq & Hq').
    cbn in Heq. subst q'. apply elem_of_lookup_imap in Hq as (ni & n & [= -> ->] & _).
    apply list_elem_of_join in Hq' as (l' & Hin & Hl). apply elem_of_lookup_imap in Hl as (si & s' & -> & _).
    apply elem_of_lookup_imap in Hin as (ni' & n' & [= Hsi _ _] & _). apply Hf in Hsi. done.
  - apply (IH (f ∘ S)). apply _.
Qed.

Lemma kept_in_Latest services e : e ∈ entries services -> kept (latest_map services) e = true ->
  e.2 ∈ pairs (LatestServices services).
Proof.
  intros He Hk. rewrite pairs_Latest. apply list_elem_of_fmap. exists e. split; [done|].
  apply list_elem_of_filter. by rewrite Is_true_true.
Qed.

Lemma Latest_sublist services : pairs (LatestServices services) `sublist_of` pairs services.
Proof. rewrite pairs_Latest, <- snd_entries. apply sublist_fmap_mono, sublist_filter. Qed.

Lemma Latest_NoDup services :
  NoDup ((fun e => latest_key e.1 (ServerID e.2)) <$>
           filter (fun e => ServerID e.2 <> "") (pairs (LatestServices services))).
Proof.
  rewrite pairs_Latest, list_filter_fmap, <- list_fmap_compose. apply NoDup_fmap_2_strong.
  - intros [p [nm n]] [p' [nm' n']] H1 H2 Heq.
    apply list_elem_of_filter in H1 as [Hs H1]. apply list_elem_of_filter in H1 as [Hk H1].
    apply list_elem_of_filter in H2 as [Hs' H2]. apply list_elem_of_filter in H2 as [Hk' H2].
    unfold compose in *. cbn in *. apply Is_true_true in Hk, Hk'. unfold kept, keeps in *. cbn in *.
    rewrite bool_decide_eq_false_2 in Hk, Hk' by done. cbn in *.
    apply bool_decide_eq_true in Hk, Hk'. rewrite Heq in Hk. assert (p = p') as -> by congruence.
    apply elem_of_entries in H1 as (s & Hs1 & Hn1 & ->), H2 as (s' & Hs2 & Hn2 & ->). congruence.
  - do 2 apply NoDup_filter. apply (NoDup_fmap_1 fst), NoDup_positions.
Qed.

Lemma Latest_keeps_latest services name n : (name, n) ∈ pairs services -> ServerID n <> "" ->
  exists name' n', (name', n') ∈ pairs (LatestServices services) /\ ServerID n' <> "" /\
    latest_key name' (ServerID n') = latest_key name (ServerID n) /\
    forall name2 n2, (name2, n2) ∈ pairs services -> ServerID n2 <> "" ->
      latest_key name2 (ServerID n2) = latest_key name (ServerID n) -> not_later n2 n' = true.
Proof.
  intros Hn Hs. rewrite <- snd_entries in Hn. apply list_elem_of_fmap in Hn as (e & He & Hin').
  pose proof (latest_map_found services (entry_key e)) as Hf.
  assert (named e) as Hnamed by (unfold named; by rewrite <- He).
  assert (entry_key e = latest_key name (ServerID n)) as Hek by (unfold entry_key; by rewrite <- He).
  destruct (latest_map services !! entry_key e) as [p|] eqn:Hp; [|by destruct (Hf e Hin')].
  destruct Hf as (e' & He' & Hpe & Hne & Hke & Hmax). exists e'.2.1, e'.2.2.
  split; [|split; [done|split]].
  - rewrite <- surjective_pairing. apply kept_in_Latest; [done|]. unfold kept, keeps.
    fold (entry_key e'). rewrite Hke, Hp, Hpe. by rewrite (bool_decide_eq_true_2 (Some p = Some p)), orb_true_r.
  - unfold entry_key in Hke. rewrite Hke. exact Hek.
  - intros name2 n2 H2 Hs2 Hk2. rewrite <- snd_entries in H2. apply list_elem_of_fmap in H2 as (e2 & E2 & Hin2).
    specialize (Hmax e2 Hin2). rewrite <- E2 in Hmax. apply Hmax; [unfold named; by rewrite <- E2|].
    rewrite Hek. unfold entry_key. rewrite <- E2. exact Hk2.
Qed.

(** ** Properties *)

(** C12. [LatestServices] keeps the order of services and nodes and returns, for
    each logical server (service name and server id), exactly one instance, and
    one than which no instance of that server was started later (ties by instance
    id); nodes without a server id are all kept. *)
Theorem LatestServices_spec (services : list Service) :
  pairs (LatestServices services) `sublist_of` pairs services /\
  NoDup ((fun e => latest_key e.1 (ServerID e.2)) <$>
           filter (fun e => ServerID e.2 <> "") (pairs (LatestServices services))) /\
  (forall name n, (name, n) ∈ pairs services -> ServerID n = "" ->
     (name, n) ∈ pairs (LatestServices services)) /\
  (forall name n, (name, n) ∈ pairs services -> ServerID n <> "" ->
     exists name' n', (name', n') ∈ pairs (LatestServices services) /\ ServerID n' <> "" /\
       latest_key name' (ServerID n') = latest_key name (ServerID n) /\ not_later n n' = true).
Proof.
  split; [apply Latest_sublist|]. split; [apply Latest_NoDup|]. split.
  - intros name n Hn Hs. rewrite <- snd_entries in Hn. apply list_elem_of_fmap in Hn as (e & He & Hin').
    rewrite He. apply kept_in_Latest; [done|]. unfold kept, keeps. rewrite <- He. cbn. by rewrite Hs.
  - intros name n Hn Hs. destruct (Latest_keeps_latest services name n Hn Hs) as (name' & n' & H1 & H2 & H3 & H4).
    exists name', n'. eauto.
Qed.
