(* ===== verification/Selector.v ===== *)
(** * Selectors

    The filters and strategies of [selector/filter.go] and
    [selector/strategy.go], the default selector of [selector/default.go] and the
    caching selector of [selector/cache/cache.go], which follows the registry's
    watch events.

    Services held in the cache are copies ([cp]) that no caller sees, so they
    are values here.  Outside the model: the registry itself ([registry_get]),
    the random numbers ([rand]) and the clock, whose readings are arguments. *)
From S2P Require Import Prelude Registry.
#[local] Open Scope mq_scope.
#[local] Open Scope string_scope.
#[local] Open Scope list_scope.
#[local] Open Scope Z_scope.

(** ** Filters *)

Definition Filter : Type := list Service -> list Service.

Definition FilterEndpoint (name : string) : Filter :=
  filter (fun s => Exists (fun ep => ep_Name ep = name) (Endpoints s)).

Definition label_matches (key val : string) (n : Node) : bool :=
  match n_Metadata n with
  | None => false
  | Some m => bool_decide (default "" (m !! key) = val)
  end.

Definition FilterLabel (key val : string) : Filter :=
  omap (fun s => match filter (fun n => label_matches key val n) (Nodes s) with
                 | [] => None
                 | nodes => Some (s <| Nodes := nodes |>)
                 end).

Definition FilterVersion (version : string) : Filter := filter (fun s => Version s = version).

(** ** Strategies *)

(** [RegErrNotFound] is the registry package's [ErrNotFound], [RegErr] any other
    error of it. *)
Inductive sel_err := ErrNotFound | ErrNoneAvailable | RegErrNotFound | RegErr (why : string).

Definition all_nodes (services : list Service) : list Node := mjoin (Nodes <$> services).

(** A [Next] of the strategies: the nodes and, for the round robin, its
    counter. *)
Definition Random_next (rand : Z) (services : list Service) : outcome (result sel_err Node) :=
  let nodes := all_nodes services in
  if zlen nodes =? 0 then Ret (Err ErrNoneAvailable)
  else match nodes !! Z.to_nat (Z.rem rand (zlen nodes)) with
       | Some n => Ret (Ok n)
       | None => Panic "index out of range"
       end.

(** The counter is an [int]: it wraps after [2^63 - 1], and a negative index
    panics. *)
Definition RoundRobin_next (services : list Service) (i : Z) : outcome (result sel_err Node * Z) :=
  let nodes := all_nodes services in
  if zlen nodes =? 0 then Ret (Err ErrNoneAvailable, i)
  else
    let k := Z.rem i (zlen nodes) in
    if k <? 0 then Panic "index out of range" else
    match nodes !! Z.to_nat k with
    | Some n => Ret (Ok n, int64 (i + 1))
    | None => Panic "index out of range"
    end.

(** [n] picks in a row. *)
Fixpoint RoundRobin_picks (services : list Service) (i : Z) (n : nat) : outcome (list (result sel_err Node)) :=
  match n with
  | O => Ret []
  | S n =>
      match RoundRobin_next services i with
      | Panic why => Panic why
      | Ret (r, i) =>
          match RoundRobin_picks services i n with
          | Panic why => Panic why
          | Ret rs => Ret (r :: rs)
          end
      end
  end.

(** What [Select] hands to the strategy; every selector ends with it. *)
Definition candidates (filters : list Filter) (services : list Service) : result sel_err (list Service) :=
  match foldl (fun s f => f s) (LatestServices services) filters with
  | [] => Err ErrNoneAvailable
  | services => Ok services
  end.

(** [defaultSelector.Select] *)
Definition default_Select (registry_get : string -> result sel_err (list Service))
    (service : string) (filters : list Filter) : result sel_err (list Service) :=
  match registry_get service with
  | Err e => Err e
  | Ok services => candidates filters services
  end.

(** ** The cache *)

(** [exited] is the closed [exit] channel; [running] counts the watch loops
    started for each name. *)
Record cacheSelector := mkCache {
  ttl : Z; cache : gmap string (list Service); ttls : gmap string Z;
  watched : gset string; exited : bool; has_watcher : bool }.

#[export] Instance eta_cacheSelector : Eta cacheSelector := fun r =>
  mkCache (ttl r) (cache r) (ttls r) (watched r) (exited r) (has_watcher r).

Definition NewSelector (ttl : Z) (watcher : bool) : cacheSelector := mkCache ttl ∅ ∅ ∅ false watcher.

Definition quit (c : cacheSelector) : bool := exited c.

Definition del (service : string) (c : cacheSelector) : cacheSelector :=
  c <| cache := delete service (cache c) |> <| ttls := delete service (ttls c) |>.

(** [set] stores the expiry [now + ttl]. *)
Definition set_ (now : Z) (service : string) (services : list Service) (c : cacheSelector) : cacheSelector :=
  c <| cache := <[service := services]> (cache c) |> <| ttls := <[service := now + ttl c]> (ttls c) |>.

(** The inner [get]: ask the registry and cache a copy of its answer. *)
Definition fetch (registry_get : string -> result sel_err (list Service)) (now : Z) (service : string)
    (c : cacheSelector) : result sel_err (list Service) * cacheSelector :=
  match registry_get service with
  | Err e => (Err e, c)
  | Ok services => (Ok services, set_ now service services c)
  end.

(** [get]: [started] says that a watch loop is started.  [time.Since(ttl) < c.ttl]
    is tested against the stored expiry. *)
Definition get (registry_get : string -> result sel_err (list Service)) (now : Z) (service : string)
    (c : cacheSelector) : result sel_err (list Service) * bool * cacheSelector :=
  let started := negb (bool_decide (service ∈ watched c)) in
  let c := if started then c <| watched := {[ service ]} ∪ watched c |> else c in
  match cache c !! service with
  | Some ((_ :: _) as services) =>
      match ttls c !! service with
      | Some expiry =>
          if now - expiry <? ttl c then (Ok services, started, c)
          else
            match fetch registry_get now service c with
            | (Ok services', c) => (Ok services', started, c)
            | (Err RegErrNotFound, c) => (Err ErrNotFound, started, c)
            | (Err _, c) => (Ok services, started, c)
            end
      | None =>
          match fetch registry_get now service c with
          | (Ok services', c) => (Ok services', started, c)
          | (Err RegErrNotFound, c) => (Err ErrNotFound, started, c)
          | (Err _, c) => (Ok services, started, c)
          end
      end
  | _ => let '(r, c) := fetch registry_get now service c in (r, started, c)
  end.

Definition GetService := get.

Definition Select (registry_get : string -> result sel_err (list Service)) (now : Z) (service : string)
    (filters : list Filter) (c : cacheSelector) : result sel_err (list Service) * bool * cacheSelector :=
  let '(r, started, c) := get registry_get now service c in
  (match r with Err e => Err e | Ok services => candidates filters services end, started, c).

Definition Reset (service : string) (c : cacheSelector) : cacheSelector := del service c.

(** [Close] empties the cache and the watched set, not the expiries. *)
Definition Cache_Close (c : cacheSelector) : cacheSelector :=
  c <| cache := ∅ |> <| watched := ∅ |> <| exited := true |>.

(** *** Watch events *)

(** A registry result: its action and the service; [None] is a nil one. *)
Record Result := mkResult { Action : string; r_Service : option Service }.

Definition seen (nodes : list Node) (cur : Node) : bool :=
  existsb (fun n => bool_decide (InstanceID cur = InstanceID n)) nodes.

(** The loop that appends the old nodes to the event's: each is looked up among
    the nodes gathered so far. *)
Definition merge_nodes (new old : list Node) : list Node :=
  foldl (fun nodes cur => if seen nodes cur then nodes else nodes ++ [cur]) new old.

(** The last cached service of the version, with its index. *)
Definition find_version (version : string) (services : list Service) : option (nat * Service) :=
  foldl (fun acc e => if decide (Version e.2 = version) then Some e else acc) None
    (imap (fun i s => (i, s)) services).

(** [update], with the nodes it reports to the selector's watcher. *)
Definition update (now : Z) (res : option Result) (c : cacheSelector) : cacheSelector * list Node :=
  match res with
  | None | Some (mkResult _ None) => (c, [])
  | Some (mkResult action (Some srv)) =>
      match cache c !! Name srv with
      | None => (c, [])
      | Some services =>
          if zlen (Nodes srv) =? 0 then
            if decide (action = "delete") then
              (del (Name srv) c, if has_watcher c then all_nodes services else [])
            else (c, [])
          else
            let service := find_version (Version srv) services in
            if decide (action = "create" \/ action = "update") then
              match service with
              | None => (set_ now (Name srv) (services ++ [srv]) c, [])
              | Some (index, service) =>
                  let srv := srv <| Nodes := merge_nodes (Nodes srv) (Nodes service) |> in
                  (set_ now (Name srv) (<[index := srv]> services) c, [])
              end
            else if decide (action = "delete") then
              match service with
              | None => (c, [])
              | Some (index, service) =>
                  let nodes := filter (fun cur => negb (seen (Nodes srv) cur)) (Nodes service) in
                  let gone := if has_watcher c then filter (fun cur => seen (Nodes srv) cur) (Nodes service) else [] in
                  if 0 <? zlen nodes then
                    (set_ now (Name service) (<[index := service <| Nodes := nodes |>]> services) c, gone)
                  else if zlen services =? 1 then (del (Name service) c, gone)
                  else (set_ now (Name service) (filter (fun s => Version s <> Version service) services) c, gone)
              end
            else (c, [])
      end
  end.

(** ** Lemmas *)

Lemma elem_all_nodes n services : n ∈ all_nodes services <-> exists s, s ∈ services /\ n ∈ Nodes s.
Proof. unfold all_nodes. rewrite list_elem_of_join. setoid_rewrite list_elem_of_fmap. naive_solver. Qed.
