(* ===== verification/SelectorTheorems.v ===== *)
(** * Theorems about the selectors *)
From S2P Require Import Prelude Registry Selector.
#[local] Open Scope mq_scope.
#[local] Open Scope string_scope.
#[local] Open Scope list_scope.
#[local] Open Scope Z_scope.

(** ** Definitions the statements use *)

(** Instance [id] of version [v] of the service [name] is in the cache. *)
Definition cached (c : cacheSelector) (name v id : string) : Prop :=
  exists services s n, cache c !! name = Some services /\ s ∈ services /\ Version s = v /\
    n ∈ Nodes s /\ InstanceID n = id.

Definition lists (nodes : list Node) (id : string) : Prop := exists n, n ∈ nodes /\ InstanceID n = id.

(** Each cached list is about its name and has one entry per version. *)
Definition services_ok (name : string) (services : list Service) : Prop :=
  NoDup (Version <$> services) /\ Forall (fun s => Name s = name) services.

Definition wf_cache (c : cacheSelector) : Prop :=
  forall name services, cache c !! name = Some services -> services_ok name services.

(** What an event about [srv] makes of the instances cached for its name: one
    without nodes only counts as a deletion of everything, the others only
    concern their version. *)
Definition after_event (action : string) (srv : Service) (before : string -> string -> Prop)
    (v id : string) : Prop :=
  if decide (Nodes srv = []) then action <> "delete" /\ before v id
  else if decide (v = Version srv) then
    if decide (action = "create" \/ action = "update") then lists (Nodes srv) id \/ before v id
    else if decide (action = "delete") then before v id /\ ~ lists (Nodes srv) id
    else before v id
  else before v id.

(** The cached nodes an event takes away. *)
Definition removed_by (action : string) (srv : Service) (c : cacheSelector) (n : Node) : Prop :=
  action = "delete" /\
  exists services s, cache c !! Name srv = Some services /\ s ∈ services /\ n ∈ Nodes s /\
    (Nodes srv = [] \/ Version s = Version srv /\ lists (Nodes srv) (InstanceID n)).

(** ** Lists of services *)

Lemma seen_spec nodes cur : seen nodes cur = true <-> lists nodes (InstanceID cur).
Proof.
  unfold seen, lists. rewrite existsb_exists. setoid_rewrite bool_decide_eq_true.
  split; intros (n & Hn & E); exists n; (split; [by apply list_elem_of_In | done]).
Qed.

Lemma find_version_spec v services :
  match find_version v services with
  | Some (i, s) => services !! i = Some s /\ Version s = v
  | None => forall s, s ∈ services -> Version s <> v
  end.
Proof.
  unfold find_version.
  assert (forall l pre acc,
    match acc with
    | Some (i, s) => (pre ++ l) !! i = Some s /\ Version s = v
    | None => forall s, s ∈ pre -> Version s <> v
    end ->
    match foldl (fun acc (e : nat * Service) => if decide (Version e.2 = v) then Some e else acc) acc
            (imap (fun i s => ((length pre + i)%nat, s)) l) with
    | Some (i, s) => (pre ++ l) !! i = Some s /\ Version s = v
    | None => forall s, s ∈ pre ++ l -> Version s <> v
    end) as Hgen; [|apply (Hgen services [] None); set_solver].
  induction l as [|s l IH]; intros pre acc Hacc.
  - cbn. rewrite app_nil_r in *. done.
  - rewrite imap_cons. cbn [foldl snd]. rewrite (cons_middle s), app_assoc.
    replace (imap ((fun (i : nat) (s0 : Service) => ((length pre + i)%nat, s0)) ∘ S) l) with
      (imap (fun (i : nat) (s0 : Service) => ((length (pre ++ [s]) + i)%nat, s0)) l).
    2:{ apply imap_ext. intros i s0 _. cbn. rewrite length_app. cbn. f_equal. lia. }
    apply IH. destruct (decide (Version s = v)) as [Hv|Hv].
    + split; [|done]. rewrite Nat.add_0_r, <- app_assoc. by apply list_lookup_middle.
    + destruct acc as [[i s0]|]; [by rewrite <- app_assoc|].
      intros s0 Hs0. apply elem_of_app in Hs0 as [Hs0|Hs0]; [by apply Hacc|].
      by apply list_elem_of_singleton in Hs0 as ->.
Qed.

(** With distinct versions, replacing the entry of a version only changes that
    version. *)
Lemma version_index services i j (s t : Service) : NoDup (Version <$> services) ->
  services !! i = Some s -> services !! j = Some t -> Version s = Version t -> i = j.
Proof.
  intros Hnd Hi Hj Hv. eapply NoDup_lookup; [exact Hnd| |].
  - rewrite list_lookup_fmap, Hi. reflexivity.
  - by rewrite list_lookup_fmap, Hj, Hv.
Qed.

Lemma elem_of_replace services i (s s' t : Service) : NoDup (Version <$> services) ->
  services !! i = Some s -> Version s' = Version s ->
  t ∈ <[i := s']> services <-> t = s' \/ t ∈ services /\ Version t <> Version s.
Proof.
  intros Hnd Hi Hv. split.
  - intros (j & Hj)%list_elem_of_lookup. destruct (decide (i = j)) as [<-|Hij].
    + rewrite list_lookup_insert_eq in Hj by (by eapply lookup_lt_Some). left. congruence.
    + rewrite list_lookup_insert_ne in Hj by done. right. split; [by eapply list_elem_of_lookup_2|].
      intros E. apply Hij. symmetry in E. by eapply version_index.
  - intros [-> | [(j & Hj)%list_elem_of_lookup E]].
    + eapply list_elem_of_lookup_2, list_lookup_insert_eq. by eapply lookup_lt_Some.
    + eapply list_elem_of_lookup_2. rewrite list_lookup_insert_ne; [exact Hj|].
      intros ->. congruence.
Qed.

Lemma versions_replace (services : list Service) i (s s' : Service) : services !! i = Some s -> Version s' = Version s ->
  Version <$> <[i := s']> services = Version <$> services.
Proof.
  intros Hi Hv. rewrite list_fmap_insert, Hv. apply list_insert_id. by rewrite list_lookup_fmap, Hi.
Qed.

(** ** What an event does to the cached instances *)

Lemma cached_set now name services (c : cacheSelector) v id :
  cached (set_ now name services c) name v id <->
  exists s n, s ∈ services /\ Version s = v /\ n ∈ Nodes s /\ InstanceID n = id.
Proof.
  unfold cached. cbn. split.
  - intros (l & s & n & Hl & H). rewrite lookup_insert_eq in Hl. injection Hl as <-. by exists s, n.
  - intros (s & n & H). exists services, s, n. by rewrite lookup_insert_eq.
Qed.

Lemma wf_set now name services (c : cacheSelector) : wf_cache c -> services_ok name services ->
  wf_cache (set_ now name services c).
Proof.
  intros Hwf Hok name' l. cbn. destruct (decide (name = name')) as [<-|Hn].
  - rewrite lookup_insert_eq. intros [= <-]. done.
  - rewrite lookup_insert_ne by done. apply Hwf.
Qed.

Lemma wf_del name (c : cacheSelector) : wf_cache c -> wf_cache (del name c).
Proof.
  intros Hwf name' l. cbn. destruct (decide (name = name')) as [<-|Hn].
  - by rewrite lookup_delete_eq.
  - rewrite lookup_delete_ne by done. apply Hwf.
Qed.

Lemma cached_lookup (c : cacheSelector) name services v id : cache c !! name = Some services ->
  cached c name v id <-> exists s n, s ∈ services /\ Version s = v /\ n ∈ Nodes s /\ InstanceID n = id.
Proof.
  intros Hc. split.
  - intros (l & s & n & Hl & H). rewrite Hc in Hl. injection Hl as <-. by exists s, n.
  - intros (s & n & H). by exists services, s, n.
Qed.

Lemma not_seen_lists nodes cur : seen nodes cur = false <-> ~ lists nodes (InstanceID cur).
Proof. rewrite <- seen_spec. by destruct (seen nodes cur). Qed.

(** The event of an unknown version appends its service. *)
Lemma update_new now srv services (c : cacheSelector) v id :
  cache c !! Name srv = Some services -> (forall s, s ∈ services -> Version s <> Version srv) ->
  cached (set_ now (Name srv) (services ++ [srv]) c) (Name srv) v id <->
  (if decide (v = Version srv) then lists (Nodes srv) id \/ cached c (Name srv) v id
   else cached c (Name srv) v id).
Proof.
  intros Hc Hnew. rewrite cached_set. pose proof (fun w => cached_lookup c (Name srv) services w id Hc) as Hl.
  assert (Hel : forall t, t ∈ services ++ [srv] <-> t ∈ services \/ t = srv) by (intros t; set_solver).
  destruct (decide (v = Version srv)) as [->|Hv]; rewrite ?Hl.
  - split.
    + intros (s & n & [Hs| ->]%Hel & Hv & Hn & Hid); [by destruct (Hnew s)|]. left. by exists n.
    + intros [(n & Hn & Hid)|(s & n & Hs & Hv & _)]; [|by destruct (Hnew s)].
      exists srv, n. rewrite Hel. auto.
  - split.
    + intros (s & n & [Hs| ->]%Hel & Hsv & Hn & Hid); [|congruence]. by exists s, n.
    + intros (s & n & Hs & Hsv & Hn & Hid). exists s, n. rewrite Hel. auto.
Qed.

(** Replacing the nodes of the known version by [nodes]. *)
Lemma update_replace now (srv s' : Service) services (c : cacheSelector) i s v id :
  cache c !! Name srv = Some services -> NoDup (Version <$> services) ->
  services !! i = Some s -> Version s = Version srv -> Version s' = Version srv ->
  cached (set_ now (Name srv) (<[i := s']> services) c) (Name srv) v id <->
  (if decide (v = Version srv) then lists (Nodes s') id else cached c (Name srv) v id).
Proof.
  intros Hc Hnd Hi Hs Hs'. rewrite cached_set. pose proof (fun w => cached_lookup c (Name srv) services w id Hc) as Hl.
  assert (Hel : forall t, t ∈ <[i := s']> services <-> t = s' \/ t ∈ services /\ Version t <> Version s)
    by (intros t; apply elem_of_replace; [done|done|congruence]).
  destruct (decide (v = Version srv)) as [->|Hv]; rewrite ?Hl.
  - split.
    + intros (t & n & Ht & Htv & Hn & Hid). apply Hel in Ht as [-> | [_ Ht]]; [by exists n | congruence].
    + intros (n & Hn & Hid). exists s', n. rewrite Hel. auto.
  - split.
    + intros (t & n & Ht & Htv & Hn & Hid). apply Hel in Ht as [-> | [Ht _]]; [congruence|]. by exists t, n.
    + intros (t & n & Ht & Htv & Hn & Hid). exists t, n. rewrite Hel. split; [right; split; congruence | done].
Qed.

(** The nodes of version [Version srv] before the event. *)
Lemma cached_known (srv : Service) services (c : cacheSelector) i s id :
  cache c !! Name srv = Some services -> NoDup (Version <$> services) ->
  services !! i = Some s -> Version s = Version srv ->
  cached c (Name srv) (Version srv) id <-> lists (Nodes s) id.
Proof.
  intros Hc Hnd Hi Hs. rewrite (cached_lookup c (Name srv) services) by done. split.
  - intros (t & n & [j Ht]%list_elem_of_lookup & Htv & Hn & Hid).
    assert (i = j) as <- by (eapply version_index; eauto; congruence). exists n. split; congruence.
  - intros (n & Hn & Hid). exists s, n. split; [by eapply list_elem_of_lookup_2 | done].
Qed.

Lemma lists_app a b id : lists (a ++ b) id <-> lists a id \/ lists b id.
Proof. unfold lists. set_solver. Qed.

Lemma lists_merge new old id : lists (merge_nodes new old) id <-> lists new id \/ lists old id.
Proof.
  unfold merge_nodes. revert new. induction old as [|cur old IH]; intros new; cbn [foldl].
  { unfold lists. set_solver. }
  change (cur :: old) with ([cur] ++ old). rewrite IH, lists_app.
  destruct (seen new cur) eqn:E.
  - apply seen_spec in E. split; [tauto|]. intros [?|[(n & Hn & <-)|?]]; [tauto| |tauto].
    apply list_elem_of_singleton in Hn as ->. tauto.
  - rewrite lists_app. tauto.
Qed.

Lemma lists_unseen nodes old id :
  lists (filter (fun cur => negb (seen nodes cur)) old) id <-> lists old id /\ ~ lists nodes id.
Proof.
  unfold lists at 1 2. setoid_rewrite list_elem_of_filter. setoid_rewrite Is_true_true.
  setoid_rewrite negb_true_iff. setoid_rewrite not_seen_lists. naive_solver.
Qed.

(** Dropping the version with its last node. *)
Lemma update_drop now (srv s : Service) services (c : cacheSelector) v id :
  cache c !! Name srv = Some services -> Version s = Version srv ->
  cached (set_ now (Name srv) (filter (fun t => Version t <> Version s) services) c) (Name srv) v id <->
  v <> Version srv /\ cached c (Name srv) v id.
Proof.
  intros Hc Hs. rewrite cached_set, (cached_lookup c (Name srv) services) by done.
  setoid_rewrite list_elem_of_filter. rewrite Hs. split.
  - intros (t & n & [Ht Hin] & Htv & Hn & Hid). split; [congruence|]. by exists t, n.
  - intros [Hv (t & n & Hin & Htv & Hn & Hid)]. exists t, n. split; [split; congruence | done].
Qed.

Lemma cached_del (c : cacheSelector) name v id : ~ cached (del name c) name v id.
Proof. intros (l & s & n & Hl & _). cbn in Hl. by rewrite lookup_delete_eq in Hl. Qed.

Lemma cached_other now name name' services (c : cacheSelector) v id : name <> name' ->
  cached (set_ now name services c) name' v id <-> cached c name' v id.
Proof. intros Hn. unfold cached. cbn. by rewrite lookup_insert_ne. Qed.

Lemma cached_del_other name name' (c : cacheSelector) v id : name <> name' ->
  cached (del name c) name' v id <-> cached c name' v id.
Proof. intros Hn. unfold cached. cbn. by rewrite lookup_delete_ne. Qed.

(** The version's entry, if there is one, is the one the update works on. *)
Lemma find_version_cases v services :
  (exists i s, find_version v services = Some (i, s) /\ services !! i = Some s /\ Version s = v) \/
  find_version v services = None /\ forall s, s ∈ services -> Version s <> v.
Proof.
  pose proof (find_version_spec v services) as H. destruct (find_version v services) as [[i s]|].
  - left. by exists i, s.
  - by right.
Qed.

Lemma services_ok_replace name services i (s s' : Service) : services_ok name services ->
  services !! i = Some s -> Version s' = Version s -> Name s' = name ->
  services_ok name (<[i := s']> services).
Proof.
  intros [Hnd Hall] Hi Hv Hn. split; [by erewrite versions_replace|]. by apply Forall_insert.
Qed.

Lemma services_ok_append services srv : services_ok (Name srv) services ->
  (forall s, s ∈ services -> Version s <> Version srv) -> services_ok (Name srv) (services ++ [srv]).
Proof.
  intros [Hnd Hall] Hnew. split; [|by apply Forall_app; split; [|apply Forall_singleton]].
  rewrite fmap_app. apply NoDup_app. split; [done|]. split; [|apply NoDup_singleton].
  intros v (s & -> & Hs)%list_elem_of_fmap. intros Hv%list_elem_of_singleton. by eapply Hnew.
Qed.

Lemma services_ok_filter name services (P : Service -> Prop) `{!forall s, Decision (P s)} :
  services_ok name services -> services_ok name (filter P services).
Proof.
  intros [Hnd Hall]. split.
  - eapply sublist_NoDup; [exact Hnd|]. apply sublist_fmap_mono, sublist_filter.
  - apply Forall_forall. intros s [_ Hs]%list_elem_of_filter. by eapply Forall_forall in Hall.
Qed.

(** ** Events *)

(** What an update must achieve: on the name of the event what [after_event]
    says, on the others nothing. *)
Definition follows (action : string) (srv : Service) (c c' : cacheSelector) : Prop :=
  wf_cache c' /\
  (forall v id, cached c' (Name srv) v id <-> after_event action srv (cached c (Name srv)) v id) /\
  (forall name v id, name <> Name srv -> cached c' name v id <-> cached c name v id).

Lemma follows_set now services action srv (c : cacheSelector) :
  wf_cache c -> services_ok (Name srv) services ->
  (forall v id, cached (set_ now (Name srv) services c) (Name srv) v id <->
     after_event action srv (cached c (Name srv)) v id) ->
  follows action srv c (set_ now (Name srv) services c).
Proof.
  intros Hwf Hok H. split; [by apply wf_set|]. split; [done|].
  intros name v id Hn. by apply cached_other.
Qed.

Lemma follows_del action srv (c : cacheSelector) : wf_cache c ->
  (forall v id, ~ after_event action srv (cached c (Name srv)) v id) -> follows action srv c (del (Name srv) c).
Proof.
  intros Hwf H. split; [by apply wf_del|]. split.
  - intros v id. split; [intros Hin; by destruct (cached_del c (Name srv) v id)|]. intros Hin. by destruct (H v id).
  - intros name v id Hn. by apply cached_del_other.
Qed.

Lemma follows_same action srv (c : cacheSelector) : wf_cache c ->
  (forall v id, cached c (Name srv) v id <-> after_event action srv (cached c (Name srv)) v id) ->
  follows action srv c c.
Proof. intros Hwf H. split; [done|]. by split. Qed.

Lemma nodes_nonzero (srv : Service) : Nodes srv <> [] -> (zlen (Nodes srv) =? 0) = false.
Proof. intros H. apply Z.eqb_neq. unfold zlen. destruct (Nodes srv); [done|]. cbn. lia. Qed.

Lemma update_upserts now action srv services (c : cacheSelector) : wf_cache c ->
  cache c !! Name srv = Some services -> Nodes srv <> [] -> action = "create" \/ action = "update" ->
  follows action srv c (update now (Some (mkResult action (Some srv))) c).1.
Proof.
  intros Hwf Hc Hnodes Ha. pose proof (Hwf _ _ Hc) as Hok.
  unfold update. rewrite Hc, nodes_nonzero, decide_True by done.
  destruct (find_version_cases (Version srv) services) as [(i & s & -> & Hi & Hv)|[-> Hnew]]; cbn [fst].
  - apply (follows_set now _ action srv c Hwf); [by eapply services_ok_replace|]. intros v id.
    unfold after_event. rewrite (decide_False (P := Nodes srv = [])) by done.
    erewrite (update_replace now srv _ services c i s) by (done || apply Hok).
    destruct (decide (v = Version srv)) as [->|]; [|done]. rewrite decide_True by done.
    cbn [Nodes upd]. rewrite lists_merge, (cached_known srv services c i s) by (done || apply Hok). tauto.
  - apply (follows_set now _ action srv c Hwf); [by apply services_ok_append|]. intros v id.
    unfold after_event. rewrite (decide_False (P := Nodes srv = [])) by done.
    rewrite update_new by done. by rewrite (decide_True (P := action = "create" \/ _)).
Qed.

Lemma zlen_pos {A} (l : list A) : (0 <? zlen l) = true <-> l <> [].
Proof. unfold zlen. destruct l; cbn; [by split|]. split; [done|]. intros _. apply Z.ltb_lt. lia. Qed.

Lemma update_deletes now srv services (c : cacheSelector) : wf_cache c ->
  cache c !! Name srv = Some services -> Nodes srv <> [] ->
  follows "delete" srv c (update now (Some (mkResult "delete" (Some srv))) c).1.
Proof.
  intros Hwf Hc Hnodes. pose proof (Hwf _ _ Hc) as Hok.
  assert (Hev : forall v id, after_event "delete" srv (cached c (Name srv)) v id <->
            (if decide (v = Version srv) then cached c (Name srv) v id /\ ~ lists (Nodes srv) id
             else cached c (Name srv) v id)).
  { intros v id. unfold after_event. rewrite (decide_False (P := Nodes srv = [])) by done. done. }
  unfold update. rewrite Hc, nodes_nonzero, decide_False, decide_True by (done || by intros [|]).
  destruct (find_version_cases (Version srv) services) as [(i & s & -> & Hi & Hv)|[-> Hnew]]; cbn [fst].
  2:{ apply follows_same; [done|]. intros v id. rewrite Hev. destruct (decide (v = Version srv)) as [->|]; [|done].
      split; [|tauto]. intros (l & s & n & Hl & Hs & Hv & _). rewrite Hc in Hl. injection Hl as <-. by destruct (Hnew s). }
  assert (Name s = Name srv) as Hname
    by (destruct Hok as [_ Hall]; eapply Forall_lookup_1 in Hall; eauto).
  rewrite Hname. set (left := filter _ (Nodes s)).
  assert (Hleft : forall id, lists left id <-> cached c (Name srv) (Version srv) id /\ ~ lists (Nodes srv) id).
  { intros id. unfold left. rewrite lists_unseen, (cached_known srv services c i s) by (done || apply Hok). done. }
  destruct (0 <? zlen left) eqn:El; [|destruct (zlen services =? 1) eqn:E1]; cbn [fst].
  - apply (follows_set now _ "delete" srv c Hwf); [by eapply services_ok_replace|]. intros v id. rewrite Hev.
    erewrite (update_replace now srv _ services c i s) by (done || apply Hok).
    destruct (decide (v = Version srv)) as [->|]; [|done]. cbn [Nodes upd]. apply Hleft.
  - apply follows_del; [done|]. intros v id. rewrite Hev.
    assert (left = []) as Hnil by (destruct left; [done|]; by rewrite (proj2 (zlen_pos _)) in El).
    assert (services = [s]) as ->.
    { destruct services as [|x [|y l]]; [done| |bool_prop; unfold zlen in *; cbn in *; lia]. destruct i; [|done]. by injection Hi as ->. }
    destruct (decide (v = Version srv)) as [->|Hn].
    + rewrite <- Hleft, Hnil. unfold lists. set_solver.
    + intros (l & t & n & Hl & Ht & Htv & _). rewrite Hc in Hl. injection Hl as <-.
      apply list_elem_of_singleton in Ht as ->. congruence.
  - apply (follows_set now _ "delete" srv c Hwf); [by apply services_ok_filter|]. intros v id. rewrite Hev.
    assert (left = []) as Hnil by (destruct left; [done|]; by rewrite (proj2 (zlen_pos _)) in El).
    rewrite update_drop by done. destruct (decide (v = Version srv)) as [->|Hn]; [|tauto].
    rewrite <- Hleft, Hnil. unfold lists. set_solver.
Qed.

Lemma update_other_action now action srv services (c : cacheSelector) : wf_cache c ->
  cache c !! Name srv = Some services -> Nodes srv <> [] ->
  ~ (action = "create" \/ action = "update") -> action <> "delete" ->
  follows action srv c (update now (Some (mkResult action (Some srv))) c).1.
Proof.
  intros Hwf Hc Hnodes Ha Hd. unfold update. rewrite Hc, nodes_nonzero, !decide_False by done.
  apply follows_same; [done|]. intros v id. unfold after_event. rewrite decide_False by done.
  destruct (decide _); [|done]. by rewrite !decide_False.
Qed.

Lemma update_empty now action srv services (c : cacheSelector) : wf_cache c ->
  cache c !! Name srv = Some services -> Nodes srv = [] ->
  follows action srv c (update now (Some (mkResult action (Some srv))) c).1.
Proof.
  intros Hwf Hc Hnodes. unfold update. rewrite Hc, Hnodes. change (zlen (@nil Node) =? 0) with true. cbv iota.
  destruct (decide (action = "delete")) as [->|Hd]; cbn [fst].
  - apply follows_del; [done|]. intros v id. unfold after_event. rewrite decide_True by done. by intros [].
  - apply follows_same; [done|]. intros v id. unfold after_event. rewrite decide_True by done. split; [done | by intros []].
Qed.

(** The nodes of the event's version are those of its one entry. *)
Lemma removed_known srv services (c : cacheSelector) i s n : services_ok (Name srv) services ->
  cache c !! Name srv = Some services -> Nodes srv <> [] -> services !! i = Some s -> Version s = Version srv ->
  removed_by "delete" srv c n <-> n ∈ Nodes s /\ seen (Nodes srv) n = true.
Proof.
  intros [Hnd _] Hc Hnodes Hi Hv. unfold removed_by. rewrite seen_spec. split.
  - intros (_ & l & t & Hl & [j Ht]%list_elem_of_lookup & Hn & [?|[Htv Hs]]); [done|].
    rewrite Hc in Hl. injection Hl as <-.
    assert (i = j) as <- by (eapply version_index; eauto; congruence). split; congruence.
  - intros [Hn Hs]. split; [done|]. exists services, s. split; [done|].
    split; [by eapply list_elem_of_lookup_2|]. auto.
Qed.

Lemma update_reports now action srv (c : cacheSelector) n : wf_cache c ->
  n ∈ (update now (Some (mkResult action (Some srv))) c).2 <-> has_watcher c = true /\ removed_by action srv c n.
Proof.
  intros Hwf.
  assert (Hno : forall P : Prop, (P -> removed_by action srv c n -> False) ->
            n ∈ @nil Node <-> P /\ removed_by action srv c n) by (intros P HP; set_solver).
  unfold update. destruct (cache c !! Name srv) as [services|] eqn:Hc; [|apply Hno; intros _ (_ & l & s & Hl & _); congruence].
  pose proof (Hwf _ _ Hc) as Hok.
  destruct (decide (Nodes srv = [])) as [Hnil|Hnodes].
  { rewrite Hnil. change (zlen (@nil Node) =? 0) with true. cbv iota. destruct (decide (action = "delete")) as [->|Hd]; cbn [snd].
    - destruct (has_watcher c); [|set_solver]. rewrite elem_all_nodes. unfold removed_by. split.
      + intros (s & Hs & Hn). split; [done|]. split; [done|]. exists services, s. auto.
      + intros (_ & _ & l & s & Hl & Hs & Hn & _). rewrite Hc in Hl. injection Hl as <-. by exists s.
    - apply Hno. intros _ [Hdel _]. done. }
  rewrite nodes_nonzero by done. destruct (decide (action = "create" \/ action = "update")) as [Ha|Ha].
  { destruct (find_version _ _) as [[i s]|]; cbn [snd]; apply Hno; intros _ [-> _]; by destruct Ha. }
  destruct (decide (action = "delete")) as [->|Hd]; [|apply Hno; intros _ [Hdel _]; done].
  destruct (find_version_cases (Version srv) services) as [(i & s & -> & Hi & Hv)|[-> Hnew]]; cbn [snd].
  - rewrite removed_known by done. destruct (has_watcher c); cbn [negb].
    + destr_goal; [|destr_goal]; cbn [snd]; rewrite list_elem_of_filter, Is_true_true; tauto.
    + destr_goal; [|destr_goal]; cbn [snd]; set_solver.
  - apply Hno. intros _ (_ & l & s & Hl & Hs & Hn & [?|[Hv _]]); [done|].
    rewrite Hc in Hl. injection Hl as <-. by destruct (Hnew s).
Qed.

Lemma update_follows now action srv services (c : cacheSelector) : wf_cache c -> cache c !! Name srv = Some services ->
  follows action srv c (update now (Some (mkResult action (Some srv))) c).1.
Proof.
  intros Hwf Hc. destruct (decide (Nodes srv = [])); [by eapply update_empty|].
  destruct (decide (action = "create" \/ action = "update")); [by eapply update_upserts|].
  destruct (decide (action = "delete")) as [->|]; [by eapply update_deletes|by eapply update_other_action].
Qed.

Lemma update_uncached now action srv (c : cacheSelector) : cache c !! Name srv = None ->
  update now (Some (mkResult action (Some srv))) c = (c, []).
Proof. intros Hc. unfold update. by rewrite Hc. Qed.

(** ** Properties *)

(** C13. The cache follows the watch events.  [update] keeps the cache well formed
    (one entry per version, each under its own name); an event about a name that
    was never looked up changes nothing; otherwise the instances cached for the
    name are afterwards exactly: for a "create" or "update", those before and
    those of the event; for a "delete", those before without the event's (all of
    them gone when the event names none); versions and names the event does not
    concern keep theirs.  The selector's watcher is told of exactly the nodes
    taken away. *)
Theorem cache_follows_events now action srv (c : cacheSelector) : wf_cache c ->
  let r := update now (Some (mkResult action (Some srv))) c in
  wf_cache r.1 /\
  (cache c !! Name srv = None -> r = (c, [])) /\
  (cache c !! Name srv <> None -> forall v id,
     cached r.1 (Name srv) v id <-> after_event action srv (cached c (Name srv)) v id) /\
  (forall name v id, name <> Name srv -> cached r.1 name v id <-> cached c name v id) /\
  (forall n, n ∈ r.2 <-> has_watcher c = true /\ removed_by action srv c n).
Proof.
  intros Hwf r. destruct (cache c !! Name srv) as [services|] eqn:Hc.
  - destruct (update_follows now action srv services c Hwf Hc) as (H1 & H2 & H3).
    split; [done|]. split; [done|]. split; [done|]. split; [done|]. intros n. by apply update_reports.
  - assert (r = (c, [])) as Hr by (by apply update_uncached). rewrite Hr.
    split; [done|]. split; [done|]. split; [done|]. split; [done|]. intros n.
    change (n ∈ (c, @nil Node).2 <-> has_watcher c = true /\ removed_by action srv c n).
    rewrite <- Hr. by apply update_reports.
Qed.

Definition wn (id : string) : Node := mkNode 1 "" id "10.0.0.1" 80 None.
Definition ws (v : string) (ids : list string) : Service := mkService "chat" v ∅ [] (wn <$> ids).
Definition wc : cacheSelector :=
  set_ 0 "chat" [ws "1" ["a"; "b"]; ws "2" ["c"]] (NewSelector 60 true).

Lemma cache_follows_events_witness :
  cached (update 5 (Some (mkResult "delete" (Some (ws "1" ["b"])))) wc).1 "chat" "1" "a" /\
  ~ cached (update 5 (Some (mkResult "delete" (Some (ws "1" ["b"])))) wc).1 "chat" "1" "b" /\
  wn "b" ∈ (update 5 (Some (mkResult "delete" (Some (ws "1" ["b"])))) wc).2.
Proof.
  assert (wf_cache wc) as Hwf.
  { intros name services. unfold wc. cbn. destruct (decide (name = "chat")) as [->|Hn].
    - rewrite lookup_insert_eq. intros [= <-]. split; [|by repeat constructor].
      apply NoDup_cons; split; [set_solver|apply NoDup_singleton].
    - rewrite lookup_insert_ne by congruence. by rewrite lookup_empty. }
  destruct (cache_follows_events 5 "delete" (ws "1" ["b"]) wc Hwf) as (_ & _ & H & _ & Hr).
  assert (cache wc !! "chat" <> None) as Hin by done. specialize (H Hin).
  assert (forall ids id, lists (wn <$> ids) id <-> id ∈ ids) as Hlists.
  { intros ids id. unfold lists. setoid_rewrite list_elem_of_fmap. split.
    - by intros (n & (x & -> & Hx) & <-).
    - intros Hid. exists (wn id). split; [by exists id|done]. }
  split; [|split].
  - apply H. unfold after_event. rewrite decide_False, decide_True, decide_False, decide_True by (done || by intros [|]).
    split; [|cbn [Nodes ws]; rewrite Hlists; set_solver].
    exists [ws "1" ["a"; "b"]; ws "2" ["c"]], (ws "1" ["a"; "b"]), (wn "a").
    split; [done|]. split; [set_solver|]. split; [done|]. split; [set_solver|done].
  - rewrite H. unfold after_event. rewrite decide_False, decide_True, decide_False, decide_True by (done || by intros [|]).
    intros [_ Hn]. apply Hn. cbn [Nodes ws]. rewrite Hlists. set_solver.
  - apply Hr. split; [done|]. split; [done|].
    exists [ws "1" ["a"; "b"]; ws "2" ["c"]], (ws "1" ["a"; "b"]).
    split; [done|]. split; [set_solver|]. split; [set_solver|]. right. split; [done|].
    cbn [Nodes ws]. apply Hlists. set_solver.
Defined.

(** Once a lookup at time [t0] has fetched a service from the registry, the
    cache answers lookups itself, whatever the registry says, as long as
    [t < t0 + 2 * ttl] (the expiry is stored with the ttl added and compared as
    if it were the time of the fetch); from then on the registry's answer is
    returned and replaces the cached one, its [ErrNotFound] becomes the
    selector's, and on any other error the stale services are returned. *)
Lemma cache_ttl_is_doubled reg reg' t0 t name services (c : cacheSelector) :
  cache c !! name = None -> reg name = Ok services -> services <> [] ->
  let c1 := (get reg t0 name c).2 in
  (get reg t0 name c).1.1 = Ok services /\
  get reg' t name c1 =
    if t <? t0 + 2 * ttl c then (Ok services, false, c1)
    else match reg' name with
         | Ok fresh => (Ok fresh, false, set_ t name fresh c1)
         | Err RegErrNotFound => (Err ErrNotFound, false, c1)
         | Err _ => (Ok services, false, c1)
         end.
Proof.
  intros Hc Hreg Hne.
  assert (exists c0, get reg t0 name c = (Ok services, negb (bool_decide (name ∈ watched c)), set_ t0 name services c0) /\
            ttl c0 = ttl c /\ name ∈ watched c0) as (c0 & Hget & Httl & Hw).
  { unfold get, fetch. destruct (bool_decide (name ∈ watched c)) eqn:Hw; cbn [negb].
    - apply bool_decide_eq_true in Hw. rewrite Hc, Hreg. by exists c.
    - cbn [cache upd]. rewrite Hc, Hreg. eexists. split; [done|]. split; [done|]. cbn. set_solver. }
  rewrite Hget. split; [done|]. cbn [snd]. unfold get, fetch. cbn [watched set_ upd cache ttls ttl].
  rewrite bool_decide_eq_true_2 by done. cbn [negb]. cbn. rewrite !lookup_insert_eq, Httl.
  destruct services as [|s services]; [done|].
  replace (t - (t0 + ttl c) <? ttl c) with (t <? t0 + 2 * ttl c)
    by (apply Bool.eq_true_iff_eq; rewrite !Z.ltb_lt; lia).
  destruct (t <? t0 + 2 * ttl c); [done|]. destruct (reg' name) as [fresh|[]]; done.
Qed.

Lemma cache_ttl_is_doubled_witness :
  (get (fun _ => Err RegErrNotFound) 119 "chat" (get (fun _ => Ok [ws "1" ["a"]]) 0 "chat" (NewSelector 60 false)).2).1.1 =
    Ok [ws "1" ["a"]] /\
  (get (fun _ => Err RegErrNotFound) 120 "chat" (get (fun _ => Ok [ws "1" ["a"]]) 0 "chat" (NewSelector 60 false)).2).1.1 =
    Err ErrNotFound.
Proof.
  split; rewrite (proj2 (cache_ttl_is_doubled (fun _ => Ok [ws "1" ["a"]]) (fun _ => Err RegErrNotFound) 0 _ "chat"
    [ws "1" ["a"]] (NewSelector 60 false) eq_refl eq_refl ltac:(done))); reflexivity.
Defined.

(** *** Strategies *)

Lemma RoundRobin_next_ret services i : 0 <= i < 2 ^ 63 -> all_nodes services <> [] ->
  exists n, all_nodes services !! Z.to_nat (i mod zlen (all_nodes services)) = Some n /\
    RoundRobin_next services i = Ret (Ok n, int64 (i + 1)).
Proof.
  intros Hi Hne. unfold RoundRobin_next. set (l := all_nodes services) in *.
  assert (0 < zlen l) by (by apply Z.ltb_lt, zlen_pos).
  rewrite (proj2 (Z.eqb_neq (zlen l) 0)) by lia. rewrite Z.rem_mod_nonneg by lia.
  pose proof (Z.mod_pos_bound i (zlen l) ltac:(done)).
  rewrite (proj2 (Z.ltb_ge (i mod zlen l) 0)) by lia.
  destruct (lookup_lt_is_Some_2 l (Z.to_nat (i mod zlen l))) as [n Hn].
  { unfold zlen in *. lia. }
  exists n. by rewrite Hn.
Qed.

(** The node at index [j] of the endless rotation. *)
Definition rotation (nodes : list Node) (i : Z) (j : nat) : option Node :=
  nodes !! Z.to_nat ((i + Z.of_nat j) mod zlen nodes).

Lemma RoundRobin_picks_rotation services n : forall i, 0 <= i -> i + Z.of_nat n <= 2 ^ 63 -> all_nodes services <> [] ->
  exists picks, RoundRobin_picks services i n = Ret (Ok <$> picks) /\
    Some <$> picks = rotation (all_nodes services) i <$> seq 0 n.
Proof.
  induction n as [|n IH]; intros i Hi Hn Hne; [by exists []|].
  destruct (RoundRobin_next_ret services i ltac:(lia) Hne) as (x & Hx & Hnext).
  cbn [RoundRobin_picks]. rewrite Hnext.
  destruct n as [|n'].
  { exists [x]. cbn. split; [done|]. unfold rotation. by rewrite Z.add_0_r, Hx. }
  set (n := S n') in *.
  assert (int64 (i + 1) = i + 1) as -> by (apply wrap_s_small; [lia|]; change (2 ^ (64 - 1)) with (2 ^ 63); lia).
  destruct (IH (i + 1) ltac:(lia) ltac:(lia) Hne) as (picks & -> & Hp).
  exists (x :: picks). split; [done|].
  cbn [seq fmap list_fmap]. rewrite Hp. f_equal.
  - unfold rotation. by rewrite Z.add_0_r, Hx.
  - rewrite <- seq_shift. rewrite <- list_fmap_compose. apply list_fmap_ext. intros j y _. unfold compose, rotation. do 2 f_equal. f_equal. lia.
Qed.

(** A full turn, from wherever it starts, is every index once. *)
Lemma full_turn (m : nat) (i : Z) : (0 < m)%nat ->
  (fun j => Z.to_nat ((i + Z.of_nat j) mod Z.of_nat m)) <$> seq 0 m ≡ₚ seq 0 m.
Proof.
  intros Hm. apply (submseteq_length_Permutation); [|by rewrite length_fmap].
  apply NoDup_submseteq.
  - apply NoDup_fmap_2_strong; [|apply NoDup_ListNoDup, seq_NoDup].
    intros x y Hx Hy. apply elem_of_seq in Hx, Hy. intros E. apply Z2Nat.inj in E; try (apply Z.mod_pos_bound; lia).
    assert ((i + Z.of_nat x - (i + Z.of_nat y)) mod Z.of_nat m = 0) as H.
    { rewrite Zminus_mod, E, Z.sub_diag. apply Z.mod_0_l. lia. }
    apply Z.mod_divide in H as [q Hq]; [|lia]. assert (q = 0) by nia. nia.
  - intros k (j & -> & Hj)%list_elem_of_fmap. apply elem_of_seq.
    pose proof (Z.mod_pos_bound (i + Z.of_nat j) (Z.of_nat m) ltac:(lia)). lia.
Qed.

Lemma Some_Permutation {A} (l k : list A) : Some <$> l ≡ₚ Some <$> k -> l ≡ₚ k.
Proof.
  intros H. apply Permutation_map_inv in H as (k' & Hk & Hp).
  apply (list_fmap_eq_inj Some) in Hk as ->; [done | by intros ?? [=]].
Qed.

Lemma lookup_seq_all {A} (l : list A) : (l !!.) <$> seq 0 (length l) = Some <$> l.
Proof.
  apply list_eq. intros j. rewrite !list_lookup_fmap. destruct (decide (j < length l)%nat) as [Hj|Hj].
  - rewrite lookup_seq_lt by done. cbn. by destruct (lookup_lt_is_Some_2 l j Hj) as [x ->].
  - rewrite lookup_seq_ge, lookup_ge_None_2 by lia. done.
Qed.

(** Both strategies fail exactly when there is no node, and [Random] with
    any non-negative random number picks one of them.  [RoundRobin] is fair: as
    long as its 64-bit counter does not overflow, consecutive picks walk the list of
    nodes cyclically, and any [length nodes] consecutive picks are a permutation
    of the nodes. *)
Lemma strategies_pick (services : list Service) (i : Z) (n : nat) :
  0 <= i -> i + Z.of_nat n <= 2 ^ 63 ->
  let nodes := all_nodes services in
  (nodes = [] -> Random_next i services = Ret (Err ErrNoneAvailable) /\
                 RoundRobin_next services i = Ret (Err ErrNoneAvailable, i)) /\
  (nodes <> [] ->
     (exists x, x ∈ nodes /\ Random_next i services = Ret (Ok x)) /\
     exists picks, RoundRobin_picks services i n = Ret (Ok <$> picks) /\
       Some <$> picks = rotation nodes i <$> seq 0 n /\
       (n = length nodes -> picks ≡ₚ nodes)).
Proof.
  intros Hi Hn nodes. split.
  - unfold Random_next, RoundRobin_next. fold nodes. by intros ->.
  - intros Hne. split.
    + assert (0 < zlen nodes) by (by apply Z.ltb_lt, zlen_pos).
      pose proof (Z.mod_pos_bound i (zlen nodes) ltac:(done)).
      destruct (lookup_lt_is_Some_2 nodes (Z.to_nat (i mod zlen nodes))) as [x Hx]; [unfold zlen in *; lia|].
      exists x. split; [by eapply list_elem_of_lookup_2|]. unfold Random_next. fold nodes.
      rewrite (proj2 (Z.eqb_neq (zlen nodes) 0)), Z.rem_mod_nonneg by lia. by rewrite Hx.
    + destruct (RoundRobin_picks_rotation services n i Hi Hn Hne) as (picks & Hp & Hrot).
      exists picks. split; [done|]. split; [done|]. intros ->.
      apply Some_Permutation. fold nodes in Hrot. rewrite Hrot.
      change (rotation nodes i) with
        ((nodes !!.) ∘ (fun j => Z.to_nat ((i + Z.of_nat j) mod Z.of_nat (length nodes)))).
      etransitivity; [apply reflexive_eq, list_fmap_compose|].
      etransitivity; [apply fmap_Permutation, full_turn; destruct nodes; [done | cbn; lia]|].
      by rewrite lookup_seq_all.
Qed.

Lemma strategies_pick_witness :
  exists picks, RoundRobin_picks [ws "1" ["a"; "b"]; ws "2" ["c"]] 7 3 = Ret (Ok <$> picks) /\
    picks ≡ₚ [wn "a"; wn "b"; wn "c"].
Proof.
  destruct (strategies_pick [ws "1" ["a"; "b"]; ws "2" ["c"]] 7 3 ltac:(lia) ltac:(lia)) as (_ & H).
  destruct (H ltac:(done)) as (_ & picks & Hp & _ & Hperm). exists picks. split; [done|]. by apply Hperm.
Defined.

(** *** Filters *)

(** The filters of [filter.go], and what each accepts of a service and a node of it. *)
Inductive std_filter := ByEndpoint (name : string) | ByLabel (key val : string) | ByVersion (version : string).

Definition run_filter (f : std_filter) : Filter :=
  match f with
  | ByEndpoint name => FilterEndpoint name
  | ByLabel key val => FilterLabel key val
  | ByVersion version => FilterVersion version
  end.

Definition accepts (p : Service * Node) (f : std_filter) : bool :=
  match f with
  | ByEndpoint name => bool_decide (Exists (fun ep => ep_Name ep = name) (Endpoints p.1))
  | ByLabel key val => label_matches key val p.2
  | ByVersion version => bool_decide (Version p.1 = version)
  end.

(** Every node with the service it is listed under, in order. *)
Definition placed_in (s : Service) : list (Service * Node) := (fun n => (s <| Nodes := [] |>, n)) <$> Nodes s.
Definition placed (services : list Service) : list (Service * Node) := mjoin (placed_in <$> services).

(** A filter is right when it keeps exactly the accepted nodes and no service
    that had nodes is left without. *)
Definition populated (services : list Service) : Prop := Forall (fun s => Nodes s <> []) services.

Lemma placed_in_all (s : Service) (f : std_filter) b : (forall n, accepts (s <| Nodes := [] |>, n) f = b) ->
  filter (fun p => accepts p f) (placed_in s) = if b then placed_in s else [].
Proof.
  intros H. unfold placed_in. rewrite list_filter_fmap. destruct b.
  - f_equal. induction (Nodes s) as [|n l IH]; [done|]. rewrite filter_cons_True; [by rewrite IH|]. by rewrite H.
  - induction (Nodes s) as [|n l IH]; [done|]. rewrite filter_cons_False; [exact IH|]. rewrite H. by intros [].
Qed.

Lemma placed_cons s l : placed (s :: l) = placed_in s ++ placed l.
Proof. done. Qed.

(** A filter that only looks at the service. *)
Lemma placed_filter_services (P : Service -> Prop) `{!forall s, Decision (P s)} f services :
  (forall s n, accepts (s <| Nodes := [] |>, n) f = bool_decide (P s)) ->
  placed (filter P services) = filter (fun p => accepts p f) (placed services).
Proof.
  intros Hacc. induction services as [|s l IH]; [done|].
  rewrite placed_cons, filter_app, <- IH, (placed_in_all s f _ (Hacc s)).
  destruct (decide (P s)) as [HP|HP].
  - by rewrite filter_cons_True, bool_decide_eq_true_2.
  - by rewrite filter_cons_False, bool_decide_eq_false_2.
Qed.

Lemma placed_run_filter f services :
  placed (run_filter f services) = filter (fun p => accepts p f) (placed services).
Proof.
  destruct f as [name|key val|version]; cbn [run_filter].
  - by apply placed_filter_services.
  - induction services as [|s l IH]; [done|]. rewrite placed_cons, filter_app, <- IH.
    unfold placed_in at 1. rewrite list_filter_fmap. cbn [accepts snd]. unfold FilterLabel at 1. cbn [omap list_omap].
    destruct (filter (fun n => label_matches key val n) (Nodes s)) eqn:E; [done|].
    rewrite placed_cons. unfold placed_in at 1. done.
  - by apply placed_filter_services.
Qed.

Lemma populated_run_filter f services : populated services -> populated (run_filter f services).
Proof.
  unfold populated. rewrite !Forall_forall. intros H s. destruct f as [name|key val|version]; cbn [run_filter].
  - intros [_ Hs]%list_elem_of_filter. by apply H.
  - intros (x & Hx & E)%list_elem_of_omap. destruct (filter _ (Nodes x)) eqn:Ef; [done|]. injection E as <-. done.
  - intros [_ Hs]%list_elem_of_filter. by apply H.
Qed.

Lemma populated_LatestServices services : populated (LatestServices services).
Proof.
  unfold populated, LatestServices. apply Forall_forall. intros s (o & Ho & ->)%list_elem_of_omap.
  apply elem_of_lookup_imap in Ho as (i & x & E & _). destruct (keep_nodes _ _ _) eqn:Ek; [done|]. by injection E as ->.
Qed.

(** Selection keeps the right nodes.  Whatever combination of the package's
    filters is given, the services handed to the strategy list, in order, exactly
    the nodes of the latest instances that every filter accepts (each under its
    service), with no service left empty; and selection fails with
    [ErrNoneAvailable] exactly when there is no such node. *)
Lemma selection_is_filtering (registry_get : string -> result sel_err (list Service)) name services
    (fs : list std_filter) : registry_get name = Ok services ->
  let wanted := filter (fun p => forallb (accepts p) fs) (placed (LatestServices services)) in
  match default_Select registry_get name (run_filter <$> fs) with
  | Ok selected => placed selected = wanted /\ wanted <> [] /\ populated selected
  | Err e => e = ErrNoneAvailable /\ wanted = []
  end.
Proof.
  intros Hreg wanted. unfold default_Select, candidates. rewrite Hreg.
  set (selected := foldl _ _ _).
  assert (placed selected = wanted /\ populated selected) as [Hp Hpop].
  { unfold selected, wanted. generalize (populated_LatestServices services).
    generalize (LatestServices services) as l. induction fs as [|f fs IH]; intros l Hl; cbn [foldl fmap list_fmap forallb].
    - split; [|done]. induction (placed l) as [|p k IHk]; [done|]. by rewrite filter_cons_True, <- IHk.
    - destruct (IH (run_filter f l) (populated_run_filter f l Hl)) as [-> Hpop]. split; [|done].
      rewrite placed_run_filter, list_filter_filter. apply list_filter_iff. intros p.
      rewrite !Is_true_true, andb_true_iff. tauto. }
  destruct selected as [|s l]; [by rewrite <- Hp|].
  split; [done|]. split; [|done]. rewrite <- Hp, placed_cons. unfold placed_in.
  apply Forall_cons in Hpop as [Hs _]. by destruct (Nodes s).
Qed.

Lemma selection_is_filtering_witness :
  match default_Select (fun _ => Ok [ws "1" ["a"]; ws "2" ["c"]]) "chat" (run_filter <$> [ByVersion "2"]) with
  | Ok selected => placed selected = [(ws "2" [], wn "c")]
  | Err _ => False
  end.
Proof.
  pose proof (selection_is_filtering (fun _ => Ok [ws "1" ["a"]; ws "2" ["c"]]) "chat" _ [ByVersion "2"] eq_refl) as H.
  cbv zeta in H. destruct (default_Select _ _ _); [|vm_compute in H; by destruct H].
  destruct H as (-> & _). vm_compute. reflexivity.
Defined.
