(* ===== verification/CacheWatch.v ===== *)
(** * The watch loops of the caching selector

    [run], [watch], [Init] and [Close] of [selector/cache/cache.go]: a goroutine per
    service that watches the registry, feeds what it reports to [update], and starts
    over when the watcher fails; beside each watcher a goroutine that stops it on exit
    or reload.  All share one [reload] channel, which holds one signal.

    Every step of a goroutine is an event, and [cw_step] says what it does, or that it
    cannot happen.  Outside the model: the registry, whose [Watch] may fail, and whose
    watchers give nothing but an error once stopped. *)
From S2P Require Import Prelude Registry Selector.
#[local] Open Scope mq_scope.
#[local] Open Scope list_scope.
#[local] Open Scope Z_scope.

(** Where [run] is: at the head of its loop, before [Watch], asleep after one that
    failed, in [watch] with a watcher, returned. *)
Inductive loop_at := AtTop | AtWatch | Asleep | Watching (watcher : nat) | Ended.

#[export] Instance cw_loop_at_eq_dec : EqDecision loop_at.
Proof. solve_decision. Defined.

(** [loops] are the [run] goroutines, by service; [waiters] the goroutines of [watch]
    that have not stopped their watcher yet; [stopped] the watchers stopped;
    [reload] says that the channel holds a signal. *)
Record watching := mkWatching {
  selector : cacheSelector; loops : list (string * loop_at); waiters : list nat; stopped : gset nat; watchers : nat; reload : bool }.

#[export] Instance eta_watching : Eta watching := fun r =>
  mkWatching (selector r) (loops r) (waiters r) (stopped r) (watchers r) (reload r).

Inductive cw_event :=
| Get (service : string) (answer : result sel_err (list Service)) (now : Z)
| LoopTop (i : nat)
| Watch (i : nat) (ok : bool)
| Wake (i : nat)
| Update (i : nat) (now : Z) (res : option Result)
| Fail (i : nat)
| Waiter (k : nat) (on_exit : bool)
| Reload
| Close.

Definition start_watching (c : cacheSelector) : watching := mkWatching c [] [] ∅ 0 false.

Definition set_loop (i : nat) (l : loop_at) (s : watching) : watching :=
  let ls := loops s in s <| loops := alter (fun x => (x.1, l)) i ls |>.

(** [w.Stop()] *)
Definition stop_watcher (w : nat) (s : watching) : watching := let st := stopped s in s <| stopped := {[ w ]} ∪ st |>.

(** The return of [run] when the selector has been closed. *)
Definition unless_quit (l : loop_at) (s : watching) : loop_at := if quit (selector s) then Ended else l.

Definition cw_step (s : watching) (e : cw_event) : option watching :=
  match e with
  | Get service answer now =>
      let '(_, started, c) := get (fun _ => answer) now service (selector s) in
      let ls := loops s in
      Some (s <| selector := c |> <| loops := if started then ls ++ [(service, AtTop)] else ls |>)
  | LoopTop i =>
      match loops s !! i with
      | Some (_, AtTop) => Some (set_loop i (unless_quit AtWatch s) s)
      | _ => None
      end
  | Watch i ok =>
      match loops s !! i with
      | Some (_, AtWatch) =>
          if ok then
            let w := watchers s in let ws := waiters s in
            Some (set_loop i (Watching w) (s <| watchers := S w |> <| waiters := ws ++ [w] |>))
          else Some (set_loop i (unless_quit Asleep s) s)
      | _ => None
      end
  | Wake i => match loops s !! i with Some (_, Asleep) => Some (set_loop i AtTop s) | _ => None end
  | Update i now res =>
      match loops s !! i with
      | Some (_, Watching w) =>
          if decide (w ∈ stopped s) then None
          else let c := selector s in Some (s <| selector := (update now res c).1 |>)
      | _ => None
      end
  | Fail i =>
      match loops s !! i with
      | Some (_, Watching w) => Some (set_loop i (unless_quit AtTop s) (stop_watcher w s))
      | _ => None
      end
  | Waiter k on_exit =>
      match waiters s !! k with
      | Some w =>
          if (if on_exit then quit (selector s) else reload s) then
            let ws := waiters s in let r := reload s in
            Some (stop_watcher w (s <| waiters := delete k ws |> <| reload := on_exit && r |>))
          else None
      | None => None
      end
  | Reload => if quit (selector s) || reload s then None else Some (s <| reload := true |>)
  | Close => let c := selector s in Some (s <| selector := Cache_Close c |>)
  end.

Definition cw_run : list cw_event -> watching -> option watching := run_steps cw_step.
