(* ===== verification/CacheWatchTheorems.v ===== *)
(** * Theorems on the watch loops

    The cache holds what the watchers reported, in order; [Close] ends every loop; and
    how far one reload signal reaches. *)
From S2P Require Import Prelude Registry Selector CacheWatch.
#[local] Open Scope mq_scope.
#[local] Open Scope string_scope.
#[local] Open Scope list_scope.
#[local] Open Scope Z_scope.

(** ** Loops by index *)

Lemma loops_set i l s : loops (set_loop i l s) = alter (fun x => (x.1, l)) i (loops s).
Proof. done. Qed.

Lemma lookup_set i l s j : loops (set_loop i l s) !! j = if decide (j = i) then (fun x => (x.1, l)) <$> (loops s !! i) else loops s !! j.
Proof.
  rewrite loops_set. destruct (decide (j = i)) as [->|]; [apply list_lookup_alter_eq | by apply list_lookup_alter_ne].
Qed.

(** ** Invariant *)

(** A watcher in use has its waiter, or is stopped. *)
Record cw_inv (s : watching) : Prop := {
  ci_waiter : forall i n w, loops s !! i = Some (n, Watching w) -> w ∈ waiters s \/ w ∈ stopped s }.

Lemma lookup_set_Some i l s j n m : loops (set_loop i l s) !! j = Some (n, m) ->
  (j = i /\ m = l) \/ loops s !! j = Some (n, m).
Proof.
  rewrite lookup_set. destruct (decide (j = i)) as [->|]; [|by right].
  destruct (loops s !! i) as [[? ?]|]; [|done]. intros [= -> <-]. by left.
Qed.

Lemma inv_set i l s : cw_inv s -> (forall w, l = Watching w -> w ∈ waiters s \/ w ∈ stopped s) -> cw_inv (set_loop i l s).
Proof. intros [H] Hl. split. intros j n w [[-> E]|E]%lookup_set_Some; [by apply Hl | by eapply H]. Qed.

Lemma elem_of_delete {A} (l : list A) k x y : l !! k = Some x -> y ∈ l -> y = x \/ y ∈ delete k l.
Proof.
  intros Hk Hy. pose proof (delete_Permutation l k x Hk) as Hp. rewrite Hp in Hy. set_solver.
Qed.

Lemma cw_step_inv s e s' : cw_inv s -> cw_step s e = Some s' -> cw_inv s'.
Proof.
  intros Hi H. destruct e as [service answer now|i|i ok|i|i now res|i|k on_exit| |]; cbn in H.
  - destruct (get _ _ _ _) as [[r started] c]. injection H as <-. split. cbn. intros i n w Hl.
    destruct started; [|by apply (ci_waiter _ Hi i n w)].
    apply lookup_app_Some in Hl as [Hl|[_ Hl]]; [by apply (ci_waiter _ Hi i n w)|].
    by apply list_lookup_singleton_Some in Hl as [_ [=]].
  - destruct (loops s !! i) as [[n []]|]; try done. injection H as <-. apply inv_set; [done|].
    unfold unless_quit. by destruct (quit (selector s)).
  - destruct (loops s !! i) as [[n []]|]; try done. destruct ok; injection H as <-.
    + apply inv_set; [|cbn; intros w [= <-]; left; set_solver]. split. cbn. intros j m w Hl.
      destruct (ci_waiter _ Hi j m w Hl); [left; set_solver | by right].
    + apply inv_set; [done|]. unfold unless_quit. by destruct (quit (selector s)).
  - destruct (loops s !! i) as [[n []]|]; try done. injection H as <-. by apply inv_set.
  - destruct (loops s !! i) as [[n []]|]; try done. destruct (decide _); [done|]. injection H as <-. split. cbn. apply Hi.
  - destruct (loops s !! i) as [[n []]|]; try done. injection H as <-. apply inv_set; [|unfold unless_quit; by destruct (quit (selector s))].
    split. cbn. intros j m w Hl. destruct (ci_waiter _ Hi j m w Hl); [by left|right; set_solver].
  - destruct (waiters s !! k) as [x|] eqn:Hk; [|done]. destruct (if on_exit then _ else _); [|done]. injection H as <-. split. cbn.
    intros j m w Hl. destruct (ci_waiter _ Hi j m w Hl) as [Hw|Hw]; [|right; set_solver].
    destruct (elem_of_delete _ _ _ _ Hk Hw) as [->|]; [right; set_solver | by left].
  - destruct (_ || _); [done|]. injection H as <-. split. apply Hi.
  - injection H as <-. split. apply Hi.
Qed.

Lemma cw_run_inv evs s s' : cw_inv s -> cw_run evs s = Some s' -> cw_inv s'.
Proof. apply run_steps_keep. intros x e y. apply cw_step_inv. Qed.

Lemma start_inv c : cw_inv (start_watching c).
Proof. split. intros i n w H. done. Qed.

(** ** The exit *)

Lemma get_exited registry_get now service c : exited (get registry_get now service c).2 = exited c.
Proof. unfold get, fetch. repeat case_match; simplify_eq/=; done. Qed.

Lemma update_exited now res c : exited (update now res c).1 = exited c.
Proof. unfold update. repeat case_match; done. Qed.

Definition rank (l : loop_at) : nat :=
  match l with Ended => 0 | AtTop | Watching _ => 1 | Asleep => 2 | AtWatch => 3 end.

(** The steps the goroutines can still take once the selector is closed. *)
Definition measure (s : watching) : nat := (sum_list_with (fun x => rank x.2) (loops s) + length (waiters s))%nat.

Lemma sum_alter {A} (g : A -> nat) f i l x : l !! i = Some x -> (sum_list_with g (alter f i l) + g x = sum_list_with g l + g (f x))%nat.
Proof.
  revert i. induction l as [|y l IH]; intros [|i]; try done.
  - intros [= ->]. cbn. lia.
  - intros H. specialize (IH i H). change (alter f (S i) (y :: l)) with (y :: alter f i l). cbn [sum_list_with]. lia.
Qed.

Lemma measure_set i n l l' s s1 : loops s !! i = Some (n, l) -> loops s1 = loops s ->
  (measure (set_loop i l' s1) + rank l + length (waiters s) = measure s + rank l' + length (waiters s1))%nat.
Proof.
  intros Hl Hs. unfold measure. rewrite loops_set, Hs. pose proof (sum_alter (fun x => rank x.2) (fun x => (x.1, l')) i _ _ Hl) as Hsum.
  cbn [snd fst] in Hsum. change (waiters (set_loop i l' s1)) with (waiters s1). lia.
Qed.

(** A step of a goroutine, other than the delivery of a report. *)
Definition work (e : cw_event) : bool :=
  match e with LoopTop _ | Watch _ _ | Wake _ | Fail _ | Waiter _ _ => true | _ => false end.
Definition is_get (e : cw_event) : bool := match e with Get _ _ _ => true | _ => false end.
Definition count (P : cw_event -> bool) (evs : list cw_event) : nat := length (filter (fun e => P e = true) evs).

Lemma count_cons P e evs : count P (e :: evs) = ((if P e then 1 else 0) + count P evs)%nat.
Proof. unfold count. rewrite filter_cons. destruct (P e); [by rewrite decide_True | by rewrite decide_False]. Qed.

Lemma cw_step_measure s e s' : exited (selector s) = true -> cw_step s e = Some s' ->
  exited (selector s') = true /\ (measure s' + (if work e then 1 else 0) <= measure s + (if is_get e then 1 else 0))%nat.
Proof.
  intros Hx H. assert (Hq : forall l, unless_quit l s = Ended) by (intros; unfold unless_quit, quit; by rewrite Hx).
  destruct e as [service answer now|i|i ok|i|i now res|i|k on_exit| |]; cbn in H; cbn [work is_get].
  - pose proof (get_exited (fun _ => answer) now service (selector s)) as Hg.
    destruct (get _ _ _ _) as [[r started] c]. injection H as <-. split; [cbn in *; congruence|].
    unfold measure. destruct started; cbn; rewrite ?sum_list_with_app; cbn; lia.
  - destruct (loops s !! i) as [[n []]|] eqn:El; try done. injection H as <-. split; [done|].
    pose proof (measure_set i n _ Ended s s El eq_refl). rewrite Hq. cbn [rank] in *. lia.
  - destruct (loops s !! i) as [[n []]|] eqn:El; try done. destruct ok; injection H as <-; (split; [done|]).
    + match goal with |- context [measure (set_loop i _ ?s1)] =>
        pose proof (measure_set i n _ (Watching (watchers s)) s s1 El eq_refl) as Hm;
        change (waiters s1) with (waiters s ++ [watchers s]) in Hm
      end.
      rewrite length_app in Hm. cbn [rank length] in Hm. lia.
    + pose proof (measure_set i n _ Ended s s El eq_refl). rewrite Hq. cbn [rank] in *. lia.
  - destruct (loops s !! i) as [[n []]|] eqn:El; try done. injection H as <-. split; [done|].
    pose proof (measure_set i n _ AtTop s s El eq_refl). cbn [rank] in *. lia.
  - destruct (loops s !! i) as [[n []]|]; try done. destruct (decide _); [done|]. injection H as <-.
    split; [cbn; by rewrite update_exited|]. unfold measure. cbn. lia.
  - destruct (loops s !! i) as [[n [| | |w|]]|] eqn:El; try done. injection H as <-. split; [done|].
    pose proof (measure_set i n _ Ended s (stop_watcher w s) El eq_refl) as Hm. rewrite Hq.
    change (waiters (stop_watcher w s)) with (waiters s) in Hm. cbn [rank] in *. lia.
  - destruct (waiters s !! k) as [x|] eqn:Hk; [|done]. destruct (if on_exit then _ else _); [|done]. injection H as <-. split; [done|].
    unfold measure. cbn. rewrite length_delete by done. pose proof (lookup_lt_Some _ _ _ Hk). lia.
  - destruct (_ || _); [done|]. injection H as <-. split; [done|]. unfold measure. cbn. lia.
  - injection H as <-. split; [done|]. unfold measure. cbn. lia.
Qed.

Lemma cw_run_measure evs : forall s s', exited (selector s) = true -> cw_run evs s = Some s' ->
  exited (selector s') = true /\ (measure s' + count work evs <= measure s + count is_get evs)%nat.
Proof.
  induction evs as [|e evs IH]; intros s s' Hx H; cbn in H; [injection H as <-; split; [done|cbn; lia]|].
  apply bind_Some in H as (s1 & Hs1 & H). destruct (cw_step_measure _ _ _ Hx Hs1) as [Hx1 H1].
  destruct (IH _ _ Hx1 H) as [Hx2 H2]. split; [done|]. rewrite !count_cons. lia.
Qed.

(** A step that cannot fail to come: it waits for nothing but its goroutine's turn, or
    for the answer of a stopped watcher. *)
Definition due (s : watching) (e : cw_event) : Prop :=
  match e with
  | LoopTop _ | Watch _ _ | Wake _ | Waiter _ true => True
  | Fail i => exists n w, loops s !! i = Some (n, Watching w) /\ w ∈ stopped s
  | _ => False
  end.

Lemma loop_due s i n l : exited (selector s) = true -> cw_inv s -> loops s !! i = Some (n, l) -> l <> Ended ->
  exists e s', due s e /\ work e = true /\ cw_step s e = Some s'.
Proof.
  intros Hx Hi Hl Hne. destruct l as [| | |w|]; [..|done].
  - exists (LoopTop i). eexists. split_and!; [done..|]. cbn. by rewrite Hl.
  - exists (Watch i true). eexists. split_and!; [done..|]. cbn. by rewrite Hl.
  - exists (Wake i). eexists. split_and!; [done..|]. cbn. by rewrite Hl.
  - destruct (decide (w ∈ stopped s)) as [Hw|Hw].
    + exists (Fail i). eexists. split_and!; [by exists n, w|done|]. cbn. by rewrite Hl.
    + destruct (ci_waiter _ Hi i n w Hl) as [[k Hk]%list_elem_of_lookup|]; [|done].
      exists (Waiter k true). eexists. split_and!; [done..|]. cbn. rewrite Hk. unfold quit. by rewrite Hx.
Qed.

(** C29. After [Close], the watch loops end.  In every run the goroutines take at
    most as many steps, other than to deliver reports, as [measure] counts, and one
    more for each service asked for later; and as long as a loop has not returned,
    some such step is due, that waits for nothing. *)
Theorem close_ends_the_loops (c : cacheSelector) (before after : list cw_event) (s s' : watching)
  (Hs : cw_run before (start_watching c) = Some s) (Hclosed : exited (selector s) = true) (Hs' : cw_run after s = Some s') :
  (count work after <= measure s + count is_get after)%nat /\
  (Forall (fun x => x.2 = Ended) (loops s') \/ exists e s2, due s' e /\ work e = true /\ cw_step s' e = Some s2).
Proof.
  destruct (cw_run_measure _ _ _ Hclosed Hs') as [Hx Hm]. split; [lia|].
  destruct (decide (Forall (fun x => x.2 = Ended) (loops s'))) as [|Hn]; [by left|right].
  apply not_Forall_Exists in Hn; [|intros; apply _]. apply Exists_exists in Hn as ([n l] & [i Hl]%list_elem_of_lookup & Hne).
  eapply loop_due; [done| |exact Hl|exact Hne]. by eapply cw_run_inv; [eapply cw_run_inv; [apply start_inv|exact Hs]|].
Qed.

(** ** A run *)

Definition demo_cache : cacheSelector := NewSelector 60 false.
Definition demo_gets : list cw_event := [Get "a" (Err RegErrNotFound) 0; Get "b" (Err RegErrNotFound) 0].
Definition demo_watch : list cw_event := demo_gets ++ [LoopTop 0; Watch 0 true; LoopTop 1; Watch 1 true].
Definition demo_at (evs : list cw_event) : watching := default (start_watching demo_cache) (cw_run evs (start_watching demo_cache)).
Definition demo_close : list cw_event := demo_watch ++ [Close].
Definition demo_end : list cw_event := [Waiter 0 true; Fail 0; Waiter 0 true; Fail 1].

Lemma close_ends_the_loops_witness :
  (count work demo_end <= measure (demo_at demo_close) + count is_get demo_end)%nat /\
  (Forall (fun x => x.2 = Ended) (loops (demo_at (demo_close ++ demo_end))) \/
   exists e s2, due (demo_at (demo_close ++ demo_end)) e /\ work e = true /\ cw_step (demo_at (demo_close ++ demo_end)) e = Some s2).
Proof.
  apply (close_ends_the_loops demo_cache demo_close demo_end (demo_at demo_close) (demo_at (demo_close ++ demo_end)));
    vm_compute; reflexivity.
Defined.

(** ** Reload *)

(** One signal stops one watcher. *)
Lemma reload_stops_one s k s' : cw_step s (Waiter k false) = Some s' ->
  exists w, waiters s !! k = Some w /\ stopped s' = {[ w ]} ∪ stopped s /\ reload s' = false /\ loops s' = loops s.
Proof.
  cbn. destruct (waiters s !! k) as [w|]; [|done]. destruct (reload s); [|done]. intros [= <-]. by exists w.
Qed.

(** Two services are watched: a reload reaches one of them. *)
Example reload_reaches_one : let s := demo_at (demo_watch ++ [Reload; Waiter 0 false; Fail 0]) in
  (snd <$> loops s) = [AtTop; Watching 1] /\ reload s = false.
Proof. vm_compute. done. Qed.

(** A watcher that failed by itself leaves its goroutine behind, which then takes the
    signal from the watcher in use. *)
Example stale_waiter_takes_reload : let s := demo_at ([Get "a" (Err RegErrNotFound) 0; LoopTop 0; Watch 0 true; Fail 0; LoopTop 0; Watch 0 true;
    Reload; Waiter 0 false]) in
  (snd <$> loops s) = [Watching 1] /\ reload s = false /\ bool_decide (1%nat ∈ stopped s) = false.
Proof. vm_compute. done. Qed.
