(* ===== verification/App.v ===== *)
(** * The application's service routing

    [DefaultApp] of [app/app.go] and [serverSession] of
    [module/base/server_session.go]: the table of proxies to service instances,
    the sticky routes from a logical server id to the instance first chosen for
    it, and the watcher that drops an instance.

    The proxies are references, since the code compares and shares them.  Other
    goroutines act between the sections the code locks: [others] lists, for each
    such point of a call, the locked sections they run there ([action]).
    Outside the model: the subscription a new proxy's rpc client makes
    ([subscribe_error]) and the application's own [mapRoute]. *)
From S2P Require Import Prelude Registry Selector.
#[local] Open Scope mq_scope.
#[local] Open Scope st_scope.
#[local] Open Scope string_scope.
#[local] Open Scope Z_scope.

Abbreviation pref := positive.

(** ** The selector, seen by the application *)

(** [sel_Select] is [Select] followed by one call of the [Next] it returns. *)
Class ServiceSelector (Sel : Type) := {
  sel_GetService : string -> Sel -> result sel_err (list Service) * Sel;
  sel_Select : string -> list Filter -> Sel -> outcome (result sel_err Node) * Sel }.

(** What a selector promises: a node it selects for a name is a node it lists for
    it, as long as the filters only drop nodes. *)
Definition narrowing (f : Filter) : Prop :=
  forall services n, n ∈ all_nodes (f services) -> n ∈ all_nodes services.

Class SelectorLaws (Sel : Type) `{ServiceSelector Sel} := {
  select_listed : forall name filters s n, Forall narrowing filters ->
    (sel_Select name filters s).1 = Ret (Ok n) ->
    exists services, (sel_GetService name s).1 = Ok services /\ n ∈ all_nodes services }.

(** The two selectors of the framework, with the random number the strategy draws. *)
Definition default_selector (registry_get : string -> result sel_err (list Service)) (rand : Z) :
    ServiceSelector unit := {|
  sel_GetService name s := (registry_get name, s);
  sel_Select name filters s :=
    (match default_Select registry_get name filters with
     | Err e => Ret (Err e)
     | Ok services => Random_next rand services
     end, s) |}.

Definition cache_selector (registry_get : string -> result sel_err (list Service)) (now rand : Z) :
    ServiceSelector cacheSelector := {|
  sel_GetService name c := let '(r, _, c) := GetService registry_get now name c in (r, c);
  sel_Select name filters c :=
    let '(r, _, c) := Select registry_get now name filters c in
    (match r with Err e => Ret (Err e) | Ok services => Random_next rand services end, c) |}.

(** ** State *)

(** [serverSession] with the number of times its rpc client was closed. *)
Record proxy := mkProxy { px_name : string; px_node : Node; px_done : nat }.

#[export] Instance eta_proxy : Eta proxy := fun r => mkProxy (px_name r) (px_node r) (px_done r).

(** A locked section run by another goroutine: the registration of a proxy it
    has just made, the choice of a route, the removal of an instance. *)
Inductive action :=
| ADiscover (name : string) (node : Node)
| ARoute (serverID : string) (candidate : pref)
| AWatch (node : Node).

Record DefaultApp (Sel : Type) := mkApp {
  serverList : gmap string pref; logicalRoutes : gmap string string;
  proxies : gmap pref proxy; app_selector : Sel; others : list (list action) }.
Arguments mkApp {Sel}.
Arguments serverList {Sel}.
Arguments logicalRoutes {Sel}.
Arguments proxies {Sel}.
Arguments app_selector {Sel}.
Arguments others {Sel}.

#[export] Instance eta_DefaultApp Sel : Eta (DefaultApp Sel) := fun r =>
  mkApp (serverList r) (logicalRoutes r) (proxies r) (app_selector r) (others r).

Inductive app_err :=
| ErrText (text : string)
| ErrSelector (e : sel_err)
| ErrRpc (why : string).

(** ** Sections *)

Section Sections.
Context {Sel : Type}.
Abbreviation app := (DefaultApp Sel).

Definition close_proxy (p : pref) (a : app) : app :=
  a <| proxies := alter (fun x => let n := px_done x in x <| px_done := S n |>) p (proxies a) |>.

(** The first section of [GetServerByID]. *)
Definition routed (serverID : string) (a : app) : option pref :=
  match logicalRoutes a !! serverID with
  | Some instanceID => serverList a !! instanceID
  | None => None
  end.

(** [NewServerSession], [LoadOrStore], and the [Done] of a proxy that came too
    late: the first makes a proxy nobody else knows, the last closes one nobody else has,
    so that both can be taken with the locked section between them. *)
Definition register (name : string) (node : Node) (a : app) : app * pref :=
  let p := fresh (dom (proxies a)) in
  let a := a <| proxies := <[p := mkProxy name node 0]> (proxies a) |> in
  match serverList a !! InstanceID node with
  | Some cached => (close_proxy p a, cached)
  | None => (a <| serverList := <[InstanceID node := p]> (serverList a) |>, p)
  end.

(** The last section of [GetServerByID]: an existing route wins; otherwise the
    candidate is routed if its instance is still there. *)
Definition route (serverID : string) (candidate : pref) (a : app) : app * option pref :=
  match routed serverID a with
  | Some p => (a, Some p)
  | None =>
      match proxies a !! candidate with
      | None => (a, None)
      | Some x =>
          let instanceID := InstanceID (px_node x) in
          match serverList a !! instanceID with
          | Some _ => (a <| logicalRoutes := <[serverID := instanceID]> (logicalRoutes a) |>, Some candidate)
          | None => (a, None)
          end
      end
  end.

Definition drop_route (serverID instanceID : string) (a : app) : app :=
  match logicalRoutes a !! serverID with
  | Some i => if decide (i = instanceID) then a <| logicalRoutes := delete serverID (logicalRoutes a) |> else a
  | None => a
  end.

(** [Watcher] *)
Definition watch (node : Node) (a : app) : app :=
  match serverList a !! InstanceID node with
  | None => a
  | Some p =>
      let a := a <| serverList := delete (InstanceID node) (serverList a) |> in
      let a := match proxies a !! p with
               | Some x => drop_route (ServerID (px_node x)) (InstanceID node) a
               | None => a
               end in
      close_proxy p a
  end.

(** The candidates another goroutine routes are proxies with that server id. *)
Definition act (x : action) (a : app) : app :=
  match x with
  | ADiscover name node => (register name node a).1
  | ARoute serverID p =>
      match proxies a !! p with
      | Some y => if decide (ServerID (px_node y) = serverID) then (route serverID p a).1 else a
      | None => a
      end
  | AWatch node => watch node a
  end.

Definition acts (l : list action) (a : app) : app := foldl (fun a x => act x a) a l.
End Sections.

(** ** Operations *)

Section App.
Context {Sel : Type} `{ServiceSelector Sel}
        (subscribe_error : Node -> option string)
        (mapRoute : option (string -> string)).
Abbreviation app := (DefaultApp Sel).
Abbreviation AM := (ST app).

(** A point where the calling goroutine holds no lock. *)
Definition yield : AM unit := fun a =>
  match others a with
  | [] => Done a tt
  | l :: rest => Done (acts l (a <| others := rest |>)) tt
  end.

Definition section_ {A} (f : app -> app * A) : AM A := fun a => let '(a, r) := f a in Done a r.

Definition select {A} (f : Sel -> A * Sel) : AM A := fun a =>
  let '(r, s) := f (app_selector a) in Done (a <| app_selector := s |>) r.

(** [getServerSession] *)
Definition getServerSession (name : string) (node : Node) : AM (result app_err pref) :=
  let* a := st_get in
  match serverList a !! InstanceID node with
  | Some cached => st_ret (Ok cached)
  | None =>
      match subscribe_error node with
      | Some e => st_ret (Err (ErrRpc e))
      | None =>
          do* yield in
          let* p := section_ (register name node) in
          st_ret (Ok p)
      end
  end.

Fixpoint sessions_of (name : string) (nodes : list Node) : AM (list pref) :=
  match nodes with
  | [] => st_ret []
  | node :: nodes =>
      do* yield in
      let* r := getServerSession name node in
      let* ps := sessions_of name nodes in
      st_ret (match r with Ok p => p :: ps | Err _ => ps end)
  end.

Definition getServersByType (name : string) (latest : bool) : AM (list pref) :=
  let* r := select (sel_GetService name) in
  match r with
  | Err _ => st_ret []
  | Ok services =>
      let services := if latest then LatestServices services else services in
      sessions_of name (all_nodes services)
  end.

Definition GetServersByType (name : string) : AM (list pref) := getServersByType name false.

(** The loop over the candidates in [GetServerByID]. *)
Fixpoint try_candidates (serverID : string) (candidates : list pref) : AM (result app_err pref) :=
  match candidates with
  | [] => st_ret (Err (ErrText ("nofound " ++ serverID)))
  | p :: rest =>
      let* a := st_get in
      match proxies a !! p with
      | None => try_candidates serverID rest
      | Some x =>
          if decide (ServerID (px_node x) = serverID) then
            do* yield in
            let* o := section_ (route serverID p) in
            match o with
            | Some q => st_ret (Ok q)
            | None => try_candidates serverID rest
            end
          else try_candidates serverID rest
      end
  end.

Definition at_sign : Ascii.ascii := Ascii.ascii_of_nat 64.

Definition GetServerByID (serverID : string) : AM (result app_err pref) :=
  let* a := st_get in
  match routed serverID a with
  | Some p => st_ret (Ok p)
  | None =>
      do* yield in
      match split_on at_sign serverID "" with
      | [moduleType; _] =>
          let* candidates := getServersByType moduleType true in
          try_candidates serverID candidates
      | _ => st_ret (Err (ErrText ("serverID is error " ++ serverID)))
      end
  end.

Definition GetServerByInstanceID (instanceID : string) : AM (result app_err pref) :=
  let* a := st_get in
  match serverList a !! instanceID with
  | Some p => st_ret (Ok p)
  | None =>
      let bad := st_ret (Err (ErrText ("instanceID is error " ++ instanceID))) in
      match split_on at_sign instanceID "" with
      | [name; rest] =>
          if decide (name = "" \/ rest = "") then bad else
          let* r := select (sel_GetService name) in
          match r with
          | Err e => st_ret (Err (ErrSelector e))
          | Ok services =>
              match list_find (fun n => InstanceID n = instanceID) (all_nodes services) with
              | Some (_, node) => getServerSession name node
              | None => st_ret (Err (ErrText ("nofound instance " ++ instanceID)))
              end
          end
      | _ => bad
      end
  end.

Definition GetServerBySelector (name : string) (filters : list Filter) : AM (result app_err pref) :=
  let* r := select (sel_Select name filters) in
  match r with
  | Panic why => st_panic why
  | Ret (Err e) => st_ret (Err (ErrSelector e))
  | Ret (Ok node) => getServerSession name node
  end.

Definition GetRouteServer (filter : string) (filters : list Filter) : AM (result app_err pref) :=
  let filter := match mapRoute with Some f => f filter | None => filter end in
  match split_on at_sign filter "" with
  | [moduleType; moduleID] =>
      if decide (moduleID = "") then GetServerBySelector moduleType filters else GetServerByID filter
  | moduleType :: _ => GetServerBySelector moduleType filters
  | [] => st_panic "index out of range"
  end.

Definition Watcher (node : Node) : AM unit := section_ (fun a => (watch node a, tt)).

(** [Invoke], [InvokeNR] and [Call]: the call goes to the routed proxy. *)
Definition routed_call {R} (filter : string) (filters : list Filter) (call : pref -> AM (result app_err R)) :
    AM (result app_err R) :=
  let* r := GetRouteServer filter filters in
  match r with
  | Err e => st_ret (Err e)
  | Ok p => call p
  end.

End App.
