(* ===== verification/AppTheorems.v ===== *)
(** * Theorems about service routing *)
From S2P Require Import Prelude Registry Selector App.
#[local] Open Scope mq_scope.
#[local] Open Scope st_scope.
#[local] Open Scope string_scope.
#[local] Open Scope list_scope.
#[local] Open Scope Z_scope.

(** ** The interface is met *)

Lemma all_nodes_pairs services : all_nodes services = snd <$> pairs services.
Proof.
  induction services as [|s l IH]; [done|].
  change (all_nodes (s :: l)) with (Nodes s ++ all_nodes l).
  change (pairs (s :: l)) with ((pair (Name s) <$> Nodes s) ++ pairs l).
  rewrite fmap_app, IH, <- list_fmap_compose. f_equal. symmetry. apply list_fmap_id.
Qed.

Lemma candidates_listed filters services selected n : Forall narrowing filters ->
  candidates filters services = Ok selected -> n ∈ all_nodes selected -> n ∈ all_nodes services.
Proof.
  intros Hf Hc Hn. unfold candidates in Hc.
  assert (n ∈ all_nodes (LatestServices services)) as Hl.
  { assert (n ∈ all_nodes (foldl (fun s f => f s) (LatestServices services) filters)) as Hfold
      by (destruct (foldl _ _ _); [done|]; by injection Hc as ->).
    clear Hc Hn. revert Hfold. generalize (LatestServices services). induction Hf as [|f fs Hf1 _ IH]; [done|].
    intros l Hl. apply Hf1, IH, Hl. }
  rewrite all_nodes_pairs in *. eapply elem_of_sublist; [exact Hl|]. apply sublist_fmap_mono, Latest_sublist.
Qed.

Lemma Random_next_listed rand services n : Random_next rand services = Ret (Ok n) -> n ∈ all_nodes services.
Proof.
  unfold Random_next. destruct (zlen _ =? 0); [done|]. destruct (all_nodes services !! _) as [m|] eqn:E; [|done].
  intros [= <-]. by eapply list_elem_of_lookup_2.
Qed.

#[export] Instance default_laws registry_get rand : @SelectorLaws unit (default_selector registry_get rand).
Proof.
  split. intros name filters s n Hf. cbn. unfold default_Select.
  destruct (registry_get name) as [services|e]; [|done].
  destruct (candidates filters services) as [selected|e] eqn:Hc; [|done].
  intros Hn%Random_next_listed. exists services. split; [done|]. by eapply candidates_listed.
Qed.

#[export] Instance cache_laws registry_get now rand : @SelectorLaws cacheSelector (cache_selector registry_get now rand).
Proof.
  split. intros name filters c n Hf. cbn. unfold Select, GetService.
  destruct (get registry_get now name c) as [[[services|e] started] c']; [|done].
  destruct (candidates filters services) as [selected|e] eqn:Hc; [|done]. cbn.
  intros Hn%Random_next_listed. exists services. split; [done|]. by eapply candidates_listed.
Qed.

(** The package's filters narrow. *)
Lemma filter_narrowing (P : Service -> Prop) `{!forall s, Decision (P s)} : narrowing (filter P).
Proof.
  intros services n (s & Hs & Hn)%elem_all_nodes. apply elem_all_nodes. exists s.
  by apply list_elem_of_filter in Hs as [_ Hs].
Qed.

Lemma FilterLabel_narrowing key val : narrowing (FilterLabel key val).
Proof.
  intros services n (s & Hs & Hn)%elem_all_nodes. apply elem_all_nodes.
  apply list_elem_of_omap in Hs as (x & Hx & E). exists x. split; [done|].
  destruct (filter _ (Nodes x)) as [|m l] eqn:Ef; [done|]. injection E as <-. cbn in Hn. rewrite <- Ef in Hn.
  by apply list_elem_of_filter in Hn as [_ Hn].
Qed.

Lemma FilterVersion_narrowing v : narrowing (FilterVersion v).
Proof. apply filter_narrowing. Qed.

Lemma FilterEndpoint_narrowing name : narrowing (FilterEndpoint name).
Proof. apply filter_narrowing. Qed.

(** ** Definitions the statements use *)

Section Invariant.
Context {Sel : Type} (server_of : string -> string).
Abbreviation app := (DefaultApp Sel).

(** Instance ids are unique to a start of a server, so they determine it. *)
Definition consistent (n : Node) : Prop := ServerID n = server_of (InstanceID n).

(** A proxy is cached under its instance as long as its client is open, a client is
    closed once at most, and a route leads to a cached proxy of its server. *)
Record inv (a : app) : Prop := {
  inv_listed : forall i p, serverList a !! i = Some p ->
    exists x, proxies a !! p = Some x /\ InstanceID (px_node x) = i /\ px_done x = 0%nat;
  inv_open : forall p x, proxies a !! p = Some x ->
    px_done x = 1%nat \/ px_done x = 0%nat /\ serverList a !! InstanceID (px_node x) = Some p;
  inv_consistent : forall p x, proxies a !! p = Some x -> consistent (px_node x);
  inv_routes : forall sid i, logicalRoutes a !! sid = Some i ->
    exists p, serverList a !! i = Some p /\ sid = server_of i }.

Definition ok_action (x : action) : Prop :=
  match x with ADiscover _ n => consistent n | _ => True end.
Definition ok_schedule (a : app) : Prop := Forall (Forall ok_action) (others a).

Definition open (a : app) (p : pref) : Prop := exists x, proxies a !! p = Some x /\ px_done x = 0%nat.
Definition quiet (a : app) : Prop := others a = [].

(** [a'] is [a] later on: proxies keep their node and are never reopened; without
    other goroutines none is closed. *)
Record evolves (a a' : app) : Prop := {
  ev_proxies : forall p x, proxies a !! p = Some x ->
    exists x', proxies a' !! p = Some x' /\ px_node x' = px_node x /\ (px_done x <= px_done x')%nat;
  ev_quiet : quiet a -> quiet a' /\ forall p, open a p -> open a' p }.

(** ** Lemmas *)

Lemma evolves_refl a : evolves a a.
Proof. split; [|by split]. intros p x Hp. exists x. split; [done|]. split; [done|]. lia. Qed.

Lemma evolves_trans a b c : evolves a b -> evolves b c -> evolves a c.
Proof.
  intros [P1 Q1] [P2 Q2]. split.
  - intros p x Hp. destruct (P1 p x Hp) as (y & Hy & E1 & L1). destruct (P2 p y Hy) as (z & Hz & E2 & L2).
    exists z. split; [done|]. split; [congruence|lia].
  - intros Hq. destruct (Q1 Hq) as [Hb Ho1]. destruct (Q2 Hb) as [Hc Ho2]. split; [done|]. auto.
Qed.

Lemma routed_id sid p (a : app) : inv a -> routed sid a = Some p ->
  exists x, proxies a !! p = Some x /\ ServerID (px_node x) = sid /\ px_done x = 0%nat.
Proof.
  intros Hinv. unfold routed. destruct (logicalRoutes a !! sid) as [i|] eqn:Hr; [|done]. intros Hl.
  destruct (inv_listed a Hinv i p Hl) as (x & Hx & Hi & Hd). exists x. split; [done|]. split; [|done].
  destruct (inv_routes a Hinv sid i Hr) as (q & _ & ->).
  rewrite (inv_consistent a Hinv p x Hx). by rewrite Hi.
Qed.

Lemma fresh_proxy (a : app) : proxies a !! fresh (dom (proxies a)) = None.
Proof. apply not_elem_of_dom, is_fresh. Qed.

(** What [register] does, by cases. *)
Lemma register_cached name node (a : app) p : serverList a !! InstanceID node = Some p ->
  register name node a =
    (a <| proxies := <[fresh (dom (proxies a)) := mkProxy name node 1]> (proxies a) |>, p).
Proof.
  intros Hp. unfold register, close_proxy. cbn. rewrite Hp. unfold upd; cbn. by rewrite alter_insert_eq.
Qed.

Lemma register_new name node (a : app) : serverList a !! InstanceID node = None ->
  register name node a =
    (a <| proxies := <[fresh (dom (proxies a)) := mkProxy name node 0]> (proxies a) |>
       <| serverList := <[InstanceID node := fresh (dom (proxies a))]> (serverList a) |>,
     fresh (dom (proxies a))).
Proof. intros Hp. unfold register. cbn. by rewrite Hp. Qed.

Lemma register_ok name node (a : app) : inv a -> consistent node ->
  let r := register name node a in
  inv r.1 /\ evolves a r.1 /\ others r.1 = others a /\ serverList r.1 !! InstanceID node = Some r.2 /\
  logicalRoutes r.1 = logicalRoutes a /\
  forall i p, serverList a !! i = Some p -> serverList r.1 !! i = Some p.
Proof.
  intros Hinv Hn. pose proof (fresh_proxy a) as Hf. set (q := fresh (dom (proxies a))) in *.
  assert (Hne : forall p x, proxies a !! p = Some x -> q <> p) by (intros p x Hp ->; congruence).
  assert (Hev : forall d sl, evolves a (a <| proxies := <[q := mkProxy name node d]> (proxies a) |> <| serverList := sl |>)).
  { intros d sl. split.
    - intros p x Hp. exists x. cbn. rewrite lookup_insert_ne by eauto. split; [done|]. split; [done|lia].
    - intros Hq. split; [done|]. intros p (x & Hx & Hd). exists x. cbn. by rewrite lookup_insert_ne by eauto. }
  destruct (serverList a !! InstanceID node) as [p0|] eqn:Hp0; cbv zeta.
  - rewrite (register_cached name node a p0 Hp0). fold q. cbn [fst snd].
    split; [|split; [exact (Hev 1%nat (serverList a))|done]].
    split; cbn.
    + intros i p Hi. destruct (inv_listed a Hinv i p Hi) as (x & Hx & ?). exists x. by rewrite lookup_insert_ne by eauto.
    + intros p x. destruct (decide (q = p)) as [<-|Hqp].
      * rewrite lookup_insert_eq. intros [= <-]. by left.
      * rewrite lookup_insert_ne by done. apply (inv_open a Hinv).
    + intros p x. destruct (decide (q = p)) as [<-|Hqp].
      * rewrite lookup_insert_eq. by intros [= <-].
      * rewrite lookup_insert_ne by done. apply (inv_consistent a Hinv).
    + apply (inv_routes a Hinv).
  - rewrite (register_new name node a Hp0). fold q. cbn [fst snd].
    split; [|split; [exact (Hev 0%nat _)|split; [done|split; [apply lookup_insert_eq|split; [done|]]]]].
    + split; cbn.
      * intros i p. destruct (decide (InstanceID node = i)) as [<-|Hi].
        -- rewrite lookup_insert_eq. intros [= <-]. exists (mkProxy name node 0). by rewrite lookup_insert_eq.
        -- rewrite lookup_insert_ne by done. intros Hp. destruct (inv_listed a Hinv i p Hp) as (x & Hx & ?).
           exists x. by rewrite lookup_insert_ne by eauto.
      * intros p x. destruct (decide (q = p)) as [<-|Hqp].
        -- rewrite lookup_insert_eq. intros [= <-]. right. by rewrite lookup_insert_eq.
        -- rewrite lookup_insert_ne by done. intros Hp. destruct (inv_open a Hinv p x Hp) as [?|[Hd Hl]]; [by left|].
           right. split; [done|]. rewrite lookup_insert_ne; [done|]. intros E. congruence.
      * intros p x. destruct (decide (q = p)) as [<-|Hqp].
        -- rewrite lookup_insert_eq. by intros [= <-].
        -- rewrite lookup_insert_ne by done. apply (inv_consistent a Hinv).
      * intros sid i Hr. destruct (inv_routes a Hinv sid i Hr) as (p & Hp & E).
        exists p. split; [|done]. rewrite lookup_insert_ne; [done|]. intros E2. congruence.
    + cbn. intros i p Hp. rewrite lookup_insert_ne; [done|]. intros E2. congruence.
Qed.

Lemma route_ok sid p x (a : app) : inv a -> proxies a !! p = Some x -> ServerID (px_node x) = sid ->
  let r := route sid p a in
  inv r.1 /\ evolves a r.1 /\ others r.1 = others a /\ proxies r.1 = proxies a /\ serverList r.1 = serverList a /\
  (forall s i, logicalRoutes a !! s = Some i -> logicalRoutes r.1 !! s = Some i) /\
  match r.2 with
  | Some q => routed sid a = Some q \/ q = p /\ logicalRoutes r.1 !! sid = Some (InstanceID (px_node x))
  | None => True
  end.
Proof.
  intros Hinv Hx Hs. unfold route.
  destruct (routed sid a) as [q|] eqn:Hr; cbn [fst snd].
  { do 2 (split; [done || apply evolves_refl|]). do 4 (split; [done|]). by left. }
  rewrite Hx. destruct (serverList a !! InstanceID (px_node x)) as [q|] eqn:Hl; cbn [fst snd].
  2:{ do 2 (split; [done || apply evolves_refl|]). done. }
  assert (logicalRoutes a !! sid = None) as Hno.
  { destruct (logicalRoutes a !! sid) as [i|] eqn:E; [|done]. unfold routed in Hr. rewrite E in Hr.
    destruct (inv_routes a Hinv sid i E) as (? & ? & _). congruence. }
  split; [|split; [|split; [done|split; [done|split; [done|split]]]]].
  - split; cbn; [apply (inv_listed a Hinv)|apply (inv_open a Hinv)|apply (inv_consistent a Hinv)|].
    intros s i. destruct (decide (sid = s)) as [<-|Hne].
    + rewrite lookup_insert_eq. intros [= <-]. exists q. split; [done|].
      rewrite <- Hs. apply (inv_consistent a Hinv p x Hx).
    + rewrite lookup_insert_ne by done. apply (inv_routes a Hinv).
  - split; [|by split]. intros p' x' Hp'. exists x'. split; [done|]. split; [done|lia].
  - cbn. intros s i Hi. rewrite lookup_insert_ne; [done|]. intros E2. congruence.
  - right. split; [done|]. cbn. apply lookup_insert_eq.
Qed.

Lemma drop_route_routes sid i (a : app) s :
  (forall s j, logicalRoutes a !! s = Some j -> s = server_of j) -> sid = server_of i ->
  logicalRoutes (drop_route sid i a) !! s =
    match logicalRoutes a !! s with
    | Some j => if decide (j = i) then None else Some j
    | None => None
    end.
Proof.
  intros Hr Hsid. unfold drop_route.
  assert (forall s j, logicalRoutes a !! s = Some j -> j = i -> s = sid) as Hs
    by (intros s' j Hj ->; rewrite (Hr s' i Hj); done).
  destruct (logicalRoutes a !! sid) as [j|] eqn:Hj; [destruct (decide (j = i)) as [->|Hn]|]; cbn.
  - destruct (decide (s = sid)) as [->|Hne].
    + by rewrite lookup_delete_eq, Hj, decide_True.
    + rewrite lookup_delete_ne by done. destruct (logicalRoutes a !! s) as [j|] eqn:E; [|done].
      rewrite decide_False; [done|]. intros ->. eauto.
  - destruct (logicalRoutes a !! s) as [k|] eqn:E; [|done]. rewrite decide_False; [done|].
    intros ->. rewrite (Hs s i E eq_refl) in E. congruence.
  - destruct (logicalRoutes a !! s) as [k|] eqn:E; [|done]. rewrite decide_False; [done|].
    intros ->. rewrite (Hs s i E eq_refl) in E. congruence.
Qed.

Lemma drop_route_frame sid i (a : app) :
  serverList (drop_route sid i a) = serverList a /\ proxies (drop_route sid i a) = proxies a /\
  others (drop_route sid i a) = others a.
Proof. unfold drop_route. destruct (logicalRoutes a !! sid) as [j|]; [destruct (decide (j = i))|]; done. Qed.

(** What [watch] does to a cached instance. *)
Lemma watch_spec node (a : app) p : inv a -> serverList a !! InstanceID node = Some p ->
  exists x, proxies a !! p = Some x /\ px_done x = 0%nat /\ InstanceID (px_node x) = InstanceID node /\
    let a' := watch node a in
    serverList a' = delete (InstanceID node) (serverList a) /\
    proxies a' = <[p := x <| px_done := 1%nat |>]> (proxies a) /\ others a' = others a /\
    forall s, logicalRoutes a' !! s =
      match logicalRoutes a !! s with
      | Some j => if decide (j = InstanceID node) then None else Some j
      | None => None
      end.
Proof.
  intros Hinv Hp. destruct (inv_listed a Hinv _ p Hp) as (x & Hx & Hi & Hd).
  exists x. split; [done|]. split; [done|]. split; [done|]. cbv zeta. unfold watch. rewrite Hp.
  cbn [proxies upd]. rewrite Hx. unfold close_proxy.
  set (a1 := a <| serverList := _ |>).
  destruct (drop_route_frame (ServerID (px_node x)) (InstanceID node) a1) as (H1 & H2 & H3).
  split; [exact H1|]. split; [|split; [exact H3|]].
  - cbn. rewrite H2. change (proxies a1) with (proxies a). apply map_eq. intros q. destruct (decide (q = p)) as [->|Hq].
    + rewrite lookup_alter_eq, lookup_insert_eq, Hx. cbn. by rewrite Hd.
    + by rewrite lookup_alter_ne, lookup_insert_ne.
  - intros s. cbn.
    apply (drop_route_routes _ _ a1).
    + intros s' j Hj. by destruct (inv_routes a Hinv s' j Hj) as (_ & _ & ?).
    + rewrite (inv_consistent a Hinv p x Hx). by rewrite Hi.
Qed.

Lemma watch_ok node (a : app) : inv a ->
  inv (watch node a) /\ others (watch node a) = others a /\
  forall p x, proxies a !! p = Some x ->
    exists x', proxies (watch node a) !! p = Some x' /\ px_node x' = px_node x /\ (px_done x <= px_done x')%nat.
Proof.
  intros Hinv. destruct (serverList a !! InstanceID node) as [p|] eqn:Hp.
  2:{ unfold watch. rewrite Hp. split; [done|]. split; [done|]. intros p x Hx. by exists x. }
  destruct (watch_spec node a p Hinv Hp) as (x & Hx & Hd & Hi & Hsl & Hpx & Hot & Hr).
  split; [split|split; [done|]].
  - intros i q. rewrite Hsl, Hpx. destruct (decide (i = InstanceID node)) as [->|Hn].
    + by rewrite lookup_delete_eq.
    + rewrite lookup_delete_ne by done. intros Hq. destruct (inv_listed a Hinv i q Hq) as (y & Hy & Hyi & Hyd).
      exists y. rewrite lookup_insert_ne; [done|]. intros ->. congruence.
  - intros q y. rewrite Hsl, Hpx. destruct (decide (p = q)) as [<-|Hn].
    + rewrite lookup_insert_eq. intros [= <-]. by left.
    + rewrite lookup_insert_ne by done. intros Hy. destruct (inv_open a Hinv q y Hy) as [?|[Hyd Hl]]; [by left|].
      right. split; [done|]. rewrite lookup_delete_ne; [done|]. intros E. congruence.
  - intros q y. rewrite Hpx. destruct (decide (p = q)) as [<-|Hn].
    + rewrite lookup_insert_eq. intros [= <-]. apply (inv_consistent a Hinv p x Hx).
    + rewrite lookup_insert_ne by done. apply (inv_consistent a Hinv).
  - intros s i. rewrite Hr, Hsl. destruct (logicalRoutes a !! s) as [j|] eqn:Hj; [|done].
    destruct (decide (j = InstanceID node)); [done|]. intros [= <-].
    destruct (inv_routes a Hinv s j Hj) as (q & Hq & E). exists q. by rewrite lookup_delete_ne.
  - intros q y Hy. rewrite Hpx. destruct (decide (p = q)) as [<-|Hn].
    + exists (x <| px_done := 1%nat |>). rewrite lookup_insert_eq. split; [done|].
      rewrite Hx in Hy. injection Hy as <-. split; [done|]. rewrite Hd. lia.
    + exists y. by rewrite lookup_insert_ne.
Qed.

Definition later (a a' : app) : Prop := forall p x, proxies a !! p = Some x ->
  exists x', proxies a' !! p = Some x' /\ px_node x' = px_node x /\ (px_done x <= px_done x')%nat.

Lemma later_trans a b c : later a b -> later b c -> later a c.
Proof.
  intros P1 P2 p x Hp. destruct (P1 p x Hp) as (y & Hy & E1 & L1). destruct (P2 p y Hy) as (z & Hz & E2 & L2).
  exists z. split; [done|]. split; [congruence|lia].
Qed.

Lemma act_ok x (a : app) : inv a -> ok_action x ->
  inv (act x a) /\ others (act x a) = others a /\ later a (act x a).
Proof.
  intros Hinv Hx. destruct x as [name node|sid p|node]; cbn [act].
  - destruct (register_ok name node a Hinv Hx) as (H1 & H2 & H3 & _). split; [done|]. split; [done|]. exact (ev_proxies _ _ H2).
  - destruct (proxies a !! p) as [y|] eqn:Hy; [destruct (decide _) as [Hs|Hs]|].
    + destruct (route_ok sid p y a Hinv Hy Hs) as (H1 & H2 & H3 & _). split; [done|]. split; [done|]. exact (ev_proxies _ _ H2).
    + split; [done|]. split; [done|]. exact (ev_proxies _ _ (evolves_refl a)).
    + split; [done|]. split; [done|]. exact (ev_proxies _ _ (evolves_refl a)).
  - by apply watch_ok.
Qed.

Lemma acts_ok l : forall (a : app), inv a -> Forall ok_action l ->
  inv (acts l a) /\ others (acts l a) = others a /\ later a (acts l a).
Proof.
  induction l as [|x l IH]; intros a Hinv Hl.
  - split; [done|]. split; [done|]. exact (ev_proxies _ _ (evolves_refl a)).
  - apply Forall_cons in Hl as [Hx Hl]. destruct (act_ok x a Hinv Hx) as (H1 & H2 & H3).
    destruct (IH (act x a) H1 Hl) as (H4 & H5 & H6). split; [done|]. split; [etransitivity; [exact H5|exact H2]|]. by eapply later_trans.
Qed.

(** The proxy [p] is for instance [i] (of server [sid]). *)
Definition of_instance (i : string) (p : pref) (a : app) : Prop :=
  exists x, proxies a !! p = Some x /\ InstanceID (px_node x) = i.
Definition of_server (sid : string) (p : pref) (a : app) : Prop :=
  exists x, proxies a !! p = Some x /\ ServerID (px_node x) = sid.
Definition exists_proxy (p : pref) (a : app) : Prop := is_Some (proxies a !! p).

Lemma registered_elsewhere (a : app) x node : inv a -> ok_action x ->
  (forall n, x = AWatch n -> InstanceID n <> InstanceID node) ->
  forall p sid, routed sid a = Some p -> of_instance (InstanceID node) p a -> routed sid (act x a) = Some p.
Proof.
  intros Hinv Hx Hw p sid Hr (y & Hy & Hyi). unfold routed in *.
  destruct (logicalRoutes a !! sid) as [i|] eqn:Hi; [|done].
  assert (i = InstanceID node) as ->.
  { destruct (inv_listed a Hinv i p Hr) as (z & Hz & Hzi & _). congruence. }
  destruct x as [name n|s q|n]; cbn [act].
  - destruct (register_ok name n a Hinv Hx) as (_ & _ & _ & _ & -> & Hl). rewrite Hi. by apply Hl.
  - destruct (proxies a !! q) as [z|] eqn:Hz; [|by rewrite Hi]. destruct (decide _) as [Hs|]; [|by rewrite Hi].
    destruct (route_ok s q z a Hinv Hz Hs) as (_ & _ & _ & _ & -> & Hl & _). by rewrite (Hl sid _ Hi).
  - specialize (Hw n eq_refl). destruct (serverList a !! InstanceID n) as [q|] eqn:Hq.
    + destruct (watch_spec n a q Hinv Hq) as (z & _ & _ & _ & Hsl & _ & _ & Hroutes).
      rewrite Hroutes, Hi, decide_False by congruence. by rewrite Hsl, lookup_delete_ne.
    + unfold watch. by rewrite Hq, Hi.
Qed.

Lemma of_instance_act i p x (a : app) : inv a -> ok_action x -> of_instance i p a -> of_instance i p (act x a).
Proof.
  intros Hinv Hx (y & Hy & Hi). destruct (act_ok x a Hinv Hx) as (_ & _ & H3).
  destruct (H3 p y Hy) as (z & Hz & E & _). exists z. by rewrite E.
Qed.

Lemma routed_acts l node p sid : forall a : app, inv a -> Forall ok_action l ->
  (forall n, AWatch n ∈ l -> InstanceID n <> InstanceID node) ->
  routed sid a = Some p -> of_instance (InstanceID node) p a -> routed sid (acts l a) = Some p.
Proof.
  induction l as [|x l IH]; intros a Hinv Hl Hw Hr Ho; [done|].
  apply Forall_cons in Hl as [Hx Hl]. change (acts (x :: l) a) with (acts l (act x a)).
  apply IH; [by apply act_ok|done|intros n Hn; apply Hw; set_solver| |by apply of_instance_act].
  apply (registered_elsewhere a x node); [done|done| |done|done]. intros n ->. apply Hw. set_solver.
Qed.

(** ** Calls *)

Context `{!ServiceSelector Sel, !SelectorLaws Sel} (sel_ok : Sel -> Prop).

(** The selector keeps to its own invariant, does not panic, and lists consistent
    nodes; that it only selects those is its law. *)
Definition lists_consistent : Prop :=
  forall s, sel_ok s ->
    (forall name, sel_ok (sel_GetService name s).2 /\
       forall services, (sel_GetService name s).1 = Ok services -> Forall consistent (all_nodes services)) /\
    (forall name filters, sel_ok (sel_Select name filters s).2 /\
       is_panic (sel_Select name filters s).1 = false).

Record good (a : app) : Prop := {
  good_inv : inv a;
  good_schedule : ok_schedule a;
  good_selector : sel_ok (app_selector a) }.

(** From [a], [m] returns, keeps the state good and ends with [Q]. *)
Definition run_ok {A} (a : app) (m : ST app A) (Q : A -> app -> Prop) : Prop :=
  match m a with
  | Done a' r => good a' /\ evolves a a' /\ Q r a'
  | _ => False
  end.

Lemma run_ret {A} (r : A) a (Q : A -> app -> Prop) : good a -> Q r a -> run_ok a (st_ret r) Q.
Proof. intros Hg HQ. split; [done|]. split; [apply evolves_refl|done]. Qed.

Lemma run_bind {A B} (m : ST app A) (k : A -> ST app B) a P Q : run_ok a m P ->
  (forall r a', good a' -> evolves a a' -> P r a' -> run_ok a' (k r) Q) -> run_ok a (st_bind m k) Q.
Proof.
  unfold run_ok, st_bind. destruct (m a) as [a1 r|a1 w|]; cbn [exec_then]; [|done|done].
  intros (Hg & He & HP) Hk. specialize (Hk r a1 Hg He HP).
  destruct (k r a1) as [a2 r2|a2 w|]; [|done|done].
  destruct Hk as (? & ? & ?). split; [done|]. split; [by eapply evolves_trans|done].
Qed.

Lemma run_mono {A} (m : ST app A) a (P Q : A -> app -> Prop) : run_ok a m P ->
  (forall r a', good a' -> evolves a a' -> P r a' -> Q r a') -> run_ok a m Q.
Proof. unfold run_ok. destruct (m a) as [a' r|a' w|]; [|done|done]. intros (Hg & He & HP) H. auto. Qed.

Lemma run_get {A} (k : app -> ST app A) a Q : run_ok a (k a) Q -> run_ok a (st_bind st_get k) Q.
Proof. done. Qed.

Lemma run_yield a : good a -> run_ok a yield (fun _ a' => quiet a -> a' = a).
Proof.
  intros [Hi Hs Hsel]. unfold run_ok, yield. destruct (others a) as [|l rest] eqn:Ho.
  - split; [done|]. split; [apply evolves_refl|done].
  - unfold ok_schedule in Hs. rewrite Ho in Hs. apply Forall_cons in Hs as [Hl Hrest].
    set (a1 := a <| others := rest |>).
    assert (inv a1) as Hi1 by (destruct Hi; by split).
    destruct (acts_ok l a1 Hi1 Hl) as (H1 & H2 & H3).
    assert (app_selector (acts l a1) = app_selector a) as Hsame.
    { clear. change (app_selector a) with (app_selector a1). generalize a1. clear. induction l as [|x l IH]; intros a; [done|].
      change (acts (x :: l) a) with (acts l (act x a)). rewrite IH.
      destruct x as [name node|sid p|node]; cbn [act].
      - unfold register, close_proxy. cbn. by destruct (serverList a !! InstanceID node).
      - destruct (proxies a !! p) as [y|] eqn:E; [|done]. destruct (decide _); [|done]. unfold route.
        destruct (routed sid a); [done|]. rewrite E. by destruct (serverList a !! _).
      - unfold watch, close_proxy, drop_route. destruct (serverList a !! _); [|done]. cbn.
        destruct (proxies a !! _); [|done]. cbn. destruct (logicalRoutes a !! _); [|done]. by destruct (decide _). }
    split; [split; [done| |by rewrite Hsame]|].
    + unfold ok_schedule. by rewrite H2.
    + split; [split|].
      * intros p x Hp. by apply H3.
      * unfold quiet. rewrite Ho. done.
      * unfold quiet. rewrite Ho. done.
Qed.

Context (subscribe_error : Node -> option string) (Hsel : lists_consistent).

Lemma run_register name node a : good a -> consistent node ->
  run_ok a (section_ (register name node)) (fun p a' => of_instance (InstanceID node) p a' /\ open a' p).
Proof.
  intros [Hi Hs Ho] Hn. destruct (register_ok name node a Hi Hn) as (H1 & H2 & H3 & H4 & _).
  assert (app_selector (register name node a).1 = app_selector a) as Hse
    by (unfold register, close_proxy; cbn; by destruct (serverList a !! InstanceID node)).
  unfold run_ok, section_. destruct (register name node a) as [a' p] eqn:E. cbn [fst snd] in *.
  split; [split; [done| |by rewrite Hse]|]. { unfold ok_schedule. by rewrite H3. }
  split; [done|]. destruct (inv_listed a' H1 _ _ H4) as (x & Hx & Hxi & Hxd). by split; exists x.
Qed.

Lemma run_getServerSession name node a : good a -> consistent node ->
  run_ok a (getServerSession subscribe_error name node)
    (fun r a' => match r with
                 | Ok p => of_instance (InstanceID node) p a' /\ open a' p
                 | Err _ => subscribe_error node <> None
                 end).
Proof.
  intros Hg Hn. apply run_get. destruct (serverList a !! InstanceID node) as [p|] eqn:Hp.
  - apply run_ret; [done|]. destruct (inv_listed a (good_inv a Hg) _ p Hp) as (x & Hx & Hi & Hd). by split; exists x.
  - destruct (subscribe_error node) as [e|]; [by apply run_ret|].
    eapply run_bind; [by apply run_yield|]. intros [] a1 Hg1 _ _.
    eapply run_bind; [by apply run_register|]. intros p a2 Hg2 _ H2. by apply run_ret.
Qed.

(** In the list of proxies each one is for a node of the list, in order. *)
Definition proxy_of (a : app) (n : Node) (p : pref) : Prop := of_instance (InstanceID n) p a.

Lemma of_instance_evolves i p a a' : evolves a a' -> of_instance i p a -> of_instance i p a'.
Proof. intros He (x & Hx & Hi). destruct (ev_proxies a a' He p x Hx) as (y & Hy & E & _). exists y. by rewrite E. Qed.

(** The nodes that got a proxy: those whose rpc client could be made. *)
Definition covers (sub nodes : list Node) : Prop :=
  sub `sublist_of` nodes /\ forall n, n ∈ nodes -> n ∈ sub \/ subscribe_error n <> None.

Lemma covers_skip n sub nodes : subscribe_error n <> None -> covers sub nodes -> covers sub (n :: nodes).
Proof. intros Hn [Hs Hc]. split; [by constructor|]. intros m [->|Hm]%elem_of_cons; auto. Qed.

Lemma covers_cons n sub nodes : covers sub nodes -> covers (n :: sub) (n :: nodes).
Proof. intros [Hs Hc]. split; [by constructor|]. intros m [->|Hm]%elem_of_cons; [left; by left|]. destruct (Hc m Hm); [left; by right|by right]. Qed.

Lemma run_sessions_of name nodes : forall a, good a -> Forall consistent nodes ->
  run_ok a (sessions_of subscribe_error name nodes)
    (fun ps a' => (exists sub, covers sub nodes /\ Forall2 (proxy_of a') sub ps) /\
                  (quiet a -> Forall (open a') ps)).
Proof.
  induction nodes as [|node nodes IH]; intros a Hg Hall.
  { apply run_ret; [done|]. split; [|done]. exists []. by split; [split; [|intros n ?%not_elem_of_nil]|]. }
  apply Forall_cons in Hall as [Hn Hall]. cbn [sessions_of].
  eapply run_bind; [by apply run_yield|]. intros [] a1 Hg1 He1 _.
  eapply run_bind; [by apply run_getServerSession|]. intros r a2 Hg2 He2 Hr.
  eapply run_bind; [by apply IH|]. intros ps a3 Hg3 He3 ((sub & Hsub & H2) & Hq).
  apply run_ret; [done|]. destruct r as [p|e].
  - destruct Hr as [Hp Ho]. split.
    + exists (node :: sub). split; [by apply covers_cons|]. constructor; [by eapply of_instance_evolves|done].
    + intros Hqa. destruct (ev_quiet _ _ He1 Hqa) as [Hq1 _]. destruct (ev_quiet _ _ He2 Hq1) as [Hq2 _].
      constructor; [by apply (ev_quiet _ _ He3 Hq2)|]. by apply Hq.
  - split.
    + exists sub. split; [by apply covers_skip|done].
    + intros Hqa. destruct (ev_quiet _ _ He1 Hqa) as [Hq1 _]. destruct (ev_quiet _ _ He2 Hq1) as [Hq2 _]. by apply Hq.
Qed.

Lemma run_select_services name a : good a ->
  run_ok a (select (sel_GetService name)) (fun r a' =>
    r = (sel_GetService name (app_selector a)).1 /\
    match r with Ok services => Forall consistent (all_nodes services) | Err _ => True end).
Proof.
  intros [Hi Hs Ho]. destruct (Hsel _ Ho) as [Hget _]. destruct (Hget name) as [H1 H2].
  unfold run_ok, select. destruct (sel_GetService name (app_selector a)) as [r s]. cbn in *.
  split; [split; [destruct Hi; by split|done|done]|].
  split; [split; [intros p x Hp; exists x; split; [done|]; split; [done|lia]|by split]|].
  split; [done|]. destruct r; [by apply H2|done].
Qed.

(** The nodes [getServersByType] goes through. *)
Definition visited (latest : bool) (services : list Service) : list Node :=
  all_nodes (if latest then LatestServices services else services).

Lemma visited_sublist latest services : visited latest services `sublist_of` all_nodes services.
Proof.
  destruct latest; [|done]. unfold visited. rewrite !all_nodes_pairs. apply sublist_fmap_mono, Latest_sublist.
Qed.

Lemma run_getServersByType name latest a : good a ->
  run_ok a (getServersByType subscribe_error name latest) (fun ps a' =>
    match (sel_GetService name (app_selector a)).1 with
    | Err _ => ps = []
    | Ok services =>
        (exists sub, covers sub (visited latest services) /\ Forall2 (proxy_of a') sub ps) /\ (quiet a -> Forall (open a') ps)
    end).
Proof.
  intros Hg. unfold getServersByType. eapply run_bind; [by apply run_select_services|].
  intros r a1 Hg1 He1 [Hr Hok]. rewrite <- Hr. destruct r as [services|e]; [|by apply run_ret].
  assert (Forall consistent (visited latest services)) as Hvis.
  { apply Forall_forall. intros n Hn. apply (proj1 (Forall_forall _ _) Hok).
    eapply elem_of_sublist; [exact Hn|]. apply visited_sublist. }
  eapply run_mono; [by apply run_sessions_of|]. intros ps a2 Hg2 He2 ((sub & Hsub & H2) & Hq).
  split; [by exists sub|]. intros Hqa. apply Hq, (ev_quiet _ _ He1 Hqa).
Qed.

Lemma of_server_evolves sid p a a' : evolves a a' -> of_server sid p a -> of_server sid p a'.
Proof. intros He (x & Hx & Hi). destruct (ev_proxies a a' He p x Hx) as (y & Hy & E & _). exists y. by rewrite E. Qed.

Lemma open_routed (a : app) p x : inv a -> proxies a !! p = Some x -> px_done x = 0%nat ->
  serverList a !! InstanceID (px_node x) = Some p.
Proof. intros Hinv Hx Hd. destruct (inv_open a Hinv p x Hx) as [?|[_ ?]]; [congruence|done]. Qed.

Lemma run_route sid p a : good a -> of_server sid p a ->
  run_ok a (section_ (route sid p)) (fun o a' =>
    (forall q, o = Some q -> of_server sid q a') /\
    (quiet a -> routed sid a = None -> open a p -> o = Some p /\ routed sid a' = Some p)).
Proof.
  intros [Hi Hs Ho] (x & Hx & Hsid).
  destruct (route_ok sid p x a Hi Hx Hsid) as (H1 & H2 & H3 & H4 & H5 & _ & H6).
  assert (app_selector (route sid p a).1 = app_selector a) as Hse
    by (unfold route; destruct (routed sid a); [done|]; rewrite Hx; by destruct (serverList a !! _)).
  assert (routed sid a = None -> open a p ->
          (route sid p a).2 = Some p /\ routed sid (route sid p a).1 = Some p) as Hopen.
  { intros Hno (y & Hy & Hd). rewrite Hx in Hy. injection Hy as <-. unfold route. rewrite Hno, Hx.
    pose proof (open_routed a p x Hi Hx Hd) as Hl. rewrite Hl. cbn [fst snd]. split; [done|].
    unfold routed. cbn. by rewrite lookup_insert_eq. }
  unfold run_ok, section_. destruct (route sid p a) as [a' o] eqn:E. cbn [fst snd] in *.
  split; [split; [done| |by rewrite Hse]|]. { unfold ok_schedule. by rewrite H3. }
  split; [done|]. split; [|by auto]. intros q ->. destruct H6 as [Hr|[-> _]].
  - destruct (routed_id sid q a Hi Hr) as (y & Hy & Hys & _). exists y. by rewrite H4.
  - exists x. by rewrite H4.
Qed.

(** [p] is the first of the candidates of that server. *)
Definition first_of (sid : string) (a : app) (candidates : list pref) (p : pref) : Prop :=
  exists pre post, candidates = pre ++ p :: post /\ of_server sid p a /\
    Forall (fun q => ~ of_server sid q a) pre.

Lemma first_of_skip sid a candidates p q : ~ of_server sid q a -> first_of sid a candidates p ->
  first_of sid a (q :: candidates) p.
Proof.
  intros Hq (pre & post & -> & Hp & Hpre). exists (q :: pre), post. split; [done|]. split; [done|]. by constructor.
Qed.

Lemma run_try_candidates sid candidates : forall a, good a ->
  run_ok a (try_candidates sid candidates) (fun r a' =>
    (forall p, r = Ok p -> of_server sid p a') /\
    (quiet a -> routed sid a = None -> Forall (open a) candidates ->
     match r with
     | Ok p => first_of sid a candidates p /\ routed sid a' = Some p
     | Err _ => Forall (fun q => ~ of_server sid q a) candidates
     end)).
Proof.
  assert (Hskip : forall a p rest, ~ of_server sid p a -> good a ->
    run_ok a (try_candidates sid rest) (fun r a' =>
      (forall p, r = Ok p -> of_server sid p a') /\
      (quiet a -> routed sid a = None -> Forall (open a) rest ->
       match r with
       | Ok p => first_of sid a rest p /\ routed sid a' = Some p
       | Err _ => Forall (fun q => ~ of_server sid q a) rest
       end)) ->
    run_ok a (try_candidates sid rest) (fun r a' =>
      (forall p, r = Ok p -> of_server sid p a') /\
      (quiet a -> routed sid a = None -> Forall (open a) (p :: rest) ->
       match r with
       | Ok q => first_of sid a (p :: rest) q /\ routed sid a' = Some q
       | Err _ => Forall (fun q => ~ of_server sid q a) (p :: rest)
       end))).
  { intros a p rest Hp Hg H. eapply run_mono; [exact H|]. intros r a' _ _ [H3 H4]. split; [done|].
    intros Hq Hno [_ Hall]%Forall_cons. specialize (H4 Hq Hno Hall). destruct r as [q|e].
    - destruct H4. split; [by apply first_of_skip|done].
    - by constructor. }
  induction candidates as [|p rest IH]; intros a Hg.
  { apply run_ret; [done|]. split; [done|]. intros _ _ _. constructor. }
  apply run_get. destruct (proxies a !! p) as [x|] eqn:Hx.
  2:{ apply Hskip; [|done|by apply IH]. intros (y & Hy & _). congruence. }
  destruct (decide (ServerID (px_node x) = sid)) as [Hs|Hs].
  2:{ apply Hskip; [|done|by apply IH]. intros (y & Hy & E). congruence. }
  assert (of_server sid p a) as Hof by (by exists x).
  eapply run_bind; [by apply run_yield|]. intros [] a1 Hg1 He1 Hsame.
  eapply run_bind; [by apply run_route; [|eapply of_server_evolves]|]. intros o a2 Hg2 He2 [Ho Hopen].
  destruct o as [q|].
  - apply run_ret; [done|]. split; [intros ? [= <-]; by apply Ho|].
    intros Hq Hno [Hp _]%Forall_cons. rewrite (Hsame Hq) in Hopen. destruct (Hopen Hq Hno Hp) as [[= ->] Hr].
    split; [|done]. exists [], rest. by split.
  - eapply run_mono; [by apply IH|]. intros r a' _ _ [H3 _]. split; [done|].
    intros Hq Hno [Hp _]%Forall_cons. rewrite (Hsame Hq) in Hopen. by destruct (Hopen Hq Hno Hp).
Qed.

Lemma proxy_of_server sid n p a : inv a -> consistent n -> proxy_of a n p -> of_server sid p a <-> ServerID n = sid.
Proof.
  intros Hinv Hn (x & Hx & Hi). pose proof (inv_consistent a Hinv p x Hx) as Hc. unfold consistent in *.
  split.
  - intros (y & Hy & Hs). congruence.
  - intros Hs. exists x. split; [done|]. congruence.
Qed.

(** What the first lookup of a server finds, in terms of the nodes gone through. *)
Definition found_among (sid : string) (nodes : list Node) (r : result app_err pref) (a' : app) : Prop :=
  match r with
  | Ok p => routed sid a' = Some p /\ exists n, n ∈ nodes /\ ServerID n = sid /\ of_instance (InstanceID n) p a'
  | Err _ => forall n, n ∈ nodes -> ServerID n <> sid
  end.

Lemma found_among_intro sid nodes ps r a a' : inv a -> Forall consistent nodes -> Forall2 (proxy_of a) nodes ps ->
  evolves a a' ->
  match r with
  | Ok p => first_of sid a ps p /\ routed sid a' = Some p
  | Err _ => Forall (fun q => ~ of_server sid q a) ps
  end -> found_among sid nodes r a'.
Proof.
  intros Hinv Hcons H2 He Hr. destruct r as [p|e]; cbn.
  - destruct Hr as ((pre & post & -> & Hp & _) & Hrt). split; [done|].
    apply Forall2_app_inv_r in H2 as (n1 & n2 & _ & H2 & ->). apply Forall2_cons_inv_r in H2 as (n & n3 & Hn & _ & ->).
    apply Forall_app in Hcons as [_ [Hc _]%Forall_cons]. exists n. split; [set_solver|].
    split; [by eapply proxy_of_server|by eapply of_instance_evolves].
  - intros n Hn Hs. apply list_elem_of_lookup in Hn as (i & Hi).
    destruct (Forall2_lookup_l _ _ _ _ _ H2 Hi) as (p & Hp & Hpn).
    apply (Forall_lookup_1 _ _ _ _ Hr Hp). eapply proxy_of_server; [done|by eapply Forall_lookup_1|done|done].
Qed.

Lemma consistent_visited latest services : Forall consistent (all_nodes services) ->
  Forall consistent (visited latest services).
Proof.
  intros H. apply Forall_forall. intros n Hn. apply (proj1 (Forall_forall _ _) H).
  eapply elem_of_sublist; [exact Hn|]. apply visited_sublist.
Qed.

(** Discovery routes nothing. *)
Definition keeps_routes {A} (m : ST app A) : Prop := forall a, quiet a ->
  match m a with Done a' _ => quiet a' /\ logicalRoutes a' = logicalRoutes a | _ => True end.

Lemma keeps_bind {A B} (m : ST app A) (k : A -> ST app B) :
  keeps_routes m -> (forall r, keeps_routes (k r)) -> keeps_routes (st_bind m k).
Proof.
  intros Hm Hk a Hq. specialize (Hm a Hq). unfold st_bind. destruct (m a) as [a1 r|a1 w|]; cbn [exec_then]; [|done|done].
  destruct Hm as [Hq1 E]. specialize (Hk r a1 Hq1). destruct (k r a1); [|done|done]. destruct Hk. split; [done|congruence].
Qed.

Lemma keeps_ret {A} (r : A) : keeps_routes (st_ret r).
Proof. by intros a Hq. Qed.

Lemma keeps_yield : keeps_routes yield.
Proof. intros a Hq. unfold yield. by rewrite Hq. Qed.

Lemma keeps_getServerSession name node : keeps_routes (getServerSession subscribe_error name node).
Proof.
  apply keeps_bind; [by intros a Hq|]. intros a. destruct (serverList a !! _); [apply keeps_ret|].
  destruct (subscribe_error node); [apply keeps_ret|]. apply keeps_bind; [apply keeps_yield|]. intros [].
  apply keeps_bind; [|intros p; apply keeps_ret]. intros b Hq. unfold section_, register, close_proxy. cbn.
  by destruct (serverList b !! _).
Qed.

Lemma keeps_sessions_of name nodes : keeps_routes (sessions_of subscribe_error name nodes).
Proof.
  induction nodes as [|n nodes IH]; [apply keeps_ret|].
  apply keeps_bind; [apply keeps_yield|]. intros []. apply keeps_bind; [apply keeps_getServerSession|].
  intros r. apply keeps_bind; [exact IH|]. intros ps. apply keeps_ret.
Qed.

Lemma keeps_getServersByType name latest : keeps_routes (getServersByType subscribe_error name latest).
Proof.
  apply keeps_bind.
  - intros a Hq. unfold select. by destruct (sel_GetService name (app_selector a)).
  - intros [services|e]; [|apply keeps_ret]. apply keeps_sessions_of.
Qed.

Lemma run_keeping {A} (m : ST app A) a (P : A -> app -> Prop) : run_ok a m P -> keeps_routes m ->
  run_ok a m (fun r a' => P r a' /\ (quiet a -> logicalRoutes a' = logicalRoutes a)).
Proof.
  intros Hrun Hk. specialize (Hk a). unfold run_ok in *. destruct (m a) as [a' r|a' w|]; [|done|done].
  destruct Hrun as (H1 & H2 & H3). split; [done|]. split; [done|]. split; [exact H3|]. intros Hq. by apply Hk.
Qed.

Lemma not_routed sid a : inv a -> routed sid a = None <-> logicalRoutes a !! sid = None.
Proof.
  intros Hinv. unfold routed. destruct (logicalRoutes a !! sid) as [i|] eqn:E; [|done].
  destruct (inv_routes a Hinv sid i E) as (p & Hp & _). by rewrite Hp.
Qed.

Lemma run_GetServerByID sid a : good a ->
  run_ok a (GetServerByID subscribe_error sid) (fun r a' =>
    (forall p, r = Ok p -> of_server sid p a') /\
    (forall p, routed sid a = Some p -> r = Ok p) /\
    (quiet a -> routed sid a = None -> forall moduleType rest services,
       split_on at_sign sid "" = [moduleType; rest] ->
       (sel_GetService moduleType (app_selector a)).1 = Ok services ->
       exists sub, covers sub (visited true services) /\ found_among sid sub r a')).
Proof.
  intros Hg. apply run_get. destruct (routed sid a) as [p|] eqn:Hr.
  { apply run_ret; [done|]. destruct (routed_id sid p a (good_inv a Hg) Hr) as (x & Hx & Hs & _).
    split; [intros ? [= <-]; by exists x|]. split; [by intros ? [= <-]|done]. }
  eapply run_bind; [by apply run_yield|]. intros [] a1 Hg1 He1 Hsame.
  destruct (split_on at_sign sid "") as [|mtype [|rest [|]]] eqn:Hsplit; try by apply run_ret.
  eapply run_bind; [apply run_keeping; [by apply run_getServersByType|apply keeps_getServersByType]|].
  intros ps a2 Hg2 He2 [Hps Hroutes].
  eapply run_mono; [by apply run_try_candidates|]. intros r a3 Hg3 He3 [Hok Hquiet].
  split; [done|]. split; [done|]. intros Hq _ mtype' rest' services [= <- <-] Hserv.
  rewrite (Hsame Hq), Hserv in Hps. destruct Hps as ((sub & Hcov & Hpx) & Hopen). rewrite (Hsame Hq) in *. exists sub. split; [done|].
  pose proof (proj2 (proj1 (Hsel _ (good_selector a Hg)) mtype) services Hserv) as Hc.
  eapply found_among_intro; [apply Hg2| |exact Hpx|done|].
  { apply Forall_forall. intros n Hn. apply (proj1 (Forall_forall _ _) (consistent_visited true services Hc)).
    eapply elem_of_sublist; [exact Hn|apply Hcov]. }
  apply Hquiet; [by apply (ev_quiet _ _ He2)| |by apply Hopen].
  apply not_routed; [apply Hg2|]. rewrite Hroutes by done. apply not_routed; [apply Hg|done].
Qed.

Lemma run_GetServerByInstanceID i a : good a ->
  run_ok a (GetServerByInstanceID subscribe_error i) (fun r a' => forall p, r = Ok p -> of_instance i p a').
Proof.
  intros Hg. apply run_get. destruct (serverList a !! i) as [p|] eqn:Hp.
  { apply run_ret; [done|]. intros ? [= <-]. destruct (inv_listed a (good_inv a Hg) i p Hp) as (x & Hx & Hi & _). by exists x. }
  destruct (split_on at_sign i "") as [|name [|rest [|]]]; try by apply run_ret.
  destruct (decide (name = "" \/ rest = "")); [by apply run_ret|].
  eapply run_bind; [by apply run_select_services|]. intros r a1 Hg1 He1 [_ Hr].
  destruct r as [services|e]; [|by apply run_ret].
  destruct (list_find _ _) as [[k node]|] eqn:Hf; [|by apply run_ret].
  apply list_find_Some in Hf as (Hk & Hi & _).
  eapply run_mono; [apply run_getServerSession; [done|by eapply Forall_lookup_1]|].
  intros r a2 Hg2 He2 Hq p ->. rewrite <- Hi. by destruct Hq.
Qed.

Lemma run_select_node name filters a : good a -> Forall narrowing filters ->
  run_ok a (select (sel_Select name filters)) (fun r a' =>
    r = (sel_Select name filters (app_selector a)).1 /\
    match r with Ret (Ok n) => consistent n | Ret (Err _) => True | Panic _ => False end).
Proof.
  intros [Hi Hs Ho] Hf. destruct (Hsel _ Ho) as [Hserv Hget]. destruct (Hget name filters) as [H1 H2].
  pose proof (select_listed name filters (app_selector a)) as Hlaw.
  unfold run_ok, select. destruct (sel_Select name filters (app_selector a)) as [r s]. cbn in *.
  split; [split; [destruct Hi; by split|done|done]|].
  split; [split; [intros p x Hp; exists x; split; [done|]; split; [done|lia]|by split]|].
  split; [done|]. destruct r as [[n|e]|why]; [|done|done].
  destruct (Hlaw n Hf eq_refl) as (services & Hs1 & Hn). by eapply Forall_forall in Hn; [|apply (proj2 (Hserv name))].
Qed.

Lemma run_GetServerBySelector name filters a : good a -> Forall narrowing filters ->
  run_ok a (GetServerBySelector subscribe_error name filters) (fun r a' => forall p, r = Ok p ->
    exists n, (sel_Select name filters (app_selector a)).1 = Ret (Ok n) /\ of_instance (InstanceID n) p a').
Proof.
  intros Hg Hf. eapply run_bind; [by apply run_select_node|]. intros r a1 Hg1 He1 [Hr Hn]. rewrite <- Hr.
  destruct r as [[n|e]|why]; [|by apply run_ret|done].
  eapply run_mono; [by apply run_getServerSession|]. intros r a2 Hg2 He2 Hq p ->. exists n. by destruct Hq.
Qed.

Lemma split_on_cons sep s : forall acc, exists x l, split_on sep s acc = x :: l.
Proof. induction s as [|c s IH]; intros acc; cbn; [by eexists _, _|]. destruct (decide _); [by eexists _, _|apply IH]. Qed.

Lemma run_GetRouteServer mapRoute filter filters a : good a -> Forall narrowing filters ->
  run_ok a (GetRouteServer subscribe_error mapRoute filter filters) (fun r a' => forall p, r = Ok p -> exists_proxy p a').
Proof.
  intros Hg Hf. unfold GetRouteServer. set (f := match mapRoute with Some _ => _ | None => _ end).
  assert (forall name, run_ok a (GetServerBySelector subscribe_error name filters)
            (fun r a' => forall p, r = Ok p -> exists_proxy p a')) as Hsl.
  { intros name. eapply run_mono; [by apply run_GetServerBySelector|]. intros r a' _ _ Hr p Hp.
    destruct (Hr p Hp) as (n & _ & x & Hx & _). by exists x. }
  destruct (split_on_cons at_sign f "") as (t & l & ->). destruct l as [|i [|]]; [done| |done].
  destruct (decide (i = "")); [done|].
  eapply run_mono; [by apply run_GetServerByID|]. intros r a' _ _ (Hr & _) p Hp.
  destruct (Hr p Hp) as (x & Hx & _). by exists x.
Qed.

Lemma watch_good node a : good a -> good (watch node a) /\ later a (watch node a).
Proof.
  intros [Hi Hs Ho]. destruct (watch_ok node a Hi) as (H1 & H2 & H3). split; [|done].
  split; [done|unfold ok_schedule; by rewrite H2|].
  replace (app_selector (watch node a)) with (app_selector a); [done|].
  unfold watch, drop_route. destruct (serverList a !! _); [|done]. cbn.
  destruct (proxies a !! _); [|done]. cbn. destruct (logicalRoutes a !! _); [|done]. by destruct (decide _).
Qed.

(** ** Properties *)

(** C14. Routing stays sound whatever other goroutines do meanwhile.  Under any
    schedule of their sections, every lookup and the watcher return, and keep the
    routing invariant: an instance has exactly one proxy with an open rpc client as
    long as it is listed, a client is closed at most once, and a route leads to a
    listed instance of its server.  A lookup by server id gives a proxy of that
    server, one by instance id a proxy of exactly that instance, and one through
    the selector a proxy of the node selected. *)
Theorem routing_is_sound (mapRoute : option (string -> string)) (a : app) : good a ->
  (forall sid, run_ok a (GetServerByID subscribe_error sid)
     (fun r a' => forall p, r = Ok p -> of_server sid p a')) /\
  (forall i, run_ok a (GetServerByInstanceID subscribe_error i)
     (fun r a' => forall p, r = Ok p -> of_instance i p a')) /\
  (forall name filters, Forall narrowing filters -> run_ok a (GetServerBySelector subscribe_error name filters)
     (fun r a' => forall p, r = Ok p ->
        exists n, (sel_Select name filters (app_selector a)).1 = Ret (Ok n) /\ of_instance (InstanceID n) p a')) /\
  (forall filter filters, Forall narrowing filters -> run_ok a (GetRouteServer subscribe_error mapRoute filter filters)
     (fun r a' => forall p, r = Ok p -> exists_proxy p a')) /\
  (forall node, Watcher node a = Done (watch node a) tt /\ good (watch node a) /\ later a (watch node a)).
Proof.
  intros Hg. split; [|split; [|split; [|split]]].
  - intros sid. eapply run_mono; [by apply run_GetServerByID|]. intros r a' _ _ (H & _). exact H.
  - intros i. by apply run_GetServerByInstanceID.
  - intros name filters Hf. by apply run_GetServerBySelector.
  - intros filter filters Hf. by apply run_GetRouteServer.
  - intros node. split; [done|]. by apply watch_good.
Qed.

Lemma pairs_name name name' n services : Forall (fun s => Name s = name) services ->
  (name', n) ∈ pairs services -> name' = name.
Proof.
  intros Hall. unfold pairs. rewrite list_elem_of_join. intros (l & Hl & Hin).
  apply list_elem_of_fmap in Hin as (s & -> & Hsv). apply list_elem_of_fmap in Hl as (k & [= -> _] & _).
  by eapply Forall_forall in Hall.
Qed.

Lemma elem_pairs name n services : Forall (fun s => Name s = name) services ->
  n ∈ all_nodes services <-> (name, n) ∈ pairs services.
Proof.
  intros Hall. rewrite all_nodes_pairs, list_elem_of_fmap. split.
  - intros ([name' n'] & -> & Hin). cbn. by rewrite <- (pairs_name name name' n' services).
  - intros Hin. by exists (name, n).
Qed.

Lemma latest_key_inj name s s' : latest_key name s = latest_key name s' -> s = s'.
Proof. unfold latest_key. intros H. apply (inj (String.append name)) in H. by injection H. Qed.

Lemma Latest_names name services : Forall (fun s => Name s = name) services ->
  Forall (fun s => Name s = name) (LatestServices services).
Proof.
  rewrite !Forall_forall. intros H s Hs. unfold LatestServices in Hs.
  apply list_elem_of_omap in Hs as (o & Ho & ->). apply elem_of_lookup_imap in Ho as (i & x & E & Hx).
  destruct (keep_nodes _ _ _); [done|]. injection E as ->. cbn. apply H. by eapply list_elem_of_lookup_2.
Qed.

(** Of the instances of a server, the one gone through is the latest. *)
Lemma visited_is_latest name services n : Forall (fun s => Name s = name) services ->
  n ∈ visited true services -> ServerID n <> "" ->
  forall m, m ∈ all_nodes services -> ServerID m = ServerID n -> not_later m n = true.
Proof.
  intros Hall Hn Hs m Hm Hms. apply (elem_pairs name) in Hm; [|done].
  apply (elem_pairs name) in Hn; [|by apply Latest_names].
  destruct (Latest_keeps_latest services name m Hm) as (name' & n' & H1 & H2 & H3 & H4); [congruence|].
  assert (name' = name) as ->.
  { pose proof (elem_of_sublist _ _ _ H1 (Latest_sublist services)) as H5. by eapply pairs_name in H5. }
  assert (n' = n) as ->.
  { assert ((name, n') = (name, n)) as E; [|by injection E].
    eapply NoDup_fmap_elem; [apply (Latest_NoDup services)| | |].
    - by apply list_elem_of_filter.
    - by apply list_elem_of_filter.
    - cbn. by rewrite H3, Hms. }
  apply (H4 name m); [done|congruence|done].
Qed.

Lemma split_on_empty sep x y l : split_on sep "" "" <> x :: y :: l.
Proof. done. Qed.

(** C16. The first lookup of a server routes it to its latest instance: without a
    route and without interference, for an id type@id of whose type discovery answers with
    services, [GetServerByID] returns a proxy of an instance of that server than which none
    discovered was started later, and routes the id to it; it fails only when discovery
    lists no instance of the server, or the latest one's rpc client cannot be made, and then
    no older instance is tried. *)
Theorem first_route_is_latest (a : app) sid moduleType rest services : good a -> quiet a ->
  routed sid a = None -> split_on at_sign sid "" = [moduleType; rest] ->
  (sel_GetService moduleType (app_selector a)).1 = Ok services ->
  Forall (fun s => Name s = moduleType) services ->
  exists a' r, GetServerByID subscribe_error sid a = Done a' r /\
    match r with
    | Ok p => routed sid a' = Some p /\
        exists n, n ∈ all_nodes services /\ ServerID n = sid /\ of_instance (InstanceID n) p a' /\
          forall m, m ∈ all_nodes services -> ServerID m = sid -> not_later m n = true
    | Err _ => (forall n, n ∈ all_nodes services -> ServerID n <> sid) \/
        exists n, n ∈ all_nodes services /\ ServerID n = sid /\ subscribe_error n <> None /\
          forall m, m ∈ all_nodes services -> ServerID m = sid -> not_later m n = true
    end.
Proof.
  intros Hg Hq Hno Hsplit Hserv Hnames.
  pose proof (run_GetServerByID sid a Hg) as H. unfold run_ok in H.
  destruct (GetServerByID subscribe_error sid a) as [a' r|a' w|] eqn:E; [|done|done].
  exists a', r. split; [done|]. destruct H as (_ & _ & _ & _ & H).
  assert (sid <> "") as Hsid by (intros ->; by apply split_on_empty in Hsplit).
  assert (Hvis : forall n, n ∈ visited true services -> n ∈ all_nodes services)
    by (intros n Hn; eapply elem_of_sublist; [exact Hn|apply visited_sublist]).
  assert (Hlate : forall n, n ∈ visited true services -> ServerID n = sid ->
    forall m, m ∈ all_nodes services -> ServerID m = sid -> not_later m n = true).
  { intros n Hn Hs m Hm Hms. eapply visited_is_latest; [done|done|congruence|done|congruence]. }
  destruct (H Hq Hno _ _ _ Hsplit Hserv) as (sub & [Hsub Hcov] & Hf). destruct r as [p|e]; cbn in Hf.
  - destruct Hf as (Hr & n & Hn & Hs & Ho). split; [done|]. assert (n ∈ visited true services) as Hn' by (by eapply elem_of_sublist).
    exists n. split; [auto|]. split; [done|]. split; [done|]. by apply Hlate.
  - destruct (list_exist_dec (fun n => ServerID n = sid) (all_nodes services) (fun n => decide _)) as [(m & Hm & Hms)|Hnone].
    2: { left. intros n Hn Hs. apply Hnone. by exists n. }
    right. apply (elem_pairs moduleType) in Hm; [|done].
    destruct (Latest_keeps_latest services moduleType m Hm) as (name' & n & H1 & H2 & H3 & _); [congruence|].
    assert (name' = moduleType) as ->
      by (eapply pairs_name; [exact Hnames|eapply elem_of_sublist; [exact H1|apply Latest_sublist]]).
    apply latest_key_inj in H3. apply (elem_pairs moduleType) in H1; [|by apply Latest_names].
    assert (ServerID n = sid) as Hs by congruence. exists n. split; [by apply Hvis|]. split; [done|].
    split; [|by apply Hlate]. destruct (Hcov n H1) as [Hin|Hne]; [|done]. by destruct (Hf n Hin).
Qed.
End Invariant.

Section Sticky.
Context {Sel : Type} `{!ServiceSelector Sel} (server_of : string -> string) (subscribe_error : Node -> option string).
Abbreviation app := (DefaultApp Sel).

(** C15. Routes are sticky until the instance goes.  Once a server id is routed,
    every lookup gives the same proxy whatever is discovered, routed or removed
    meanwhile, as long as its own instance is not removed; the removal of that
    instance closes its client, unlists it and drops the route, and a second
    notice of the same removal changes nothing. *)
Theorem routes_are_sticky (a : app) sid p node : inv server_of a -> routed sid a = Some p ->
  of_instance (InstanceID node) p a ->
  (forall l, Forall (ok_action server_of) l -> (forall n, AWatch n ∈ l -> InstanceID n <> InstanceID node) ->
     GetServerByID subscribe_error sid (acts l a) = Done (acts l a) (Ok p)) /\
  (let a' := watch node a in
   routed sid a' = None /\ serverList a' !! InstanceID node = None /\
   (exists x, proxies a' !! p = Some x /\ px_done x = 1%nat) /\
   (forall q, q <> p -> proxies a' !! q = proxies a !! q) /\ watch node a' = a').
Proof.
  intros Hinv Hr Ho. split.
  - intros l Hl Hw. unfold GetServerByID, st_bind, st_get. cbn [exec_then].
    by rewrite (routed_acts server_of l node p sid a Hinv Hl Hw Hr Ho).
  - cbv zeta. destruct Ho as (x & Hx & Hi). pose proof Hr as Hr0. unfold routed in Hr.
    destruct (logicalRoutes a !! sid) as [i|] eqn:Hrt; [|done].
    destruct (inv_listed server_of a Hinv i p Hr) as (x0 & Hx0 & Hi0 & Hd). assert (x0 = x) as -> by congruence.
    assert (i = InstanceID node) as -> by congruence.
    destruct (watch_spec server_of node a p Hinv Hr) as (y & Hy & _ & _ & Hsl & Hpx & _ & Hroutes).
    assert (serverList (watch node a) !! InstanceID node = None) as Hgone by (by rewrite Hsl, lookup_delete_eq).
    split; [|split; [done|split; [|split]]].
    + unfold routed. by rewrite Hroutes, Hrt, decide_True.
    + exists (y <| px_done := 1%nat |>). by rewrite Hpx, lookup_insert_eq.
    + intros q Hq. by rewrite Hpx, lookup_insert_ne.
    + unfold watch at 1. by rewrite Hgone.
Qed.

End Sticky.

(** *** Concrete runs *)

Definition demo_node (id : string) (started : Z) : Node := mkNode started "chat@1" id "inbox" 0 None.
Definition demo_services : list Service :=
  [mkService "chat" "1" ∅ [] [demo_node "chat@1#a" 10; demo_node "chat@1#b" 20]].
Definition demo_selector : ServiceSelector unit := default_selector (fun _ => Ok demo_services) 0.
Definition demo_app (schedule : list (list action)) : DefaultApp unit := mkApp ∅ ∅ ∅ tt schedule.
Definition demo_server (instance : string) : string := "chat@1".
Definition demo_proxy : proxy := mkProxy "chat" (demo_node "chat@1#a" 10) 0.
Definition demo_routed : DefaultApp unit :=
  mkApp {[ "chat@1#a" := 1%positive ]} {[ "chat@1" := "chat@1#a" ]} {[ 1%positive := demo_proxy ]} tt [].

Lemma demo_lists : @lists_consistent unit demo_server demo_selector (fun _ => True).
Proof.
  intros [] _. split.
  - intros name. split; [done|]. intros services [= <-]. by repeat constructor.
  - intros name filters. split; [done|]. cbn. unfold default_Select. destruct (candidates filters demo_services) as [l|e]; [|done].
    unfold Random_next. destruct (zlen (all_nodes l) =? 0) eqn:E; [done|].
    destruct (all_nodes l) as [|n ns]; [by cbn in E|]. rewrite Z.rem_0_l by (apply Z.eqb_neq; exact E). done.
Qed.

Lemma demo_app_good schedule : Forall (Forall (ok_action demo_server)) schedule ->
  good demo_server (fun _ => True) (demo_app schedule).
Proof.
  intros H. split; [|done|done]. by split; cbn; intros ? ?; rewrite lookup_empty.
Qed.

Lemma routing_is_sound_witness :
  let a := demo_app [[ADiscover "chat" (demo_node "chat@1#b" 20)]; [AWatch (demo_node "chat@1#b" 20)]] in
  exists a' r, @GetServerByID unit demo_selector (fun _ => None) "chat@1" a = Done a' r /\
    good demo_server (fun _ => True) a' /\ forall p, r = Ok p -> of_server "chat@1" p a'.
Proof.
  intros a. assert (good demo_server (fun _ => True) a) as Hg
    by (apply demo_app_good; by repeat constructor).
  pose proof (proj1 (@routing_is_sound unit demo_server demo_selector
    (default_laws (fun _ => Ok demo_services) 0) (fun _ => True) (fun _ => None) demo_lists None a Hg) "chat@1") as H.
  unfold run_ok in H. destruct (GetServerByID _ _ _) as [a' r|a' w|]; [|done|done].
  exists a', r. split; [done|]. destruct H as (H1 & _ & H2). by split.
Defined.

Lemma demo_routed_inv : inv demo_server demo_routed.
Proof.
  split; cbn.
  - intros i p [<- <-]%lookup_singleton_Some. by exists demo_proxy.
  - intros p x [<- <-]%lookup_singleton_Some. by right.
  - by intros p x [<- <-]%lookup_singleton_Some.
  - intros sid i [<- <-]%lookup_singleton_Some. by exists 1%positive.
Qed.

Lemma routes_are_sticky_witness :
  let l := [ADiscover "chat" (demo_node "chat@1#b" 20)] in
  @GetServerByID unit demo_selector (fun _ => None) "chat@1" (acts l demo_routed) =
    Done (acts l demo_routed) (Ok 1%positive) /\
  routed "chat@1" (watch (demo_node "chat@1#a" 10) demo_routed) = None.
Proof.
  destruct (@routes_are_sticky unit demo_selector demo_server (fun _ => None) demo_routed "chat@1" 1%positive
    (demo_node "chat@1#a" 10) demo_routed_inv) as [H1 [H2 _]].
  - reflexivity.
  - by exists demo_proxy.
  - split; [|exact H2]. apply H1.
    + by repeat constructor.
    + intros n Hn. apply list_elem_of_singleton in Hn. done.
Defined.

Lemma first_route_is_latest_witness :
  exists a' p, @GetServerByID unit demo_selector (fun _ => None) "chat@1" (demo_app []) = Done a' (Ok p) /\
    routed "chat@1" a' = Some p /\ of_instance "chat@1#b" p a'.
Proof.
  destruct (@first_route_is_latest unit demo_server demo_selector
    (default_laws (fun _ => Ok demo_services) 0) (fun _ => True) (fun _ => None) demo_lists (demo_app []) "chat@1" "chat" "1" demo_services) as (a' & r & Hrun & H).
  - by apply demo_app_good.
  - reflexivity.
  - reflexivity.
  - reflexivity.
  - reflexivity.
  - by repeat constructor.
  - destruct r as [p|e].
    + exists a', p. split; [exact Hrun|]. destruct H as (Hr & n & Hn & _ & Ho & Hmax). split; [done|].
      unfold all_nodes in Hn. cbn in Hn.
      assert (not_later (demo_node "chat@1#b" 20) n = true) as Hl by (apply Hmax; [cbn; set_solver|done]).
      apply elem_of_cons in Hn as [->|Hn]; [by vm_compute in Hl|].
      by apply list_elem_of_singleton in Hn as ->.
    + exfalso. destruct H as [H|(n & _ & _ & H & _)]; [|done]. apply (H (demo_node "chat@1#b" 20)); [cbn; set_solver|done].
Defined.

(** A proxy dropped between discovery and routing can be handed out all the same:
    if the instance has been registered anew meanwhile, the check that it is still
    listed passes, and the caller gets the proxy whose client is closed. *)
Lemma stale_proxy_returned :
  let b := demo_node "chat@1#b" 20 in
  match @GetServerByID unit demo_selector (fun _ => None) "chat@1"
          (demo_app [[]; []; []; [AWatch b; ADiscover "chat" b]]) with
  | Done a' (Ok p) => px_done <$> proxies a' !! p = Some 1%nat /\ routed "chat@1" a' <> Some p
  | _ => False
  end.
Proof. vm_compute. split; [reflexivity|discriminate]. Qed.
