(* ===== verification/RpcArgs.v ===== *)
(** * Rpc arguments and replies

    The wire form of rpc arguments ([rpc/util/argsutil.go]) with the byte
    conversions of [utils/params_bytes.go], and the converters callers apply to a
    reply ([rpc/reply.go]).

    A Go interface value is a [gval]; floats are their bit patterns, since the
    code only moves them.  Values of types the code does not name are an [other],
    which says what the code asks of them by reflection.  Outside the model:
    [encoding/json] on maps and trace spans, the serializers an application
    registers, and the protobuf and [Marshaler] code of a value. *)
From S2P Require Import Prelude.
#[local] Open Scope mq_scope.
#[local] Open Scope string_scope.
#[local] Open Scope list_scope.
#[local] Open Scope Z_scope.

(** ** Integers as bytes *)

Fixpoint le_bytes (n : nat) (z : Z) : bytes :=
  match n with O => [] | S n => zb z :: le_bytes n (z / 256) end.
Definition le_value (l : bytes) : Z := foldr (fun b acc => bz b + 256 * acc) 0 l.
Definition be_bytes (n : nat) (z : Z) : bytes := reverse (le_bytes n z).
Definition be_value (l : bytes) : Z := le_value (reverse l).

(** [binary.BigEndian.Uint32] and the like read the first [n] bytes and panic when
    there are fewer. *)
Definition read_fixed (n : nat) (f : bytes -> Z) (buf : bytes) : outcome Z :=
  if (length buf <? n)%nat then Panic "index out of range" else Ret (f (take n buf)).

Definition BoolToBytes (v : bool) : bytes := [if v then x01 else x00].
Definition BytesToBool (buf : bytes) : outcome bool :=
  match buf with
  | [] => Panic "index out of range"
  | b :: _ => Ret (negb (bz b =? 0))
  end.
Definition Int32ToBytes (i : Z) : bytes := be_bytes 4 (wrap_u 32 i).
Definition BytesToInt32 (buf : bytes) : outcome Z := u <- read_fixed 4 be_value buf; Ret (int32 u).
Definition Int64ToBytes (i : Z) : bytes := be_bytes 8 (wrap_u 64 i).
Definition BytesToInt64 (buf : bytes) : outcome Z := u <- read_fixed 8 be_value buf; Ret (int64 u).
Definition Float32ToBytes (bits : Z) : bytes := le_bytes 4 bits.
Definition BytesToFloat32 (buf : bytes) : outcome Z := read_fixed 4 le_value buf.
Definition Float64ToBytes (bits : Z) : bytes := le_bytes 8 bits.
Definition BytesToFloat64 (buf : bytes) : outcome Z := read_fixed 8 le_value buf.

(** ** Values *)

(** What reflection and type assertions find out about a value of another type. *)
Record other := mkOther {
  o_type : string; o_pointer : bool; o_nil : bool;
  o_proto : option (result string bytes);       (** [proto.Marshal], for a [proto.Message] *)
  o_marshal : option (result string bytes) }.   (** [Marshal], for a [Marshaler] *)

(** [J] and [Sp] are the contents of a [map[string]interface{}] and of a span. *)
Inductive gval (J Sp : Type) :=
| GNil
| GString (s : string)
| GBool (b : bool)
| GInt32 (z : Z)
| GInt64 (z : Z)
| GFloat32 (bits : Z)
| GFloat64 (bits : Z)
| GBytes (b : bytes)
| GMap (m : J)
| GMapStr (m : gmap string string)
| GTrace (s : Sp)
| GOther (o : other).
Arguments GNil {J Sp}.
Arguments GString {J Sp}.
Arguments GBool {J Sp}.
Arguments GInt32 {J Sp}.
Arguments GInt64 {J Sp}.
Arguments GFloat32 {J Sp}.
Arguments GFloat64 {J Sp}.
Arguments GBytes {J Sp}.
Arguments GMap {J Sp}.
Arguments GMapStr {J Sp}.
Arguments GTrace {J Sp}.
Arguments GOther {J Sp}.

Definition NULL := "null".
Definition BOOL := "bool".
Definition INT := "int".
Definition LONG := "long".
Definition FLOAT := "float".
Definition DOUBLE := "double".
Definition BYTES := "bytes".
Definition STRING := "string".
Definition MAP := "map".
Definition MAPSTR := "mapstr".
Definition TRACE := "trace".
Definition Marshal_tag := "marshal".
Definition Proto_tag := "proto".

(** [module.RPCSerialize] *)
Record RPCSerialize (J Sp : Type) := mkRPCSerialize {
  Serialize : other -> result string (string * bytes);
  Deserialize : string -> bytes -> result string (gval J Sp) }.
Arguments mkRPCSerialize {J Sp}.
Arguments Serialize {J Sp}.
Arguments Deserialize {J Sp}.

(** The first call that succeeds. *)
Fixpoint first_ok {X A} (try : X -> result string A) (l : list X) : option A :=
  match l with
  | [] => None
  | x :: l => match try x with Ok a => Some a | Err _ => first_ok try l end
  end.

Section Args.
Context {J Sp : Type}
        (json_map : J -> result string bytes) (unjson_map : bytes -> result string J)
        (json_mapstr : gmap string string -> result string bytes)
        (unjson_mapstr : bytes -> result string (gmap string string))
        (json_span : Sp -> result string bytes) (unjson_span : bytes -> result string Sp)
        (ExtractSpan : Sp -> Sp)
        (serializers : list (RPCSerialize J Sp)).

(** The result of a call that may fail, under its type tag. *)
Definition tagged (tag : string) (r : result string bytes) : result string (string * bytes) :=
  match r with Ok b => Ok (tag, b) | Err e => Err e end.

(** The [default] branch: the serializers first, then the two pointer kinds. *)
Definition other_to_bytes (o : other) : result string (string * bytes) :=
  match first_ok (fun s => Serialize s o) serializers with
  | Some r => Ok r
  | None =>
      if negb (o_pointer o) then
        Err ("Args2Bytes [" ++ o_type o ++ "] not registered to app.addrpcserialize(...) structure type or not *mqrpc.marshaler pointer type")
      else if o_nil o then Ok (NULL, [])
      else
        match o_proto o with
        | Some (Ok b) => Ok (Proto_tag ++ "@" ++ o_type o, b)
        | Some (Err e) => Err ("args [" ++ o_type o ++ "] proto.Marshal error " ++ e)
        | None =>
            match o_marshal o with
            | Some (Ok b) => Ok (Marshal_tag ++ "@" ++ o_type o, b)
            | Some (Err e) => Err ("args [" ++ o_type o ++ "] marshal error " ++ e)
            | None => Err ("Args2Bytes [" ++ o_type o ++ "] not registered to app.addrpcserialize(...) structure type")
            end
        end
  end%string.

Definition ArgsTypeAnd2Bytes (arg : gval J Sp) : result string (string * bytes) :=
  match arg with
  | GNil => Ok (NULL, [])
  | GBytes b => Ok (BYTES, b)
  | GString s => Ok (STRING, str_bytes s)
  | GBool b => Ok (BOOL, BoolToBytes b)
  | GInt32 z => Ok (INT, Int32ToBytes z)
  | GInt64 z => Ok (LONG, Int64ToBytes z)
  | GFloat32 z => Ok (FLOAT, Float32ToBytes z)
  | GFloat64 z => Ok (DOUBLE, Float64ToBytes z)
  | GMap m => tagged MAP (json_map m)
  | GMapStr m => tagged MAPSTR (json_mapstr m)
  | GTrace s => tagged TRACE (json_span s)
  | GOther o => other_to_bytes o
  end.

Definition wrap {A} (f : A -> gval J Sp) (r : result string A) : outcome (result string (gval J Sp)) :=
  Ret (match r with Ok a => Ok (f a) | Err e => Err e end).
Definition fixed {A} (f : A -> gval J Sp) (r : outcome A) : outcome (result string (gval J Sp)) :=
  a <- r; Ret (Ok (f a)).

Definition Bytes2Args (argsType : string) (args : bytes) : outcome (result string (gval J Sp)) :=
  if String.prefix Marshal_tag argsType then Ret (Ok (GBytes args))
  else if String.prefix Proto_tag argsType then Ret (Ok (GBytes args))
  else if decide (argsType = NULL) then Ret (Ok GNil)
  else if decide (argsType = STRING) then Ret (Ok (GString (bytes_str args)))
  else if decide (argsType = BOOL) then fixed GBool (BytesToBool args)
  else if decide (argsType = INT) then fixed GInt32 (BytesToInt32 args)
  else if decide (argsType = LONG) then fixed GInt64 (BytesToInt64 args)
  else if decide (argsType = FLOAT) then fixed GFloat32 (BytesToFloat32 args)
  else if decide (argsType = DOUBLE) then fixed GFloat64 (BytesToFloat64 args)
  else if decide (argsType = BYTES) then Ret (Ok (GBytes args))
  else if decide (argsType = MAP) then wrap GMap (unjson_map args)
  else if decide (argsType = MAPSTR) then wrap GMapStr (unjson_mapstr args)
  else if decide (argsType = TRACE) then wrap (fun s => GTrace (ExtractSpan s)) (unjson_span args)
  else
    match first_ok (fun s => Deserialize s argsType args) serializers with
    | Some v => Ret (Ok v)
    | None => Ret (Err ("Bytes2Args [" ++ argsType ++ "] not registered to app.addrpcserialize(...)"))%string
    end.

(** The arguments of [RPCClient.Call] and [CallNR]: all of them, or the first
    error with its position. *)
Fixpoint args_from (k : nat) (params : list (gval J Sp)) : result (nat * string) (list (string * bytes)) :=
  match params with
  | [] => Ok []
  | p :: params =>
      match ArgsTypeAnd2Bytes p with
      | Err e => Err (k, e)
      | Ok a => match args_from (S k) params with Ok l => Ok (a :: l) | Err e => Err e end
      end
  end.
Definition Call_args := args_from 0.
End Args.

(** ** Replies *)

(** The second result of a call, an [interface{}]. *)
Inductive gerr := ENil | EString (s : string) | EError (e : string) | EOther.

(** What a converter fails with: the error it was given, [fmt.Errorf] of the string it
    was given (as the format), [ErrNil], or the wrong type. *)
Inductive reply_err :=
| RErr (e : string)
| RErrorf (format : string)
| RErrNil
| RErrRange
| RType (want : string).

(** The switch every converter begins with. *)
Definition failed (err : gerr) : option reply_err :=
  match err with
  | EString s => if decide (s = "") then None else Some (RErrorf s)
  | EError e => Some (RErr e)
  | _ => None
  end.

Section Replies.
Context {J Sp : Type}.
Abbreviation val := (gval J Sp).

(** The second switch: the wanted type, [nil], anything else. *)
Definition convert {A} (want : string) (get : val -> option A) (reply : val) (err : gerr) : result reply_err A :=
  match failed err with
  | Some e => Err e
  | None =>
      match get reply with
      | Some a => Ok a
      | None => match reply with GNil => Err RErrNil | _ => Err (RType want) end
      end
  end.

Definition get_int64 (v : val) : option Z := match v with GInt64 z => Some z | _ => None end.

Definition Int (reply : val) (err : gerr) : result reply_err Z :=
  match convert "Int" get_int64 reply err with
  | Ok z => let x := wrap_s 64 z in if int64 x =? z then Ok x else Err RErrRange
  | Err e => Err e
  end.
Definition Int64 : val -> gerr -> result reply_err Z := convert "Int64" get_int64.
Definition Float64 : val -> gerr -> result reply_err Z :=
  convert "Float64" (fun v => match v with GFloat64 z => Some z | _ => None end).
Definition String_ : val -> gerr -> result reply_err string :=
  convert "String" (fun v => match v with GString s => Some s | _ => None end).
Definition Bytes : val -> gerr -> result reply_err bytes :=
  convert "Bytes" (fun v => match v with GBytes b => Some b | _ => None end).
Definition Bool : val -> gerr -> result reply_err bool :=
  convert "Bool" (fun v => match v with GBool b => Some b | _ => None end).
Definition StringMap : val -> gerr -> result reply_err (gmap string string) :=
  convert "Bool" (fun v => match v with GMapStr m => Some m | _ => None end).
Definition InterfaceMap : val -> gerr -> result reply_err J :=
  convert "Bool" (fun v => match v with GMap m => Some m | _ => None end).

(** [Marshal] and [Proto] fill a target the caller passes: [ptr] and [target] say
    whether it is a pointer of the right kind, and its [Unmarshal]. *)
Definition unmarshal_into {M} (ptr : bool) (target : option (bytes -> result string M)) (reply : val) (err : gerr) :
    result reply_err M :=
  match failed err with
  | Some e => Err e
  | None =>
      if negb ptr then Err (RType "pointer") else
      match target with
      | None => Err (RType "kind")
      | Some f =>
          match reply with
          | GBytes b => match f b with Ok m => Ok m | Err e => Err (RErr e) end
          | GNil => Err RErrNil
          | _ => Err (RType "bytes")
          end
      end
  end.
Definition Marshal {M} := @unmarshal_into M.
Definition Proto {M} := @unmarshal_into M.
End Replies.
