(* ===== verification/RpcArgsTheorems.v ===== *)
(** * Theorems about rpc arguments and replies *)
From S2P Require Import Prelude RpcArgs.
#[local] Open Scope mq_scope.
#[local] Open Scope string_scope.
#[local] Open Scope list_scope.
#[local] Open Scope Z_scope.

(** ** Integers *)

Lemma length_le_bytes n : forall z, length (le_bytes n z) = n.
Proof. induction n as [|n IH]; intros z; cbn; [done|]. by rewrite IH. Qed.

Lemma le_value_bytes n : forall z, le_value (le_bytes n z) = z mod 256 ^ Z.of_nat n.
Proof.
  induction n as [|n IH]; intros z; cbn [le_bytes].
  - cbn. by rewrite Z.mod_1_r.
  - change (le_value (zb z :: le_bytes n (z / 256))) with (bz (zb z) + 256 * le_value (le_bytes n (z / 256))).
    rewrite IH, bz_zb. rewrite Nat2Z.inj_succ, Z.pow_succ_r by lia.
    rewrite Z.rem_mul_r; [lia|lia|]. apply Z.pow_pos_nonneg; lia.
Qed.

Lemma read_le n z : 0 <= z < 256 ^ Z.of_nat n -> read_fixed n le_value (le_bytes n z) = Ret z.
Proof.
  intros Hz. unfold read_fixed. rewrite length_le_bytes, Nat.ltb_irrefl.
  rewrite take_ge by (by rewrite length_le_bytes). by rewrite le_value_bytes, Z.mod_small.
Qed.

Lemma read_be n z : 0 <= z < 256 ^ Z.of_nat n -> read_fixed n be_value (be_bytes n z) = Ret z.
Proof.
  intros Hz. unfold read_fixed, be_bytes. rewrite length_reverse, length_le_bytes, Nat.ltb_irrefl.
  rewrite take_ge by (by rewrite length_reverse, length_le_bytes).
  unfold be_value. rewrite reverse_involutive. by rewrite le_value_bytes, Z.mod_small.
Qed.

Lemma wrap_u_range w z : 0 <= w -> 0 <= wrap_u w z < 2 ^ w.
Proof. intros Hw. apply Z.mod_pos_bound. apply Z.pow_pos_nonneg; lia. Qed.

Lemma Int32_roundtrip z : - 2 ^ 31 <= z < 2 ^ 31 -> BytesToInt32 (Int32ToBytes z) = Ret z.
Proof.
  intros Hz. unfold BytesToInt32, Int32ToBytes. rewrite read_be by (apply (wrap_u_range 32); lia). cbn [outcome_bind].
  f_equal. unfold int32. rewrite wrap_s_wrap_u by lia. by apply wrap_s_small.
Qed.

Lemma Int64_roundtrip z : - 2 ^ 63 <= z < 2 ^ 63 -> BytesToInt64 (Int64ToBytes z) = Ret z.
Proof.
  intros Hz. unfold BytesToInt64, Int64ToBytes. rewrite read_be by (apply (wrap_u_range 64); lia). cbn [outcome_bind].
  f_equal. unfold int64. rewrite wrap_s_wrap_u by lia. by apply wrap_s_small.
Qed.

(** ** Definitions the statements use *)

Section Values.
Context {J Sp : Type}.

(** The integers and float patterns of a value fit their type. *)
Definition in_range (v : gval J Sp) : Prop :=
  match v with
  | GInt32 z => - 2 ^ 31 <= z < 2 ^ 31
  | GInt64 z => - 2 ^ 63 <= z < 2 ^ 63
  | GFloat32 z => 0 <= z < 2 ^ 32
  | GFloat64 z => 0 <= z < 2 ^ 64
  | _ => True
  end.

(** What the other side sees of a value that was encoded as [b]: a map is what JSON
    reads there, a span too and is then extracted, a message stays encoded, the rest is
    as it was. *)
Definition received (unjson_map : bytes -> result string J) (unjson_mapstr : bytes -> result string (gmap string string))
    (unjson_span : bytes -> result string Sp) (ExtractSpan : Sp -> Sp) (v : gval J Sp) (b : bytes) : result string (gval J Sp) :=
  match v with
  | GMap _ => match unjson_map b with Ok m => Ok (GMap m) | Err e => Err e end
  | GMapStr _ => match unjson_mapstr b with Ok m => Ok (GMapStr m) | Err e => Err e end
  | GTrace _ => match unjson_span b with Ok s => Ok (GTrace (ExtractSpan s)) | Err e => Err e end
  | GOther o => Ok (if o_nil o then GNil else GBytes b)
  | _ => Ok v
  end.

(** No registered serializer takes the value. *)
Definition unclaimed (serializers : list (RPCSerialize J Sp)) (v : gval J Sp) : Prop :=
  match v with GOther o => first_ok (fun s => Serialize s o) serializers = None | _ => True end.

(** Tags [Bytes2Args] does not answer itself. *)
Definition builtin (ty : string) : bool :=
  String.prefix Marshal_tag ty || String.prefix Proto_tag ty ||
  bool_decide (ty ∈ [NULL; STRING; BOOL; INT; LONG; FLOAT; DOUBLE; BYTES; MAP; MAPSTR; TRACE]).
End Values.

Lemma prefix_app p s : String.prefix p (p ++ s) = true.
Proof.
  induction p as [|c p IH]; [by destruct s|].
  change (String.append (String c p) s) with (String c (String.append p s)). simpl.
  destruct (Ascii.ascii_dec c c); [exact IH|congruence].
Qed.

(** ** Properties *)

Section Codec.
Context {J Sp : Type}
        (json_map : J -> result string bytes) (unjson_map : bytes -> result string J)
        (json_mapstr : gmap string string -> result string bytes)
        (unjson_mapstr : bytes -> result string (gmap string string))
        (json_span : Sp -> result string bytes) (unjson_span : bytes -> result string Sp)
        (ExtractSpan : Sp -> Sp)
        (serializers : list (RPCSerialize J Sp)).
Abbreviation encode := (ArgsTypeAnd2Bytes json_map json_mapstr json_span serializers).
Abbreviation decode := (Bytes2Args unjson_map unjson_mapstr unjson_span ExtractSpan serializers).

Lemma tagged_Ok tag r ty b : tagged tag r = Ok (ty, b) -> ty = tag /\ r = Ok b.
Proof. destruct r; [|done]. by intros [= <- <-]. Qed.

Lemma decode_message tag o b : tag = Marshal_tag \/ tag = Proto_tag -> decode (tag ++ "@" ++ o) b = Ret (Ok (GBytes b)).
Proof.
  intros [-> | ->]; unfold Bytes2Args.
  - by rewrite prefix_app.
  - rewrite prefix_app. by destruct (String.prefix Marshal_tag _).
Qed.

Lemma other_Ok (o : other) ty b : first_ok (fun s => Serialize s o) serializers = None ->
  other_to_bytes serializers o = Ok (ty, b) ->
  (o_nil o = true /\ ty = NULL /\ b = []) \/
  (o_nil o = false /\ exists tag, (tag = Marshal_tag \/ tag = Proto_tag) /\ ty = (tag ++ "@" ++ o_type o)%string).
Proof.
  unfold other_to_bytes. intros ->. destruct (o_pointer o); cbn [negb]; [|done].
  destruct (o_nil o); [intros [= <- <-]; by left|]. intros H. right. split; [done|].
  destruct (o_proto o) as [[b'|e]|]; [injection H as <- <-; eauto|done|].
  destruct (o_marshal o) as [[b'|e]|]; [injection H as <- <-; eauto|done|done].
Qed.

(** Arguments arrive as they were sent.  Whatever [ArgsTypeAnd2Bytes]
    accepts, [Bytes2Args] turns back without panic into the same value: strings,
    booleans, integers and floats bit for bit, and byte slices; maps and spans are what
    JSON makes of their encoding (numbers of a [map[string]interface{}] become floats), or
    its error, a span extracted; a protobuf or [Marshaler] message arrives as its
    encoding, a nil pointer as nil. *)
Lemma args_roundtrip v ty b : in_range v -> unclaimed serializers v ->
  encode v = Ok (ty, b) -> decode ty b = Ret (received unjson_map unjson_mapstr unjson_span ExtractSpan v b).
Proof.
  intros Hr Hu He.
  destruct v as [|s|x|z|z|z|z|l|m|m|s|o]; cbn [ArgsTypeAnd2Bytes] in He;
    try (apply tagged_Ok in He as [-> He]); try injection He as <- <-.
  - done.
  - change (decode STRING (str_bytes s)) with (@Ret (result string (gval J Sp)) (Ok (GString (bytes_str (str_bytes s))))).
    by rewrite String.string_of_list_byte_of_string.
  - by destruct x.
  - change (decode INT (Int32ToBytes z)) with (@fixed J Sp Z GInt32 (BytesToInt32 (Int32ToBytes z))).
    by rewrite Int32_roundtrip.
  - change (decode LONG (Int64ToBytes z)) with (@fixed J Sp Z GInt64 (BytesToInt64 (Int64ToBytes z))).
    by rewrite Int64_roundtrip.
  - change (decode FLOAT (Float32ToBytes z)) with (@fixed J Sp Z GFloat32 (read_fixed 4 le_value (le_bytes 4 z))).
    by rewrite (read_le 4).
  - change (decode DOUBLE (Float64ToBytes z)) with (@fixed J Sp Z GFloat64 (read_fixed 8 le_value (le_bytes 8 z))).
    by rewrite (read_le 8).
  - done.
  - done.
  - done.
  - done.
  - destruct (other_Ok o ty b Hu He) as [(Hn & -> & ->)|(Hn & tag & Htag & ->)]; cbn [received]; rewrite Hn; [done|].
    by apply decode_message.
Qed.

(** A registered serializer's values round-trip provided its type tag is not one
    [Bytes2Args] takes for its own, which includes every tag that begins with
    "marshal" or "proto": such values arrive as raw bytes and their serializer is
    never asked. *)
Lemma serializer_tags o ty b : first_ok (fun s => Serialize s o) serializers = Some (ty, b) ->
  encode (GOther o) = Ok (ty, b) /\
  (builtin ty = false ->
     decode ty b = match first_ok (fun s => Deserialize s ty b) serializers with
                   | Some v => Ret (Ok v)
                   | None => Ret (Err ("Bytes2Args [" ++ ty ++ "] not registered to app.addrpcserialize(...)")%string)
                   end) /\
  (String.prefix Marshal_tag ty || String.prefix Proto_tag ty = true -> decode ty b = Ret (Ok (GBytes b))).
Proof.
  intros Hs. split; [|split].
  - cbn. unfold other_to_bytes. by rewrite Hs.
  - unfold builtin. rewrite !orb_false_iff, bool_decide_eq_false. intros [[H1 H2] H3].
    unfold Bytes2Args. rewrite H1, H2.
    repeat (rewrite decide_False by (intros ->; apply H3; set_solver)). done.
  - unfold Bytes2Args. destruct (String.prefix Marshal_tag ty); [done|]. by destruct (String.prefix Proto_tag ty).
Qed.

Lemma fixed_panics {A} (g : A -> gval J Sp) (h : Z -> A) n f buf :
  is_panic (fixed g (u <- read_fixed n f buf; Ret (h u))) = (length buf <? n)%nat.
Proof. unfold fixed, read_fixed. by destruct (length buf <? n)%nat. Qed.

Lemma fixed_panics_raw (g : Z -> gval J Sp) n f buf :
  is_panic (fixed g (read_fixed n f buf)) = (length buf <? n)%nat.
Proof. unfold fixed, read_fixed. by destruct (length buf <? n)%nat. Qed.

(** The number of bytes [Bytes2Args] reads unchecked for a tag. *)
Definition wanted (ty : string) : nat :=
  if decide (ty = BOOL) then 1 else if decide (ty = INT \/ ty = FLOAT) then 4
  else if decide (ty = LONG \/ ty = DOUBLE) then 8 else 0.

(** Lengths are not checked: on bytes from the network [Bytes2Args] panics
    exactly when a boolean has no byte, a 32-bit number fewer than four, or a
    64-bit one fewer than eight. *)
Lemma Bytes2Args_panics ty b : is_panic (decode ty b) = (length b <? wanted ty)%nat.
Proof.
  assert (Hp : forall p, String.prefix p ty = true -> p = Marshal_tag \/ p = Proto_tag -> wanted ty = 0%nat).
  { intros p H Hpt. unfold wanted.
    repeat match goal with |- context [decide ?P] =>
      destruct (decide P) as [E|_]; [exfalso; destruct Hpt as [-> | ->]; naive_solver|] end. done. }
  unfold Bytes2Args.
  destruct (String.prefix Marshal_tag ty) eqn:E1; [rewrite (Hp _ E1) by tauto; done|].
  destruct (String.prefix Proto_tag ty) eqn:E2; [rewrite (Hp _ E2) by tauto; done|]. clear Hp E1 E2.
  destruct (decide (ty = NULL)) as [->|H1]; [done|].
  destruct (decide (ty = STRING)) as [->|H2]; [done|].
  destruct (decide (ty = BOOL)) as [->|H3]; [by destruct b|].
  destruct (decide (ty = INT)) as [->|H4]; [apply fixed_panics|].
  destruct (decide (ty = LONG)) as [->|H5]; [apply fixed_panics|].
  destruct (decide (ty = FLOAT)) as [->|H6]; [apply fixed_panics_raw|].
  destruct (decide (ty = DOUBLE)) as [->|H7]; [apply fixed_panics_raw|].
  assert (wanted ty = 0%nat) as -> by (unfold wanted; rewrite !decide_False by tauto; done).
  repeat (destruct (decide _); [done|]). by destruct (first_ok _ _).
Qed.
End Codec.

(** *** Replies *)

(** The dynamic type each converter wants. *)
Inductive converter : Type -> Type :=
| CInt : converter Z | CInt64 : converter Z | CFloat64 : converter Z
| CString : converter string | CBytes : converter bytes | CBool : converter bool
| CStringMap : converter (gmap string string).

Definition run_converter {J Sp A} (c : converter A) : gval J Sp -> gerr -> result reply_err A :=
  match c with
  | CInt => Int | CInt64 => Int64 | CFloat64 => Float64 | CString => String_
  | CBytes => Bytes | CBool => Bool | CStringMap => StringMap
  end.

Definition value_of {J Sp A} (c : converter A) : A -> gval J Sp :=
  match c with
  | CInt | CInt64 => GInt64 | CFloat64 => GFloat64 | CString => GString
  | CBytes => GBytes | CBool => GBool | CStringMap => GMapStr
  end.

Lemma Int_is_convert {J Sp} (v : gval J Sp) err : in_range v -> Int v err = convert "Int" get_int64 v err.
Proof.
  intros Hr. unfold Int, convert. destruct (failed err); [done|].
  destruct v as [| | | |z| | | | | | |]; cbn [get_int64]; try done. cbn in Hr.
  assert (wrap_s 64 z = z) as -> by (apply wrap_s_small; [lia|exact Hr]).
  unfold int64. rewrite wrap_s_small by (lia || exact Hr). by rewrite Z.eqb_refl.
Qed.

Lemma convert_Ok {J Sp A} want (get : gval J Sp -> option A) v err a :
  convert want get v err = Ok a <-> failed err = None /\ get v = Some a.
Proof.
  unfold convert. destruct (failed err); [by split; [|intros []]|]. destruct (get v) as [a'|].
  - split; [by intros [= <-]|by intros [_ [= <-]]].
  - split; [by destruct v|by intros []].
Qed.

(** The reply converters are exact.  Each returns a value exactly when the
    call reported no error and the reply has its dynamic type, and then the very value;
    a non-empty error string or an error of the call always wins over the reply,
    a nil reply is [ErrNil], and [Int] never reports a range error on 64-bit.
    An integer result of 32 bits is no [Int] nor [Int64]. *)
Lemma converters_are_exact {J Sp A} (c : converter A) (v : gval J Sp) (err : gerr) (a : A) : in_range v ->
  (run_converter c v err = Ok a <-> failed err = None /\ v = value_of c a) /\
  (forall e, failed err = Some e -> run_converter c v err = Err e) /\
  (failed err = None -> v = GNil -> run_converter c v err = Err RErrNil) /\
  run_converter c v err <> Err RErrRange /\
  (forall z, failed err = None -> v = GInt32 z -> exists want, run_converter c v err = Err (RType want)).
Proof.
  intros Hr.
  assert (Hne : failed err <> Some RErrRange)
    by (destruct err as [|s|e|]; cbn; try done; by destruct (decide (s = ""))).
  assert (Hconv : forall want (get : gval J Sp -> option A), get GNil = None -> (forall z, get (GInt32 z) = None) ->
    (forall e, failed err = Some e -> convert want get v err = Err e) /\
    (failed err = None -> v = GNil -> convert want get v err = Err RErrNil) /\
    convert want get v err <> Err RErrRange /\
    (forall z, failed err = None -> v = GInt32 z -> exists w, convert want get v err = Err (RType w))).
  { intros want get Hn Hz. unfold convert. split; [by intros e ->|]. split; [by intros -> ->; rewrite Hn|]. split.
    - destruct (failed err) as [e|]; [by intros [= ->]|]. destruct (get v); [done|]. by destruct v.
    - intros z -> ->. rewrite Hz. by eexists. }
  destruct c; cbn [run_converter]; rewrite ?Int_is_convert by done;
    (split; [|by apply Hconv]); etransitivity; try apply convert_Ok;
    destruct v; cbn; naive_solver.
Qed.

Definition demo_serializers : list (RPCSerialize unit unit) :=
  [mkRPCSerialize (fun o => if decide (o_type o = "session") then Ok ("session", [x01]) else Err "no")
     (fun ty b => if decide (ty = "session") then Ok (GString "s") else Err "no")].
Definition demo_encode : gval unit unit -> result string (string * bytes) :=
  ArgsTypeAnd2Bytes (fun _ => Err "json") (fun _ => Err "json") (fun _ => Err "json") demo_serializers.
Definition demo_decode : string -> bytes -> outcome (result string (gval unit unit)) :=
  Bytes2Args (fun _ => Err "json") (fun _ => Err "json") (fun _ => Err "json") (fun s => s) demo_serializers.

Lemma args_roundtrip_witness : demo_decode "long" (Int64ToBytes (-5)) = Ret (Ok (GInt64 (-5))).
Proof.
  exact (args_roundtrip (J := unit) (fun _ => Err "json") (fun _ => Err "json") (fun _ => Err "json") (fun _ => Err "json")
    (fun _ => Err "json") (fun _ => Err "json") (fun s => s) demo_serializers (GInt64 (-5)) "long" (Int64ToBytes (-5))
    ltac:(cbn; lia) I eq_refl).
Defined.

Definition demo_object (ty : string) : other := mkOther ty true false None None.

Lemma serializer_tags_witness :
  demo_encode (GOther (demo_object "session")) = Ok ("session", [x01]) /\
  demo_decode "session" [x01] = Ret (Ok (GString "s")).
Proof.
  destruct (serializer_tags (fun _ => Err "json") (fun _ => Err "json") (fun _ => Err "json") (fun _ => Err "json")
    (fun _ => Err "json") (fun _ => Err "json") (fun s => s) demo_serializers (demo_object "session") "session" [x01] eq_refl) as (H1 & H2 & _).
  split; [exact H1|]. exact (H2 eq_refl).
Defined.

Lemma converters_are_exact_witness :
  Int64 (GInt64 7 : gval unit unit) (EString "") = Ok 7.
Proof.
  apply (proj1 (converters_are_exact CInt64 (GInt64 7 : gval unit unit) (EString "") 7 ltac:(cbn; lia))).
  split; reflexivity.
Defined.
