(* ===== verification/NatsClient.v ===== *)
(** * The rpc client over NATS

    [NatsClient] of [rpc/base/nats_client.go] and the calls of
    [rpc/base/rpc_client.go] that wait on it.

    Every section of the client that runs under [cmutex], and every step of the
    receiving goroutine, is an event; [step] says what it does to the client.  A
    callback channel keeps all that was ever sent on it, how much its caller took
    and how often it was closed.  Outside the model: NATS itself (a message, a
    failed receive, a lost subscription and a failed publish are events) and the
    correlation ids, drawn from [gen_cid]. *)
From S2P Require Import Prelude RpcArgs.
#[local] Open Scope mq_scope.
#[local] Open Scope string_scope.
#[local] Open Scope list_scope.
#[local] Open Scope Z_scope.

Abbreviation cref := positive.

(** [rpcpb.ResultInfo] *)
Record ResultInfo := mkResultInfo {
  r_Cid : string; r_Error : string; r_ResultType : string; r_Result : bytes }.

(** A channel of capacity 1, with the id of the call it was made for. *)
Record chan := mkChan { ch_cid : string; sent : list ResultInfo; taken : nat; closes : nat }.

#[export] Instance eta_chan : Eta chan := fun r => mkChan (ch_cid r) (sent r) (taken r) (closes r).

(** Where the receiving goroutine is: before [NextMsg], about to send a result,
    about to close the channel, gone. *)
Inductive loop_state :=
| Idle
| Delivering (ch : cref) (r : ResultInfo)
| Closing (ch : cref)
| Exited.

(** [isClose] is set and [done] closed together; [stopped] is the closed channel of that name.
    [abandoned] are the channels whose caller no longer waits for the client: it
    deleted the call, or its publish failed, or the call was refused. *)
Record NatsClient := mkNatsClient {
  callinfos : gmap string cref; isClose : bool; stopped : bool; sub_valid : bool;
  loop : loop_state; chans : gmap cref chan; calls : nat; abandoned : gset cref }.

#[export] Instance eta_NatsClient : Eta NatsClient := fun r =>
  mkNatsClient (callinfos r) (isClose r) (stopped r) (sub_valid r) (loop r) (chans r) (calls r) (abandoned r).

Definition NewNatsClient : NatsClient := mkNatsClient ∅ false false true Idle ∅ 0 ∅.

Inductive event :=
| EvCall (published : bool)      (** [Call] with a new channel and id *)
| EvDelete (cid : string)        (** [Delete], by a caller that timed out *)
| EvStop                         (** [stop], by [Done] *)
| EvMessage (r : ResultInfo)     (** [NextMsg] gave a result *)
| EvSend                         (** [callback <- resultInfo] *)
| EvSkip                         (** [<-c.done] instead of the send *)
| EvClose                        (** [CloseFch] after the send *)
| EvError (transport_closed resubscribed : bool)  (** [NextMsg] failed *)
| EvLost                         (** the subscription became invalid *)
| EvReturn                       (** the goroutine returns with [c.done] closed *)
| EvTake (ch : cref).            (** a caller receives from its channel *)

Section Client.
Context (gen_cid : nat -> string).

Definition close_chan (ch : cref) (c : NatsClient) : NatsClient :=
  c <| chans := alter (fun x => let n := closes x in x <| closes := S n |>) ch (chans c) |>.

(** [Call]: refused when closed; registered before the publish, and taken back if
    that fails. *)
Definition Call (published : bool) (c : NatsClient) : NatsClient * option string :=
  let ch := fresh (dom (chans c)) in
  let cid := gen_cid (calls c) in
  let c := c <| chans := <[ch := mkChan cid [] 0 0]> (chans c) |> <| calls := S (calls c) |> in
  if isClose c then (c <| abandoned := {[ ch ]} ∪ abandoned c |>, Some "NatsClient is closed")
  else if published then (c <| callinfos := <[cid := ch]> (callinfos c) |>, None)
  else (c <| callinfos := delete cid (callinfos c) |> <| abandoned := {[ ch ]} ∪ abandoned c |>, Some "publish").

Definition Delete (cid : string) (c : NatsClient) : NatsClient :=
  match callinfos c !! cid with
  | None => c
  | Some ch => c <| callinfos := delete cid (callinfos c) |> <| abandoned := {[ ch ]} ∪ abandoned c |>
  end.

Definition stop (c : NatsClient) : NatsClient :=
  if isClose c then c else c <| isClose := true |> <| sub_valid := false |>.

(** [finish] closes what is still pending, under one lock. *)
Definition finish (c : NatsClient) : NatsClient :=
  let c := stop c in
  let c := map_fold (fun _ ch c => close_chan ch c) c (callinfos c) in
  c <| callinfos := ∅ |> <| stopped := true |> <| loop := Exited |>.

(** The section that takes a call out of the table. *)
Definition take_call (r : ResultInfo) (c : NatsClient) : NatsClient :=
  match callinfos c !! r_Cid r with
  | None => c
  | Some ch => c <| callinfos := delete (r_Cid r) (callinfos c) |> <| loop := Delivering ch r |>
  end.

(** [NextMsg] failed: leave when closed or when the transport is, otherwise renew
    an invalid subscription. *)
Definition receive_failed (transport_closed resubscribed : bool) (c : NatsClient) : NatsClient :=
  if isClose c || transport_closed then finish c
  else if sub_valid c then c
  else if resubscribed then c <| sub_valid := true |> else c.

(** The channel has room when everything sent was taken. *)
Definition has_room (x : chan) : bool := (length (sent x) <=? taken x)%nat && (closes x =? 0)%nat.

(** [None]: the event is not possible in this state. *)
Definition step (e : event) (c : NatsClient) : option NatsClient :=
  match e, loop c with
  | EvCall published, _ => Some (Call published c).1
  | EvDelete cid, _ => Some (Delete cid c)
  | EvStop, _ => Some (stop c)
  | EvMessage r, Idle => Some (take_call r c)
  | EvSend, Delivering ch r =>
      match chans c !! ch with
      | Some x => if has_room x
                  then let l := sent x in
                       Some (c <| chans := <[ch := x <| sent := l ++ [r] |>]> (chans c) |> <| loop := Closing ch |>)
                  else None
      | None => None
      end
  | EvSkip, Delivering ch r => if isClose c then Some (c <| loop := Closing ch |>) else None
  | EvClose, Closing ch => Some (close_chan ch c <| loop := Idle |>)
  | EvError transport_closed resubscribed, Idle => Some (receive_failed transport_closed resubscribed c)
  | EvLost, _ => Some (c <| sub_valid := false |>)
  | EvReturn, Idle => if isClose c then Some (finish c) else None
  | EvTake ch, _ =>
      match chans c !! ch with
      | Some x => if (taken x <? length (sent x))%nat
                  then let n := taken x in Some (c <| chans := <[ch := x <| taken := S n |>]> (chans c) |>)
                  else None
      | None => None
      end
  | _, _ => None
  end.

Definition run : list event -> NatsClient -> option NatsClient := run_steps (fun c e => step e c).

(** ** The waiting caller *)

(** What the [select] of [CallArgs] may wake up with. *)
Inductive wake := WResult (r : ResultInfo) | WClosed | WTimeout.

(** Which wakes a channel allows; the deadline is always possible. *)
Definition can_wake (x : chan) (w : wake) : Prop :=
  match w with
  | WResult r => sent x !! taken x = Some r
  | WClosed => (length (sent x) <= taken x)%nat /\ (0 < closes x)%nat
  | WTimeout => True
  end.

Section CallArgs.
Context {V : Type} (Bytes2Args : string -> bytes -> outcome (result string V)).

(** The rest of [CallArgs] after its [select], with the event it causes. *)
Definition CallArgs_end (cid : string) (ch : cref) (w : wake) : option event * outcome (result string V) :=
  match w with
  | WClosed => (None, Ret (Err "client closed"))
  | WResult r =>
      (Some (EvTake ch),
       if decide (r_Error r = "") then Bytes2Args (r_ResultType r) (r_Result r) else Ret (Err (r_Error r)))
  | WTimeout => (Some (EvDelete cid), Ret (Err "deadline exceeded"))
  end.
End CallArgs.
End Client.

(** [rpcpb.RPCInfo], built by [CallArgs] and [CallNRArgs]: times are in
    nanoseconds, [Expired] in milliseconds.  [ctx_caller] is the "caller" entry of
    a non-nil context when it is a string. *)
Record RPCInfo := mkRPCInfo {
  Cid : string; Fn : string; ReplyTo : string; Expired : Z; Reply : bool;
  ArgsType : list string; Args : list bytes; Caller : string; Hostname : string }.

Definition call_info (hostname cid : string) (ctx_caller : option string) (start rpc_expired : Z) (reply : bool)
    (fn : string) (argsType : list string) (args : list bytes) : RPCInfo :=
  let caller := match ctx_caller with Some c => c | None => hostname end in
  mkRPCInfo cid fn "" (Z.quot (start + rpc_expired) 1000000) reply argsType args caller caller.
