(* ===== verification/NatsClientTheorems.v ===== *)
(** * Theorems about the rpc client *)
From stdpp Require Import pretty.
From S2P Require Import Prelude RpcArgs NatsClient.
#[local] Open Scope mq_scope.
#[local] Open Scope string_scope.
#[local] Open Scope list_scope.
#[local] Open Scope Z_scope.

Section Invariant.
Context (gen_cid : nat -> string) (Hgen : Inj (=) (=) gen_cid).

(** The receiving goroutine holds the channel. *)
Definition held (c : NatsClient) (ch : cref) : Prop :=
  match loop c with Delivering ch' _ | Closing ch' => ch = ch' | _ => False end.
Definition pending (c : NatsClient) (ch : cref) : Prop := exists cid, callinfos c !! cid = Some ch.

(** A channel still untouched, for the call [cid]. *)
Definition untouched (c : NatsClient) (ch : cref) (cid : string) : Prop :=
  exists x, chans c !! ch = Some x /\ ch_cid x = cid /\ sent x = [] /\ taken x = 0%nat /\ closes x = 0%nat.

(** A channel got at most one result, that of its call, and was closed at most
    once. *)
Definition sound_chan (x : chan) : Prop :=
  (length (sent x) <= 1)%nat /\ (taken x <= length (sent x))%nat /\ (closes x <= 1)%nat /\
  Forall (fun r => r_Cid r = ch_cid x) (sent x).

Record inv (c : NatsClient) : Prop := {
  i_pending : forall cid ch, callinfos c !! cid = Some ch ->
    untouched c ch cid /\ exists k, (k < calls c)%nat /\ cid = gen_cid k;
  i_held : forall ch, held c ch -> ~ pending c ch /\ exists x, chans c !! ch = Some x /\ closes x = 0%nat;
  i_delivering : forall ch r, loop c = Delivering ch r -> untouched c ch (r_Cid r);
  i_sound : forall ch x, chans c !! ch = Some x -> sound_chan x;
  i_closed : isClose c = true -> sub_valid c = false;
  i_stopped : stopped c = true -> isClose c = true /\ callinfos c = ∅;
  i_exited : loop c = Exited <-> stopped c = true;
  i_account : forall ch x, chans c !! ch = Some x -> closes x = 0%nat ->
    ch ∈ abandoned c \/ pending c ch \/ held c ch }.

Lemma inv_NewNatsClient : inv NewNatsClient.
Proof.
  split; cbn; try done; intros ? ?; rewrite ?lookup_empty; try done.
Qed.

Lemma untouched_cid c ch i j : untouched c ch i -> untouched c ch j -> i = j.
Proof. intros (x & Hx & <- & _) (y & Hy & <- & _). congruence. Qed.

Lemma pending_inj c i j ch : inv c -> callinfos c !! i = Some ch -> callinfos c !! j = Some ch -> i = j.
Proof.
  intros Hi H1 H2. eapply untouched_cid; [apply (i_pending c Hi i ch H1)|apply (i_pending c Hi j ch H2)].
Qed.

(** ** Frame lemmas *)

Lemma untouched_chans c c' ch cid : chans c' !! ch = chans c !! ch -> untouched c ch cid -> untouched c' ch cid.
Proof. unfold untouched. by intros ->. Qed.

Lemma fresh_chan (c : NatsClient) : chans c !! fresh (dom (chans c)) = None.
Proof. apply not_elem_of_dom, is_fresh. Qed.

Lemma not_pending_fresh c : inv c -> ~ pending c (fresh (dom (chans c))).
Proof.
  intros Hi (cid & Hc). destruct (i_pending c Hi cid _ Hc) as [(x & Hx & _) _]. by rewrite fresh_chan in Hx.
Qed.

(** ** Preservation *)

(** [c'] is [c] with one more channel, whose call is pending or abandoned. *)
Lemma inv_new_chan c c' : inv c ->
  let ch0 := fresh (dom (chans c)) in let cid0 := gen_cid (calls c) in
  chans c' = <[ch0 := mkChan cid0 [] 0 0]> (chans c) -> calls c' = S (calls c) -> loop c' = loop c ->
  isClose c' = isClose c -> stopped c' = stopped c -> sub_valid c' = sub_valid c ->
  (callinfos c' = callinfos c /\ abandoned c' = {[ ch0 ]} ∪ abandoned c \/
   callinfos c' = <[cid0 := ch0]> (callinfos c) /\ abandoned c' = abandoned c /\ isClose c = false) -> inv c'.
Proof.
  intros Hi ch0 cid0 Hch Hcalls Hloop Hcl Hst Hsub Hcase.
  pose proof (fresh_chan c) as Hf. pose proof (not_pending_fresh c Hi) as Hnp. fold ch0 in Hf, Hnp.
  assert (Hold : forall ch x, chans c !! ch = Some x -> chans c' !! ch = Some x).
  { intros ch x Hx. rewrite Hch, lookup_insert_ne; [done|]. intros <-. congruence. }
  assert (Hnew : callinfos c !! cid0 = None).
  { destruct (callinfos c !! cid0) as [ch|] eqn:E; [|done].
    destruct (i_pending c Hi cid0 ch E) as [_ (k & Hk & Heq)]. apply Hgen in Heq. lia. }
  assert (Hkeep : forall ch cid, untouched c ch cid -> untouched c' ch cid).
  { intros ch cid (x & Hx & H). exists x. split; [by apply Hold|done]. }
  assert (Hheld : forall ch, held c' ch <-> held c ch) by (intros ch; unfold held; by rewrite Hloop).
  assert (Hpend : forall cid ch, callinfos c' !! cid = Some ch -> callinfos c !! cid = Some ch \/ cid = cid0 /\ ch = ch0).
  { intros cid ch H. destruct Hcase as [[Hci _]|[Hci _]]; rewrite Hci in H; [by left|].
    apply lookup_insert_Some in H as [[<- <-]|[_ H]]; [by right|by left]. }
  split.
  - intros cid ch H. rewrite Hcalls. destruct (Hpend cid ch H) as [Hp|[-> ->]].
    + destruct (i_pending c Hi cid ch Hp) as [Hu (k & Hk & E)]. split; [by apply Hkeep|]. exists k. split; [lia|done].
    + split; [exists (mkChan cid0 [] 0 0); rewrite Hch; by rewrite lookup_insert_eq|]. exists (calls c). split; [lia|done].
  - intros ch Hh. apply Hheld in Hh. destruct (i_held c Hi ch Hh) as [Hn (x & Hx & Hz)].
    split; [|exists x; split; [by apply Hold|done]].
    intros (cid & H). destruct (Hpend cid ch H) as [Hp|[_ ->]]; [by apply Hn; exists cid|congruence].
  - intros ch r Hl. apply Hkeep, (i_delivering c Hi). congruence.
  - intros ch x. rewrite Hch. intros [[<- <-]|[_ Hx]]%lookup_insert_Some; [|by eapply i_sound].
    split; [cbn; lia|]. split; [cbn; lia|]. split; [cbn; lia|constructor].
  - rewrite Hcl, Hsub. apply (i_closed c Hi).
  - rewrite Hst, Hcl. intros Hs. destruct (i_stopped c Hi Hs) as [Hc Hcis]. split; [done|].
    destruct Hcase as [[Hci _]|(_ & _ & ?)]; congruence.
  - rewrite Hst, Hloop. apply (i_exited c Hi).
  - intros ch x. rewrite Hch, Hheld. intros [[<- <-]|[Hne Hx]]%lookup_insert_Some Hz.
    + destruct Hcase as [[_ ->]|(Hci & _)]; [left; set_solver|]. right. left. exists cid0. rewrite Hci. by rewrite lookup_insert_eq.
    + destruct (i_account c Hi ch x Hx Hz) as [?|[(cid & H)|?]]; [|right; left|by right; right].
      * left. destruct Hcase as [[_ ->]|(_ & -> & _)]; set_solver.
      * exists cid. destruct Hcase as [[-> _]|(-> & _)]; [done|]. rewrite lookup_insert_ne; [done|]. intros E. congruence.
Qed.

Lemma inv_Call b c : inv c -> inv (Call gen_cid b c).1.
Proof.
  intros Hi. assert (Hnew : delete (gen_cid (calls c)) (callinfos c) = callinfos c).
  { apply delete_id. destruct (callinfos c !! gen_cid (calls c)) as [ch|] eqn:E; [|done].
    destruct (i_pending c Hi _ ch E) as [_ (k & Hk & Heq)]. apply Hgen in Heq. lia. }
  unfold Call. cbn. destruct (isClose c) eqn:Hc; [|destruct b]; cbn;
    apply (inv_new_chan c _ Hi); cbn; auto.
Qed.

Lemma inv_Delete cid c : inv c -> inv (Delete cid c).
Proof.
  intros Hi. unfold Delete. destruct (callinfos c !! cid) as [ch0|] eqn:Hc; [|done].
  assert (Hp : forall ch, pending (c <| callinfos := delete cid (callinfos c) |> <| abandoned := {[ ch0 ]} ∪ abandoned c |>) ch -> pending c ch).
  { intros ch (i & H). cbn in H. apply lookup_delete_Some in H as [_ H]. by exists i. }
  split; cbn.
  - intros i ch [_ H]%lookup_delete_Some. by apply (i_pending c Hi).
  - intros ch Hh. destruct (i_held c Hi ch Hh) as [Hn Hx]. split; [by intros ?%Hp|done].
  - apply (i_delivering c Hi).
  - apply (i_sound c Hi).
  - apply (i_closed c Hi).
  - intros Hs. destruct (i_stopped c Hi Hs) as [? E]. split; [done|]. by rewrite E, delete_empty.
  - apply (i_exited c Hi).
  - intros ch x Hx Hz. destruct (i_account c Hi ch x Hx Hz) as [?|[(i & H)|?]]; [left; set_solver| |by right; right].
    destruct (decide (i = cid)) as [->|Hne]; [left; rewrite Hc in H; injection H as <-; set_solver|].
    right. left. exists i. cbn. by rewrite lookup_delete_ne.
Qed.

Lemma inv_stop c : inv c -> inv (stop c).
Proof.
  intros Hi. unfold stop. destruct (isClose c) eqn:Hc; [done|]. destruct Hi as [H1 H2 H3 H4 H5 H6 H7 H8].
  split; cbn; try done. intros Hs. destruct (H6 Hs). congruence.
Qed.

Lemma inv_take_call r c : inv c -> loop c = Idle -> inv (take_call r c).
Proof.
  intros Hi Hl. unfold take_call. destruct (callinfos c !! r_Cid r) as [ch0|] eqn:Hc; [|done].
  destruct (i_pending c Hi _ ch0 Hc) as [Hu _].
  split; cbn.
  - intros i ch [_ H]%lookup_delete_Some. by apply (i_pending c Hi).
  - intros ch Hh. change (ch = ch0) in Hh. subst ch. split.
    + intros (i & H). cbn in H. apply lookup_delete_Some in H as [Hne H]. apply Hne. by eapply pending_inj.
    + destruct Hu as (x & Hx & _ & _ & _ & Hz). by exists x.
  - intros ch r' [= <- <-]. done.
  - apply (i_sound c Hi).
  - apply (i_closed c Hi).
  - intros Hs. destruct (i_stopped c Hi Hs) as [? E]. rewrite E in Hc. by rewrite lookup_empty in Hc.
  - split; [done|]. intros Hs. destruct (i_stopped c Hi Hs) as [? E]. rewrite E in Hc. by rewrite lookup_empty in Hc.
  - intros ch x Hx Hz. destruct (i_account c Hi ch x Hx Hz) as [?|[(i & H)|Hh]]; [by left| |unfold held in Hh; by rewrite Hl in Hh].
    right. destruct (decide (i = r_Cid r)) as [->|Hne]; [right|left].
    + change (ch = ch0). congruence.
    + exists i. cbn. by rewrite lookup_delete_ne.
Qed.

(** Events that change one channel, or where the goroutine is, but no table. *)
Lemma inv_chan_step c c' ch0 x0 x1 : inv c -> chans c !! ch0 = Some x0 -> sound_chan x1 ->
  ch_cid x1 = ch_cid x0 -> (closes x0 <= closes x1)%nat ->
  chans c' = <[ch0 := x1]> (chans c) -> callinfos c' = callinfos c -> calls c' = calls c ->
  isClose c' = isClose c -> stopped c' = stopped c -> sub_valid c' = sub_valid c -> abandoned c' = abandoned c ->
  (loop c' = Exited <-> stopped c = true) ->
  (forall ch, held c' ch -> held c ch /\ (ch = ch0 -> closes x1 = 0%nat)) ->
  (forall ch r, loop c' = Delivering ch r -> loop c = Delivering ch r /\ (ch = ch0 -> x1 = x0)) ->
  (pending c ch0 -> x1 = x0) ->
  (closes x1 = 0%nat -> forall ch, held c ch -> held c' ch) ->
  (forall ch, held c ch -> ch <> ch0 -> held c' ch) -> inv c'.
Proof.
  intros Hi Hx0 Hs1 Hcid Hle Hch Hci Hcalls Hcl Hst Hsub Hab Hex Hheld Hdel Hpend Hheld' Hheld0.
  assert (Hkeep : forall ch cid, (ch = ch0 -> x1 = x0) -> untouched c ch cid -> untouched c' ch cid).
  { intros ch cid He (x & Hx & H). exists x. rewrite Hch. destruct (decide (ch0 = ch)) as [<-|Hne].
    - rewrite He, lookup_insert_eq by done. split; [congruence|done].
    - by rewrite lookup_insert_ne. }
  assert (Hp : forall ch, pending c' ch <-> pending c ch) by (intros ch; unfold pending; by rewrite Hci).
  split.
  - intros cid ch H. rewrite Hci in H. rewrite Hcalls. destruct (i_pending c Hi cid ch H) as [Hu Hk].
    split; [|done]. apply Hkeep; [|done]. intros ->. apply Hpend. by exists cid.
  - intros ch Hh. destruct (Hheld ch Hh) as [Hh' Hz]. destruct (i_held c Hi ch Hh') as [Hn (x & Hx & Hxz)].
    split; [by rewrite Hp|]. rewrite Hch. destruct (decide (ch0 = ch)) as [<-|Hne].
    + exists x1. rewrite lookup_insert_eq. split; [done|by apply Hz].
    + exists x. by rewrite lookup_insert_ne.
  - intros ch r Hl. destruct (Hdel ch r Hl) as [Hl' He]. apply Hkeep; [done|]. by apply (i_delivering c Hi).
  - intros ch x. rewrite Hch. intros [[<- <-]|[_ Hx]]%lookup_insert_Some; [done|by eapply i_sound].
  - rewrite Hcl, Hsub. apply (i_closed c Hi).
  - rewrite Hst, Hcl, Hci. apply (i_stopped c Hi).
  - by rewrite Hst.
  - intros ch x. rewrite Hch, Hab, Hp. intros [[<- <-]|[Hne Hx]]%lookup_insert_Some Hz.
    + destruct (i_account c Hi ch0 x0 Hx0 ltac:(lia)) as [?|[?|Hh]]; [by left|by right; left|right; right; by apply Hheld'].
    + destruct (i_account c Hi ch x Hx Hz) as [?|[?|Hh]]; [by left|by right; left|right; right]. by apply Hheld0.
Qed.

Lemma inv_send c ch r x : inv c -> loop c = Delivering ch r -> chans c !! ch = Some x ->
  let l := sent x in
  inv (c <| chans := <[ch := x <| sent := l ++ [r] |>]> (chans c) |> <| loop := Closing ch |>).
Proof.
  intros Hi Hl Hx l. assert (Hh : held c ch) by (unfold held; by rewrite Hl).
  destruct (i_delivering c Hi ch r Hl) as (y & Hy & Hcid & Hs & Ht & Hz).
  rewrite Hx in Hy. injection Hy as <-. destruct (i_held c Hi ch Hh) as [Hnp _].
  assert (Heq : forall ch', held c ch' <-> ch' = ch) by (intros ch'; unfold held; by rewrite Hl).
  apply (inv_chan_step c _ ch x (x <| sent := l ++ [r] |>)); try done; unfold l; rewrite ?Hs; cbn.
  - split; [cbn; lia|]. split; [cbn; lia|]. split; [cbn; lia|]. by repeat constructor.
  - split; [done|]. intros Hst. apply (i_exited c Hi) in Hst. congruence.
  - intros ch' E. change (ch' = ch) in E. subst ch'. by split.
  - intros _ ch' E. by apply Heq in E.
  - intros ch' E. by apply Heq in E.
Qed.

Lemma inv_skip c ch r : inv c -> loop c = Delivering ch r -> inv (c <| loop := Closing ch |>).
Proof.
  intros Hi Hl. assert (Hh : held c ch) by (unfold held; by rewrite Hl).
  destruct (i_delivering c Hi ch r Hl) as (x & Hx & Hcid & Hs & Ht & Hz).
  assert (Heq : forall ch', held c ch' <-> ch' = ch) by (intros ch'; unfold held; by rewrite Hl).
  apply (inv_chan_step c _ ch x x); try done; cbn.
  - by eapply i_sound.
  - by rewrite insert_id.
  - split; [done|]. intros Hst. apply (i_exited c Hi) in Hst. congruence.
  - intros ch' E. change (ch' = ch) in E. subst ch'. by split.
  - intros _ ch' E. by apply Heq in E.
  - intros ch' E. by apply Heq in E.
Qed.

Lemma close_chan_chans ch x c : chans c !! ch = Some x ->
  chans (close_chan ch c) = <[ch := x <| closes := S (closes x) |>]> (chans c).
Proof.
  intros Hx. cbn. apply map_eq. intros q. destruct (decide (q = ch)) as [->|Hq].
  - by rewrite lookup_alter_eq, lookup_insert_eq, Hx.
  - by rewrite lookup_alter_ne, lookup_insert_ne.
Qed.

Lemma inv_close c ch : inv c -> loop c = Closing ch -> inv (close_chan ch c <| loop := Idle |>).
Proof.
  intros Hi Hl. assert (Hh : held c ch) by (unfold held; by rewrite Hl).
  destruct (i_held c Hi ch Hh) as [Hnp (x & Hx & Hz)].
  assert (Heq : forall ch', held c ch' <-> ch' = ch) by (intros ch'; unfold held; by rewrite Hl).
  destruct (i_sound c Hi ch x Hx) as (S1 & S2 & S3 & S4).
  apply (inv_chan_step c _ ch x (x <| closes := S (closes x) |>)); try done.
  - split; [done|]. split; [done|]. split; [cbn; lia|done].
  - cbn. lia.
  - exact (close_chan_chans ch x c Hx).
  - split; [done|]. intros Hst. apply (i_exited c Hi) in Hst. congruence.
  - intros ch' E. by apply Heq in E.
Qed.

Lemma inv_take ch x c : inv c -> chans c !! ch = Some x -> (taken x < length (sent x))%nat ->
  let n := taken x in inv (c <| chans := <[ch := x <| taken := S n |>]> (chans c) |>).
Proof.
  intros Hi Hx Hlt n. destruct (i_sound c Hi ch x Hx) as (S1 & S2 & S3 & S4).
  assert (Hun : forall cid, ~ untouched c ch cid).
  { intros cid (y & Hy & _ & Hs & _). rewrite Hx in Hy. injection Hy as <-. rewrite Hs in Hlt. cbn in Hlt. lia. }
  apply (inv_chan_step c _ ch x (x <| taken := S n |>)); try done.
  - apply (i_exited c Hi).
  - intros ch' E. split; [done|]. intros ->. destruct (i_held c Hi ch E) as [_ (y & Hy & Hz)]. cbn. congruence.
  - intros ch' r Hl. split; [done|]. intros ->. by destruct (Hun _ (i_delivering c Hi ch r Hl)).
  - intros (cid & H). destruct (i_pending c Hi cid ch H) as [Hu _]. by destruct (Hun cid).
Qed.

(** ** [finish] *)

Definition close_pending (m : gmap string cref) (c : NatsClient) : NatsClient :=
  map_fold (fun _ ch c => close_chan ch c) c m.

Lemma close_pending_frame m c : let c' := close_pending m c in
  callinfos c' = callinfos c /\ isClose c' = isClose c /\ sub_valid c' = sub_valid c /\
  calls c' = calls c /\ abandoned c' = abandoned c.
Proof.
  unfold close_pending. cbv zeta.
  apply (map_fold_weak_ind (fun (c' : NatsClient) (_ : gmap string cref) => callinfos c' = callinfos c /\ isClose c' = isClose c /\ sub_valid c' = sub_valid c /\
    calls c' = calls c /\ abandoned c' = abandoned c)); [done|]. intros cid ch m' c' _ H. exact H.
Qed.

Definition bump (x : chan) : chan := let n := closes x in x <| closes := S n |>.

Lemma close_pending_chans m c : (forall i j ch, m !! i = Some ch -> m !! j = Some ch -> i = j) ->
  (forall ch, (forall i, m !! i <> Some ch) -> chans (close_pending m c) !! ch = chans c !! ch) /\
  (forall i ch, m !! i = Some ch -> chans (close_pending m c) !! ch = bump <$> chans c !! ch).
Proof.
  unfold close_pending.
  apply (map_fold_weak_ind (fun (c' : NatsClient) (m : gmap string cref) => (forall i j ch, m !! i = Some ch -> m !! j = Some ch -> i = j) ->
    (forall ch, (forall i, m !! i <> Some ch) -> chans c' !! ch = chans c !! ch) /\
    (forall i ch, m !! i = Some ch -> chans c' !! ch = bump <$> chans c !! ch))); [by split|].
  intros cid ch0 m' c' Hnone IH Hinj.
  assert (Hfresh : forall i, m' !! i <> Some ch0).
  { intros i Hi. assert (i = cid) as ->; [|congruence].
    apply (Hinj i cid ch0); [|apply lookup_insert_eq]. rewrite lookup_insert_ne; [done|]. intros ->. congruence. }
  destruct IH as [IH1 IH2].
  { intros i j ch Hi Hj. apply (Hinj i j ch); (rewrite lookup_insert_ne; [done|intros ->; congruence]). }
  split.
  - intros ch Hch. assert (ch0 <> ch) as Hne by (intros ->; apply (Hch cid), lookup_insert_eq).
    cbn. rewrite lookup_alter_ne by done. apply IH1. intros i Hi. apply (Hch i).
    rewrite lookup_insert_ne; [done|]. intros ->. congruence.
  - intros i ch [[<- <-]|[Hne Hi]]%lookup_insert_Some; cbn.
    + rewrite lookup_alter_eq. by rewrite (IH1 ch0 Hfresh).
    + rewrite lookup_alter_ne by (intros ->; by destruct (Hfresh i)). by apply (IH2 i).
Qed.

Lemma stop_frame c : callinfos (stop c) = callinfos c /\ isClose (stop c) = true /\ loop (stop c) = loop c /\
  chans (stop c) = chans c /\ stopped (stop c) = stopped c.
Proof. unfold stop. destruct (isClose c) eqn:E; cbn; by repeat split. Qed.

Lemma inv_finish c : inv c -> loop c = Idle -> inv (finish c).
Proof.
  intros Hi0 Hl0. pose proof (inv_stop c Hi0) as Hi. destruct (stop_frame c) as (_ & Hcl & Hl & _ & _).
  unfold finish. rewrite Hl0 in Hl. set (c1 := stop c) in *.
  change (map_fold _ c1 (callinfos c1)) with (close_pending (callinfos c1) c1).
  destruct (close_pending_frame (callinfos c1) c1) as (F1 & F2 & F3 & F4 & F5).
  destruct (close_pending_chans (callinfos c1) c1) as [C1 C2]; [intros i j ch; by apply pending_inj|].
  set (c2 := close_pending (callinfos c1) c1) in *.
  assert (Hchan : forall ch x, chans c2 !! ch = Some x ->
            (chans c1 !! ch = Some x /\ ~ pending c1 ch) \/
            exists y cid, callinfos c1 !! cid = Some ch /\ untouched c1 ch cid /\ chans c1 !! ch = Some y /\ x = bump y).
  { intros ch x Hx. destruct (decide (ch ∈ snd <$> map_to_list (callinfos c1))) as [Hin|Hout].
    - apply list_elem_of_fmap in Hin as ([cid ch'] & -> & Hin). apply elem_of_map_to_list in Hin. cbn in *.
      right. destruct (i_pending c1 Hi cid ch' Hin) as [Hu _]. pose proof Hu as (y & Hy & _).
      rewrite (C2 cid ch' Hin), Hy in Hx. injection Hx as <-. by exists y, cid.
    - left. assert (forall i, callinfos c1 !! i <> Some ch) as Hno.
      { intros i H. apply Hout, list_elem_of_fmap. exists (i, ch). split; [done|]. by apply elem_of_map_to_list. }
      rewrite (C1 ch Hno) in Hx. split; [done|]. intros (i & H). by apply (Hno i). }
  split; cbn.
  - intros cid ch. by rewrite lookup_empty.
  - intros ch Hh. by destruct Hh.
  - done.
  - intros ch x Hx. destruct (Hchan ch x Hx) as [[H _]|(y & cid & _ & (z & Hz & _ & Hs & Ht & Hc) & Hy & ->)]; [by eapply i_sound|].
    rewrite Hy in Hz. injection Hz as <-. unfold sound_chan, bump. cbn. rewrite Hs, Ht, Hc. cbn.
    split; [lia|]. split; [lia|]. split; [lia|constructor].
  - rewrite F2, F3. apply (i_closed c1 Hi).
  - intros _. by rewrite F2.
  - done.
  - intros ch x Hx Hz. left. rewrite F5.
    destruct (Hchan ch x Hx) as [[H Hnp]|(y & cid & _ & _ & _ & ->)]; [|by cbn in Hz].
    destruct (i_account c1 Hi ch x H Hz) as [?|[?|Hh]]; [done|done|]. unfold held in Hh. by rewrite Hl in Hh.
Qed.

Lemma inv_step e c c' : inv c -> step gen_cid e c = Some c' -> inv c'.
Proof.
  intros Hi. destruct e as [b|cid| |r| | | |tc rs| | |ch]; cbn [step].
  - intros [= <-]. by apply inv_Call.
  - intros [= <-]. by apply inv_Delete.
  - intros [= <-]. by apply inv_stop.
  - destruct (loop c) eqn:Hl; try done. intros [= <-]. by apply inv_take_call.
  - destruct (loop c) as [|ch r| |] eqn:Hl; try done. destruct (chans c !! ch) as [x|] eqn:Hx; [|done].
    destruct (has_room x); [|done]. intros [= <-]. by apply inv_send.
  - destruct (loop c) as [|ch r| |] eqn:Hl; try done. destruct (isClose c); [|done]. intros [= <-]. by eapply inv_skip.
  - destruct (loop c) as [| |ch|] eqn:Hl; try done. intros [= <-]. by apply inv_close.
  - destruct (loop c) eqn:Hl; try done. intros [= <-]. unfold receive_failed.
    destruct (isClose c || tc) eqn:E; [by apply inv_finish|]. apply orb_false_iff in E as [Hc _].
    destruct (sub_valid c); [done|]. destruct rs; [|done]. destruct Hi. split; cbn; try done. congruence.
  - intros [= <-]. destruct Hi. by split.
  - destruct (loop c) eqn:Hl; try done. destruct (isClose c); [|done]. intros [= <-]. by apply inv_finish.
  - destruct (chans c !! ch) as [x|] eqn:Hx; [|done]. destruct (taken x <? length (sent x))%nat eqn:E; [|done].
    intros [= <-]. apply inv_take; [done|done|]. by apply Nat.ltb_lt.
Qed.

Lemma inv_run evs c c' : inv c -> run gen_cid evs c = Some c' -> inv c'.
Proof. apply run_steps_keep. intros x e y. apply inv_step. Qed.
End Invariant.

(** ** Properties *)

(** C17. Whatever the order of calls, results, timeouts, lost subscriptions and
    closing, a callback channel gets at most one result, the one with its call's
    id, and is closed at most once; the goroutine that has taken a call out of the
    table can always send; a closed client has no subscription; and once the client
    has stopped, every caller that did not give up itself is woken, by its result or by the
    closed channel. *)
Theorem calls_are_answered_once (gen_cid : nat -> string) (evs : list event) (c : NatsClient) :
  Inj (=) (=) gen_cid -> run gen_cid evs NewNatsClient = Some c ->
  (forall ch x, chans c !! ch = Some x -> sound_chan x) /\
  (forall ch r, loop c = Delivering ch r -> step gen_cid EvSend c <> None) /\
  (isClose c = true -> sub_valid c = false) /\
  (stopped c = true -> forall ch x, chans c !! ch = Some x -> ch ∉ abandoned c ->
     can_wake x WClosed \/ exists r, can_wake x (WResult r) /\ r_Cid r = ch_cid x).
Proof.
  intros Hgen Hrun. pose proof (inv_run gen_cid Hgen evs _ c (inv_NewNatsClient gen_cid) Hrun) as Hi.
  split; [apply (i_sound _ c Hi)|]. split; [|split; [apply (i_closed _ c Hi)|]].
  - intros ch r Hl. destruct (i_delivering _ c Hi ch r Hl) as (x & Hx & _ & Hs & Ht & Hz).
    cbn [step]. rewrite Hl, Hx. unfold has_room. by rewrite Hs, Ht, Hz.
  - intros Hst ch x Hx Hab. destruct (i_stopped _ c Hi Hst) as [_ Hci].
    assert (loop c = Exited) as Hl by (by apply (i_exited _ c Hi)).
    destruct (i_sound _ c Hi ch x Hx) as (S1 & S2 & S3 & S4).
    assert (closes x <> 0%nat) as Hz.
    { intros Hz. destruct (i_account _ c Hi ch x Hx Hz) as [?|[(cid & H)|Hh]]; [done| |].
      - by rewrite Hci, lookup_empty in H.
      - unfold held in Hh. by rewrite Hl in Hh. }
    destruct (decide (length (sent x) <= taken x)%nat) as [Hle|Hgt]; [left; split; [done|lia]|].
    right. destruct (lookup_lt_is_Some_2 (sent x) (taken x)) as [r Hr]; [lia|].
    exists r. split; [done|]. by eapply Forall_lookup_1 in S4.
Qed.

Definition demo_result : ResultInfo := mkResultInfo "0" "" "null" [].
(** A call answered, one pending when the client stops. *)
Definition demo_events : list event :=
  [EvCall true; EvCall true; EvMessage demo_result; EvSend; EvClose; EvStop; EvReturn].

Lemma calls_are_answered_once_witness :
  exists c, run pretty demo_events NewNatsClient = Some c /\ stopped c = true /\
    forall ch x, chans c !! ch = Some x -> sound_chan x.
Proof.
  destruct (run pretty demo_events NewNatsClient) as [c|] eqn:E; [|by vm_compute in E].
  exists c. split; [done|]. split; [by vm_compute in E; injection E as <-|].
  exact (proj1 (calls_are_answered_once pretty demo_events c pretty_nat_inj E)).
Defined.

Ltac own_events := repeat (apply Forall_cons_2; [tauto|]); constructor.

(** [Done] always returns: from every state that can arise, once [stop] has
    run the receiving goroutine needs at most three steps of its own, none of
    which waits for a caller or for NATS, to leave and release what is pending. *)
Lemma done_terminates (gen_cid : nat -> string) (evs : list event) (c : NatsClient) :
  Inj (=) (=) gen_cid -> run gen_cid evs NewNatsClient = Some c ->
  exists own c', Forall (fun e => e = EvSkip \/ e = EvClose \/ e = EvReturn) own /\ (length own <= 3)%nat /\
    run gen_cid own (stop c) = Some c' /\ stopped c' = true /\ callinfos c' = ∅.
Proof.
  intros Hgen Hrun. pose proof (inv_run gen_cid Hgen evs _ c (inv_NewNatsClient gen_cid) Hrun) as Hi0.
  pose proof (inv_stop gen_cid c Hi0) as Hi. destruct (stop_frame c) as (_ & Hcl & _).
  set (c1 := stop c) in *.
  assert (Hret : forall c2, isClose c2 = true -> loop c2 = Idle ->
            run gen_cid [EvReturn] c2 = Some (finish c2)) by (intros c2 H1 H2; cbn; by rewrite H2, H1).
  assert (Hclose : forall c2 ch, isClose c2 = true -> loop c2 = Closing ch ->
            run gen_cid [EvClose; EvReturn] c2 = Some (finish (close_chan ch c2 <| loop := Idle |>)))
    by (intros c2 ch H1 H2; cbn; by rewrite H2; cbn; rewrite H1).
  destruct (loop c1) as [|ch r|ch|] eqn:Hl.
  - exists [EvReturn], (finish c1). split; [own_events|]. split; [cbn; lia|]. by rewrite Hret.
  - exists [EvSkip; EvClose; EvReturn]. eexists. split; [own_events|]. split; [cbn; lia|].
    split; [unfold run; cbn [run_steps step]; rewrite Hl, Hcl; apply Hclose; [exact Hcl|reflexivity]|done].
  - exists [EvClose; EvReturn]. eexists. split; [own_events|]. split; [cbn; lia|].
    split; [by apply Hclose|done].
  - exists [], c1. split; [constructor|]. split; [cbn; lia|]. split; [done|].
    assert (stopped c1 = true) as Hst by (by apply (i_exited _ c1 Hi)).
    split; [done|]. apply (i_stopped _ c1 Hi Hst).
Qed.

Lemma done_terminates_witness :
  exists own c', Forall (fun e => e = EvSkip \/ e = EvClose \/ e = EvReturn) own /\ (length own <= 3)%nat /\
    run pretty own (stop NewNatsClient) = Some c' /\ stopped c' = true /\ callinfos c' = ∅.
Proof. exact (done_terminates pretty [] NewNatsClient pretty_nat_inj eq_refl). Defined.
