(* ===== verification/RpcServer.v ===== *)
(** * The rpc server

    [RPCServer] of [rpc/base/rpc_server.go] and the request side of
    [rpc/base/nats_server.go]: registration of functions, the execution of one
    request and its reply.

    [Register] and [RegisterGO] keep what reflection finds out about a function
    ([FunctionInfo]).  [V] are the values reflection handles; [of_gval] makes one
    of a decoded argument, and [encode] and [Bytes2Args] are those of [RpcArgs].
    Outside the model: the function bodies, the unmarshalling of a message or of
    JSON into a parameter's type, and the listener and handlers an application
    installs, which may fail and may panic. *)
From S2P Require Import Prelude RpcArgs NatsClient.
#[local] Open Scope mq_scope.
#[local] Open Scope st_scope.
#[local] Open Scope string_scope.
#[local] Open Scope list_scope.
#[local] Open Scope Z_scope.

(** How the code sees the second output of a function. *)
Inductive out_err := ONil | OString (s : string) | OError (s : string) | OOther.

(** What a call of the function does: it returns its outputs, or panics with a
    value whose text, when it is a string or an error, is [why], and [""]
    otherwise. *)
Inductive body_result (V : Type) :=
| Returns (outs : list V)
| Panics (why : string).
Arguments Returns {V} outs.
Arguments Panics {V} why.

(** The type of a parameter: a protobuf message or [Marshaler], which is
    unmarshalled, or another type, with its zero value, whether a byte slice is
    assignable to it, and [json.Unmarshal] into it. *)
Inductive in_type (V : Type) :=
| InMessage (unmarshal : bytes -> result string V)
| InPlain (zero : V) (takes_bytes : bool) (unjson : bytes -> result string V).
Arguments InMessage {V} unmarshal.
Arguments InPlain {V} zero takes_bytes unjson.

(** [mqrpc.FunctionInfo] *)
Record FunctionInfo (V : Type) := mkFunctionInfo {
  InType : list (in_type V); Goroutine : bool; body : list V -> body_result V }.
Arguments mkFunctionInfo {V}.
Arguments InType {V}.
Arguments Goroutine {V}.
Arguments body {V}.

Definition NumIn {V} (f : FunctionInfo V) : nat := length (InType f).

(** The server's state: its functions, the counters, the control slots taken and
    not given back, the replies published, and the errors and completions the
    listener was told of. *)
Record RPCServer (V : Type) := mkRPCServer {
  functions : gmap string (FunctionInfo V);
  executing : Z; wg : Z; slots : Z;
  published : list ResultInfo; told_errors : list string; told_completes : list string }.
Arguments mkRPCServer {V}.
Arguments functions {V}.
Arguments executing {V}.
Arguments wg {V}.
Arguments slots {V}.
Arguments published {V}.
Arguments told_errors {V}.
Arguments told_completes {V}.

#[export] Instance eta_RPCServer V : Eta (RPCServer V) := fun r =>
  mkRPCServer (functions r) (executing r) (wg r) (slots r) (published r) (told_errors r) (told_completes r).

Section Server.
Context {V J Sp : Type}
        (Bytes2Args : string -> bytes -> outcome (result string (gval J Sp)))
        (of_gval : gval J Sp -> V)
        (encode : V -> result string (string * bytes))
        (as_error : V -> out_err)
        (has_control : bool)
        (has_listener : bool)
        (NoFoundFunction : string -> result string (FunctionInfo V))
        (BeforeHandle : RPCInfo -> option string)
        (OnError OnComplete : RPCInfo -> option string)
        (ServerRPCHandler : RPCInfo -> ResultInfo -> option string)
        (RpcCompleteHandler : RPCInfo -> option string)
        (module_type stack : string).

Abbreviation RM := (ST (RPCServer V)).

(** [Register]: a second registration panics. *)
Definition Register (id : string) (f : FunctionInfo V) : RM unit := fun s =>
  match functions s !! id with
  | Some _ => Panicked s ("function id " ++ id ++ ": already registered")%string
  | None => Done (s <| functions := <[id := f]> (functions s) |>) tt
  end.

(** What both make of a function: the types of its parameters are kept. *)
Definition function_info (goroutine : bool) (ins : list (in_type V)) (f : list V -> body_result V) : FunctionInfo V := mkFunctionInfo ins goroutine f.

Definition RegisterGO (id : string) (ins : list (in_type V)) (f : list V -> body_result V) : RM unit := Register id (function_info true ins f).

(** A call into the application: it returns, or panics with a text. *)
Definition application (p : option string) : RM unit :=
  match p with None => st_ret tt | Some why => st_panic why end.

(** [doCallback]: publish the result when a reply is wanted, then the server's
    handler. *)
Definition doCallback (call : RPCInfo) (r : ResultInfo) : RM unit :=
  do* (if Reply call then st_mod (fun s => s <| published := published s ++ [r] |>) else st_ret tt) in
  application (ServerRPCHandler call r).

Definition error_result (cid error : string) : ResultInfo := mkResultInfo cid error "null" [].

Definition errorCallback (call : RPCInfo) (error : string) : RM unit :=
  do* doCallback call (error_result (Cid call) error) in
  if has_listener then
    do* st_mod (fun s => s <| told_errors := told_errors s ++ [error] |>) in
    application (OnError call)
  else st_ret tt.

(** One argument.  A byte slice that does not fit the parameter is tried as JSON
    and otherwise passed as it is, for the call to reject. *)
Definition decode_arg (ty : in_type V) (tag : string) (b : bytes) : outcome (result string V) :=
  match ty with
  | InMessage unmarshal => Ret (unmarshal b)
  | InPlain zero takes_bytes unjson =>
      r <- Bytes2Args tag b;
      Ret (match r with
           | Err e => Err e
           | Ok GNil => Ok zero
           | Ok (GBytes l) =>
               if takes_bytes then Ok (of_gval (GBytes l))
               else match unjson l with Ok v => Ok v | Err _ => Ok (of_gval (GBytes l)) end
           | Ok v => Ok (of_gval v)
           end)
  end.

(** The loop over the argument types: [Err] is the error of an argument, which the
    caller is answered with. *)
Fixpoint decode_args (ins : list (in_type V)) (tags : list string) (params : list bytes) :
    outcome (result string (list V)) :=
  match tags with
  | [] => Ret (Ok [])
  | tag :: tags =>
      match ins, params with
      | ty :: ins, b :: params =>
          match decode_arg ty tag b with
          | Panic why => Panic why
          | Ret (Err e) => Ret (Err e)
          | Ret (Ok v) =>
              match decode_args ins tags params with
              | Ret (Ok vs) => Ret (Ok (v :: vs))
              | o => o
              end
          end
      | _, _ => Panic "index out of range"
      end
  end.

Definition bad_return (call : RPCInfo) : string :=
  (module_type ++ " rpc func(" ++ Fn call ++ ") return error func(....)(result interface{}, err error)")%string.

(** The result made of the two outputs, or the error answered instead. *)
Definition result_of (call : RPCInfo) (v e : V) : result string ResultInfo :=
  match as_error e with
  | OOther => Err (bad_return call)
  | OString s | OError s =>
      match encode v with Err e => Err e | Ok (ty, b) => Ok (mkResultInfo (Cid call) s ty b) end
  | ONil =>
      match encode v with Err e => Err e | Ok (ty, b) => Ok (mkResultInfo (Cid call) "" ty b) end
  end.

Definition answer (call : RPCInfo) (r : ResultInfo) : RM unit :=
  do* doCallback call r in
  if has_listener then
    do* st_mod (fun s => s <| told_completes := told_completes s ++ [Fn call] |>) in
    application (OnComplete call)
  else st_ret tt.

Definition answer_outputs (call : RPCInfo) (outs : list V) : RM unit :=
  match outs with
  | [v; e] =>
      do* application (RpcCompleteHandler call) in
      match result_of call v e with
      | Err e => errorCallback call e
      | Ok r => answer call r
      end
  | _ => errorCallback call (bad_return call)
  end.

(** [_runFunc] between its two [defer]red ends. *)
Definition execute (f : FunctionInfo V) (call : RPCInfo) : RM unit :=
  match decode_args (InType f) (ArgsType call) (Args call) with
  | Panic why => st_panic why
  | Ret (Err e) => errorCallback call e
  | Ret (Ok vs) =>
      match (if has_listener then BeforeHandle call else None) with
      | Some e => errorCallback call e
      | None =>
          if negb (length vs =? NumIn f)%nat then st_panic "reflect: Call with too few input arguments" else
          match body f vs with
          | Panics why => st_panic why
          | Returns outs => answer_outputs call outs
          end
      end
  end.

Definition enter (s : RPCServer V) : RPCServer V := s <| wg := wg s + 1 |> <| executing := executing s + 1 |>.
Definition leave (s : RPCServer V) : RPCServer V :=
  s <| wg := wg s - 1 |> <| executing := executing s - 1 |>
    <| slots := if has_control then slots s - 1 else slots s |>.

Definition panic_report (call : RPCInfo) (why : string) : string :=
  (module_type ++ " rpc func(" ++ Fn call ++ ") error " ++ why ++ " ----Stack---- " ++ stack)%string.

Definition runFunc_ (f : FunctionInfo V) (call : RPCInfo) : RM unit := fun s =>
  if negb (length (Args call) =? NumIn f)%nat then
    errorCallback call "The number of params is not adapted." s
  else
    match execute f call (enter s) with
    | Done s a => Done (leave s) a
    | Panicked s why => errorCallback call (panic_report call why) (leave s)
    | Blocked => Blocked
    end.

(** The recover of [runFunc]. *)
Definition recovering (call : RPCInfo) (m : RM unit) : RM unit := fun s =>
  match m s with
  | Panicked s why => errorCallback call why s
  | o => o
  end.

(** [runFunc]: takes a control slot, finds the function, runs it.  A function
    registered with [RegisterGO] runs in a goroutine of its own, which [recover]
    does not cover. *)
Definition runFunc (call : RPCInfo) : RM unit := fun s =>
  let s := s <| slots := if has_control then slots s + 1 else slots s |> in
  let run f := if Goroutine f then runFunc_ f call s else recovering call (runFunc_ f call) s in
  match functions s !! Fn call with
  | Some f => run f
  | None =>
      if has_listener then
        match NoFoundFunction (Fn call) with
        | Err e => recovering call (errorCallback call e) s
        | Ok f => run f
        end
      else recovering call (st_panic "invalid memory address or nil pointer dereference") s
  end.
End Server.
