(* ===== verification/RpcServerTheorems.v ===== *)
(** * Theorems about the rpc server *)
From S2P Require Import Prelude RpcArgs NatsClient RpcServer.
#[local] Open Scope mq_scope.
#[local] Open Scope st_scope.
#[local] Open Scope string_scope.
#[local] Open Scope list_scope.
#[local] Open Scope Z_scope.

Section Server.
Context {V J Sp : Type}
        (Bytes2Args : string -> bytes -> outcome (result string (gval J Sp)))
        (of_gval : gval J Sp -> V)
        (encode : V -> result string (string * bytes))
        (as_error : V -> out_err)
        (has_control : bool)
        (has_listener : bool)
        (NoFoundFunction : string -> result string (FunctionInfo V))
        (BeforeHandle : RPCInfo -> option string)
        (OnError OnComplete : RPCInfo -> option string)
        (ServerRPCHandler : RPCInfo -> ResultInfo -> option string)
        (RpcCompleteHandler : RPCInfo -> option string)
        (module_type stack : string).

Abbreviation run := (runFunc Bytes2Args of_gval encode as_error has_control has_listener NoFoundFunction BeforeHandle OnError OnComplete
                       ServerRPCHandler RpcCompleteHandler module_type stack).
Abbreviation onError := (errorCallback has_listener OnError ServerRPCHandler).

Abbreviation exec1 := (execute Bytes2Args of_gval encode as_error has_listener BeforeHandle OnError OnComplete ServerRPCHandler
                         RpcCompleteHandler module_type).
Abbreviation run1 := (runFunc_ Bytes2Args of_gval encode as_error has_control has_listener BeforeHandle OnError OnComplete ServerRPCHandler
                        RpcCompleteHandler module_type stack).
Abbreviation recov := (recovering has_listener OnError ServerRPCHandler).

(** The application's callbacks that run while an answer is sent return. *)
Definition calm : Prop :=
  (forall call, OnError call = None) /\ (forall call r, ServerRPCHandler call r = None).

(** The function the call is for, unless there is none. *)
Definition target (call : RPCInfo) (s : RPCServer V) : option (FunctionInfo V) :=
  match functions s !! Fn call with
  | Some f => Some f
  | None => if has_listener then match NoFoundFunction (Fn call) with Ok f => Some f | Err _ => None end else None
  end.

(** The call is turned down before its slot has a [Finish]. *)
Definition turned_down (call : RPCInfo) (s : RPCServer V) : bool :=
  match target call s with
  | Some f => negb (length (Args call) =? NumIn f)%nat
  | None => true
  end.

(** [s'] is [s] with the answer [r] to [call] sent, counters untouched. *)
Record answered (call : RPCInfo) (r : ResultInfo) (s s' : RPCServer V) : Prop := {
  an_published : published s' = if Reply call then published s ++ [r] else published s;
  an_counters : executing s' = executing s /\ wg s' = wg s /\ slots s' = slots s;
  an_functions : functions s' = functions s }.

Lemma answered_frame call r s s0 s' : published s0 = published s -> functions s0 = functions s ->
  answered call r s0 s' -> published s' = (if Reply call then published s ++ [r] else published s) /\
    functions s' = functions s /\ executing s' = executing s0 /\ wg s' = wg s0 /\ slots s' = slots s0.
Proof. intros Hp Hf [H1 (H2 & H3 & H4) H5]. rewrite H1, H5, Hp, Hf. done. Qed.

Definition slot (s : RPCServer V) : RPCServer V := s <| slots := if has_control then slots s + 1 else slots s |>.

Lemma run_target call s f : target call s = Some f ->
  run call s = if Goroutine f then run1 f call (slot s) else recov call (run1 f call) (slot s).
Proof.
  unfold target, runFunc. fold (slot s). change (functions (slot s)) with (functions s).
  destruct (functions s !! Fn call) as [g|]; [by intros [= ->]|].
  destruct has_listener; [|done]. destruct (NoFoundFunction (Fn call)); [|done]. by intros [= ->].
Qed.

Lemma recovering_done call (m : ST (RPCServer V) unit) s s' : m s = Done s' tt ->
  recovering has_listener OnError ServerRPCHandler call m s = Done s' tt.
Proof. intros H. unfold recovering. by rewrite H. Qed.

Section Calm.
Context (Hcalm : calm).

Lemma doCallback_calm call r s : exists s', doCallback ServerRPCHandler call r s = Done s' tt /\ answered call r s s' /\
  told_errors s' = told_errors s /\ told_completes s' = told_completes s.
Proof.
  unfold doCallback, st_bind. destruct Hcalm as [_ Hh].
  destruct (Reply call) eqn:Hr; cbn; rewrite Hh; eexists; (split; [reflexivity|]);
    (split; [split; cbn; rewrite ?Hr; done|done]).
Qed.

Lemma errorCallback_calm call e s : exists s', onError call e s = Done s' tt /\
  answered call (error_result (Cid call) e) s s'.
Proof.
  unfold errorCallback. destruct (doCallback_calm call (error_result (Cid call) e) s) as (s1 & Hd & [A1 A2 A3] & _).
  step Hd. destruct has_listener; [|by exists s1; split].
  eexists. split; [unfold st_bind; cbn; rewrite (proj1 Hcalm); reflexivity|].
  split; [exact A1|exact A2|exact A3].
Qed.

(** What [execute] may do: answer once and return, or panic before or after
    answering. *)
Definition settled (call : RPCInfo) (s : RPCServer V) (m : exec (RPCServer V) unit) : Prop :=
  match m with
  | Done s' _ => exists r, r_Cid r = Cid call /\ answered call r s s'
  | Panicked s' _ => (executing s' = executing s /\ wg s' = wg s /\ slots s' = slots s) /\ functions s' = functions s /\
      (s' = s \/ OnComplete call <> None)
  | Blocked => False
  end.

Lemma settled_error call e s : settled call s (onError call e s).
Proof.
  destruct (errorCallback_calm call e s) as (s' & -> & H). exists (error_result (Cid call) e). by split.
Qed.

Lemma settled_panic call why s : settled call s (st_panic why s).
Proof. split; [done|]. split; [done|by left]. Qed.

Lemma result_of_cid call v e r : result_of encode as_error module_type call v e = Ok r -> r_Cid r = Cid call.
Proof.
  unfold result_of. destruct (as_error e); try done;
    (destruct (encode v) as [[ty b]|]; [by intros [= <-]|done]).
Qed.

Lemma settled_answer call r s : r_Cid r = Cid call ->
  settled call s (answer has_listener OnComplete ServerRPCHandler call r s).
Proof.
  intros Hr. unfold answer. destruct (doCallback_calm call r s) as (s1 & Hd & [A1 A2 A3] & _).
  step Hd. destruct has_listener; [|by exists r; split].
  unfold st_bind. cbn. destruct (OnComplete call) as [why|] eqn:Ho; cbn.
  - split; [exact A2|]. split; [exact A3|right; congruence].
  - exists r. split; [done|]. split; [exact A1|exact A2|exact A3].
Qed.

Lemma settled_outputs call outs s :
  settled call s (answer_outputs encode as_error has_listener OnError OnComplete ServerRPCHandler RpcCompleteHandler
                    module_type call outs s).
Proof.
  unfold answer_outputs. destruct outs as [|v [|e [|]]]; try apply settled_error.
  unfold st_bind, application. destruct (RpcCompleteHandler call) as [why|]; cbn; [exact (settled_panic call why s)|].
  destruct (result_of encode as_error module_type call v e) as [r|er] eqn:Hr; [|exact (settled_error call er s)].
  apply settled_answer. by eapply result_of_cid.
Qed.

Lemma settled_execute f call s :
  settled call s (execute Bytes2Args of_gval encode as_error has_listener BeforeHandle OnError OnComplete ServerRPCHandler
                    RpcCompleteHandler module_type f call s).
Proof.
  unfold execute. destruct (decode_args Bytes2Args of_gval (InType f) (ArgsType call) (Args call)) as [[vs|e]|why]; [|apply settled_error|apply settled_panic].
  destruct (if has_listener then BeforeHandle call else None); [apply settled_error|].
  destruct (negb _); [apply settled_panic|]. destruct (body f vs); [apply settled_outputs|apply settled_panic].
Qed.

(** The slot a call leaves behind. *)
Definition leaked (call : RPCInfo) (s : RPCServer V) : Z :=
  if has_control then if turned_down call s then 1 else 0 else 0.

(** [s'] is [s] once [call] has been dealt with. *)
Record dealt (call : RPCInfo) (extra : list ResultInfo) (leak : Z) (s s' : RPCServer V) : Prop := {
  de_published : published s' = if Reply call then published s ++ extra else published s;
  de_counters : executing s' = executing s /\ wg s' = wg s;
  de_slots : slots s' = slots s + leak;
  de_functions : functions s' = functions s }.

Lemma dealt_refused call e s : exists s', onError call e (slot s) = Done s' tt /\
  dealt call [error_result (Cid call) e] (if has_control then 1 else 0) s s'.
Proof.
  destruct (errorCallback_calm call e (slot s)) as (s' & H & [A1 (A2 & A3 & A4) A5]).
  exists s'. split; [done|]. split; [exact A1|by split| |exact A5].
  rewrite A4. unfold slot. cbn. destruct has_control; lia.
Qed.


(** A call with the right number of parameters, unless its completion panics. *)
Lemma dealt_run f call s : OnComplete call = None -> (length (Args call) =? NumIn f)%nat = true ->
  exists s' r, run1 f call (slot s) = Done s' tt /\ r_Cid r = Cid call /\ dealt call [r] 0 s s'.
Proof.
  intros Ho Hlen. unfold runFunc_. rewrite Hlen. cbn [negb].
  pose proof (settled_execute f call (enter (slot s))) as H. unfold settled in H.
  destruct (exec1 f call (enter (slot s))) as [s1 []|s1 why|]; [| |done].
  - destruct H as (r & Hr & [A1 (A2 & A3 & A4) A5]). exists (leave has_control s1), r. split; [done|]. split; [done|].
    split; cbn; [exact A1| | |exact A5].
    + rewrite A2, A3. cbn. split; lia.
    + rewrite A4. unfold slot. cbn. destruct has_control; lia.
  - destruct H as ((A2 & A3 & A4) & A5 & [-> |Hc]); [|done].
    destruct (errorCallback_calm call (panic_report module_type stack call why) (leave has_control (enter (slot s))))
      as (s' & He & [B1 (B2 & B3 & B4) B5]).
    exists s', (error_result (Cid call) (panic_report module_type stack call why)). split; [exact He|]. split; [done|].
    split; [exact B1| | |exact B5].
    + rewrite B2, B3. cbn. split; lia.
    + rewrite B4. unfold slot. cbn. destruct has_control; lia.
Qed.

Lemma dealt_target f call s : OnComplete call = None -> exists s' r,
  (if Goroutine f then run1 f call (slot s)
   else recovering has_listener OnError ServerRPCHandler call (run1 f call) (slot s)) = Done s' tt /\
  r_Cid r = Cid call /\
  dealt call [r] (if has_control then if negb (length (Args call) =? NumIn f)%nat then 1 else 0 else 0) s s'.
Proof.
  intros Ho. assert (exists s' r, run1 f call (slot s) = Done s' tt /\ r_Cid r = Cid call /\
    dealt call [r] (if has_control then if negb (length (Args call) =? NumIn f)%nat then 1 else 0 else 0) s s') as (s' & r & H & Hr & Hd).
  { destruct (length (Args call) =? NumIn f)%nat eqn:E; cbn [negb].
    - destruct (dealt_run f call s Ho E) as (s' & r & H & Hr & Hd). exists s', r. split; [done|]. split; [done|].
      by destruct has_control.
    - destruct (dealt_refused call "The number of params is not adapted." s) as (s' & H & Hd).
      eexists s', _. split; [unfold runFunc_; rewrite E; exact H|]. split; [|exact Hd]. done. }
  exists s', r. split; [|done]. destruct (Goroutine f); [done|]. by apply recovering_done.
Qed.


Lemma run_no_target call s : target call s = None -> exists e,
  run call s = recov call (onError call e) (slot s) \/ run call s = recov call (st_panic e) (slot s).
Proof.
  unfold target, runFunc. fold (slot s). change (functions (slot s)) with (functions s).
  destruct (functions s !! Fn call) as [g|]; [done|].
  destruct has_listener; [|intros _; eexists; right; reflexivity].
  destruct (NoFoundFunction (Fn call)) as [f|e]; [done|]. intros _. exists e. by left.
Qed.

Lemma run_dealt call s : OnComplete call = None ->
  exists s' r, run call s = Done s' tt /\ r_Cid r = Cid call /\ dealt call [r] (leaked call s) s s'.
Proof.
  intros Ho. unfold leaked, turned_down. destruct (target call s) as [f|] eqn:Ht.
  - rewrite (run_target call s f Ht). by apply dealt_target.
  - destruct (run_no_target call s Ht) as (e & H). destruct (dealt_refused call e s) as (s' & He & Hd).
    exists s', (error_result (Cid call) e). split; [|by split].
    destruct H as [-> | ->]; [by apply recovering_done|exact He].
Qed.
End Calm.

(** ** Properties *)

(** C18. Every request is answered exactly once.  As long as the callbacks the
    application installed return, a request is run to its end, whatever the
    function does (return, fail, panic), whatever arguments came and even when
    there is no such function: exactly one result, with the request's id, is
    published when a reply is wanted and none otherwise, and the counts of running
    calls are what they were. *)
Theorem every_call_is_answered (call : RPCInfo) (s : RPCServer V) : calm -> OnComplete call = None ->
  exists s' r, run call s = Done s' tt /\ r_Cid r = Cid call /\
    published s' = (if Reply call then published s ++ [r] else published s) /\
    executing s' = executing s /\ wg s' = wg s /\ functions s' = functions s.
Proof.
  intros Hc Ho. destruct (run_dealt Hc call s Ho) as (s' & r & H1 & H2 & [D1 [D2 D3] D4 D5]).
  exists s', r. by repeat split.
Qed.

(** C19. Calls that are turned down keep their control slot.  [runFunc] takes a
    slot for every call; it is given back when the call ran, and never when the function
    is unknown or the number of parameters is wrong. *)
Theorem refused_calls_keep_their_slot (call : RPCInfo) (s : RPCServer V) : calm -> OnComplete call = None ->
  exists s', run call s = Done s' tt /\
    slots s' = slots s + (if has_control then if turned_down call s then 1 else 0 else 0).
Proof.
  intros Hc Ho. destruct (run_dealt Hc call s Ho) as (s' & r & H1 & H2 & [D1 [D2 D3] D4 D5]).
  exists s'. by split.
Qed.

(** The call goes through: its function [f] is found and gives [v] with [e]. *)
Record goes_through (f : FunctionInfo V) (call : RPCInfo) (s : RPCServer V) (v e : V) (r : ResultInfo) : Prop := {
  go_target : target call s = Some f;
  go_params : length (Args call) = NumIn f;
  go_args : exists vs, decode_args Bytes2Args of_gval (InType f) (ArgsType call) (Args call) = Ret (Ok vs) /\ length vs = NumIn f /\
              body f vs = Returns [v; e];
  go_before : (if has_listener then BeforeHandle call else None) = None;
  go_complete : RpcCompleteHandler call = None;
  go_result : result_of encode as_error module_type call v e = Ok r }.

Definition second_reply (call : RPCInfo) : list ResultInfo :=
  if has_listener then
    match OnComplete call with
    | Some why => [error_result (Cid call) (panic_report module_type stack call why)]
    | None => []
    end
  else [].

Lemma run_goes_through (Hc : calm) f call s v e r : goes_through f call s v e r ->
  exists s', run1 f call (slot s) = Done s' tt /\
    published s' = if Reply call then published s ++ r :: second_reply call else published s.
Proof.
  intros [_ Hlen (vs & Hd & Hvs & Hb) Hbefore Hcomp Hr]. unfold runFunc_, execute.
  rewrite Hlen, Nat.eqb_refl. cbn [negb]. rewrite Hd, Hbefore, Hvs, Nat.eqb_refl. cbn [negb]. rewrite Hb.
  unfold answer_outputs. rewrite Hcomp.
  unfold st_bind at 1. cbn [application st_ret exec_then]. rewrite Hr. unfold answer, second_reply.
  destruct (doCallback_calm Hc call r (enter (slot s))) as (s1 & H1 & [A1 A2 A3] & _). cbn in A1.
  step H1. destruct has_listener eqn:El.
  - unfold st_bind, st_mod. cbn [exec_then application]. destruct (OnComplete call) as [why|].
    + cbn [application st_panic]. set (s2 := leave has_control _).
      pose proof (errorCallback_calm Hc call (panic_report module_type stack call why) s2) as (s' & H2 & [B1 _ _]).
      exists s'. rewrite El in H2. split; [exact H2|]. rewrite B1. cbn. rewrite A1.
      destruct (Reply call); [|done]. by rewrite <- app_assoc.
    + eexists. split; [reflexivity|]. exact A1.
  - eexists. split; [reflexivity|]. exact A1.
Qed.

(** What a function returns is what the caller gets: its first output encoded,
    its error as text, under the request's id.  But a listener whose
    [OnComplete] panics makes the server answer the same request a second time,
    with an error. *)
Lemma function_result_is_published f (call : RPCInfo) (s : RPCServer V) (v e : V) (r : ResultInfo) :
  calm -> goes_through f call s v e r ->
  exists s', run call s = Done s' tt /\
    published s' = if Reply call then published s ++ r :: second_reply call else published s.
Proof.
  intros Hc Hgo. destruct (run_goes_through Hc f call s v e r Hgo) as (s' & H & Hp).
  exists s'. split; [|done]. rewrite (run_target call s f (go_target _ _ _ _ _ _ Hgo)).
  destruct (Goroutine f); [done|]. by apply recovering_done.
Qed.
End Server.

(** *** Concrete runs *)

Definition demo_function : FunctionInfo Z :=
  mkFunctionInfo [InPlain 0 false (fun b => Ok (zlen b))] false
    (fun vs => match vs with [n] => if n =? 0 then Panics "empty" else Returns [n * 2; 0] | _ => Returns [] end).
Definition demo_server : RPCServer Z := mkRPCServer {[ "double" := demo_function ]} 0 0 0 [] [] [].
Definition demo_call (fn : string) (args : list bytes) : RPCInfo :=
  mkRPCInfo "c1" fn "inbox" 0 true (replicate (length args) "bytes") args "host" "host".
Definition demo_encode (z : Z) : result string (string * bytes) := Ok ("long", [zb z]).
Definition demo_as_error (z : Z) : out_err := if z =? 0 then ONil else OError "bad".
Definition demo_decode : string -> bytes -> outcome (result string (gval unit unit)) := fun _ b => Ret (Ok (GBytes b)).
Definition demo_of (v : gval unit unit) : Z := 0.
Definition demo_run (on_complete : option string) :=
  runFunc demo_decode demo_of demo_encode demo_as_error true true (fun _ => Err "nofound") (fun _ => None) (fun _ => None)
    (fun _ => on_complete) (fun _ _ => None) (fun _ => None) "chat" "".

Lemma demo_calm : calm (fun _ => None) (fun _ _ => None).
Proof. by split. Qed.

Lemma every_call_is_answered_witness :
  exists s' r, demo_run None (demo_call "double" [[]]) demo_server = Done s' tt /\ r_Cid r = "c1" /\
    published s' = [r] /\ executing s' = 0.
Proof.
  destruct (every_call_is_answered demo_decode demo_of demo_encode demo_as_error true true (fun _ => Err "nofound") (fun _ => None)
    (fun _ => None) (fun _ => None) (fun _ _ => None) (fun _ => None) "chat" "" (demo_call "double" [[]]) demo_server
    demo_calm eq_refl) as (s' & r & H1 & H2 & H3 & H4 & _).
  exists s', r. split; [exact H1|]. split; [exact H2|]. split; [exact H3|exact H4].
Defined.

Lemma refused_calls_keep_their_slot_witness :
  exists s', demo_run None (demo_call "unknown" []) demo_server = Done s' tt /\ slots s' = 1.
Proof.
  exact (refused_calls_keep_their_slot demo_decode demo_of demo_encode demo_as_error true true (fun _ => Err "nofound") (fun _ => None)
    (fun _ => None) (fun _ => None) (fun _ _ => None) (fun _ => None) "chat" "" (demo_call "unknown" []) demo_server
    demo_calm eq_refl).
Defined.

Lemma function_result_is_published_witness :
  exists s', demo_run (Some "oops") (demo_call "double" [[x01; x02]]) demo_server = Done s' tt /\
    length (published s') = 2%nat.
Proof.
  destruct (function_result_is_published demo_decode demo_of demo_encode demo_as_error true true (fun _ => Err "nofound") (fun _ => None)
    (fun _ => None) (fun _ => Some "oops") (fun _ _ => None) (fun _ => None) "chat" "" demo_function
    (demo_call "double" [[x01; x02]]) demo_server 4 0 (mkResultInfo "c1" "" "long" [x04])) as (s' & H1 & H2).
  - by split.
  - split; try reflexivity. exists [2]. by repeat split.
  - exists s'. split; [exact H1|]. by rewrite H2.
Defined.

(** A function is registered once: under its name is what was given first, and a second
    registration panics, of either kind. *)
Lemma registered_once {V} (fs : list (string * FunctionInfo V)) (s s' : RPCServer V) :
  foldl (fun m p => st_bind m (fun _ => Register p.1 p.2)) (st_ret tt) fs s = Done s' tt ->
  NoDup fs.*1 /\ (forall id, id ∈ fs.*1 -> functions s !! id = None) /\ functions s' = list_to_map fs ∪ functions s.
Proof.
  revert s'. induction fs as [|[id f] fs IH] using rev_ind; intros s' H.
  - injection H as <-. split_and!; [constructor|by intros ? ?%not_elem_of_nil|]. cbn. by rewrite (left_id_L ∅ _).
  - rewrite foldl_app in H. cbn [foldl] in H. unfold st_bind at 1 in H.
    destruct (foldl (fun m p => st_bind m (fun _ => Register p.1 p.2)) (st_ret tt) fs s) as [s1 []| |]; try done.
    destruct (IH s1 eq_refl) as (H1 & H2 & H3). cbn [exec_then fst snd] in H. unfold Register in H. destruct (functions s1 !! id) eqn:Eid; [done|]. injection H as <-.
    rewrite H3 in Eid. apply lookup_union_None in Eid as [Hid Hs]. apply not_elem_of_list_to_map in Hid. rewrite fmap_app. cbn [fmap list_fmap].
    split_and!.
    + apply NoDup_app. split_and!; [done| |apply NoDup_singleton]. intros x Hx ->%list_elem_of_singleton. done.
    + intros x [Hx| ->%list_elem_of_singleton]%elem_of_app; [by apply H2|done].
    + cbn. rewrite H3, list_to_map_snoc by done. by rewrite insert_union_l.
Qed.
