(* ===== verification/Agent.v ===== *)
(** * The gate's agent: from packets to rpc calls

    [agent] of [gate/base/mqtt_agent.go] as the receiver of the client's packets:
    the limit on concurrent workers ([Wait], [Finish]), [OnRecover], the worker
    that routes a PUBLISH ([recoverworker]) and the replies it writes.

    A worker is a goroutine: [OnRecover] starts it, and it runs at some later
    point ([run_worker]).  Outside the model: the route handler and the marshalling
    an application installs, the discovery of the target module, the rpc itself,
    JSON validity, and the encoding of the session copy, which [Session] models. *)
From S2P Require Import Prelude MqttPack MqttRead MqttWrite BufIO PackQueue RpcArgs.
#[local] Open Scope mq_scope.
#[local] Open Scope string_scope.
#[local] Open Scope list_scope.
#[local] Open Scope Z_scope.

(** A result to be sent: already marshalled ([module.ProtocolMarshal]), a value,
    or nil. *)
Inductive route_result (V : Type) := RRaw (data : bytes) | RVal (v : V) | RNil.
Arguments RRaw {V} data.
Arguments RVal {V} v.
Arguments RNil {V}.

(** A request made to a module. *)
Record agent_call (Srv : Type) := mkCall {
  ac_server : Srv; ac_func : string; ac_reply : bool; ac_types : list string; ac_args : list bytes }.
Arguments mkCall {Srv}.
Arguments ac_server {Srv}.
Arguments ac_func {Srv}.
Arguments ac_reply {Srv}.
Arguments ac_types {Srv}.
Arguments ac_args {Srv}.

(** [ch_len] and [ch_cap] are the length and capacity of the channel [ch]; [workers]
    the packets whose worker has not run yet; [outbox] what was handed to
    [client.WriteMsg]. *)
Record agent (Srv : Type) := mkAgent {
  ch_len : nat; ch_cap : nat; workers : list Pack; revNum : Z; sendNum : Z;
  lastHeartbeat : Z; heartbeats : Z; outbox : list (string * bytes); calls : list (agent_call Srv) }.
Arguments mkAgent {Srv}.
Arguments ch_len {Srv}.
Arguments ch_cap {Srv}.
Arguments workers {Srv}.
Arguments revNum {Srv}.
Arguments sendNum {Srv}.
Arguments lastHeartbeat {Srv}.
Arguments heartbeats {Srv}.
Arguments outbox {Srv}.
Arguments calls {Srv}.

#[export] Instance eta_agent Srv : Eta (agent Srv) := fun r =>
  mkAgent (ch_len r) (ch_cap r) (workers r) (revNum r) (sendNum r) (lastHeartbeat r) (heartbeats r) (outbox r) (calls r).

(** [OnInit] *)
Definition OnInit {Srv} (concurrent_tasks : nat) (now : Z) : agent Srv :=
  mkAgent 0 concurrent_tasks [] 0 0 now 0 [] [].

Definition queue_full : string := "the work queue is full!".

Section Agent.
Context {Srv V : Type}
        (RouteHandler : option (string -> bytes -> bool * route_result V * option string))
        (GetRouteServer : string -> result string Srv)
        (json_valid : bytes -> bool)
        (session_bytes : string -> result string bytes)
        (CallArgs : agent_call Srv -> result string (route_result V))
        (ProtocolMarshal : route_result V -> option string -> result string (option bytes))
        (SendMessageHook : string -> bytes -> result string bytes)
        (has_storage : bool) (heartbeat : Z).

Abbreviation age := (agent Srv).
Abbreviation AG := (ST age).

(** The two [select]s with a [default]. *)
Definition Wait (a : age) : result string age :=
  if (ch_len a <? ch_cap a)%nat then let n := ch_len a in Ok (a <| ch_len := S n |>) else Err queue_full.

Definition Finish (a : age) : age := a <| ch_len := pred (ch_len a) |>.

Definition WriteMsg (topic : string) (body : bytes) : AG unit := fun a =>
  let a := a <| sendNum := sendNum a + 1 |> in
  match SendMessageHook topic body with
  | Err _ => Done a tt
  | Ok body => Done (a <| outbox := outbox a ++ [(topic, body)] |>) tt
  end.

(** [toResult]: when the result cannot be marshalled its error is, and when that
    yields nothing either the code dereferences nil. *)
Definition toResult (topic : string) (r : route_result V) (err : option string) : AG unit :=
  match r with
  | RRaw data => WriteMsg topic data
  | _ =>
      match ProtocolMarshal r err with
      | Ok (Some data) => WriteMsg topic data
      | Ok None => st_ret tt
      | Err e =>
          match ProtocolMarshal RNil (Some e) with
          | Ok (Some data) => WriteMsg topic data
          | _ => st_panic "nil pointer dereference"
          end
      end
  end.

Definition pub_topic (pub : Publish) : outcome string :=
  match topic_name pub with Some t => Ret (bytes_str t) | None => Panic "nil pointer dereference" end.

Definition slash : Ascii.ascii := Ascii.ascii_of_nat 47.

Definition bad_topic : string :=
  "Topic must be [moduleType@moduleID]/[handler]|[moduleType@moduleID]/[handler]/[msgid]".

(** [len(msg) > 0 && msg[0] == '{' && msg[len(msg)-1] == '}'] *)
Definition looks_json (msg : bytes) : bool :=
  match msg, last msg with
  | b :: _, Some e => (bz b =? 123) && (bz e =? 125)
  | _, _ => false
  end.

(** The reply given only when the topic carries a message id. *)
Definition to_msgid (msgid t : string) (err : string) : AG unit :=
  if decide (msgid = "") then st_ret tt else toResult t RNil (Some err).

Definition make_call (c : agent_call Srv) : AG unit := st_mod (fun a => a <| calls := calls a ++ [c] |>).

(** The built-in routing of a topic [module/handler] or [module/handler/msgid]. *)
Definition route_topic (t : string) (msg : bytes) : AG unit :=
  let topics := split_on slash t "" in
  match topics with
  | module :: func :: rest =>
      let msgid := match rest with [m] => m | _ => "" end in
      if negb (String.prefix "HD_" func) then
        to_msgid msgid t ("Method(" ++ func ++ ") must begin with 'HD_'")%string
      else
        match GetRouteServer module with
        | Err _ => to_msgid msgid t ("Service(type:" ++ module ++ ") not found")%string
        | Ok server =>
            if looks_json msg && negb (json_valid msg) then to_msgid msgid t "The JSON format is incorrect"
            else
              match session_bytes t with
              | Err _ => st_ret tt
              | Ok b =>
                  let call := mkCall server func (negb (bool_decide (msgid = "")))
                                ["SESSION"; if looks_json msg then MAP else BYTES] [b; msg] in
                  (do* make_call call in
                   if decide (msgid = "") then st_ret tt
                   else match CallArgs call with
                        | Ok r => toResult t r None
                        | Err e => toResult t RNil (Some e)
                        end)%st
              end
        end
  | _ => toResult t RNil (Some bad_topic)
  end.

(** The [switch] of [recoverworker]. *)
Definition handle (pack : Pack) : AG unit :=
  if bz (GetType pack) =? PUBLISH then
    (do* st_mod (fun a => a <| revNum := revNum a + 1 |>) in
     match GetVariable pack with
     | VPublish pub =>
         match pub_topic pub with
         | Panic why => st_panic why
         | Ret t =>
             match RouteHandler with
             | Some on_route =>
                 let '(needreturn, r, err) := on_route t (MqttPack.msg pub) in
                 if needreturn then toResult t r err else st_ret tt
             | None => route_topic t (MqttPack.msg pub)
             end
         end
     | _ => st_panic "interface conversion"
     end)%st
  else st_ret tt.

(** The deferred part: the storage heartbeat, [Finish], [recover].  A storage handler that
    panics here, before the [recover] of this same function, ends the process; it has no
    state after it. *)
Definition worker_done (now : Z) (a : age) : age :=
  let a := if (lastHeartbeat a + heartbeat <? now) && has_storage
           then a <| lastHeartbeat := now |> <| heartbeats := heartbeats a + 1 |> else a in
  Finish a.

Definition recoverworker (now : Z) (pack : Pack) (a : age) : age :=
  match handle pack a with
  | Done a _ | Panicked a _ => worker_done now a
  | Blocked => a
  end.

(** [OnRecover]: a worker for the packet, or when all are busy an error for the
    topic of what is taken for a PUBLISH. *)
Definition agent_OnRecover (pack : Pack) (a : age) : age * option string :=
  match Wait a with
  | Ok a => (a <| workers := workers a ++ [pack] |>, None)
  | Err e =>
      match GetVariable pack with
      | VPublish pub =>
          match pub_topic pub with
          | Panic why => (a, Some why)
          | Ret t =>
              match toResult t RNil (Some e) a with
              | Done a _ => (a, None)
              | Panicked a why => (a, Some why)
              | Blocked => (a, None)
              end
          end
      | _ => (a, Some "interface conversion")
      end
  end.

(** The [i]th of the started workers runs to its end. *)
Definition run_worker (now : Z) (i : nat) (a : age) : age :=
  match workers a !! i with
  | None => a
  | Some pack => let ws := workers a in recoverworker now pack (a <| workers := delete i ws |>)
  end.

Inductive agent_event := Arrive (pack : Pack) | Worker (now : Z) (i : nat).

Definition agent_step (a : age) (e : agent_event) : age :=
  match e with
  | Arrive pack => (agent_OnRecover pack a).1
  | Worker now i => run_worker now i a
  end.
End Agent.

(** ** The life of a connection

    [Run]: the first packet must be a CONNECT; the session is made, CONNACK
    written on the writer the client shares, and the client listens until the
    connection ends.  [new_session] is the outcome of [NewSessionByMap]. *)

Inductive handshake (C : Type) := Rejected | Hung | Accepted (c : C).
Arguments Rejected {C}.
Arguments Hung {C}.
Arguments Accepted {C} c.

Section Run.
Context {Sock : Type} `{Socket Sock} {A : Type} `{PackRecover A}.

Definition accept (read_timeout max : Z) (new_session : result string unit) (rec : A)
    (r : reader) (w : bufw Sock) : handshake (Client Sock A) :=
  match ReadPack r max with
  | (Some pack, None, r) =>
      if negb (bz (GetType pack) =? CONNECT) then Rejected else
      match GetVariable pack with
      | VConnect conn =>
          let c := NewClient read_timeout rec r w true (fst (GetKeepAlive conn)) max in
          match new_session with
          | Err _ => Rejected
          | Ok _ =>
              match WritePack (GetConnAckPack x00) w with
              | WDone w None => let q := queue c in Accepted (c <| queue := q <| q_w := w |> |>)
              | WDone _ (Some _) | WPanic _ _ => Rejected
              | WStuck => Hung
              end
          end
      | _ => Rejected
      end
  | _ => Rejected
  end.

(** [protocol_ok] and the client at the end of [Run]. *)
Record run_end := mkRunEnd { protocol_ok : bool; client : option (Client Sock A) }.

Definition Run (read_timeout max : Z) (new_session : result string unit) (rec : A)
    (r : reader) (w : bufw Sock) : option run_end :=
  match accept read_timeout max new_session rec r w with
  | Rejected => Some (mkRunEnd false None)
  | Hung => None
  | Accepted c =>
      match Listen_loop c with
      | Done c _ | Panicked c _ => Some (mkRunEnd true (Some c))
      | Blocked => None
      end
  end.
End Run.
