(* ===== verification/AgentTheorems.v ===== *)
(** * Theorems on the gate's agent

    The bound on concurrent workers, what a packet costs when the pool is full,
    and what the built-in routing does with a topic. *)
From S2P Require Import Prelude MqttPack MqttRead MqttWrite MqttCodec MqttTheorems BufIO PackQueue QueueTheorems RpcArgs Agent.
#[local] Open Scope mq_scope.
#[local] Open Scope string_scope.
#[local] Open Scope list_scope.
#[local] Open Scope Z_scope.

Section Theorems.
Context {Srv V : Type}
        (RouteHandler : option (string -> bytes -> bool * route_result V * option string))
        (GetRouteServer : string -> result string Srv)
        (json_valid : bytes -> bool)
        (session_bytes : string -> result string bytes)
        (CallArgs : agent_call Srv -> result string (route_result V))
        (ProtocolMarshal : route_result V -> option string -> result string (option bytes))
        (SendMessageHook : string -> bytes -> result string bytes)
        (has_storage : bool) (heartbeat : Z).

Abbreviation toResult' := (toResult (Srv := Srv) ProtocolMarshal SendMessageHook).
Abbreviation handle' := (handle RouteHandler GetRouteServer json_valid session_bytes CallArgs ProtocolMarshal SendMessageHook).
Abbreviation route' := (route_topic GetRouteServer json_valid session_bytes CallArgs ProtocolMarshal SendMessageHook).
Abbreviation OnRecover' := (agent_OnRecover (Srv := Srv) ProtocolMarshal SendMessageHook).
Abbreviation run_worker' := (run_worker RouteHandler GetRouteServer json_valid session_bytes CallArgs ProtocolMarshal
                               SendMessageHook has_storage heartbeat).
Abbreviation step' := (agent_step RouteHandler GetRouteServer json_valid session_bytes CallArgs ProtocolMarshal
                         SendMessageHook has_storage heartbeat).

(** ** Calls that leave the pool alone *)

Definition pool (a : agent Srv) : nat * nat * list Pack := (ch_len a, ch_cap a, workers a).

(** The call ends, returning or panicking, with the pool as it found it. *)
Definition spares_pool {B} (m : ST (agent Srv) B) : Prop := forall a,
  match m a with Done a' _ | Panicked a' _ => pool a' = pool a | Blocked => False end.

Lemma spares_ret {B} (b : B) : spares_pool (st_ret b).
Proof. done. Qed.

Lemma spares_panic {B} why : spares_pool (st_panic (A := B) why).
Proof. done. Qed.

Lemma spares_mod f : (forall a, pool (f a) = pool a) -> spares_pool (st_mod f).
Proof. intros Hf a. apply Hf. Qed.

Lemma spares_bind {B C} (m : ST (agent Srv) B) (k : B -> ST (agent Srv) C) :
  spares_pool m -> (forall b, spares_pool (k b)) -> spares_pool (st_bind m k).
Proof.
  intros Hm Hk a. unfold st_bind. specialize (Hm a). destruct (m a) as [a' b|a' why|]; cbn [exec_then]; [|done..].
  specialize (Hk b a'). destruct (k b a'); congruence.
Qed.

Lemma spares_WriteMsg t b : spares_pool (WriteMsg SendMessageHook t b).
Proof. intros a. unfold WriteMsg. by destruct (SendMessageHook t b). Qed.

#[local] Hint Resolve spares_ret spares_panic spares_mod spares_bind spares_WriteMsg : pool.

Ltac keeps := repeat first [progress (eauto with pool) | destr_goal | apply spares_bind | progress intros].

Lemma spares_toResult t r e : spares_pool (toResult' t r e).
Proof. unfold toResult. keeps. Qed.
#[local] Hint Resolve spares_toResult : pool.

Lemma spares_route t msg : spares_pool (route' t msg).
Proof. unfold route_topic, to_msgid, make_call. keeps. Qed.
#[local] Hint Resolve spares_route : pool.

Lemma spares_handle p : spares_pool (handle' p).
Proof. unfold handle. keeps. Qed.

(** ** The pool *)

Definition pool_ok (n : nat) (a : agent Srv) : Prop :=
  ch_len a = length (workers a) /\ (ch_len a <= n)%nat /\ ch_cap a = n.

Lemma OnRecover_accepts p a : (ch_len a < ch_cap a)%nat ->
  OnRecover' p a = (let n := ch_len a in let ws := workers a in a <| ch_len := S n |> <| workers := ws ++ [p] |>, None).
Proof. intros Hl%Nat.ltb_lt. unfold agent_OnRecover, Wait. by rewrite Hl. Qed.

Lemma OnRecover_full p a : ch_len a = ch_cap a ->
  OnRecover' p a =
    match GetVariable p with
    | VPublish pub =>
        match pub_topic pub with
        | Panic why => (a, Some why)
        | Ret t => match toResult' t RNil (Some queue_full) a with
                   | Done a _ => (a, None) | Panicked a why => (a, Some why) | Blocked => (a, None) end
        end
    | _ => (a, Some "interface conversion")
    end.
Proof. intros Hl. unfold agent_OnRecover, Wait. by rewrite Hl, Nat.ltb_irrefl. Qed.

Lemma OnRecover_full_pool p a : ch_len a = ch_cap a -> pool (fst (OnRecover' p a)) = pool a.
Proof.
  intros Hl. rewrite OnRecover_full by done. destruct (GetVariable p) as [| | |pub| | | | |]; try done.
  destruct (pub_topic pub) as [t|]; [|done].
  pose proof (spares_toResult t RNil (Some queue_full) a) as Hk.
  by destruct (toResult' t RNil (Some queue_full) a).
Qed.

Lemma run_worker_pool now i a : (i < length (workers a))%nat ->
  pool (run_worker' now i a) = (pred (ch_len a), ch_cap a, delete i (workers a)).
Proof.
  intros Hi. apply lookup_lt_is_Some in Hi as [p Hp]. unfold run_worker, recoverworker. rewrite Hp.
  match goal with |- context [handle _ _ _ _ _ _ _ p ?b] => set (a1 := b) end.
  pose proof (spares_handle p a1) as Hk.
  assert (Hd : forall a', pool a' = pool a1 -> pool (worker_done has_storage heartbeat now a') = (pred (ch_len a), ch_cap a, delete i (workers a))).
  { intros a' [= E1 E2 E3]. unfold worker_done, Finish, pool. destr_goal; cbn; by rewrite E1, E2, E3. }
  destruct (handle' p a1); [by apply Hd | by apply Hd | done].
Qed.

Lemma pool_ok_step n a e : pool_ok n a -> pool_ok n (step' a e).
Proof.
  intros (Hl & Hn & Hc). destruct e as [p|now i]; cbn [agent_step].
  - destruct (decide (ch_len a = ch_cap a)) as [E|E].
    + pose proof (OnRecover_full_pool p a E) as [= E1 E2 E3]. unfold pool_ok. by rewrite E1, E2, E3.
    + rewrite OnRecover_accepts by lia. unfold pool_ok. cbn. rewrite length_app. cbn. lia.
  - destruct (decide (i < length (workers a))%nat) as [Hi|Hi].
    + pose proof (run_worker_pool now i a Hi) as [= E1 E2 E3]. unfold pool_ok. rewrite E1, E2, E3.
      rewrite length_delete by (by apply lookup_lt_is_Some). lia.
    + unfold run_worker. rewrite lookup_ge_None_2 by lia. done.
Qed.

Lemma pool_ok_run n es : forall a, pool_ok n a -> pool_ok n (foldl step' a es).
Proof. induction es as [|e es IH]; intros a Ha; [done|]. cbn. by apply IH, pool_ok_step. Qed.


(** ** Routing a topic *)

(** The reply a topic asks for: any malformed topic, and requests of exactly
    three parts with a message id. *)
Definition wants_reply (t : string) : Prop :=
  match split_on slash t "" with
  | [_; _; msgid] => msgid <> ""
  | _ :: _ :: _ => False
  | _ => True
  end.

Definition reply_id (parts : list string) : string := match parts with [_; _; msgid] => msgid | _ => "" end.

(** The request [c] that a message on topic [t] stands for. *)
Inductive callable (t : string) (msg : bytes) (c : agent_call Srv) : Prop :=
| callable_intro m f rest s b :
    String.concat "/" (m :: f :: rest) = t -> Forall (no_char slash) (m :: f :: rest) ->
    String.prefix "HD_" f = true -> GetRouteServer m = Ok s -> session_bytes t = Ok b ->
    (looks_json msg = true -> json_valid msg = true) ->
    c = mkCall s f (bool_decide (reply_id (m :: f :: rest) <> ""))
          ["SESSION"; if looks_json msg then MAP else BYTES] [b; msg] ->
    callable t msg c.

(** What a step of routing may do to the record of calls and replies. *)
Definition routes (t : string) (msg : bytes) (a a' : agent Srv) : Prop :=
  revNum a' = revNum a /\
  ((exists c, callable t msg c /\ calls a' = calls a ++ [c]) \/
   (forall c, ~ callable t msg c) /\ calls a' = calls a) /\
  (outbox a' = outbox a \/ wants_reply t /\ exists body, outbox a' = outbox a ++ [(t, body)]).

Lemma callable_parts t msg c : callable t msg c <->
  exists m f rest s b, split_on slash t "" = m :: f :: rest /\ String.prefix "HD_" f = true /\
    GetRouteServer m = Ok s /\ session_bytes t = Ok b /\ (looks_json msg = true -> json_valid msg = true) /\
    c = mkCall s f (bool_decide (reply_id (m :: f :: rest) <> ""))
          ["SESSION"; if looks_json msg then MAP else BYTES] [b; msg].
Proof.
  split.
  - intros [m f rest s b Hj Hf ?]. exists m, f, rest, s, b. split_and!; try done.
    rewrite <- Hj. by apply split_on_concat.
  - intros (m & f & rest & s & b & Hs & ?). destruct (split_on_join slash t "" I) as [Hf Hj].
    rewrite Hs in Hf, Hj. econstructor; naive_solver.
Qed.

(** A call that makes no request, and may answer on topic [t] if [ok]. *)
Definition only_replies (t : string) (ok : Prop) (m : ST (agent Srv) unit) : Prop := forall a,
  match m a with
  | Done a' _ | Panicked a' _ => revNum a' = revNum a /\ calls a' = calls a /\
      (outbox a' = outbox a \/ ok /\ exists body, outbox a' = outbox a ++ [(t, body)])
  | Blocked => False
  end.

Lemma only_replies_ret t ok : only_replies t ok (st_ret tt).
Proof. intros a. cbn. auto. Qed.

Lemma only_replies_panic t ok why : only_replies t ok (st_panic why).
Proof. intros a. cbn. auto. Qed.

Lemma only_replies_WriteMsg t (ok : Prop) b : ok -> only_replies t ok (WriteMsg SendMessageHook t b).
Proof. intros Hok a. unfold WriteMsg. destruct (SendMessageHook t b); cbn; eauto 10. Qed.

#[local] Hint Resolve only_replies_ret only_replies_panic only_replies_WriteMsg : replies.

Lemma only_replies_toResult t (ok : Prop) r e : ok -> only_replies t ok (toResult' t r e).
Proof. intros Hok. unfold toResult. repeat first [by eauto with replies | destr_goal]. Qed.

Lemma only_replies_msgid t msgid e : only_replies t (msgid <> "") (to_msgid ProtocolMarshal SendMessageHook msgid t e).
Proof. unfold to_msgid. destruct (decide (msgid = "")); [apply only_replies_ret | by apply only_replies_toResult]. Qed.

Definition ends_routed t msg a (o : exec (agent Srv) unit) : Prop :=
  match o with Done a' _ | Panicked a' _ => routes t msg a a' | Blocked => False end.

Lemma only_replies_routed t msg a (ok : Prop) m : only_replies t ok m -> (ok -> wants_reply t) ->
  (forall c, ~ callable t msg c) -> ends_routed t msg a (m a).
Proof.
  intros Hm Hok Hc. specialize (Hm a). unfold ends_routed, routes.
  destruct (m a); [destruct Hm as (? & ? & ?)..|done]; naive_solver.
Qed.

Lemma wants_reply_id t m f rest : split_on slash t "" = m :: f :: rest ->
  reply_id (m :: f :: rest) <> "" -> wants_reply t.
Proof. unfold wants_reply, reply_id. intros ->. destruct rest as [|i [|]]; naive_solver. Qed.

Lemma route_topic_routed t msg a : ends_routed t msg a (route' t msg a).
Proof.
  unfold route_topic. destruct (split_on slash t "") as [|m [|f rest]] eqn:Ht;
    [by destruct (split_on_nonempty slash t "")|..].
  { apply (only_replies_routed _ _ _ True); [by apply only_replies_toResult | unfold wants_reply; by rewrite Ht|].
    intros c (m' & f' & rest & _ & _ & E & _)%callable_parts. congruence. }
  assert (Hid : match rest with [i] => i | _ => "" end = reply_id (m :: f :: rest)) by done. rewrite Hid.
  pose proof (wants_reply_id t m f rest Ht) as Hw. set (id := reply_id (m :: f :: rest)) in *.
  assert (Hno : forall P : Prop, (forall s b, String.prefix "HD_" f = true -> GetRouteServer m = Ok s -> session_bytes t = Ok b ->
                   (looks_json msg = true -> json_valid msg = true) -> P) -> (P -> False) -> forall c, ~ callable t msg c).
  { intros P HP HF c (m' & f' & rest' & s & b & E & H1 & H2 & H3 & H4 & _)%callable_parts.
    rewrite Ht in E. injection E as <- <- <-. eauto. }
  destruct (String.prefix "HD_" f) eqn:Hp; cbn [negb].
  2: { eapply only_replies_routed; [apply only_replies_msgid | done | by apply (Hno False)]. }
  destruct (GetRouteServer m) as [s|e] eqn:Hg.
  2: { eapply only_replies_routed; [apply only_replies_msgid | done | by apply (Hno False)]. }
  destruct (looks_json msg && negb (json_valid msg)) eqn:Hj.
  { apply andb_true_iff in Hj as [Hlj Hv%negb_true_iff].
    eapply only_replies_routed; [apply only_replies_msgid | done | apply (Hno False); [|done]].
    intros s' b _ _ _ Hjv. by rewrite Hjv in Hv. }
  destruct (session_bytes t) as [b|e] eqn:Hb.
  2: { eapply only_replies_routed; [apply (only_replies_ret t False) | done | by apply (Hno False)]. }
  set (call := mkCall _ _ _ _ _).
  assert (Hcall : callable t msg call).
  { apply callable_parts. exists m, f, rest, s, b. split_and!; try done.
    - intros Hlj. rewrite Hlj in Hj. by destruct (json_valid msg).
    - unfold call. by rewrite bool_decide_not. }
  change (ends_routed t msg a
    ((if decide (id = "") then st_ret tt
      else match CallArgs call with Ok r => toResult' t r None | Err e => toResult' t RNil (Some e) end)
     (a <| calls := calls a ++ [call] |>))).
  set (a1 := a <| calls := calls a ++ [call] |>).
  assert (Ha1 : forall k, only_replies t (id <> "") k -> ends_routed t msg a (k a1)).
  { intros k Hk. specialize (Hk a1). unfold ends_routed, routes.
    assert (Hl : forall a', revNum a' = revNum a1 -> calls a' = calls a1 -> (outbox a' = outbox a1 \/
        id <> "" /\ exists body, outbox a' = outbox a1 ++ [(t, body)]) -> routes t msg a a').
    { intros a' H1 H2 H3. split; [done|]. split; [left; by exists call|]. destruct H3 as [|[]]; [by left | right; auto]. }
    destruct (k a1); [apply Hl; apply Hk..|done]. }
  apply Ha1. destruct (decide (id = "")); [apply only_replies_ret|].
  by destruct (CallArgs call); apply only_replies_toResult.
Qed.

(** What the worker of a PUBLISH does. *)
Lemma handle_publish a p pub tb : bz (msg_type p) = PUBLISH -> pvariable p = VPublish pub -> topic_name pub = Some tb ->
  ends_routed (bytes_str tb) (MqttPack.msg pub) (a <| revNum := revNum a + 1 |>)
    (handle None GetRouteServer json_valid session_bytes CallArgs ProtocolMarshal SendMessageHook p a).
Proof.
  intros Hp Hv Ht. unfold handle, GetType. rewrite Hp, Z.eqb_refl. unfold st_bind, st_mod, GetVariable. cbn [exec_then].
  rewrite Hv. unfold pub_topic. rewrite Ht. apply route_topic_routed.
Qed.

(** C21. Built-in routing: a PUBLISH is counted, and makes a request exactly when
    its topic is [module/HD_handler], with at most a message id and further
    parts, the module can be found, a body in braces is JSON and the session can
    be encoded; the request carries the session and the body with their tags.
    The only thing written is at most one reply, on the same topic, and only when
    the topic is malformed or has exactly three parts with a message id. *)
Theorem publish_is_routed (a : agent Srv) (p : Pack) (pub : Publish) (tb : bytes)
  (Hp : bz (msg_type p) = PUBLISH) (Hv : pvariable p = VPublish pub) (Ht : topic_name pub = Some tb) :
  let t := bytes_str tb in
  match handle None GetRouteServer json_valid session_bytes CallArgs ProtocolMarshal SendMessageHook p a with
  | Done a' _ | Panicked a' _ =>
      revNum a' = revNum a + 1 /\
      ((exists c, callable t (MqttPack.msg pub) c /\ calls a' = calls a ++ [c]) \/
       (forall c, ~ callable t (MqttPack.msg pub) c) /\ calls a' = calls a) /\
      (outbox a' = outbox a \/ wants_reply t /\ exists body, outbox a' = outbox a ++ [(t, body)])
  | Blocked => False
  end.
Proof.
  intros t. pose proof (handle_publish a p pub tb Hp Hv Ht) as Hr. unfold ends_routed in Hr.
  by destruct (handle _ _ _ _ _ _ _ p a).
Qed.

(** ** The pool and the client *)

#[local] Instance agent_PackRecover : PackRecover (agent Srv) := OnRecover'.

(** A full pool ends the connection of a client that keeps it alive: when
    the next packet is a PINGREQ, the pong is written, the receiver panics, and
    [Listen_loop] returns with the rest of the input unread, the receiver as it
    was and [isStop] still false. *)
Lemma ping_at_full_pool_ends_reading {Sock : Type} `{SocketLaws Sock} (c c1 : Client Sock (agent Srv))
  (p : Pack) (r : reader) (e : option qerr)
  (Hq : isConnected (queue c) = true) (Hc : has_conn (queue c) = true)
  (Hr : ReadPack (q_r (queue c)) (MaxPackSize (queue c)) = (Some p, None, r))
  (Hp : bz (msg_type p) = PINGREQ) (Hfull : ch_len (recover c) = ch_cap (recover c))
  (Hw : c_write (GetPingResp x00 (dup_flag p)) (set_reader r c) = Done c1 e) :
  Listen_loop c = Done c1 tt /\ isStop c1 = isStop c /\ recover c1 = recover c /\ q_r (queue c1) = r.
Proof.
  pose proof (ReadPack_typed _ _ _ _ Hr) as Ht.
  pose proof (c_write_inv (GetPingResp x00 (dup_flag p)) (set_reader r c)) as Hi. rewrite Hw in Hi.
  assert (recover c1 = recover c /\ q_r (queue c1) = r) as [Hrec Hrd] by (destruct e; naive_solver).
  assert (Hs : isStop c1 = isStop c).
  { unfold c_write in Hw. destr_hyp Hw; [|done..]. by injection Hw as <- _. }
  split; [|done]. unfold Listen_loop, read_fuel. cbn [ReadPackInLoop]. rewrite Hq, Hc. cbn [negb]. rewrite Hr.
  assert (Hv : pvariable p = VNil).
  { unfold typed in Ht. rewrite Hp in Ht. destruct (pvariable p); try done. by destruct Ht as [|[|[|]]]. }
  unfold waitPack, GetType, GetDup. rewrite Hp.
  cbn [Z.eqb PINGREQ CONNECT PUBLISH PUBACK PUBREC PUBREL PUBCOMP SUBSCRIBE UNSUBSCRIBE Pos.eqb].
  rewrite Hw. cbn [exec_then]. unfold c_recover, OnRecover, agent_PackRecover.
  rewrite Hrec, OnRecover_full by done. unfold GetVariable. rewrite Hv. cbn [exec_then].
  rewrite <- Hrec. by destruct c1.
Qed.

End Theorems.

(** ** The handshake *)

Section Handshake.
Context {Sock : Type} `{SocketLaws Sock} {A : Type} `{PackRecover A}.

(** A connection is served only after a CONNECT, its CONNACK is on the wire
    before anything else, and nothing has been delivered to the receiver yet. *)
Lemma accept_inv read_timeout max new_session (rec : A) r (w : bufw Sock) c :
  accept read_timeout max new_session rec r w = Accepted c ->
  exists p conn r' bs, ReadPack r max = (Some p, None, r') /\ pvariable p = VConnect conn /\
    frame (GetConnAckPack x00) = Some bs /\ content (q_w (queue c)) = content w ++ bs /\
    q_r (queue c) = r' /\ recover c = rec /\ isStop c = false.
Proof.
  unfold accept, GetVariable, GetType. destruct (ReadPack r max) as [[[p|] [e|]] r']; try done.
  destruct (negb _); [done|]. destruct (pvariable p) as [|conn| | | | | | |] eqn:Hv; try done.
  destruct new_session; [|done]. unfold WritePack, wseq.
  pose proof (DelayWritePack_refines_frame (bufw Sock) (GetConnAckPack x00) w) as Hw.
  destruct (DelayWritePack _ w) as [w1 [e|]| |]; try done. destruct Hw as (bs & Hf & Hc).
  cbn [w_Flush bufw_BufWriter]. destruct (Flush w1) as [w2 [e|]] eqn:Hfl; [done|]. cbn.
  intros [= <-]. apply Flush_law in Hfl as (Hc2 & _).
  exists p, conn, r', bs. split_and!; try done. cbn. rewrite Hc2. exact Hc.
Qed.
End Handshake.

(** ** A sample gate: one module, results marshalled as their error's text *)

Definition sample_route (m : string) : result string string :=
  if decide (m = "chat") then Ok m else Err "not found".
Definition sample_marshal (r : route_result unit) (e : option string) : result string (option bytes) :=
  Ok (Some (str_bytes (default "done" e))).
Definition sample_hook (t : string) (b : bytes) : result string bytes := Ok b.
Definition sample_call (c : agent_call string) : result string (route_result unit) := Ok (RVal tt).
Definition sample_session (t : string) : result string bytes := Ok (str_bytes t).
Definition sample_publish (t : string) : Publish := {| topic_name := Some (str_bytes t); pub_mid := 0; MqttPack.msg := [] |}.
Definition sample_pack (t : string) : Pack := mkPack x03 x00 x00 x00 0 (VPublish (sample_publish t)).

Lemma publish_is_routed_witness :
  match handle None sample_route (fun _ => true) sample_session sample_call sample_marshal sample_hook
          (sample_pack "chat/HD_say/7") (OnInit 2 0) with
  | Done a' _ | Panicked a' _ =>
      revNum a' = 0 + 1 /\
      ((exists c, callable sample_route (fun _ => true) sample_session "chat/HD_say/7" [] c /\ calls a' = [] ++ [c]) \/
       (forall c, ~ callable sample_route (fun _ => true) sample_session "chat/HD_say/7" [] c) /\ calls a' = []) /\
      (outbox a' = [] \/ wants_reply "chat/HD_say/7" /\ exists body, outbox a' = [] ++ [("chat/HD_say/7", body)])
  | Blocked => False
  end.
Proof.
  exact (publish_is_routed sample_route (fun _ => true) sample_session sample_call sample_marshal sample_hook
           (OnInit 2 0) (sample_pack "chat/HD_say/7") (sample_publish "chat/HD_say/7") (str_bytes "chat/HD_say/7")
           eq_refl eq_refl eq_refl).
Defined.

(** The request of that topic is made, and answered on it. *)
Example sample_routed :
  match handle None sample_route (fun _ => true) sample_session sample_call sample_marshal sample_hook
          (sample_pack "chat/HD_say/7") (OnInit 2 0) with
  | Done a' _ => (ac_func <$> calls a', outbox a') = (["HD_say"], [("chat/HD_say/7", str_bytes "done")])
  | _ => False
  end.
Proof. vm_compute. reflexivity. Qed.

(** Four parts make the same request without an answer. *)
Example sample_unanswered :
  match handle None sample_route (fun _ => true) sample_session sample_call sample_marshal sample_hook
          (sample_pack "chat/HD_say/7/8") (OnInit 2 0) with
  | Done a' _ => (ac_func <$> calls a', outbox a') = (["HD_say"], [])
  | _ => False
  end.
Proof. vm_compute. reflexivity. Qed.

#[local] Instance sample_PackRecover : PackRecover (agent string) := agent_OnRecover sample_marshal sample_hook.

(** A pool without workers, a PINGREQ, and a DISCONNECT that is never read. *)
Definition sample_busy : Client mem_sock (agent string) :=
  NewClient 60 (OnInit 0 0) (mkReader [xc0; x00; xe0; x00] EOF) (NewWriterSize (newTCPConn []) 64) true 10 100.

Definition sample_ponged : Client mem_sock (agent string) :=
  match c_write (GetPingResp x00 x00) (set_reader (mkReader [xe0; x00] EOF) sample_busy) with
  | Done c _ => c
  | _ => sample_busy
  end.

Lemma ping_at_full_pool_ends_reading_witness :
  Listen_loop sample_busy = Done sample_ponged tt /\ isStop sample_ponged = false /\
  recover sample_ponged = OnInit 0 0 /\ q_r (queue sample_ponged) = mkReader [xe0; x00] EOF.
Proof.
  exact (ping_at_full_pool_ends_reading sample_marshal sample_hook sample_busy sample_ponged
           (mkPack x0c x00 x00 x00 0 VNil) (mkReader [xe0; x00] EOF) None
           eq_refl eq_refl eq_refl eq_refl eq_refl eq_refl).
Defined.
