(* ===== verification/GateConn.v ===== *)
(** * A connection of the gate as a whole

    The client's read loop, the agent that receives its packets, the agent's workers,
    the messages other modules push, the flusher and whoever closes the connection, over
    one write queue: [Run] of [gate/base/mqtt_agent.go] after the handshake, with
    [Listen_loop] of [mqtt/mqtt_client_server.go].

    [Agent] collects what its calls hand to [client.WriteMsg] in [outbox]; here each of
    those is written, on the client the agent belongs to, right after the call that
    handed it over.  A step is a turn of the read loop, a worker that runs to its end, a
    push, a turn of the flusher, or a close; [QueueTheorems] has the interleavings of
    the writes themselves.  A step that has to wait cannot be taken ([None]). *)
From S2P Require Import Prelude MqttPack MqttRead MqttWrite MqttCodec MqttTheorems BufIO PackQueue QueueTheorems RpcArgs Agent AgentTheorems.
#[local] Open Scope mq_scope.
#[local] Open Scope string_scope.
#[local] Open Scope list_scope.
#[local] Open Scope Z_scope.

(** ** The machine *)

Section Conn.
Context {Sock : Type} `{Socket Sock} {Srv V : Type}
        (RouteHandler : option (string -> bytes -> bool * route_result V * option string))
        (GetRouteServer : string -> result string Srv)
        (json_valid : bytes -> bool)
        (session_bytes : string -> result string bytes)
        (CallArgs : agent_call Srv -> result string (route_result V))
        (ProtocolMarshal : route_result V -> option string -> result string (option bytes))
        (SendMessageHook : string -> bytes -> result string bytes)
        (has_storage : bool) (heartbeat : Z).

#[local] Instance conn_PackRecover : PackRecover (agent Srv) :=
  agent_OnRecover ProtocolMarshal SendMessageHook.

Abbreviation conn_client := (Client Sock (agent Srv)).

(** [reading] and [flushing]: the two loops still run.  [arrived]: the packets read so
    far; [pushed]: the topics other modules asked to write on. *)
Record conn_sys := mkConnSys {
  conn : conn_client; reading : bool; flushing : bool; arrived : list Pack; pushed : list string }.

(** [Listen_loop] starts the flusher and reads. *)
Definition conn_start (c : conn_client) : conn_sys := mkConnSys c true true [] [].

(** The messages of the agent, each written as it is handed over; [recoverworker] and
    [OnRecover] drop the error. *)
Fixpoint write_out (msgs : list (string * bytes)) (c : conn_client) : exec conn_client unit :=
  match msgs with
  | [] => Done c tt
  | (t, body) :: msgs => exec_then (PackQueue.WriteMsg (str_bytes t) body c) (fun _ => write_out msgs)
  end.

(** What the agent has handed over since its outbox was [before]. *)
Definition flush_agent (before : agent Srv) (c : conn_client) : exec conn_client unit :=
  write_out (drop (length (outbox before)) (outbox (recover c))) c.

(** A call of the agent that is no packet of the client: a worker, a push. *)
Definition agent_turn (f : agent Srv -> agent Srv) (c : conn_client) : exec conn_client unit :=
  let a := recover c in flush_agent a (c <| recover := f a |>).

Definition set_conn (o : exec conn_client unit) (s : conn_sys) : option conn_sys :=
  match o with
  | Done c _ | Panicked c _ => Some (mkConnSys c (reading s) (flushing s) (arrived s) (pushed s))
  | Blocked => None
  end.

(** The end of the read loop: [isStop] is set unless it panicked. *)
Definition read_end (c : conn_client) (stop : bool) (s : conn_sys) : option conn_sys :=
  let c := if stop then c <| isStop := true |> else c in
  Some (mkConnSys c false (flushing s) (arrived s) (pushed s)).

Definition close_queue (e : qerr) (c : conn_client) : conn_client :=
  let q := queue c in c <| queue := Close (Some e) q |>.

(** One turn of [ReadPackInLoop]. *)
Definition read_turn (s : conn_sys) : option conn_sys :=
  let c := conn s in
  if negb (reading s) then None else
  if negb (isConnected (queue c)) then read_end c true s else
  if negb (has_conn (queue c)) then read_end c false s else
  let '(pack, err, r) := ReadPack (q_r (queue c)) (MaxPackSize (queue c)) in
  let a := recover c in
  let c := set_reader r c in
  match err, pack with
  | Some e, _ => read_end (close_queue (QRead e) c) true s
  | None, None => read_end c false s
  | None, Some pack =>
      let s := mkConnSys c (reading s) (flushing s) (arrived s ++ [pack]) (pushed s) in
      match waitPack pack None c with
      | Done c err =>
          match flush_agent a c, err with
          | Done c _, None => set_conn (Done c tt) s
          | Done c _, Some e => read_end (close_queue e c) true s
          | Panicked c _, _ => read_end c false s
          | Blocked, _ => None
          end
      | Panicked c _ => read_end c false s
      | Blocked => None
      end
  end.

Inductive conn_event :=
| ReadTurn
| RunWorker (now : Z) (i : nat)
| Push (topic : string) (body : bytes)
| FlusherTurn
| CloseConn.

Definition push_agent (t : string) (body : bytes) (a : agent Srv) : agent Srv :=
  match Agent.WriteMsg SendMessageHook t body a with
  | Done a _ | Panicked a _ => a
  | Blocked => a
  end.

Definition conn_step (s : conn_sys) (e : conn_event) : option conn_sys :=
  match e with
  | ReadTurn => read_turn s
  | RunWorker now i =>
      set_conn (agent_turn (run_worker RouteHandler GetRouteServer json_valid session_bytes CallArgs
                              ProtocolMarshal SendMessageHook has_storage heartbeat now i) (conn s)) s
  | Push t body =>
      set_conn (agent_turn (push_agent t body) (conn s))
        (mkConnSys (conn s) (reading s) (flushing s) (arrived s) (pushed s ++ [t]))
  | FlusherTurn =>
      let c := conn s in
      if negb (flushing s) then None else
      match flusher_turn (queue c) with
      | Done q fl => Some (mkConnSys (c <| queue := q |>) (reading s) fl (arrived s) (pushed s))
      | Panicked _ _ | Blocked => None
      end
  | CloseConn =>
      let c := conn s in
      let q := queue c in
      Some (mkConnSys (c <| queue := close_conn q |>) (reading s) (flushing s) (arrived s) (pushed s))
  end.

Definition conn_run : list conn_event -> conn_sys -> option conn_sys := run_steps conn_step.
End Conn.
Arguments conn_sys Sock Srv : clear implicits.

(** ** What is counted *)

(** The topic of a publication. *)
Definition pub_on (p : Pack) : option string :=
  match pvariable p with VPublish v => bytes_str <$> topic_name v | _ => None end.

Definition is_answer (p : Pack) : bool := match pvariable p with VPublish _ => false | _ => true end.

#[local] Abbreviation topics := (omap pub_on).
#[local] Abbreviation answers_in := (filter (fun p => is_answer p)).
#[local] Abbreviation delivered := (filter (fun p => delivers p)).

Lemma replies_are_answers p : Forall (fun q => is_answer q) (replies p).
Proof.
  unfold replies. destruct (pvariable p); repeat destr_goal; repeat constructor.
  by apply Forall_fmap, Forall_true.
Qed.

Lemma filter_all {X} (P : X -> Prop) `{!forall x, Decision (P x)} l : Forall P l -> filter P l = l.
Proof. induction 1 as [|x l Hx _ IH]; [done|]. by rewrite filter_cons_True, IH. Qed.

Lemma omap_answers ps : Forall (fun p => is_answer p) ps -> topics ps = [].
Proof. induction 1 as [|p ps Hp _ IH]; [done|]. cbn. rewrite IH. unfold is_answer, pub_on in *. by destruct (pvariable p). Qed.

Section Theorems.
Context {Sock : Type} `{SocketLaws Sock} {Srv V : Type}
        (RouteHandler : option (string -> bytes -> bool * route_result V * option string))
        (GetRouteServer : string -> result string Srv)
        (json_valid : bytes -> bool)
        (session_bytes : string -> result string bytes)
        (CallArgs : agent_call Srv -> result string (route_result V))
        (ProtocolMarshal : route_result V -> option string -> result string (option bytes))
        (SendMessageHook : string -> bytes -> result string bytes)
        (has_storage : bool) (heartbeat : Z).

#[local] Hint Extern 0 (PackRecover (agent Srv)) =>
  exact (conn_PackRecover ProtocolMarshal SendMessageHook) : typeclass_instances.
Abbreviation OnRecover' := (agent_OnRecover (Srv := Srv) ProtocolMarshal SendMessageHook).
Abbreviation run_worker' := (run_worker RouteHandler GetRouteServer json_valid session_bytes CallArgs ProtocolMarshal
                               SendMessageHook has_storage heartbeat).
Abbreviation conn_step' := (conn_step (Sock := Sock) RouteHandler GetRouteServer json_valid session_bytes CallArgs ProtocolMarshal
                              SendMessageHook has_storage heartbeat).
Abbreviation conn_run' := (conn_run (Sock := Sock) RouteHandler GetRouteServer json_valid session_bytes CallArgs ProtocolMarshal
                             SendMessageHook has_storage heartbeat).
Abbreviation puts' := (puts (Sock := Sock) (A := agent Srv)).

(** The request a packet of the client stands for: none where a route handler is installed,
    which makes its own. *)
Definition requested (p : Pack) (c : agent_call Srv) : Prop :=
  RouteHandler = None /\ exists pub tb, bz (msg_type p) = PUBLISH /\ pvariable p = VPublish pub /\ topic_name pub = Some tb /\
    callable GetRouteServer json_valid session_bytes (bytes_str tb) (MqttPack.msg pub) c.

(** ** What the agent's calls hand over *)

(** At most one message, on topic [t]. *)
Definition hands (t : option string) (a a' : agent Srv) : Prop :=
  exists msgs, outbox a' = outbox a ++ msgs /\ (fst <$> msgs) `sublist_of` option_list t.

Lemma hands_nothing t a a' : outbox a' = outbox a -> hands t a a'.
Proof. intros E. exists []. rewrite app_nil_r. by split; [|apply sublist_nil_l]. Qed.

Lemma hands_one t (ok : Prop) a a' :
  outbox a' = outbox a \/ ok /\ (exists body, outbox a' = outbox a ++ [(t, body)]) -> hands (Some t) a a'.
Proof. intros [E|(_ & body & E)]; [by apply hands_nothing|]. by exists [(t, body)]. Qed.

Lemma OnRecover_cases p a : let a' := fst (OnRecover' p a) in ch_cap a' = ch_cap a /\ calls a' = calls a /\
  ((ch_len a < ch_cap a)%nat /\ ch_len a' = S (ch_len a) /\ workers a' = workers a ++ [p] /\ outbox a' = outbox a \/
   (ch_cap a <= ch_len a)%nat /\ ch_len a' = ch_len a /\ workers a' = workers a /\ hands (pub_on p) a a').
Proof.
  cbn zeta. destruct (decide (ch_len a < ch_cap a)%nat) as [Hl|Hl].
  { rewrite OnRecover_accepts by done. cbn. split_and!; auto. }
  unfold agent_OnRecover, Wait. rewrite (proj2 (Nat.ltb_ge _ _)) by lia. unfold GetVariable, pub_on.
  assert (Hno : forall a', a' = a -> ch_cap a' = ch_cap a /\ calls a' = calls a /\
    ((ch_len a < ch_cap a)%nat /\ ch_len a' = S (ch_len a) /\ workers a' = workers a ++ [p] /\ outbox a' = outbox a \/
     (ch_cap a <= ch_len a)%nat /\ ch_len a' = ch_len a /\ workers a' = workers a /\ hands None a a')).
  { intros a' ->. split_and!; try done. right. split_and!; try done; [lia | by apply hands_nothing]. }
  destruct (pvariable p) as [| | |pub| | | | |]; try (by apply Hno).
  unfold pub_topic. destruct (topic_name pub) as [tb|]; [|by apply Hno]. cbn [fmap option_fmap option_map].
  pose proof (spares_toResult ProtocolMarshal SendMessageHook (bytes_str tb) RNil (Some queue_full) a) as Hp.
  pose proof (only_replies_toResult ProtocolMarshal SendMessageHook (bytes_str tb) True RNil (Some queue_full) I a) as Hr.
  destruct (toResult _ _ _ _ _ a); [..|done]; injection Hp as Hp1 Hp2 Hp3; destruct Hr as (_ & Hr1 & Hr2%hands_one);
    cbn; (split_and!; [done..|]); right; split_and!; auto; lia.
Qed.

Lemma handle_on_route on_route p a : match handle (Some on_route) GetRouteServer json_valid session_bytes CallArgs ProtocolMarshal SendMessageHook p a with
  | Done a' _ | Panicked a' _ => hands (pub_on p) a a' /\ calls a' = calls a
  | Blocked => False
  end.
Proof.
  unfold handle. destruct (bz (GetType p) =? PUBLISH); [|by split; [apply hands_nothing|]]. cbn.
  unfold GetVariable, pub_on. destruct (pvariable p) as [| | |pub| | | | |]; try (by split; [apply hands_nothing|]).
  unfold pub_topic. destruct (topic_name pub) as [tb|]; [|by split; [apply hands_nothing|]]. cbn [fmap option_fmap option_map].
  destruct (on_route _ _) as [[needreturn r] err]. destruct needreturn; [|by split; [apply hands_nothing|]].
  match goal with |- context [toResult _ _ ?t ?r ?e ?a] =>
    pose proof (only_replies_toResult ProtocolMarshal SendMessageHook t True r e I a) as Hr;
    destruct (toResult _ _ t r e a) end; [..|done]; destruct Hr as (_ & Hc & Ho%hands_one); split; try exact Hc; exact Ho.
Qed.

Lemma handle_cases p a : match handle RouteHandler GetRouteServer json_valid session_bytes CallArgs ProtocolMarshal SendMessageHook p a with
  | Done a' _ | Panicked a' _ => hands (pub_on p) a a' /\
      ((exists c, requested p c /\ calls a' = calls a ++ [c]) \/ (forall c, ~ requested p c) /\ calls a' = calls a)
  | Blocked => False
  end.
Proof.
  assert (HR : RouteHandler = None \/ exists on_route, RouteHandler = Some on_route) by (destruct RouteHandler; eauto).
  destruct HR as [HR|[on_route HR]]; rewrite HR.
  2: { pose proof (handle_on_route on_route p a) as Hh. destruct (handle _ _ _ _ _ _ _ p a); [..|done];
      destruct Hh as [Hh Hc]; (split; [done|]); right; (split; [|done]); intros call [E _]; by rewrite HR in E. }
  assert (Hno : (forall pub, bz (msg_type p) = PUBLISH -> pvariable p = VPublish pub -> topic_name pub = None) ->
                forall c, ~ requested p c).
  { intros Hp call (_ & pub & tb & Hm & Hv & Ht & _). by rewrite (Hp pub) in Ht. }
  destruct (Z.eqb_spec (bz (msg_type p)) PUBLISH) as [Hm|Hm].
  2: { unfold handle, GetType. rewrite (proj2 (Z.eqb_neq _ _)) by done. cbn.
       split; [by apply hands_nothing|]. right. split; [by apply Hno|done]. }
  destruct (pvariable p) as [| | |pub| | | | |] eqn:Hv; cycle 3.
  { destruct (topic_name pub) as [tb|] eqn:Ht.
    - pose proof (handle_publish GetRouteServer json_valid session_bytes CallArgs ProtocolMarshal SendMessageHook
                    a p pub tb Hm Hv Ht) as Hr.
      unfold pub_on. rewrite Hv, Ht. cbn [fmap option_fmap option_map].
      destruct (handle _ _ _ _ _ _ _ p a); [..|done]; destruct Hr as (_ & Hc & Ho%hands_one); (split; [done|]);
        (destruct Hc as [(call & ? & ?)|[Hc ?]]; [left; exists call; split; [by split; [|exists pub, tb]|done]|]); right;
        (split; [|done]); intros call (_ & pub' & tb' & _ & Hv' & Ht' & ?); apply (Hc call); congruence.
    - unfold handle, GetType, GetVariable. rewrite Hm, Hv. cbn. unfold pub_topic. rewrite Ht. cbn.
      split; [by apply hands_nothing|]. right. split; [|done]. apply Hno. congruence. }
  all: unfold handle, GetType, GetVariable; rewrite Hm, Hv; cbn; split; [by apply hands_nothing|]; right;
    split; [apply Hno; congruence | done].
Qed.

Lemma run_worker_cases now i p a : workers a !! i = Some p -> let a' := run_worker' now i a in
  ch_cap a' = ch_cap a /\ ch_len a' = pred (ch_len a) /\ workers a' = delete i (workers a) /\ hands (pub_on p) a a' /\
  ((exists c, requested p c /\ calls a' = calls a ++ [c]) \/ (forall c, ~ requested p c) /\ calls a' = calls a).
Proof.
  intros Hp. cbn zeta. pose proof (run_worker_pool RouteHandler GetRouteServer json_valid session_bytes CallArgs ProtocolMarshal
    SendMessageHook has_storage heartbeat now i a (lookup_lt_Some _ _ _ Hp)) as [= E1 E2 E3].
  do 3 (split; [done|]). unfold run_worker, recoverworker. rewrite Hp.
  match goal with |- context [handle _ _ _ _ _ _ _ p ?b] => pose proof (handle_cases p b) as Hh; set (a1 := b) in * end.
  assert (Hd : forall a', hands (pub_on p) a1 a' /\ ((exists c, requested p c /\ calls a' = calls a1 ++ [c]) \/
       (forall c, ~ requested p c) /\ calls a' = calls a1) ->
     let a2 := worker_done has_storage heartbeat now a' in hands (pub_on p) a a2 /\
       ((exists c, requested p c /\ calls a2 = calls a ++ [c]) \/ (forall c, ~ requested p c) /\ calls a2 = calls a)).
  { intros a' Ha. unfold worker_done, Finish. by destr_goal. }
  destruct (handle _ _ _ _ _ _ _ p a1); [by apply Hd..|done].
Qed.

Lemma push_cases t b a : let a' := push_agent SendMessageHook t b a in pool a' = pool a /\ calls a' = calls a /\ hands (Some t) a a'.
Proof.
  unfold push_agent, Agent.WriteMsg. destruct (SendMessageHook t b); cbn; split_and!; try done; [by eexists [_] | by apply hands_nothing].
Qed.

(** ** What reaches the connection *)

(** [ps] are publications on topics [ts]. *)
Definition published (ts : list string) (c c' : Client Sock (agent Srv)) : Prop :=
  recover c' = recover c /\ exists ps, puts' ps c c' /\ topics ps `sublist_of` ts /\ answers_in ps = [].

Lemma WriteMsg_published t body (c : Client Sock (agent Srv)) : match PackQueue.WriteMsg (str_bytes t) body c with
  | Done c' _ => published [t] c c'
  | Panicked _ _ => False
  | Blocked => True
  end.
Proof.
  unfold PackQueue.WriteMsg. destruct (isStop c).
  { split; [done|]. exists []. split_and!; [by apply puts_nil | apply sublist_nil_l | done]. }
  destruct (getOnlineMsgId c) as [c1 id] eqn:E. assert (Hc : queue c1 = queue c /\ recover c1 = recover c).
  { unfold getOnlineMsgId in E. by injection E as <- _. }
  destruct Hc as [Hq Hr]. set (p := GetPubPack _ _ _ _ _).
  pose proof (c_write_inv p c1) as Hi. pose proof (c_write_puts p c1) as Hp.
  destruct (c_write p c1) as [c2 e| |]; [|done..]. specialize (Hp c2 e eq_refl). unfold puts, client_content in Hp.
  rewrite Hq in Hp. split; [rewrite <- Hr; by destruct e as [e|]; destruct Hi|].
  eexists. split; [exact Hp|]. destruct e; [split; [apply sublist_nil_l | done]|]. split; [|done]. cbn.
  by rewrite String.string_of_list_byte_of_string.
Qed.

Lemma published_nil (c : Client Sock (agent Srv)) : published [] c c.
Proof. split; [done|]. exists []. split_and!; [by apply puts_nil | done | done]. Qed.

Lemma published_app ts1 ts2 c1 c2 c3 : published ts1 c1 c2 -> published ts2 c2 c3 -> published (ts1 ++ ts2) c1 c3.
Proof.
  intros (E1 & ps1 & Hp1 & Ht1 & Ha1) (E2 & ps2 & Hp2 & Ht2 & Ha2). split; [congruence|].
  exists (ps1 ++ ps2). split; [by eapply puts_app|]. rewrite omap_app, filter_app, Ha1, Ha2. split; [by apply sublist_app | done].
Qed.

Lemma write_out_published msgs : forall c, match write_out (Sock := Sock) (Srv := Srv) msgs c with
  | Done c' _ => published (fst <$> msgs) c c'
  | Panicked _ _ => False
  | Blocked => True
  end.
Proof.
  induction msgs as [|[t body] msgs IH]; intros c; cbn [write_out]; [apply published_nil|].
  pose proof (WriteMsg_published t body c) as Hw.
  destruct (PackQueue.WriteMsg (str_bytes t) body c) as [c1 e| |]; cbn [exec_then]; [|done..].
  specialize (IH c1). destruct (write_out msgs c1); [|done..]. by apply (published_app [t] _ _ c1).
Qed.

Lemma published_sublist ts ts' c c' : ts `sublist_of` ts' -> published ts c c' -> published ts' c c'.
Proof. intros Hs (E & ps & ? & ? & ?). split; [done|]. exists ps. split_and!; [done | by etrans | done]. Qed.

Lemma flush_agent_published t before c : hands t before (recover c) ->
  match flush_agent (Sock := Sock) before c with
  | Done c' _ => published (option_list t) c c'
  | Panicked _ _ => False
  | Blocked => True
  end.
Proof.
  intros (msgs & E & Hs). unfold flush_agent. rewrite E, drop_app_length.
  pose proof (write_out_published msgs c) as Hw. destruct (write_out msgs c); [|done..]. by eapply published_sublist.
Qed.

(** ** The invariant, in three parts *)

(** The wire: what the client [c] was given since it was [c0], and that the protocol's
    answers among it are those of the packets read. *)
Definition wire_inv (c0 c : Client Sock (agent Srv)) (rd : bool) (arr wrote : list Pack) : Prop :=
  puts' wrote c0 c /\ answers_in wrote `sublist_of` mjoin (replies <$> arr) /\
  (rd = true -> isConnected (queue c) = true -> answers_in wrote = mjoin (replies <$> arr)).

Lemma wire_published c0 c c' rd arr wrote ts : wire_inv c0 c rd arr wrote -> published ts c c' ->
  exists ps, wire_inv c0 c' rd arr (wrote ++ ps) /\ topics ps `sublist_of` ts.
Proof.
  intros (Hp & Hs & He) (_ & ps & Hps & Ht & Ha). exists ps. split; [|done].
  split; [by eapply puts_app|]. rewrite filter_app, Ha, app_nil_r. split; [done|].
  intros Hr Hc. apply He; [done|]. by apply Hps.
Qed.

Lemma wire_silent c0 c c' rd rd' arr wrote : (rd' = true -> rd = true) -> puts' [] c c' ->
  wire_inv c0 c rd arr wrote -> wire_inv c0 c' rd' arr wrote.
Proof.
  intros Hrd Hn (Hp & Hs & He). split; [|split; [done|]].
  - rewrite <- (app_nil_r wrote). by eapply puts_app.
  - intros Hr Hc. apply He; [by apply Hrd|]. by apply Hn.
Qed.

Lemma wire_answered c0 c c' rd rd' arr wrote p ps : (rd' = true -> rd = true /\ ps = replies p) ->
  ps `sublist_of` replies p -> puts' ps c c' ->
  wire_inv c0 c rd arr wrote -> wire_inv c0 c' rd' (arr ++ [p]) (wrote ++ ps).
Proof.
  intros Hrd Hps Hpt (Hp & Hs & He). split; [by eapply puts_app|].
  assert (Ha : answers_in ps = ps).
  { apply filter_all. apply Forall_forall. intros q Hq. eapply elem_of_sublist in Hq; [|exact Hps]. revert q Hq. apply Forall_forall, replies_are_answers. }
  rewrite filter_app, Ha, fmap_app, join_app. cbn. rewrite app_nil_r. split; [by apply sublist_app|].
  intros Hr Hc. destruct (Hrd Hr) as [Hr' ->]. f_equal. apply He; [done|]. by apply Hpt.
Qed.

Lemma puts_down ps (c c' : Client Sock (agent Srv)) : isConnected (queue c') = false -> puts' ps c c'.
Proof. intros Hd Hc. congruence. Qed.

(** The agent: a delivered packet has had its request made ([srcs]), waits for its
    worker, stands for no request ([others]) or was [refused]. *)
Definition agent_inv (n : nat) (a : agent Srv) (arr srcs others refused : list Pack) : Prop :=
  pool_ok n a /\ Forall2 requested srcs (calls a) /\ Forall (fun p => forall c, ~ requested p c) others /\
  srcs ++ workers a ++ others ++ refused ≡ₚ delivered arr /\
  ((length (delivered arr) <= n)%nat -> refused = []).

(** The topics: publications written and still owed were asked for. *)
Definition topics_inv (a : agent Srv) (arr wrote : list Pack) (psh : list string) : Prop :=
  topics wrote ++ topics (workers a) ⊆+ topics arr ++ psh.

Lemma topics_step a a' arr arr' wrote ps psh psh' t extra : topics_inv a arr wrote psh ->
  topics (workers a') ++ option_list t ≡ₚ topics (workers a) ++ extra ->
  topics arr' ++ psh' ≡ₚ (topics arr ++ psh) ++ extra -> topics ps `sublist_of` option_list t ->
  topics_inv a' arr' (wrote ++ ps) psh'.
Proof.
  unfold topics_inv. intros Ht Hw Ha Hps. rewrite Ha.
  trans ((topics wrote ++ topics (workers a)) ++ extra); [|by apply submseteq_app].
  rewrite <- (assoc (++)), <- Hw, omap_app, <- (assoc (++)). apply submseteq_app; [done|].
  rewrite (comm (++) (topics ps)). apply submseteq_app; [done|]. by apply sublist_submseteq.
Qed.

Lemma topics_delete (ws : list Pack) i p : ws !! i = Some p ->
  topics (delete i ws) ++ option_list (pub_on p) ≡ₚ topics ws ++ [].
Proof.
  intros Hp. rewrite app_nil_r. trans (topics (p :: delete i ws)).
  - cbn. destruct (pub_on p); cbn; [|by rewrite app_nil_r]. solve_Permutation.
  - by rewrite <- (delete_Permutation _ _ _ Hp).
Qed.

Lemma agent_arrives n a p arr srcs others refused : agent_inv n a arr srcs others refused -> delivers p = true ->
  let a' := fst (OnRecover' p a) in
  exists refused' t, agent_inv n a' (arr ++ [p]) srcs others refused' /\ hands t a a' /\
    topics (workers a') ++ option_list t ≡ₚ topics (workers a) ++ option_list (pub_on p).
Proof.
  intros ((Hl & Hn & Hc) & Hcalls & Ho & Hs & Hr) Hd a'.
  assert (Hdel : delivered (arr ++ [p]) = delivered arr ++ [p]).
  { rewrite filter_app. by rewrite filter_cons_True by (by rewrite Hd). }
  pose proof (Permutation_length Hs) as Hlen. rewrite !length_app in Hlen.
  destruct (OnRecover_cases p a) as (Hc' & Hcl & Hcase). fold a' in Hc', Hcl, Hcase. unfold agent_inv, pool_ok.
  rewrite Hc', Hcl, Hdel, length_app. cbn [length].
  destruct Hcase as [(Hlt & Hl' & Hw & Hout)|(Hge & Hl' & Hw & Hh)]; rewrite Hl', Hw.
  - exists refused, None. rewrite length_app. cbn [length]. split_and!; try done; try lia.
    + rewrite <- Hs. solve_Permutation.
    + intros. apply Hr. lia.
    + by apply hands_nothing.
    + rewrite omap_app. cbn. rewrite app_nil_r. by destruct (pub_on p).
  - exists (refused ++ [p]), (pub_on p). split_and!; try done; try lia. rewrite <- Hs. solve_Permutation.
Qed.

Lemma agent_works n a i p a' arr srcs others refused : agent_inv n a arr srcs others refused ->
  workers a !! i = Some p -> ch_cap a' = ch_cap a -> ch_len a' = pred (ch_len a) ->
  workers a' = delete i (workers a) ->
  (exists c, requested p c /\ calls a' = calls a ++ [c]) \/ (forall c, ~ requested p c) /\ calls a' = calls a ->
  exists srcs' others', agent_inv n a' arr srcs' others' refused.
Proof.
  intros ((Hl & Hn & Hc) & Hcalls & Ho & Hs & Hr) Hp Hc' Hl' Hw Hcase.
  pose proof (delete_Permutation _ _ _ Hp) as HP. rewrite <- Hw in HP.
  assert (Hpool : pool_ok n a').
  { unfold pool_ok. rewrite Hc', Hl', Hw, length_delete by done. split_and!; [lia..|done]. }
  unfold agent_inv. destruct Hcase as [(c & Hrq & ->)|[Hno ->]].
  - exists (srcs ++ [p]), others. split_and!; [done| | done | | done].
    + apply Forall2_app; [done|]. by constructor; [|constructor].
    + rewrite <- Hs, HP. solve_Permutation.
  - exists srcs, (p :: others). split_and!; [done | done | by constructor | | done].
    rewrite <- Hs, HP. solve_Permutation.
Qed.

(** Any packet read, delivered or not. *)
Lemma agent_reads n a p arr srcs others refused : agent_inv n a arr srcs others refused ->
  let a' := if delivers p then fst (OnRecover' p a) else a in
  exists refused' t, agent_inv n a' (arr ++ [p]) srcs others refused' /\ hands t a a' /\
    topics (workers a') ++ option_list t ≡ₚ topics (workers a) ++ option_list (pub_on p).
Proof.
  intros Ha. destruct (delivers p) eqn:Hd; [by eapply agent_arrives|].
  exists refused, (pub_on p). split_and!; [|by apply hands_nothing | done].
  unfold agent_inv. rewrite filter_app, filter_cons_False, app_nil_r by (rewrite Hd; naive_solver). exact Ha.
Qed.

(** ** Every step keeps the invariant *)

Definition conn_inv (c0 : Client Sock (agent Srv)) (n : nat) (s : conn_sys Sock Srv) : Prop :=
  exists wrote srcs others refused, let a := recover (conn s) in
    wire_inv c0 (conn s) (reading s) (arrived s) wrote /\ agent_inv n a (arrived s) srcs others refused /\
    topics_inv a (arrived s) wrote (pushed s).

Lemma puts_same (c c' : Client Sock (agent Srv)) :
  (isConnected (queue c') = true -> isConnected (queue c) = true) -> client_content c' = client_content c -> puts' [] c c'.
Proof. intros Hc E Hc'. split; [auto|]. rewrite E. unfold frames. cbn. by rewrite app_nil_r. Qed.

(** A step that writes nothing and leaves the agent alone. *)
Lemma conn_silent c0 n s c' rd fl : conn_inv c0 n s -> puts' [] (conn s) c' -> recover c' = recover (conn s) ->
  (rd = true -> reading s = true) -> conn_inv c0 n (mkConnSys c' rd fl (arrived s) (pushed s)).
Proof.
  intros (wrote & srcs & others & refused & Hw & Ha & Ht) Hp Hr Hrd.
  exists wrote, srcs, others, refused. cbn. rewrite Hr. split_and!; [|done..]. by eapply wire_silent.
Qed.

(** A turn of the agent, its messages written. *)
Lemma conn_turns c0 n s f t extra psh o s' : conn_inv c0 n s -> let a := recover (conn s) in
  hands t a (f a) ->
  (forall srcs others refused, agent_inv n a (arrived s) srcs others refused ->
     exists srcs' others', agent_inv n (f a) (arrived s) srcs' others' refused) ->
  topics (workers (f a)) ++ option_list t ≡ₚ topics (workers a) ++ extra -> psh ≡ₚ pushed s ++ extra ->
  agent_turn f (conn s) = o ->
  set_conn o (mkConnSys (conn s) (reading s) (flushing s) (arrived s) psh) = Some s' -> conn_inv c0 n s'.
Proof.
  intros (wrote & srcs & others & refused & Hw & Ha & Ht) a Hh Hag Htop Hpsh <-. unfold agent_turn. fold a.
  set (c1 := conn s <| recover := f a |>). pose proof (flush_agent_published t a c1 Hh) as Hf.
  destruct (flush_agent a c1) as [c2 u| |]; cbn [set_conn]; [|done..]. intros [= <-].
  destruct (Hag _ _ _ Ha) as (srcs' & others' & Ha'). pose proof Hf as (Hr & _). cbn in Hr.
  apply (wire_silent _ _ c1 _ (reading s)) in Hw; [|done|by apply puts_nil].
  destruct (wire_published _ _ _ _ _ _ _ Hw Hf) as (ps & Hw' & Hps).
  exists (wrote ++ ps), srcs', others', refused. cbn. rewrite Hr. split_and!; [done..|].
  eapply topics_step; [exact Ht | exact Htop | | exact Hps]. rewrite Hpsh. solve_Permutation.
Qed.

(** A packet read and answered, before the agent's messages are written. *)
Lemma conn_reads c0 n s c2 p ps : conn_inv c0 n s -> ps `sublist_of` replies p -> puts' ps (conn s) c2 ->
  recover c2 = (if delivers p then fst (OnRecover' p (recover (conn s))) else recover (conn s)) ->
  exists t, hands t (recover (conn s)) (recover c2) /\ forall c3 rd fl, published (option_list t) c2 c3 ->
    (rd = true -> reading s = true /\ ps = replies p) ->
    conn_inv c0 n (mkConnSys c3 rd fl (arrived s ++ [p]) (pushed s)).
Proof.
  intros (wrote & srcs & others & refused & Hw & Ha & Ht) Hps Hp Hr.
  destruct (agent_reads _ _ p _ _ _ _ Ha) as (refused' & t & Ha' & Hh & Htop). rewrite <- Hr in *.
  exists t. split; [done|]. intros c3 rd fl Hpub Hrd. pose proof Hpub as (Hr3 & _).
  apply (wire_answered _ _ c2 _ rd _ _ p ps) in Hw; [|done..].
  destruct (wire_published _ _ _ _ _ _ _ Hw Hpub) as (ps3 & Hw3 & Hps3).
  exists (wrote ++ ps ++ ps3), srcs, others, refused'. cbn. rewrite Hr3, (assoc (++)). split_and!; [done..|].
  rewrite <- (assoc (++)). eapply topics_step; [exact Ht | exact Htop | |].
  - rewrite omap_app. cbn. destruct (pub_on p); cbn; rewrite ?app_nil_r; [solve_Permutation | done].
  - rewrite omap_app. rewrite (omap_answers ps); [done|]. apply Forall_forall. intros q Hq.
    eapply elem_of_sublist in Hq; [|exact Hps]. revert q Hq. apply Forall_forall, replies_are_answers.
Qed.

Lemma read_turn_inv c0 n s s' : conn_inv c0 n s -> read_turn ProtocolMarshal SendMessageHook s = Some s' -> conn_inv c0 n s'.
Proof.
  intros Hi. unfold read_turn, read_end. destruct (reading s) eqn:Hrd; cbn [negb]; [|done].
  destruct (isConnected (queue (conn s))) eqn:Hc; cbn [negb].
  2: { intros [= <-]. by apply conn_silent; [|apply puts_nil|..]. }
  destruct (has_conn (queue (conn s))) eqn:Hh; cbn [negb].
  2: { intros [= <-]. by apply conn_silent; [|apply puts_nil|..]. }
  destruct (ReadPack _ _) as [[o e] r] eqn:Er. set (c1 := set_reader r (conn s)).
  assert (H1 : puts' [] (conn s) c1) by (by apply puts_same).
  destruct e as [e|].
  { intros [= <-]. apply conn_silent; [done | apply puts_down, Close_not_connected | done | done]. }
  destruct o as [p|]; [|intros [= <-]; by apply conn_silent].
  apply ReadPack_typed in Er. pose proof (waitPack_handled p c1 Er) as Hw.
  destruct (waitPack p None c1) as [c2 err|c2 why|]; cbn [handled] in Hw; [| |done].
  - destruct Hw as (Hr & _ & _ & ps & Hps & Hp & He).
    apply (puts_app _ _ _ _ _ H1) in Hp. cbn [app] in Hp.
    destruct (conn_reads c0 n s c2 p ps Hi Hps Hp Hr) as (t & Hha & Hnext).
    pose proof (flush_agent_published t (recover (conn s)) c2 Hha) as Hf.
    destruct (flush_agent _ c2) as [c3 u| |]; [|done..]. cbn [set_conn reading flushing arrived pushed].
    destruct err as [err|]; intros [= <-]; [|apply Hnext; auto].
    apply (conn_silent c0 n (mkConnSys c3 false (flushing s) (arrived s ++ [p]) (pushed s)));
      [by apply Hnext | apply puts_down, Close_not_connected | done | done].
  - destruct Hw as (Hd & Hr & ps & Hps & Hp). intros [= <-].
    apply (puts_app _ _ _ _ _ H1) in Hp. cbn [app] in Hp.
    destruct (conn_reads c0 n s c2 p ps Hi Hps Hp) as (t & _ & Hnext); 
      [rewrite Hd; symmetry; exact (f_equal fst Hr)|].
    apply Hnext; [|done]. eapply published_sublist; [|apply published_nil]. apply sublist_nil_l.
Qed.

Lemma conn_step_inv c0 n s e s' : conn_inv c0 n s -> conn_step' s e = Some s' -> conn_inv c0 n s'.
Proof.
  intros Hi. destruct e as [|now i|t body| |]; cbn [conn_step]; [by apply read_turn_inv| | | |].
  - destruct (workers (recover (conn s)) !! i) as [p|] eqn:Hp.
    + destruct (run_worker_cases now i p (recover (conn s)) Hp) as (Hc & Hl & Hw & Hh & Hcl).
      eapply (conn_turns c0 n s (run_worker' now i) (pub_on p) []);
        [done | done | | | by rewrite app_nil_r | reflexivity].
      * intros srcs others refused Ha. exact (agent_works _ _ _ _ _ _ _ _ _ Ha Hp Hc Hl Hw Hcl).
      * rewrite Hw. by apply topics_delete.
    + assert (Hr : run_worker' now i (recover (conn s)) = recover (conn s)) by (unfold run_worker; by rewrite Hp).
      eapply (conn_turns c0 n s (run_worker' now i) None []);
        [done | rewrite Hr; by apply hands_nothing | rewrite Hr; eauto | by rewrite Hr | by rewrite app_nil_r | reflexivity].
  - destruct (push_cases t body (recover (conn s))) as ([= E1 E2 E3] & Hc & Hh).
    eapply (conn_turns c0 n s (push_agent SendMessageHook t body) (Some t) [t]); [done | done | | by rewrite E3 | done | reflexivity].
    intros srcs others refused Ha. exists srcs, others. unfold agent_inv, pool_ok in *. by rewrite E1, E2, E3, Hc.
  - destruct (flushing s); cbn [negb]; [|done].
    destruct (flusher_turn (queue (conn s))) as [q fl| |] eqn:Hf; [|done..]. intros [= <-].
    apply flusher_turn_inv in Hf as (Hs & Hc & _). apply conn_silent; [done | | done | done].
    apply puts_same; [|done]. cbn. by rewrite (isConnected_status _ _ Hs).
  - intros [= <-]. apply conn_silent; [done | | done | done]. apply puts_same; unfold close_conn.
    + cbn. by destruct (has_conn _).
    + unfold client_content. cbn. destruct (has_conn _); [|done]. apply content_close.
Qed.

Lemma conn_start_inv n now c : recover c = OnInit n now -> conn_inv c n (conn_start c).
Proof.
  intros Hr. exists [], [], [], []. cbn. rewrite Hr. split_and!.
  - split; [by apply puts_nil|]. done.
  - split_and!; [|done..]. split_and!; cbn; lia.
  - unfold topics_inv. done.
Qed.

(** C2. A connection of the gate, from the handshake on, whatever its workers, other
    modules, the flusher and closers do in between.  (1) While it is up, what it was
    given is the CONNACK and then whole frames.  (2) The protocol's answers among them
    are those of packets that were read, in that order; all of them, while it is up
    and being read.  (3) Any other frame is a publication on a topic for which a
    publication was read or a module asked, one for each at most, and those still
    waiting for their worker are not answered yet.  (4) Each packet handed to the agent
    has had its request made, exactly once, waits for a worker, stands for no request,
    or was refused; and none is refused as long as not more arrived than the pool
    has workers.  Requests are those of the built-in routing; where a route handler is
    installed, whatever it answers, the agent itself makes none, so no packet stands for
    one, and (1) to (3) hold as they are. *)
Theorem gate_serves_connection (read_timeout max now : Z) (n : nat) (ns : result string unit) (r : reader)
  (w : bufw Sock) (c : Client Sock (agent Srv)) (es : list conn_event) (s : conn_sys Sock Srv)
  (Ha : accept read_timeout max ns (OnInit n now) r w = Accepted c)
  (Hr : conn_run' es (conn_start c) = Some s) :
  let a := recover (conn s) in
  exists wrote srcs others refused,
    (isConnected (queue (conn s)) = true ->
       content (q_w (queue (conn s))) = content w ++ frames (GetConnAckPack x00 :: wrote)) /\
    filter (fun p => is_answer p) wrote `sublist_of` mjoin (replies <$> arrived s) /\
    (reading s = true -> isConnected (queue (conn s)) = true ->
       filter (fun p => is_answer p) wrote = mjoin (replies <$> arrived s)) /\
    omap pub_on wrote ++ omap pub_on (workers a) ⊆+ omap pub_on (arrived s) ++ pushed s /\
    Forall2 requested srcs (calls a) /\ Forall (fun p => forall call, ~ requested p call) others /\
    srcs ++ workers a ++ others ++ refused ≡ₚ filter (fun p => delivers p) (arrived s) /\
    ((length (filter (fun p => delivers p) (arrived s)) <= n)%nat -> refused = []).
Proof.
  intros a. destruct (accept_inv _ _ _ _ _ _ _ Ha) as (p & conn & r' & bs & _ & _ & Hf & Hc & _ & Hrec & _).
  pose proof (run_steps_keep _ _ (conn_step_inv c n) es _ _ (conn_start_inv n now c Hrec) Hr) as
    (wrote & srcs & others & refused & (Hp & Hs & He) & (_ & Hcalls & Ho & Hd & Href) & Ht).
  exists wrote, srcs, others, refused. split_and!; try done.
  intros Hup. destruct (Hp Hup) as [_ E]. unfold client_content in E. rewrite E, Hc.
  change (GetConnAckPack x00 :: wrote) with ([GetConnAckPack x00] ++ wrote). rewrite frames_app, <- (assoc (++)).
  assert (Hack : frames [GetConnAckPack x00] = bs) by (unfold frames; cbn [fmap list_fmap]; rewrite Hf; apply app_nil_r).
  by rewrite Hack.
Qed.

End Theorems.

(** ** A run

    A client connects, publishes with an acknowledgement and a message id, and pings;
    the pool has two workers. *)
Definition frame_of (p : Pack) : bytes := default [] (frame p).

Definition gate_input : reader :=
  mkReader (x10 :: x15 :: connect_body sample_connect
            ++ frame_of (pub_pack x01 x00 19 9 (str_bytes "chat/HD_say/77") [x61]) ++ [xc0; x00]) EOF.
Definition gate_writer : bufw mem_sock := NewWriterSize (newTCPConn []) 256.

Definition gate_events : list conn_event := [ReadTurn; FlusherTurn; Push "news" [x62]; ReadTurn; RunWorker 5 0].

#[local] Abbreviation gate_run := (conn_run None sample_route (fun _ => true) sample_session sample_call sample_marshal sample_hook false 0).

Definition gate_accepted : Client mem_sock (agent string) :=
  match accept 60 65535 (Ok tt) (OnInit (Srv := string) 2 0) gate_input gate_writer with
  | Accepted c => c
  | _ => NewClient 60 (OnInit 2 0) gate_input gate_writer true 10 65535
  end.

Definition gate_state : conn_sys mem_sock string :=
  default (conn_start gate_accepted) (gate_run gate_events (conn_start gate_accepted)).

Lemma gate_serves_connection_witness :
  let a := recover (conn gate_state) in
  exists wrote srcs others refused,
    (isConnected (queue (conn gate_state)) = true ->
       content (q_w (queue (conn gate_state))) = [] ++ frames (GetConnAckPack x00 :: wrote)) /\
    filter (fun p => is_answer p) wrote `sublist_of` mjoin (replies <$> arrived gate_state) /\
    (reading gate_state = true -> isConnected (queue (conn gate_state)) = true ->
       filter (fun p => is_answer p) wrote = mjoin (replies <$> arrived gate_state)) /\
    omap pub_on wrote ++ omap pub_on (workers a) ⊆+ omap pub_on (arrived gate_state) ++ ["news"] /\
    Forall2 (requested (V := unit) None sample_route (fun _ => true) sample_session) srcs (calls a) /\
    Forall (fun p => forall call, ~ requested (V := unit) None sample_route (fun _ => true) sample_session p call) others /\
    srcs ++ workers a ++ others ++ refused ≡ₚ filter (fun p => delivers p) (arrived gate_state) /\
    ((length (filter (fun p => delivers p) (arrived gate_state)) <= 2)%nat -> refused = []).
Proof.
  refine (gate_serves_connection None sample_route (fun _ => true) sample_session sample_call sample_marshal sample_hook
            false 0 60 65535 0 2 (Ok tt) gate_input gate_writer gate_accepted gate_events gate_state _ _);
    vm_compute; reflexivity.
Defined.

(** The acknowledgement is on the wire; the push, the pong and the answer are behind it
    in the buffer; the PINGREQ waits for a worker of its own. *)
Example gate_run_writes :
  content (q_w (queue (conn gate_state))) =
    frames [GetConnAckPack x00; GetPubAckPack 9; GetPubPack x00 x00 1 (Some (str_bytes "news")) [x62];
            GetPingResp x00 x00; GetPubPack x00 x00 2 (Some (str_bytes "chat/HD_say/77")) (str_bytes "done")] /\
  ac_func <$> calls (recover (conn gate_state)) = ["HD_say"] /\
  GetType <$> workers (recover (conn gate_state)) = [x0c].
Proof. vm_compute. auto. Qed.
