(* ===== verification/RingQueue.v ===== *)
(** * The ring-buffer queue

    [Queue] of [utils/queue.go]: a slice used as a ring, its length a power of
    two so that a mask replaces the modulus, doubled when full and halved when a
    quarter full.  An element is any Go value; [nil] is the zero one. *)
From S2P Require Import Prelude.
#[local] Open Scope mq_scope.

(** ** Slices *)

(** [s[i]] and [s[i] = x]. *)
Definition index {A} (s : list A) (i : Z) : outcome A :=
  if (0 <=? i) && (i <? zlen s) then
    match s !! Z.to_nat i with Some x => Ret x | None => Panic "index out of range" end
  else Panic "index out of range".

Definition set_index {A} (s : list A) (i : Z) (x : A) : outcome (list A) :=
  if (0 <=? i) && (i <? zlen s) then Ret (<[Z.to_nat i := x]> s) else Panic "index out of range".

(** [s[lo:hi]], its capacity taken for its length. *)
Definition slice {A} (s : list A) (lo hi : Z) : outcome (list A) :=
  if (0 <=? lo) && (lo <=? hi) && (hi <=? zlen s) then Ret (take (Z.to_nat (hi - lo)) (drop (Z.to_nat lo) s))
  else Panic "slice bounds out of range".

(** [copy(dst, src)]: the new [dst] and the number of elements copied. *)
Definition copy {A} (dst src : list A) : list A * Z :=
  (take (length dst) src ++ drop (length src) dst, Z.min (zlen dst) (zlen src)).

(** [copy(dst[n:], src)] *)
Definition copy_from {A} (n : Z) (dst src : list A) : outcome (list A) :=
  tl <- slice dst n (zlen dst);
  Ret (take (Z.to_nat n) dst ++ fst (copy tl src)).

(** ** The queue *)

Definition minQueueLen : Z := 16.

Record Queue (V : Type) := mkQueue { buf : list V; head : Z; tail : Z; count : Z }.
Arguments mkQueue {V}.
Arguments buf {V}.
Arguments head {V}.
Arguments tail {V}.
Arguments count {V}.

Section Queue.
Context {V : Type} (nil : V).

Definition make_slice (n : Z) : list V := replicate (Z.to_nat n) nil.

Definition NewQueue : Queue V := mkQueue (make_slice minQueueLen) 0 0 0.

Definition Length (q : Queue V) : Z := count q.

Definition resize (q : Queue V) : outcome (Queue V) :=
  let newBuf := make_slice (Z.shiftl (count q) 1) in
  newBuf <- (if head q <? tail q then
               s <- slice (buf q) (head q) (tail q);
               Ret (fst (copy newBuf s))
             else
               s <- slice (buf q) (head q) (zlen (buf q));
               let '(newBuf, n) := copy newBuf s in
               s <- slice (buf q) 0 (tail q);
               copy_from n newBuf s);
  Ret (mkQueue newBuf 0 (count q) (count q)).

Definition Add (elem : V) (q : Queue V) : outcome (Queue V) :=
  q <- (if count q =? zlen (buf q) then resize q else Ret q);
  b <- set_index (buf q) (tail q) elem;
  Ret (mkQueue b (head q) (Z.land (tail q + 1) (zlen b - 1)) (count q + 1)).

Definition Peek (q : Queue V) : outcome V :=
  if count q <=? 0 then Panic "queue: Peek() called on empty queue" else index (buf q) (head q).

Definition Get (i : Z) (q : Queue V) : outcome V :=
  let i := if i <? 0 then i + count q else i in
  if (i <? 0) || (count q <=? i) then Panic "queue: Get() called with index out of range"
  else index (buf q) (Z.land (head q + i) (zlen (buf q) - 1)).

Definition Remove (q : Queue V) : outcome (V * Queue V) :=
  if count q <=? 0 then Panic "queue: Remove() called on empty queue" else
  ret <- index (buf q) (head q);
  b <- set_index (buf q) (head q) nil;
  let q := mkQueue b (Z.land (head q + 1) (zlen b - 1)) (tail q) (count q - 1) in
  q <- (if (minQueueLen <? zlen (buf q)) && (Z.shiftl (count q) 2 =? zlen (buf q)) then resize q else Ret q);
  Ret (ret, q).

(** ** Programs over the queue *)

Inductive qop := OAdd (v : V) | OPeek | OGet (i : Z) | ORemove | OLength.

Inductive qres := RUnit | RElem (v : V) | RLen (n : Z) | RPanic (why : string).

(** One call, its panic recovered by the caller. *)
Definition q_step (o : qop) (q : Queue V) : Queue V * qres :=
  match o with
  | OAdd v => match Add v q with Ret q' => (q', RUnit) | Panic w => (q, RPanic w) end
  | OPeek => (q, match Peek q with Ret v => RElem v | Panic w => RPanic w end)
  | OGet i => (q, match Get i q with Ret v => RElem v | Panic w => RPanic w end)
  | ORemove => match Remove q with Ret (v, q') => (q', RElem v) | Panic w => (q, RPanic w) end
  | OLength => (q, RLen (Length q))
  end.

Fixpoint q_run (os : list qop) (q : Queue V) : Queue V * list qres :=
  match os with
  | [] => (q, [])
  | o :: os => let '(q, r) := q_step o q in let '(q, rs) := q_run os q in (q, r :: rs)
  end.

(** ** The reference: a list *)

Definition l_get (i : Z) (l : list V) : qres :=
  let i := if i <? 0 then i + zlen l else i in
  match (if i <? 0 then None else l !! Z.to_nat i) with
  | Some v => RElem v
  | None => RPanic "queue: Get() called with index out of range"
  end.

Definition l_step (o : qop) (l : list V) : list V * qres :=
  match o, l with
  | OAdd v, _ => (l ++ [v], RUnit)
  | OPeek, [] => (l, RPanic "queue: Peek() called on empty queue")
  | OPeek, v :: _ => (l, RElem v)
  | OGet i, _ => (l, l_get i l)
  | ORemove, [] => (l, RPanic "queue: Remove() called on empty queue")
  | ORemove, v :: l => (l, RElem v)
  | OLength, _ => (l, RLen (zlen l))
  end.

Fixpoint l_run (os : list qop) (l : list V) : list V * list qres :=
  match os with
  | [] => (l, [])
  | o :: os => let '(l, r) := l_step o l in let '(l, rs) := l_run os l in (l, r :: rs)
  end.
End Queue.
