(* ===== verification/RingQueueTheorems.v ===== *)
(** * Theorems on the ring-buffer queue

    The ring, read from its head, is the list of the elements followed by nil
    slots; every operation keeps that and does to the list what the reference
    does. *)
From S2P Require Import Prelude RingQueue.
#[local] Open Scope mq_scope.

(** ** Rings *)

(** The slice [b] read from index [h] around to [h]. *)
Definition rot {A} (h : nat) (b : list A) : list A := drop h b ++ take h b.

Lemma length_rot {A} h (b : list A) : length (rot h b) = length b.
Proof. unfold rot. rewrite length_app, length_drop, length_take. lia. Qed.

Lemma rot_lookup {A} h (b : list A) i : (h < length b)%nat -> (i < length b)%nat ->
  rot h b !! i = b !! ((h + i) mod length b)%nat.
Proof.
  intros Hh Hi. unfold rot. destruct (decide (h + i < length b)%nat) as [Hl|Hl].
  - rewrite lookup_app_l by (rewrite length_drop; lia). rewrite lookup_drop. by rewrite Nat.mod_small.
  - rewrite lookup_app_r by (rewrite length_drop; lia). rewrite length_drop, lookup_take_lt by lia. f_equal.
    rewrite (Nat.mod_eq (h + i)) by lia.
    replace ((h + i) / length b)%nat with 1%nat; [lia|]. apply Nat.div_unique with (h + i - length b)%nat; lia.
Qed.

Lemma rot_insert {A} h (b : list A) i x : (h < length b)%nat -> (i < length b)%nat ->
  rot h (<[((h + i) mod length b)%nat := x]> b) = <[i := x]> (rot h b).
Proof.
  intros Hh Hi. unfold rot. destruct (decide (h + i < length b)%nat) as [Hl|Hl].
  - rewrite Nat.mod_small by done. rewrite insert_app_l by (rewrite length_drop; lia).
    f_equal; [|by rewrite take_insert_ge by lia]. rewrite drop_insert_ge by lia. f_equal. lia.
  - assert (E : ((h + i) mod length b = h + i - length b)%nat).
    { rewrite Nat.mod_eq by lia. replace ((h + i) / length b)%nat with 1%nat; [lia|].
      apply Nat.div_unique with (h + i - length b)%nat; lia. }
    rewrite E, insert_app_r_alt by (rewrite length_drop; lia). rewrite length_drop. f_equal.
    + by rewrite drop_insert_lt by lia.
    + rewrite take_insert_lt by lia. f_equal. lia.
Qed.

Lemma rot_pop {A} h (b : list A) x r : (h < length b)%nat -> rot h b = x :: r ->
  b !! h = Some x /\ rot (S h mod length b)%nat b = r ++ [x].
Proof.
  intros Hh E.
  assert (Hx : b !! h = Some x).
  { pose proof (rot_lookup h b 0 Hh ltac:(lia)) as Hl. rewrite E, Nat.add_0_r, Nat.mod_small in Hl by done. done. }
  split; [done|]. unfold rot in *. rewrite (drop_S b x h Hx) in E. injection E as <-.
  destruct (decide (S h < length b)%nat) as [Hl|Hl].
  - rewrite Nat.mod_small, (take_S_r b h x), app_assoc by done. done.
  - assert (Ed : drop (S h) b = []) by (apply drop_ge; lia). rewrite Ed.
    replace (S h) with (length b) by lia. rewrite Nat.Div0.mod_same. cbn.
    rewrite app_nil_r, <- (take_drop h b) at 1. by rewrite (drop_S b x h Hx), Ed.
Qed.

(** ** What a queue represents *)

Lemma mod_wrap a n : n <= a < 2 * n -> a mod n = a - n.
Proof. intros. symmetry. apply Z.mod_unique with 1; lia. Qed.

Section Theorems.
Context {V : Type} (nil : V).

Definition pow2 (n : Z) : Prop := exists k, 0 <= k /\ n = 2 ^ k.

Lemma land_mod a n : pow2 n -> Z.land a (n - 1) = a mod n.
Proof. intros (k & Hk & ->). rewrite <- Z.land_ones by done. f_equal. rewrite Z.ones_equiv. lia. Qed.

Lemma pow2_double n : pow2 n -> pow2 (2 * n).
Proof. intros (k & Hk & ->). exists (k + 1). rewrite Z.pow_add_r by lia. lia. Qed.

Lemma pow2_half n m : pow2 n -> n = 2 * m -> pow2 m.
Proof.
  intros (k & Hk & ->) E. destruct (Z.eq_dec k 0) as [->|]; [lia|].
  exists (k - 1). split; [lia|]. replace k with (Z.succ (k - 1)) in E by lia. rewrite Z.pow_succ_r in E by lia. lia.
Qed.

Record ring (q : Queue V) (l : list V) : Prop := {
  rep_pow2 : pow2 (zlen (buf q));
  rep_min : minQueueLen <= zlen (buf q);
  rep_head : 0 <= head q < zlen (buf q);
  rep_count : count q = zlen l /\ zlen l <= zlen (buf q);
  rep_tail : tail q = (head q + count q) mod zlen (buf q);
  rep_ring : rot (Z.to_nat (head q)) (buf q) = l ++ replicate (length (buf q) - length l)%nat nil }.

(** The buffer is never four times too large, unless it is the smallest. *)
Definition fit (q : Queue V) : Prop := minQueueLen < zlen (buf q) -> zlen (buf q) < 4 * count q.

Definition represents (q : Queue V) (l : list V) : Prop := ring q l /\ fit q.

Lemma index_spec {A} (s : list A) i x : 0 <= i -> s !! Z.to_nat i = Some x -> index s i = Ret x.
Proof.
  intros Hi Hs. pose proof (lookup_lt_Some _ _ _ Hs). unfold index, zlen.
  rewrite (proj2 (Z.leb_le 0 i)), (proj2 (Z.ltb_lt i _)) by lia. cbn. by rewrite Hs.
Qed.

Lemma set_index_spec {A} (s : list A) i x : 0 <= i < zlen s -> set_index s i x = Ret (<[Z.to_nat i := x]> s).
Proof. intros Hi. unfold set_index. by rewrite (proj2 (Z.leb_le 0 i)), (proj2 (Z.ltb_lt i _)) by lia. Qed.

Lemma slice_spec {A} (s : list A) lo hi : 0 <= lo <= hi -> hi <= zlen s ->
  slice s lo hi = Ret (take (Z.to_nat (hi - lo)) (drop (Z.to_nat lo) s)).
Proof. intros. unfold slice. by rewrite !(proj2 (Z.leb_le _ _)) by lia. Qed.

(** The [i]th element is in the ring at distance [i] from the head. *)
Lemma rep_nth q l i : ring q l -> 0 <= i < zlen l ->
  index (buf q) (Z.land (head q + i) (zlen (buf q) - 1)) = outcome_bind (index l i) Ret.
Proof.
  intros Hr Hi. destruct Hr as [Hp _ Hh [Hc Hn] _ Hro]. rewrite land_mod by done.
  assert (Hl : is_Some (l !! Z.to_nat i)) by (apply lookup_lt_is_Some; unfold zlen in *; lia). destruct Hl as [x Hx].
  rewrite (index_spec l i x) by (done || lia). cbn.
  pose proof (Z.mod_pos_bound (head q + i) (zlen (buf q)) ltac:(lia)). apply index_spec; [lia|].
  rewrite <- (lookup_app_l_Some l (replicate (length (buf q) - length l) nil) _ _ Hx), <- Hro.
  unfold zlen in *. rewrite rot_lookup by lia. f_equal.
  apply Nat2Z.inj. rewrite Nat2Z.inj_mod, Nat2Z.inj_add, !Z2Nat.id by lia. done.
Qed.

(** ** Resizing *)

Lemma copy_fits {A} (dst s : list A) : (length s <= length dst)%nat ->
  copy dst s = (s ++ drop (length s) dst, zlen s).
Proof. intros Hs. unfold copy, zlen. rewrite take_ge by done. f_equal. lia. Qed.

Lemma copy_from_app {A} (s d r : list A) : (length r <= length d)%nat ->
  copy_from (zlen s) (s ++ d) r = Ret (s ++ r ++ drop (length r) d).
Proof.
  intros Hr. unfold copy_from. rewrite slice_spec by (autorewrite with mqlen; unfold zlen; lia).
  cbn [outcome_bind]. unfold zlen. rewrite length_app, Nat2Z.id, drop_app_length, take_app_length.
  rewrite take_ge by lia. by rewrite copy_fits.
Qed.

Lemma ring_list q l : ring q l -> l = take (length l) (rot (Z.to_nat (head q)) (buf q)).
Proof. intros Hr. by rewrite (rep_ring _ _ Hr), take_app_length. Qed.

Lemma resize_spec q l : ring q l -> 0 < count q -> minQueueLen <= 2 * count q -> pow2 (2 * count q) ->
  exists q', resize nil q = Ret q' /\ ring q' l /\ zlen (buf q') = 2 * count q /\ count q' = count q.
Proof.
  intros Hr H0 Hm Hp. pose proof (ring_list q l Hr) as Hl. destruct Hr as [_ _ Hh [Hc Hn] Ht _].
  set (n := zlen (buf q)) in *.
  enough (Hres : resize nil q = Ret (mkQueue (l ++ replicate (length l) nil) 0 (count q) (count q))).
  { eexists. split; [exact Hres|].
    assert (E : zlen (l ++ replicate (length l) nil) = 2 * count q).
    { rewrite Hc. unfold zlen. rewrite length_app, length_replicate. lia. }
    split; [|done]. split; cbn; rewrite ?E; try done; try lia.
    - unfold minQueueLen in Hm. rewrite Z.mod_small; lia.
    - unfold rot. cbn. by rewrite app_nil_r, length_app, length_replicate, Nat.add_sub. }
  assert (Hb : make_slice nil (Z.shiftl (count q) 1) = replicate (length l + length l) nil).
  { unfold make_slice. f_equal. rewrite Z.shiftl_mul_pow2 by lia. unfold zlen in Hc. lia. }
  unfold resize. rewrite Hb.
  assert (Hrep : forall k, drop k (replicate (length l + length l) nil) = replicate (length l + length l - k) nil)
    by (intros; apply drop_replicate).
  destruct (Z.ltb_spec (head q) (tail q)) as [Hlt|Hge].
  - assert (Ht' : tail q = head q + count q).
    { rewrite Ht. apply Z.mod_small. split; [lia|]. apply Z.nle_gt. intros Hge.
      rewrite mod_wrap in Ht by lia. lia. }
    assert (Hcn : head q + count q <= n) by (pose proof (Z.mod_pos_bound (head q + count q) n ltac:(lia)); lia).
    rewrite slice_spec by lia. cbn [outcome_bind].
    assert (Es : take (Z.to_nat (tail q - head q)) (drop (Z.to_nat (head q)) (buf q)) = l).
    { rewrite Hl at 1. unfold rot. rewrite take_app_le by (rewrite length_drop; unfold n, zlen in *; lia).
      f_equal. unfold zlen in *. lia. }
    rewrite Es, copy_fits by (rewrite length_replicate; lia). cbn [fst]. rewrite Hrep. do 4 f_equal. lia.
  - assert (Hge2 : n <= head q + count q).
    { apply Z.nlt_ge. intros Hlt. rewrite Z.mod_small in Ht by lia. lia. }
    rewrite mod_wrap in Ht by lia.
    set (s1 := drop (Z.to_nat (head q)) (buf q)). set (s2 := take (Z.to_nat (tail q)) (buf q)).
    assert (Hl1 : length s1 = Z.to_nat (n - head q)) by (unfold s1, n, zlen; rewrite length_drop; lia).
    assert (Hl2 : length s2 = Z.to_nat (tail q)) by (unfold s2, n, zlen in *; rewrite length_take; lia).
    assert (El : l = s1 ++ s2).
    { rewrite Hl at 1. unfold rot. rewrite take_app_ge by (fold s1; unfold zlen in *; lia). fold s1. f_equal.
      rewrite take_take. unfold s2. f_equal. unfold zlen in *. lia. }
    assert (E1 : slice (buf q) (head q) n = Ret s1).
    { rewrite slice_spec by (unfold n; lia). fold s1. rewrite take_ge; [done | rewrite Hl1; lia]. }
    assert (E2 : slice (buf q) 0 (tail q) = Ret s2).
    { rewrite slice_spec by (unfold n in *; lia). cbn. unfold s2. do 2 f_equal. lia. }
    fold n. rewrite E1. cbn [outcome_bind]. rewrite copy_fits by (rewrite length_replicate, El, length_app; lia).
    rewrite E2. cbn [outcome_bind].
    rewrite Hrep, copy_from_app by (rewrite length_replicate, El, length_app; lia). cbn [outcome_bind].
    rewrite drop_replicate, app_assoc, <- El. do 4 f_equal. rewrite El, length_app. lia.
Qed.

(** ** The operations *)

Lemma push_ring q l v : ring q l -> count q < zlen (buf q) ->
  exists b, set_index (buf q) (tail q) v = Ret b /\ zlen b = zlen (buf q) /\
    ring (mkQueue b (head q) (Z.land (tail q + 1) (zlen b - 1)) (count q + 1)) (l ++ [v]).
Proof.
  intros [Hp Hm Hh [Hc Hn] Ht Hro] Hlt.
  pose proof (Z.mod_pos_bound (head q + count q) (zlen (buf q)) ltac:(lia)) as Hmod.
  eexists. split; [apply set_index_spec; lia|].
  assert (Hlen : forall i, zlen (<[i:=v]> (buf q)) = zlen (buf q)) by (intros; unfold zlen; by rewrite length_insert).
  split; [done|]. split; cbn; rewrite ?Hlen; try done.
  - rewrite zlen_app, zlen_cons, zlen_nil. lia.
  - rewrite land_mod, Ht, Zplus_mod_idemp_l by done. f_equal. lia.
  - replace (Z.to_nat (tail q)) with ((Z.to_nat (head q) + length l) mod length (buf q))%nat.
    2: { apply Nat2Z.inj. rewrite Nat2Z.inj_mod, Nat2Z.inj_add, !Z2Nat.id by lia. unfold zlen in *. by rewrite Ht, Hc. }
    unfold zlen in *. rewrite rot_insert, Hro, insert_app_r_alt by lia. rewrite Nat.sub_diag, length_insert, length_app.
    replace (length (buf q) - length l)%nat with (S (length (buf q) - (length l + 1))) by lia. cbn.
    by rewrite <- app_assoc.
Qed.

Lemma Add_spec q l v : represents q l -> exists q', Add nil v q = Ret q' /\ represents q' (l ++ [v]).
Proof.
  intros [Hr Hf].
  assert (exists q1, (if count q =? zlen (buf q) then resize nil q else Ret q) = Ret q1 /\ ring q1 l /\
            count q1 < zlen (buf q1) /\ (minQueueLen < zlen (buf q1) -> zlen (buf q1) < 4 * (count q1 + 1)))
    as (q1 & E1 & Hr1 & Hlt & Hf1).
  { pose proof Hr as [Hp Hm Hh [Hc Hn] _ _]. unfold fit, minQueueLen in *. destruct (Z.eqb_spec (count q) (zlen (buf q))) as [E|E].
    - destruct (resize_spec q l Hr) as (q1 & E1 & Hr1 & Hl1 & Hc1); [lia | unfold minQueueLen; lia | rewrite E; by apply pow2_double |].
      exists q1. split_and!; [done..|lia|lia].
    - exists q. split_and!; [done..|lia|lia]. }
  destruct (push_ring q1 l v Hr1 Hlt) as (b & Eb & Hlb & Hrb).
  unfold Add. rewrite E1. cbn [outcome_bind]. rewrite Eb. cbn [outcome_bind]. eexists. split; [done|]. split; [done|].
  unfold fit. cbn. by rewrite Hlb.
Qed.

Lemma pop_ring q x l : ring q (x :: l) ->
  exists b, index (buf q) (head q) = Ret x /\ set_index (buf q) (head q) nil = Ret b /\ zlen b = zlen (buf q) /\
    ring (mkQueue b (Z.land (head q + 1) (zlen b - 1)) (tail q) (count q - 1)) l.
Proof.
  intros [Hp Hm Hh [Hc Hn] Ht Hro]. rewrite zlen_cons in *. set (b := <[Z.to_nat (head q) := nil]> (buf q)).
  assert (Hlen : length b = length (buf q)) by apply length_insert.
  assert (Hhn : (Z.to_nat (head q) < length (buf q))%nat) by (unfold zlen in *; lia).
  exists b. split; [|split; [by apply set_index_spec|]].
  { apply index_spec; [lia|]. eapply rot_pop in Hro; naive_solver. }
  assert (Hz : zlen b = zlen (buf q)) by (unfold zlen; congruence). split; [done|].
  assert (Hro' : rot (Z.to_nat (head q)) b = nil :: l ++ replicate (length (buf q) - S (length l)) nil).
  { pose proof (rot_insert (Z.to_nat (head q)) (buf q) 0 nil Hhn ltac:(lia)) as E.
    rewrite Nat.add_0_r, Nat.mod_small in E by done. unfold b. rewrite E, Hro. done. }
  apply rot_pop in Hro' as [_ Hro']; [|by rewrite Hlen].
  split; cbn; rewrite ?Hz; try done.
  - rewrite land_mod by done. apply Z.mod_pos_bound. lia.
  - lia.
  - rewrite land_mod, Zplus_mod_idemp_l, Ht by done. f_equal. lia.
  - rewrite land_mod by done.
    replace (Z.to_nat ((head q + 1) mod zlen (buf q))) with (S (Z.to_nat (head q)) mod length b)%nat.
    2: { rewrite Hlen. apply Nat2Z.inj. rewrite Nat2Z.inj_mod, Z2Nat.id by (apply Z.mod_pos_bound; lia).
         unfold zlen. f_equal. lia. }
    rewrite Hro', <- app_assoc. f_equal. rewrite <- replicate_S_end, Hlen.
    replace (length (buf q) - length l)%nat with (S (length (buf q) - S (length l))); [done|].
    unfold zlen in Hn. cbn in Hn. lia.
Qed.

Lemma pow2_gt16 n : pow2 n -> 16 < n -> exists m, n = 4 * m /\ 8 <= m.
Proof.
  intros (k & Hk & ->) Hn. assert (5 <= k).
  { apply Z.nlt_ge. intros Hlt. assert (2 ^ k <= 2 ^ 4) by (apply Z.pow_le_mono_r; lia). lia. }
  exists (2 ^ (k - 2)). replace k with (2 + (k - 2)) at 1 by lia. rewrite Z.pow_add_r by lia. split; [done|].
  change 8 with (2 ^ 3). apply Z.pow_le_mono_r; lia.
Qed.

Lemma Remove_spec q x l : represents q (x :: l) -> exists q', Remove nil q = Ret (x, q') /\ represents q' l.
Proof.
  intros [Hr Hf]. pose proof Hr as [Hp Hm Hh [Hc Hn] _ _]. rewrite zlen_cons in Hc, Hn. pose proof (zlen_nonneg l).
  destruct (pop_ring q x l Hr) as (b & Ei & Es & Hz & Hrb). set (q1 := mkQueue _ _ _ _) in Hrb.
  unfold Remove. rewrite (proj2 (Z.leb_gt _ _)), Ei by lia. cbn [outcome_bind]. rewrite Es. cbn [outcome_bind]. fold q1.
  change (buf q1) with b. change (count q1) with (count q - 1). unfold fit, minQueueLen in *.
  rewrite Z.shiftl_mul_pow2 by lia. change (2 ^ 2) with 4. rewrite Hz.
  destruct (Z.ltb_spec 16 (zlen (buf q))) as [H16|H16]; cbn [andb];
    [destruct (Z.eqb_spec ((count q - 1) * 4) (zlen (buf q))) as [E|E]|].
  - destruct (pow2_gt16 _ Hp H16) as (m & ? & ?).
    destruct (resize_spec q1 l Hrb) as (q2 & E2 & Hr2 & Hl2 & Hc2); cbn.
    + lia.
    + unfold minQueueLen. lia.
    + apply (pow2_half (zlen (buf q))); [done | lia].
    + rewrite E2. cbn. exists q2. split; [done|]. split; [done|]. unfold fit. cbn in *. lia.
  - destruct (pow2_gt16 _ Hp H16) as (m & ? & ?).
    exists q1. split; [done|]. split; [done|]. unfold fit. cbn. rewrite Hz. lia.
  - exists q1. split; [done|]. split; [done|]. unfold fit. cbn. rewrite Hz. unfold minQueueLen. lia.
Qed.

Lemma NewQueue_represents : represents (NewQueue nil) [].
Proof. split; [split|]; try done. by exists 4. Qed.

Lemma q_step_spec o q l : represents q l ->
  represents (fst (q_step nil o q)) (fst (l_step o l)) /\ snd (q_step nil o q) = snd (l_step o l).
Proof.
  intros Hrep. pose proof Hrep as [Hr _]. pose proof Hr as [_ _ _ [Hc _] _ _].
  destruct o as [v| |i| |]; cbn [q_step l_step].
  - destruct (Add_spec q l v Hrep) as (q' & -> & ?). done.
  - unfold Peek. destruct l as [|x l]; [by rewrite Hc|]. rewrite zlen_cons in Hc. pose proof (zlen_nonneg l).
    rewrite (proj2 (Z.leb_gt _ _)) by lia. destruct (pop_ring q x l Hr) as (b & -> & _). done.
  - split; [done|]. cbn [fst snd]. unfold Get, l_get. rewrite Hc.
    set (j := if i <? 0 then i + zlen l else i).
    destruct (Z.ltb_spec j 0) as [Hj|Hj]; [done|]. cbn [orb].
    destruct (Z.leb_spec (zlen l) j) as [Hl|Hl].
    + by rewrite lookup_ge_None_2 by (unfold zlen in Hl; lia).
    + rewrite (rep_nth q l j Hr) by lia.
      destruct (lookup_lt_is_Some_2 l (Z.to_nat j)) as [x Hx]; [unfold zlen in Hl; lia|].
      by rewrite (index_spec l j x), Hx.
  - destruct l as [|x l]; [by unfold Remove; rewrite Hc|]. destruct (Remove_spec q x l Hrep) as (q' & -> & ?). done.
  - unfold Length. by rewrite Hc.
Qed.

Lemma q_run_spec os : forall q l, represents q l ->
  represents (fst (q_run nil os q)) (fst (l_run os l)) /\ snd (q_run nil os q) = snd (l_run os l).
Proof.
  induction os as [|o os IH]; intros q l Hr; [done|]. cbn [q_run l_run].
  destruct (q_step_spec o q l Hr) as [H1 H2].
  destruct (q_step nil o q) as [q1 r1], (l_step o l) as [l1 r2]. cbn in H1, H2. subst r2.
  destruct (IH q1 l1 H1) as [H3 H4].
  destruct (q_run nil os q1), (l_run os l1). cbn in *. by subst.
Qed.

(** C22. The ring-buffer queue is a list.  Whatever sequence of calls is made on
    a new queue, panics included, each returns what the same call on a list
    returns; afterwards the queue's length is the list's, the buffer read from
    the head is the list followed by nil (no element is kept after its removal),
    and the buffer has the minimal length or less than four times the queue's. *)
Theorem queue_is_a_list (os : list (qop (V := V))) :
  let '(q, rs) := q_run nil os (NewQueue nil) in
  let '(l, rs') := l_run os [] in
  rs = rs' /\ count q = zlen l /\
  rot (Z.to_nat (head q)) (buf q) = l ++ replicate (length (buf q) - length l)%nat nil /\
  (zlen (buf q) = minQueueLen \/ zlen (buf q) < 4 * count q).
Proof.
  destruct (q_run_spec os _ _ NewQueue_represents) as [[Hr Hf] Hrs].
  destruct (q_run nil os (NewQueue nil)) as [q rs], (l_run os []) as [l rs']. cbn in *.
  destruct Hr as [_ Hm _ [Hc _] _ Hro]. split_and!; [done..|]. unfold fit in Hf. lia.
Qed.

End Theorems.
