(* ===== verification/SafeMap.v ===== *)
(** * The locked map

    [BeeMap] of [utils/safemap.go].  Its calls unlock without [defer]: a panic
    inside one (an unhashable key, or values of a type that cannot be compared)
    leaves the lock as it was taken.  Keys are values equal to themselves. *)
From S2P Require Import Prelude.
#[local] Open Scope mq_scope.
#[local] Open Scope st_scope.

(** How the lock is held by calls that have ended. *)
Inductive held := Free | ReadHeld | WriteHeld.

Record BeeMap (K V : Type) `{Countable K} := mkBeeMap { lock : held; bm : gmap K V }.
Arguments mkBeeMap {K V _ _}.
Arguments lock {K V _ _}.
Arguments bm {K V _ _}.

#[export] Instance eta_BeeMap K V `{Countable K} : Eta (BeeMap K V) := fun m => mkBeeMap (lock m) (bm m).

Section BeeMap.
Context {K V : Type} `{Countable K} (hashable : K -> bool) (same : V -> V -> outcome bool).

Abbreviation BM := (ST (BeeMap K V)).

Definition NewBeeMap : BeeMap K V := mkBeeMap Free ∅.

Definition wlock : BM unit := fun m =>
  match lock m with Free => Done (m <| lock := WriteHeld |>) tt | _ => Blocked end.
Definition rlock : BM unit := fun m =>
  match lock m with WriteHeld => Blocked | Free => Done (m <| lock := ReadHeld |>) tt | ReadHeld => Done m tt end.
Definition wunlock : BM unit := st_mod (fun m => m <| lock := Free |>).

(** [runlock]: other readers that never unlocked stay. *)
Definition runlock (before : held) : BM unit := st_mod (fun m => m <| lock := before |>).

(** [m.bm[k]] *)
Definition at_key (k : K) : BM (option V) := fun m =>
  if hashable k then Done m (bm m !! k) else Panicked m "hash of unhashable type".

Definition put (k : K) (v : V) : BM unit := st_mod (fun m => let b := bm m in m <| bm := <[k := v]> b |>).

Definition Get (k : K) : BM (option V) :=
  let* m := st_get in
  do* rlock in
  let* val := at_key k in
  do* runlock (lock m) in
  st_ret val.

Definition Set_value (k : K) (v : V) : BM bool :=
  do* wlock in
  let* val := at_key k in
  match val with
  | None => do* put k v in do* wunlock in st_ret true
  | Some val =>
      match same val v with
      | Panic why => st_panic why
      | Ret false => do* put k v in do* wunlock in st_ret true
      | Ret true => do* wunlock in st_ret false
      end
  end.

Definition Check_key (k : K) : BM bool :=
  let* m := st_get in
  do* rlock in
  let* val := at_key k in
  do* runlock (lock m) in
  st_ret (bool_decide (is_Some val)).

Definition Delete (k : K) : BM unit :=
  do* wlock in
  let* _ := at_key k in
  do* st_mod (fun m => let b := bm m in m <| bm := delete k b |>) in
  wunlock.

Definition DeleteAll : BM unit :=
  do* wlock in
  do* st_mod (fun m => let b := bm m in m <| bm := foldr (fun k b => delete k b) b (map_to_list b).*1 |>) in
  wunlock.

Definition Items : BM (gmap K V) :=
  let* m := st_get in
  do* rlock in
  let* m' := st_get in
  let r := foldr (fun '(k, v) r => <[k := v]> r) ∅ (map_to_list (bm m')) in
  do* runlock (lock m) in
  st_ret r.

(** ** Lemmas *)

Lemma insert_all (l : list (K * V)) : foldr (fun '(k, v) r => <[k := v]> r) ∅ l = list_to_map (M := gmap K V) l.
Proof. induction l as [|[k v] l IH]; cbn; congruence. Qed.

Lemma Items_copy m : lock m <> WriteHeld -> Items m = Done m (bm m).
Proof.
  intros Hl. unfold Items, st_bind, st_get, rlock, runlock, st_mod, st_ret. destruct m as [[] b]; cbn in *; try done.
  all: f_equal; rewrite insert_all; apply list_to_map_to_list.
Qed.

Lemma DeleteAll_empties m : lock m = Free -> DeleteAll m = Done (mkBeeMap Free ∅) tt.
Proof.
  intros Hl. unfold DeleteAll, wlock, wunlock, st_bind, st_mod. rewrite Hl. destruct m as [? b]. cbn. clear.
  unfold upd, Setter. cbn. do 2 f_equal. apply map_empty. intros k.
  assert (Hd : forall l : list K, (k ∈ l -> foldr (fun k b => delete k b) b l !! k = None) /\
            (k ∉ l -> foldr (fun k b => delete k b) b l !! k = b !! k)).
  { induction l as [|k' l [IH1 IH2]]; [by split; [intros ?%not_elem_of_nil|]|]. cbn.
    destruct (decide (k = k')) as [->|Hk]; split; rewrite ?elem_of_cons; intros Hin.
    - apply lookup_delete_eq.
    - tauto.
    - rewrite lookup_delete_ne by done. apply IH1. tauto.
    - rewrite lookup_delete_ne by done. apply IH2. tauto. }
  destruct (b !! k) as [v|] eqn:E.
  - apply Hd. apply list_elem_of_fmap. exists (k, v). split; [done|]. by apply elem_of_map_to_list.
  - rewrite (proj2 (Hd _)); [done|]. intros ((k' & v) & -> & Hin)%list_elem_of_fmap.
    apply elem_of_map_to_list in Hin. cbn in E. congruence.
Qed.

(** [Set] stores the value, and returns whether that changed the map; it panics
    with the lock held, so that no later call returns, when two values of the
    same key cannot be compared. *)
Lemma Set_spec k v m : lock m = Free -> hashable k = true ->
  (forall x y, match same x y with Ret b => b = true <-> x = y | Panic _ => True end) ->
  match Set_value k v m with
  | Done m' b => lock m' = Free /\ bm m' = <[k := v]> (bm m) /\ (b = true <-> bm m' <> bm m)
  | Panicked m' _ => (exists x, bm m !! k = Some x /\ is_panic (same x v) = true) /\ bm m' = bm m /\
      (forall k', Get k' m' = Blocked) /\ (forall k' v', Set_value k' v' m' = Blocked)
  | Blocked => False
  end.
Proof.
  intros Hl Hk Hs. destruct m as [l b]. cbn in Hl. subst l.
  unfold Set_value, at_key, wlock, wunlock, put, st_bind, st_mod, st_ret. cbn. rewrite Hk.
  destruct (b !! k) as [x|] eqn:E; cbn; [specialize (Hs x v); destruct (same x v) as [[]|why] eqn:Hsame|]; cbn.
  - assert (x = v) as -> by tauto. by rewrite insert_id.
  - split_and!; try done. split; [|done]. intros _ E2. apply (f_equal (.!! k)) in E2.
    rewrite lookup_insert_eq, E in E2. injection E2 as ->. by destruct Hs as [_ Hs%(fun f => f eq_refl)].
  - split_and!; try done. exists x. by rewrite Hsame.
  - split_and!; try done. split; [|done]. intros _ E2. apply (f_equal (.!! k)) in E2.
    by rewrite lookup_insert_eq, E in E2.
Qed.

End BeeMap.
