(* ===== verification/TimeWheel.v ===== *)
(** * The time wheel

    [TimeWheel] of [module/modules/timer/timingwheel.go]: one goroutine that
    turns the wheel, adds and removes tasks as it receives ticks and requests.
    Durations are nanoseconds.  [acc_key] is the map key a counter value stands
    for; the caller's own keys are of the same type, so nothing says they differ. *)
From S2P Require Import Prelude.
#[local] Open Scope mq_scope.

(** A task of a slot, its key chosen. *)
Record Task (K J : Type) := mkTask { delay : Z; circle : Z; key : K; job : J }.
Arguments mkTask {K J}.
Arguments delay {K J}.
Arguments circle {K J}.
Arguments key {K J}.
Arguments job {K J}.

Record TimeWheel (K J : Type) `{Countable K} := mkTimeWheel {
  interval : Z; accumulator : Z; slots : list (list (Task K J)); timer : gmap K Z;
  currentPos : Z; slotNum : Z }.
Arguments mkTimeWheel {K J _ _}.
Arguments interval {K J _ _}.
Arguments accumulator {K J _ _}.
Arguments slots {K J _ _}.
Arguments timer {K J _ _}.
Arguments currentPos {K J _ _}.
Arguments slotNum {K J _ _}.

#[export] Instance eta_Task K J : Eta (Task K J) := fun t => mkTask (delay t) (circle t) (key t) (job t).
#[export] Instance eta_TimeWheel K J `{Countable K} : Eta (TimeWheel K J) := fun w =>
  mkTimeWheel (interval w) (accumulator w) (slots w) (timer w) (currentPos w) (slotNum w).

Definition MaxInt64 : Z := 2 ^ 63 - 1.

Section TimeWheel.
Context {K J : Type} `{Countable K} (acc_key : Z -> K).

Abbreviation task := (Task K J).
Abbreviation wheel := (TimeWheel K J).

(** [New], [initSlots] *)
Definition New (interval slotNum : Z) : option wheel :=
  if (interval <=? 0) || (slotNum <=? 0) then None
  else Some (mkTimeWheel interval 0 (replicate (Z.to_nat slotNum) []) ∅ 0 slotNum).

(** [getPositionAndCircle] *)
Definition getPositionAndCircle (d : Z) (w : wheel) : outcome (Z * Z) :=
  let delayMillisecond := Z.quot d 1000000 in
  let intervalMillisecond := Z.quot (interval w) 1000000 in
  if intervalMillisecond =? 0 then Panic "integer divide by zero"
  else
    let circle := Z.quot (Z.quot delayMillisecond intervalMillisecond) (slotNum w) in
    let pos := Z.rem (int64 (currentPos w + Z.quot delayMillisecond intervalMillisecond)) (slotNum w) in
    Ret (pos, circle).

(** [addTask]; [k] is the caller's key, if any. *)
Definition addTask (d : Z) (k : option K) (j : J) (w : wheel) : outcome wheel :=
  let '(k, w) :=
    match k with
    | Some k => (k, w)
    | None =>
        let acc := (if MaxInt64 <=? accumulator w then 0 else accumulator w) + 1 in
        (acc_key acc, w <| accumulator := acc |>)
    end in
  pc <- getPositionAndCircle d w;
  let '(pos, circle) := pc in
  match slots w !! Z.to_nat pos with
  | None => Panic "index out of range"
  | Some l =>
      let s := slots w in let t := timer w in
      Ret (w <| slots := <[Z.to_nat pos := l ++ [mkTask d circle k j]]> s |> <| timer := <[k := pos]> t |>)
  end.

(** [AddTimer] and [AddTimerCustom] up to the wheel's goroutine. *)
Definition AddTimer (d : Z) (k : option K) (j : J) (w : wheel) : outcome wheel :=
  if d <=? 0 then Ret w else addTask d k j w.

(** [l.Remove(e)] unlinks [e], so the [e.Next()] after it ends the loop of
    [removeTask]: the first task with the key goes. *)
Fixpoint remove_first (k : K) (l : list task) : list task :=
  match l with
  | [] => []
  | t :: l => if decide (key t = k) then l else t :: remove_first k l
  end.

Definition removeTask (k : K) (w : wheel) : wheel :=
  match timer w !! k with
  | None => w
  | Some position =>
      match slots w !! Z.to_nat position with
      | None => w
      | Some l =>
          let s := slots w in let t := timer w in
          w <| slots := <[Z.to_nat position := remove_first k l]> s |>
            <| timer := if decide (Exists (fun x => key x = k) l) then delete k t else t |>
      end
  end.

(** [scanAndRunTask] on a slot: what stays, what runs. *)
Definition waits (t : task) : bool := 0 <? circle t.
Definition turn (t : task) : task := let c := circle t in t <| circle := c - 1 |>.
Definition scan_stays (l : list task) : list task := turn <$> filter (fun t => waits t) l.
Definition scan_runs (l : list task) : list task := filter (fun t => negb (waits t)) l.

(** [tickHandler]: the tasks whose jobs were started. *)
Definition tickHandler (w : wheel) : wheel * list task :=
  let pos := currentPos w in
  let l := default [] (slots w !! Z.to_nat pos) in
  let s := slots w in
  let t := timer w in
  (w <| currentPos := if pos =? slotNum w - 1 then 0 else pos + 1 |>
     <| slots := <[Z.to_nat pos := scan_stays l]> s |>
     <| timer := foldl (fun m x => delete (key x) m) t (scan_runs l) |>,
   scan_runs l).

(** What [Start]'s loop receives. *)
Inductive tw_event := ETick | EAdd (d : Z) (k : option K) (j : J) | ERemove (k : K).

Definition tw_step (e : tw_event) (w : wheel) : outcome (wheel * list J) :=
  match e with
  | ETick => let '(w, ts) := tickHandler w in Ret (w, job <$> ts)
  | EAdd d k j => w <- AddTimer d k j w; Ret (w, [])
  | ERemove k => Ret (removeTask k w, [])
  end.

Fixpoint tw_run (es : list tw_event) (w : wheel) : outcome (wheel * list J) :=
  match es with
  | [] => Ret (w, [])
  | e :: es =>
      r <- tw_step e w;
      let '(w, js) := r in
      r <- tw_run es w;
      let '(w, js') := r in
      Ret (w, js ++ js')
  end.
End TimeWheel.
