(* ===== verification/TimeWheelTheorems.v ===== *)
(** * Theorems on the time wheel

    A task is followed through the wheel by the number of ticks it still has to
    wait: the distance of the hand to its slot plus its remaining turns. *)
From S2P Require Import Prelude TimeWheel.
#[local] Open Scope mq_scope.

Section Theorems.
Context {K J : Type} `{Countable K} `{EqDecision J} (acc_key : Z -> K).
#[local] Instance tw_event_dec : EqDecision (tw_event (K := K) (J := J)).
Proof. solve_decision. Defined.

Abbreviation task := (Task K J).
Abbreviation wheel := (TimeWheel K J).
Abbreviation step := (tw_step acc_key).
Abbreviation run := (tw_run acc_key).

(** ** Slots *)

Definition slot (w : wheel) (i : nat) : list task := default [] (slots w !! i).

(** The tasks of a list that run job [j]. *)
Definition mine (j : J) (l : list task) : list task := filter (fun t => job t = j) l.

Lemma mine_app j l l' : mine j (l ++ l') = mine j l ++ mine j l'.
Proof. apply filter_app. Qed.

Lemma mine_other j d c k j' : j' <> j -> mine j [mkTask d c k j'] = [].
Proof. intros Hj. unfold mine. by rewrite filter_cons_False. Qed.

Lemma mine_stays j l : mine j (scan_stays l) = scan_stays (mine j l).
Proof.
  unfold mine, scan_stays. rewrite list_filter_fmap, !list_filter_filter. f_equal.
  apply list_filter_iff. intros t. cbn. tauto.
Qed.

Lemma mine_runs j l : filter (fun j' => j' = j) (job <$> scan_runs l) = job <$> scan_runs (mine j l).
Proof.
  unfold mine, scan_runs. rewrite list_filter_fmap, !list_filter_filter. f_equal.
  apply list_filter_iff. intros t. tauto.
Qed.

Lemma mine_remove j k l : Forall (fun t => key t <> k) (mine j l) -> mine j (remove_first k l) = mine j l.
Proof.
  unfold mine. induction l as [|t l IH]; intros Hf; [done|]. cbn [remove_first].
  destruct (decide (job t = j)) as [E|E].
  - rewrite filter_cons_True in Hf by done. apply Forall_cons in Hf as [Hk Hf].
    rewrite decide_False, !filter_cons_True by done. f_equal. by apply IH.
  - rewrite filter_cons_False in Hf by done. rewrite (filter_cons_False _ t l) by done.
    destruct (decide (key t = k)); [done|]. rewrite filter_cons_False by done. by apply IH.
Qed.

Lemma slot_insert w (s : list (list task)) i p l : slots w = s -> (p < length s)%nat ->
  default [] (<[p := l]> s !! i) = if decide (i = p) then l else slot w i.
Proof.
  intros <- Hp. unfold slot. destruct (decide (i = p)) as [->|Hi].
  - by rewrite list_lookup_insert_eq.
  - by rewrite list_lookup_insert_ne.
Qed.

(** ** Well-formed wheels *)

Record wf (w : wheel) : Prop := {
  wf_num : 0 < slotNum w <= 2 ^ 62;
  wf_slots : zlen (slots w) = slotNum w;
  wf_pos : 0 <= currentPos w < slotNum w;
  wf_interval : 1000000 <= interval w }.

(** The ticks a delay is counted in. *)
Definition steps (w : wheel) (d : Z) : Z := Z.quot (Z.quot d 1000000) (Z.quot (interval w) 1000000).

Definition ev_ok (e : tw_event (K := K) (J := J)) : Prop := match e with EAdd d _ _ => d < 2 ^ 63 | _ => True end.

Lemma steps_range w d : wf w -> 0 < d < 2 ^ 63 -> 0 <= steps w d <= 2 ^ 62.
Proof.
  intros Hw Hd. unfold steps. pose proof (wf_interval w Hw).
  rewrite !Z.quot_div_nonneg; try (apply Z.quot_pos; lia); try lia.
  2: { rewrite Z.quot_div_nonneg by lia. apply Z.div_str_pos. lia. }
  pose proof (Z.div_pos d 1000000). assert (1 <= interval w / 1000000) by (apply Z.div_le_lower_bound; lia).
  split; [apply Z.div_pos; lia|]. etransitivity; [apply Z.div_le_upper_bound with (q := d / 1000000); nia|].
  apply Z.div_le_upper_bound; lia.
Qed.

(** The place of a delay: [steps] slots ahead, and as many turns as that takes. *)
Lemma position_spec w d : wf w -> 0 < d < 2 ^ 63 ->
  getPositionAndCircle d w =
    Ret ((currentPos w + steps w d) mod slotNum w, steps w d / slotNum w).
Proof.
  intros Hw Hd. pose proof (steps_range w d Hw Hd). destruct Hw as [Hn Hs Hp Hi].
  unfold getPositionAndCircle. fold (steps w d).
  assert (1 <= Z.quot (interval w) 1000000) by (rewrite Z.quot_div_nonneg by lia; apply Z.div_le_lower_bound; lia).
  rewrite (proj2 (Z.eqb_neq _ 0)) by lia. unfold int64. rewrite wrap_s_small by lia.
  by rewrite Z.rem_mod_nonneg, Z.quot_div_nonneg by lia.
Qed.

(** ** Following a job *)

Definition absent (j : J) (w : wheel) : Prop := forall i, mine j (slot w i) = [].

(** One task runs [j]: it has key [k] and [r] ticks to wait before the one that
    runs it. *)
Definition held (j : J) (k : K) (r : Z) (w : wheel) : Prop := exists p t,
  (p < length (slots w))%nat /\ (forall i, mine j (slot w i) = if decide (i = p) then [t] else []) /\
  key t = k /\ 0 <= circle t /\ r = (Z.of_nat p - currentPos w) mod slotNum w + slotNum w * circle t.

Definition next_pos (n c : Z) : Z := if c =? n - 1 then 0 else c + 1.

Lemma dist_step n c p : 0 <= p < n -> 0 <= c < n ->
  (p - next_pos n c) mod n = if p =? c then n - 1 else (p - c) mod n - 1.
Proof.
  intros Hp Hc. unfold next_pos.
  assert (Hm : forall a q, 0 <= a - n * q < n -> a mod n = a - n * q) by (intros; symmetry; apply Z.mod_unique with q; lia).
  destruct (Z.eqb_spec c (n - 1)) as [E1|E1], (Z.eqb_spec p c) as [E2|E2].
  - rewrite (Hm _ 0); lia.
  - rewrite (Hm _ 0), (Hm (p - c) (-1)); lia.
  - rewrite (Hm _ (-1)); lia.
  - destruct (Z_le_gt_dec (c + 1) p).
    + rewrite (Hm _ 0), (Hm (p - c) 0); lia.
    + rewrite (Hm _ (-1)), (Hm (p - c) (-1)); lia.
Qed.

Lemma tick_slot w i : wf w ->
  slot (fst (tickHandler w)) i =
    if decide (i = Z.to_nat (currentPos w)) then scan_stays (slot w (Z.to_nat (currentPos w))) else slot w i.
Proof.
  intros [Hn Hs Hp Hi]. unfold tickHandler, slot at 1. cbn. apply slot_insert; [done|]. unfold zlen in *. lia.
Qed.

Lemma tick_mine w i j : wf w ->
  mine j (slot (fst (tickHandler w)) i) =
    if decide (i = Z.to_nat (currentPos w)) then scan_stays (mine j (slot w i)) else mine j (slot w i).
Proof. intros Hw. rewrite tick_slot by done. destruct (decide _) as [->|]; [apply mine_stays | done]. Qed.

Lemma tick_fired (w : wheel) j :
  filter (fun j' => j' = j) (job <$> snd (tickHandler w)) =
  job <$> scan_runs (mine j (slot w (Z.to_nat (currentPos w)))).
Proof. apply mine_runs. Qed.

Lemma tick_pos (w : wheel) : currentPos (fst (tickHandler w)) = next_pos (slotNum w) (currentPos w) /\
  slotNum (fst (tickHandler w)) = slotNum w /\ interval (fst (tickHandler w)) = interval w /\
  length (slots (fst (tickHandler w))) = length (slots w).
Proof. split_and!; try done. apply length_insert. Qed.

(** A tick brings a held job one closer, and runs it when none is left. *)
Lemma tick_held j k r w : wf w -> held j k r w ->
  if 0 <? r
  then held j k (r - 1) (fst (tickHandler w)) /\ filter (fun j' => j' = j) (job <$> snd (tickHandler w)) = []
  else absent j (fst (tickHandler w)) /\ filter (fun j' => j' = j) (job <$> snd (tickHandler w)) = [j].
Proof.
  intros Hw (p & t & Hpl & Hm & Hk & Hc & ->). pose proof Hw as [Hn Hs Hp Hi].
  assert (Hj : job t = j).
  { assert (t ∈ mine j (slot w p)) as Hin by (rewrite Hm, decide_True by done; by apply list_elem_of_singleton).
    by apply list_elem_of_filter in Hin as [-> _]. }
  pose proof (Z.mod_pos_bound (Z.of_nat p - currentPos w) (slotNum w) ltac:(lia)) as Hd.
  pose proof (dist_step (slotNum w) (currentPos w) (Z.of_nat p) ltac:(unfold zlen in Hs; lia) Hp) as Hstep.
  destruct (tick_pos w) as (Ep & En & _ & El). rewrite tick_fired, Hm.
  destruct (Z.eqb_spec (Z.of_nat p) (currentPos w)) as [Epc|Epc].
  - rewrite Epc, Z.sub_diag, Z.mod_0_l, Z.add_0_l in * by lia.
    assert (Epn : Z.to_nat (currentPos w) = p) by lia. rewrite decide_True by done.
    unfold scan_runs. destruct (Z.ltb_spec 0 (circle t)) as [Hct|Hct].
    + rewrite (proj2 (Z.ltb_lt _ _)) by nia. split.
      * exists p, (turn t). rewrite El, Ep, En, Epc, Hstep. split_and!; [done| |done|cbn; lia|cbn; lia].
        intros i. rewrite tick_mine, Hm, Epn by done. destruct (decide (i = p)); [|done].
        unfold scan_stays. rewrite filter_cons_True; [done|]. unfold waits. by rewrite (proj2 (Z.ltb_lt _ _)).
      * rewrite filter_cons_False; [done|]. unfold waits. rewrite (proj2 (Z.ltb_lt _ _)) by done. by intros [].
    + rewrite (proj2 (Z.ltb_ge _ _)) by nia. split.
      * intros i. rewrite tick_mine, Hm, Epn by done. destruct (decide (i = p)); [|done].
        unfold scan_stays, waits. rewrite filter_cons_False; [done|]. rewrite (proj2 (Z.ltb_ge _ _)) by done. by intros [].
      * rewrite filter_cons_True; [cbn; by rewrite Hj|]. unfold waits. by rewrite (proj2 (Z.ltb_ge _ _)).
  - rewrite decide_False by lia.
    assert (Hd0 : (Z.of_nat p - currentPos w) mod slotNum w <> 0).
    { intros E0. apply Z.mod_divide in E0 as [q E0]; [|lia]. unfold zlen in Hs. assert (q = 0) by nia. lia. }
    rewrite (proj2 (Z.ltb_lt _ _)) by nia. split; [|done].
    exists p, t. rewrite El, Ep, En, Hstep. split_and!; [done| |done|done|lia].
    intros i. rewrite tick_mine, Hm by done. destruct (decide (i = Z.to_nat (currentPos w))); [|done].
    by rewrite decide_False by lia.
Qed.

Lemma tick_absent j w : wf w -> absent j w ->
  absent j (fst (tickHandler w)) /\ filter (fun j' => j' = j) (job <$> snd (tickHandler w)) = [].
Proof.
  intros Hw Ha. rewrite tick_fired, Ha. split; [|done]. intros i. rewrite tick_mine, Ha by done. by destruct (decide _).
Qed.

(** ** Requests *)

(** The key a new task gets. *)
Definition chosen (k : option K) (w : wheel) : K :=
  match k with Some k => k | None => acc_key ((if MaxInt64 <=? accumulator w then 0 else accumulator w) + 1) end.

Definition same_hand (w w' : wheel) : Prop :=
  currentPos w' = currentPos w /\ slotNum w' = slotNum w /\ interval w' = interval w /\ length (slots w') = length (slots w).

Lemma same_hand_wf w w' : same_hand w w' -> wf w -> wf w'.
Proof. intros (E1 & E2 & E3 & E4) []. split; unfold zlen in *; rewrite ?E1, ?E2, ?E3, ?E4; done. Qed.

Lemma add_spec w d k j : wf w -> 0 < d < 2 ^ 63 -> exists w',
  AddTimer acc_key d k j w = Ret w' /\ same_hand w w' /\
  forall i, slot w' i = slot w i ++
    (if decide (i = Z.to_nat ((currentPos w + steps w d) mod slotNum w))
     then [mkTask d (steps w d / slotNum w) (chosen k w) j] else []).
Proof.
  intros Hw Hd. unfold AddTimer, addTask. rewrite (proj2 (Z.leb_gt _ _)) by lia.
  set (p := (currentPos w + steps w d) mod slotNum w).
  set (w1 := match k with Some _ => w | None => w <| accumulator :=
               (if MaxInt64 <=? accumulator w then 0 else accumulator w) + 1 |> end).
  assert (E1 : (match k with Some k => (k, w) | None => (acc_key ((if MaxInt64 <=? accumulator w then 0 else accumulator w) + 1),
               w <| accumulator := (if MaxInt64 <=? accumulator w then 0 else accumulator w) + 1 |>) end) = (chosen k w, w1))
    by (by destruct k).
  rewrite E1. assert (Hsh : same_hand w w1) by (by destruct k). pose proof (same_hand_wf _ _ Hsh Hw) as Hw1.
  assert (E2 : getPositionAndCircle d w1 = Ret (p, steps w d / slotNum w)).
  { rewrite position_spec by done. destruct Hsh as (H1 & H2 & H3 & _). unfold p, steps. by rewrite H1, H2, H3. }
  rewrite E2. cbn [outcome_bind]. destruct Hw as [Hn Hs _ _].
  pose proof (Z.mod_pos_bound (currentPos w + steps w d) (slotNum w) ltac:(lia)) as Hp. fold p in Hp.
  assert (Hl : (Z.to_nat p < length (slots w1))%nat) by (destruct Hsh as (_ & _ & _ & ->); unfold zlen in Hs; lia).
  destruct (lookup_lt_is_Some_2 _ _ Hl) as [l El]. rewrite El. eexists. split; [done|].
  assert (Es : slots w1 = slots w) by (by destruct k).
  split.
  { destruct Hsh as (H1 & H2 & H3 & H4). split_and!; [done..|]. cbn. by rewrite length_insert. }
  intros i. unfold slot at 1. cbn. rewrite (slot_insert w) by done.
  unfold slot. destruct (decide (i = Z.to_nat p)) as [->|]; [|by rewrite app_nil_r]. by rewrite <- Es, El.
Qed.

(** A new task is [steps] ticks away. *)
Lemma add_held w d k j : wf w -> 0 < d < 2 ^ 63 -> absent j w -> exists w',
  AddTimer acc_key d k j w = Ret w' /\ wf w' /\ held j (chosen k w) (steps w d) w'.
Proof.
  intros Hw Hd Ha. destruct (add_spec w d k j Hw Hd) as (w' & E & Hsh & Hsl).
  exists w'. split; [done|]. split; [by apply (same_hand_wf w)|].
  pose proof (steps_range w d Hw Hd) as Hst. destruct Hw as [Hn Hs Hpos _]. destruct Hsh as (E1 & E2 & _ & E4).
  pose proof (Z.mod_pos_bound (currentPos w + steps w d) (slotNum w) ltac:(lia)) as Hp.
  eexists _, _. split; [|split; [|split; [|split]]].
  2: { intros i. rewrite Hsl, mine_app, Ha. destruct (decide (i = _)) as [->|Hi].
       - rewrite decide_True by reflexivity. unfold mine. by rewrite filter_cons_True.
       - by rewrite decide_False by exact Hi. }
  - rewrite E4. unfold zlen in Hs. lia.
  - done.
  - cbn. apply Z.div_pos; lia.
  - cbn. rewrite E1, E2, Z2Nat.id by lia. rewrite Zminus_mod_idemp_l.
    replace (currentPos w + steps w d - currentPos w) with (steps w d) by lia.
    pose proof (Z.div_mod (steps w d) (slotNum w)). lia.
Qed.

Lemma held_same j k r w w' : same_hand w w' -> (forall i, mine j (slot w' i) = mine j (slot w i)) ->
  held j k r w -> held j k r w'.
Proof.
  intros (E1 & E2 & _ & E4) Hs (p & t & Hp & Hm & ?). exists p, t. rewrite E1, E2, E4.
  split; [done|]. split; [|done]. intros i. by rewrite Hs.
Qed.

(** Requests for other jobs and other keys leave the job where it is. *)
Lemma add_other w d k j j' : wf w -> d < 2 ^ 63 -> j' <> j -> exists w',
  AddTimer acc_key d k j' w = Ret w' /\ same_hand w w' /\ forall i, mine j (slot w' i) = mine j (slot w i).
Proof.
  intros Hw Hd Hj. destruct (Z_le_gt_dec d 0) as [Hd0|Hd0].
  - exists w. unfold AddTimer. by rewrite (proj2 (Z.leb_le _ _)) by done.
  - destruct (add_spec w d k j' Hw) as (w' & E & Hsh & Hsl); [lia|]. exists w'. split_and!; [done..|].
    intros i. rewrite Hsl, mine_app. destruct (decide _); [rewrite mine_other by done|]; apply app_nil_r.
Qed.

Lemma remove_same w k j : wf w -> (forall i, Forall (fun t => key t <> k) (mine j (slot w i))) ->
  same_hand w (removeTask k w) /\ forall i, mine j (slot (removeTask k w) i) = mine j (slot w i).
Proof.
  intros Hw Hk. unfold removeTask. destruct (timer w !! k) as [p|]; [|done].
  destruct (slots w !! Z.to_nat p) as [l|] eqn:El; [|done]. split.
  - split_and!; try done. cbn. apply length_insert.
  - intros i. unfold slot at 1. cbn. rewrite (slot_insert w) by (done || by apply lookup_lt_Some in El).
    destruct (decide (i = Z.to_nat p)) as [->|]; [|done]. specialize (Hk (Z.to_nat p)).
    unfold slot in *. rewrite El in *. cbn in *. by apply mine_remove.
Qed.

(** ** Runs *)

Definition ticks (es : list (tw_event (K := K) (J := J))) : Z :=
  zlen (filter (fun e => e = ETick) es).

(** Events that do not add job [j] again, nor remove key [k]. *)
Definition undisturbed (j : J) (k : option K) (e : tw_event (K := K) (J := J)) : Prop :=
  match e with ETick => True | EAdd d _ j' => d < 2 ^ 63 /\ j' <> j | ERemove k' => Some k' <> k end.

Lemma ticks_cons e es : ticks (e :: es) = match e with ETick => 1 + ticks es | _ => ticks es end.
Proof.
  unfold ticks. destruct e; [rewrite filter_cons_True by done | rewrite filter_cons_False by done..]; [|done..].
  by rewrite zlen_cons.
Qed.

Lemma tick_wf w : wf w -> wf (fst (tickHandler w)).
Proof.
  intros [Hn Hs Hp Hi]. destruct (tick_pos w) as (E1 & E2 & E3 & E4).
  split; unfold zlen in *; rewrite ?E1, ?E2, ?E3, ?E4; try done. unfold next_pos.
  destruct (Z.eqb_spec (currentPos w) (slotNum w - 1)); lia.
Qed.

(** A job that is some ticks away, under its key, or gone. *)
Definition state (j : J) (s : option (K * Z)) (w : wheel) : Prop :=
  match s with Some (k, r) => held j k r w | None => absent j w end.

(** The state after [n] ticks, and what they run. *)
Definition after (n : Z) (s : option (K * Z)) : option (K * Z) :=
  match s with Some (k, r) => if r <? n then None else Some (k, r - n) | None => None end.

Definition due (n : Z) (s : option (K * Z)) (j : J) : list J :=
  match s with Some (k, r) => if r <? n then [j] else [] | None => [] end.

Lemma step_other j s w e : wf w -> state j s w -> undisturbed j (fst <$> s) e -> e <> ETick ->
  exists w', step e w = Ret (w', []) /\ wf w' /\ state j s w'.
Proof.
  intros Hw Hs Hu He. destruct e as [|d k' j'|k']; [done|..].
  - destruct Hu as [Hd Hj]. destruct (add_other w d k' j j' Hw Hd Hj) as (w' & E & Hsh & Hm).
    exists w'. cbn. rewrite E. split; [done|]. split; [by apply (same_hand_wf w)|].
    destruct s as [[k r]|]; [by apply (held_same _ _ _ w) | intros i; by rewrite Hm].
  - destruct (remove_same w k' j Hw) as (Hsh & Hm).
    { intros i. destruct s as [[k r]|]; cbn in Hs, Hu; [|by rewrite Hs].
      destruct Hs as (p & t & _ & Hm & <- & _). rewrite Hm. destruct (decide _); [|done]. apply Forall_singleton. congruence. }
    eexists. split; [done|]. split; [by apply (same_hand_wf w)|].
    destruct s as [[k r]|]; [by apply (held_same _ _ _ w) | intros i; by rewrite Hm].
Qed.

Lemma step_tick j s w : wf w -> state j s w -> (forall k r, s = Some (k, r) -> 0 <= r) ->
  exists w' js, step ETick w = Ret (w', js) /\ wf w' /\ state j (after 1 s) w' /\ filter (fun j' => j' = j) js = due 1 s j.
Proof.
  intros Hw Hs Hr. pose proof (tick_wf w Hw) as Hw1. eexists _, _. split; [cbn [tw_step]; by rewrite (surjective_pairing (tickHandler w))|].
  split; [done|]. destruct s as [[k r]|]; cbn [state] in Hs; [|by apply tick_absent].
  pose proof (tick_held j k r w Hw Hs) as Ht. specialize (Hr k r eq_refl). unfold after, due.
  destruct (Z.ltb_spec 0 r), (Z.ltb_spec r 1); (done || lia).
Qed.

Lemma after_add m s : 0 <= m -> (forall k r, s = Some (k, r) -> 0 <= r) -> after m (after 1 s) = after (1 + m) s.
Proof.
  intros Hm Hr. destruct s as [[k r]|]; [|done]. specialize (Hr k r eq_refl). unfold after.
  destruct (Z.ltb_spec r 1), (Z.ltb_spec r (1 + m)); try (done || lia).
  - by rewrite (proj2 (Z.ltb_lt _ _)) by lia.
  - rewrite (proj2 (Z.ltb_ge _ _)) by lia. do 2 f_equal. lia.
Qed.

Lemma due_add m s j : 0 <= m -> (forall k r, s = Some (k, r) -> 0 <= r) -> due 1 s j ++ due m (after 1 s) j = due (1 + m) s j.
Proof.
  intros Hm Hr. destruct s as [[k r]|]; [|done]. specialize (Hr k r eq_refl). unfold due, after.
  destruct (Z.ltb_spec r 1), (Z.ltb_spec r (1 + m)); try (done || lia); cbn.
  - by rewrite (proj2 (Z.ltb_lt _ _)) by lia.
  - by rewrite (proj2 (Z.ltb_ge _ _)) by lia.
Qed.

Lemma undisturbed_after j s n e : undisturbed j (fst <$> s) e -> undisturbed j (fst <$> after n s) e.
Proof. destruct s as [[k r]|]; [|done]. cbn. destruct (r <? n); [|done]. by destruct e. Qed.

Lemma ticks_nonneg es : 0 <= ticks es.
Proof. apply zlen_nonneg. Qed.

Lemma run_state es : forall j s w, wf w -> state j s w -> (forall k r, s = Some (k, r) -> 0 <= r) ->
  Forall (undisturbed j (fst <$> s)) es ->
  exists w' js, run es w = Ret (w', js) /\ wf w' /\ state j (after (ticks es) s) w' /\
    filter (fun j' => j' = j) js = due (ticks es) s j.
Proof.
  induction es as [|e es IH]; intros j s w Hw Hs Hr Hu.
  - exists w, []. split; [done|]. split; [done|]. unfold after, due, ticks. cbn. destruct s as [[k r]|]; [|done].
    specialize (Hr k r eq_refl). rewrite (proj2 (Z.ltb_ge _ _)) by done. by rewrite Z.sub_0_r.
  - apply Forall_cons in Hu as [He Hu]. rewrite ticks_cons. cbn [tw_run]. pose proof (ticks_nonneg es) as Hn.
    destruct (decide (e = ETick)) as [->|Hne].
    + destruct (step_tick j s w Hw Hs Hr) as (w1 & js1 & E1 & Hw1 & Hs1 & Hj1). rewrite E1. cbn [outcome_bind].
      destruct (IH j (after 1 s) w1 Hw1 Hs1) as (w' & js & E & Hw' & Hs' & Hj).
      { intros k r. destruct s as [[k' r']|]; [|done]. unfold after. specialize (Hr _ _ eq_refl).
        destruct (Z.ltb_spec r' 1); [done|]. intros [= <- <-]. lia. }
      { eapply Forall_impl; [exact Hu|]. intros e'. apply undisturbed_after. }
      rewrite E. cbn [outcome_bind]. eexists _, _. split; [done|]. split; [done|].
      rewrite <- after_add, filter_app, Hj1, Hj, due_add by done. done.
    + destruct (step_other j s w e Hw Hs He Hne) as (w1 & E1 & Hw1 & Hs1). rewrite E1. cbn [outcome_bind].
      destruct (IH j s w1 Hw1 Hs1 Hr Hu) as (w' & js & E & Hw' & Hs' & Hj). rewrite E. cbn [outcome_bind].
      eexists _, _. split; [done|]. by destruct e.
Qed.

Lemma New_wf i n w j : 1000000 <= i -> n <= 2 ^ 62 -> New i n = Some w -> wf w /\ absent j w.
Proof.
  intros Hi Hn. unfold New. destruct (i <=? 0) eqn:E1; [done|]. destruct (Z.leb_spec n 0); [done|]. intros [= <-].
  split; [split; cbn; unfold zlen; rewrite ?length_replicate; lia|].
  intros p. unfold slot. cbn. destruct (replicate (Z.to_nat n) [] !! p) eqn:E; [|done].
  by apply lookup_replicate in E as [-> _].
Qed.

Lemma New_interval es : forall i n w w' js, New i n = Some w -> wf w -> run es w = Ret (w', js) ->
  Forall ev_ok es -> interval w' = i.
Proof.
  intros i n w w' js Hnew Hw Hrun Hok.
  assert (Hi : interval w = i) by (unfold New in Hnew; by destruct (_ || _); simplify_eq). rewrite <- Hi. clear Hnew Hi.
  revert w w' js Hw Hrun. induction es as [|e es IH]; intros w w' js Hw; cbn [tw_run].
  { by intros [= <- <-]. }
  apply Forall_cons in Hok as [He Hok].
  assert (exists w1 js1, step e w = Ret (w1, js1) /\ wf w1 /\ interval w1 = interval w) as (w1 & js1 & E1 & Hw1 & Hi1).
  { destruct e as [|d k j|k].
    - eexists _, _. split; [cbn [tw_step]; by rewrite (surjective_pairing (tickHandler w))|].
      split; [by apply tick_wf | apply tick_pos].
    - cbn [tw_step]. destruct (Z_le_gt_dec d 0).
      + exists w, []. unfold AddTimer. by rewrite (proj2 (Z.leb_le _ _)).
      + destruct (add_spec w d k j Hw) as (w1 & E & Hsh & _); [cbn in He; lia|]. exists w1, []. rewrite E.
        split; [done|]. split; [by apply (same_hand_wf w) | apply Hsh].
    - exists (removeTask k w), []. split; [done|].
      assert (Hsh : same_hand w (removeTask k w)).
      { unfold removeTask. destruct (timer w !! k); [|done]. destruct (slots w !! _); [|done].
        split_and!; try done. cbn. apply length_insert. }
      split; [by apply (same_hand_wf w) | apply Hsh]. }
  rewrite E1. cbn [outcome_bind]. destruct (run es w1) as [[w2 js2]|] eqn:E2; cbn [outcome_bind]; [|done].
  intros [= <- <-]. rewrite <- Hi1. by eapply IH.
Qed.

(** C30. Timers fire, once, and on time.  On a wheel of interval [i] (at least a
    millisecond) with any history, a job added with delay [d] is started exactly
    once by the tick number [(d / 1ms) / (i / 1ms) + 1] after it, and not before,
    whatever other jobs are added and other keys removed in between; no call
    panics. *)
Theorem timers_fire_on_time (i n : Z) (w0 w : wheel) (pre es : list tw_event) (js0 : list J)
  (d : Z) (k : option K) (j : J)
  (Hi : 1000000 <= i) (Hn : n <= 2 ^ 62) (Hnew : New i n = Some w0)
  (Hpre : Forall (undisturbed j None) pre) (Hw : run pre w0 = Ret (w, js0))
  (Hd : 0 < d < 2 ^ 63) (Hes : Forall (undisturbed j (Some (chosen k w))) es) :
  exists w1 w2 js, AddTimer acc_key d k j w = Ret w1 /\ run es w1 = Ret (w2, js) /\
    filter (fun j' => j' = j) js =
      (if Z.quot (Z.quot d 1000000) (Z.quot i 1000000) + 1 <=? ticks es then [j] else []).
Proof.
  destruct (New_wf i n w0 j Hi Hn Hnew) as [Hw0 Ha0].
  destruct (run_state pre j None w0 Hw0 Ha0 ltac:(done) Hpre) as (w' & js' & E & Hw' & Ha & _).
  rewrite Hw in E. injection E as <- <-. cbn in Ha.
  assert (Hiw : interval w = i).
  { eapply New_interval; [done..|]. eapply Forall_impl; [exact Hpre|]. intros [] ?; naive_solver. }
  destruct (add_held w d k j Hw' Hd Ha) as (w1 & E1 & Hw1 & Hh).
  pose proof (steps_range w d Hw' Hd) as Hs.
  destruct (run_state es j (Some (chosen k w, steps w d)) w1 Hw1 Hh) as (w2 & js & E2 & _ & _ & Hj); [naive_solver lia|done|].
  exists w1, w2, js. split_and!; [done..|]. rewrite Hj. unfold due, steps. rewrite Hiw.
  set (x := Z.quot (Z.quot d 1000000) _). by destruct (Z.ltb_spec x (ticks es)), (Z.leb_spec (x + 1) (ticks es)); try lia.
Qed.

(** An interval below a millisecond passes [New] and makes the first timer panic. *)
Lemma short_interval_panics i n (w : wheel) d k (j : J) : 0 < i < 1000000 -> New i n = Some w -> 0 < d ->
  is_panic (AddTimer acc_key d k j w) = true.
Proof.
  intros Hi Hnew Hd. assert (Hiw : interval w = i) by (unfold New in Hnew; by destruct (_ || _); simplify_eq).
  unfold AddTimer, addTask. rewrite (proj2 (Z.leb_gt _ _)) by lia.
  assert (Hq : Z.quot i 1000000 = 0) by (apply Z.quot_small; lia).
  destruct k; unfold getPositionAndCircle; cbn; by rewrite Hiw, Hq.
Qed.

End Theorems.

(** A wheel of three slots, one per second; the job waits four seconds. *)
Lemma timers_fire_on_time_witness :
  exists w1 w2 js,
    AddTimer id (4 * 10 ^ 9) (Some 7) 70 (mkTimeWheel (10 ^ 9) 0 (replicate 3 []) ∅ 1 3) = Ret w1 /\
    tw_run id [ETick; EAdd 1 None 71; ETick; ETick; ERemove 8; ETick; ETick; ETick] w1 = Ret (w2, js) /\
    filter (fun j' => j' = 70) js = [70].
Proof.
  apply (timers_fire_on_time id (10 ^ 9) 3 (mkTimeWheel (10 ^ 9) 0 (replicate 3 []) ∅ 0 3)
           (mkTimeWheel (10 ^ 9) 0 (replicate 3 []) ∅ 1 3) [ETick]
           [ETick; EAdd 1 None 71; ETick; ETick; ERemove 8; ETick; ETick; ETick] [] (4 * 10 ^ 9) (Some 7) 70);
    [lia | lia | reflexivity | by repeat constructor | vm_compute; reflexivity | lia | repeat constructor; cbn; (lia || congruence)].
Defined.
