(* ===== verification/Consul.v ===== *)
(** * The consul registry

    How a service is written to consul and read back: [registry/encoding.go]
    (tags), and [Register], [Deregister] and [GetService] of
    [registry/consul_registry.go].

    Outside the model: zlib, JSON and the hash of a service, and consul itself, whose
    agent answers each call from a state of its own (parameters).  JSON [null] as
    an endpoint is not modelled. *)
From Stdlib Require Import Strings.Ascii.
From S2P Require Import Prelude Registry.
#[local] Open Scope mq_scope.
#[local] Open Scope string_scope.
#[local] Open Scope list_scope.
#[local] Open Scope Z_scope.

(** ** [encoding/hex] *)

Definition hex_digit (n : Z) : byte := zb (if n <? 10 then 48 + n else 87 + n).

Definition from_hex (b : byte) : option Z :=
  let n := bz b in
  if (48 <=? n) && (n <=? 57) then Some (n - 48)
  else if (97 <=? n) && (n <=? 102) then Some (n - 87)
  else if (65 <=? n) && (n <=? 70) then Some (n - 55)
  else None.

Fixpoint hex_EncodeToString (bs : bytes) : bytes :=
  match bs with
  | [] => []
  | b :: bs => hex_digit (Z.shiftr (bz b) 4) :: hex_digit (Z.land (bz b) 15) :: hex_EncodeToString bs
  end.

Fixpoint hex_DecodeString (s : bytes) : option bytes :=
  match s with
  | [] => Some []
  | a :: b :: s => x ← from_hex a; y ← from_hex b; r ← hex_DecodeString s; Some (zb (Z.lor (Z.shiftl x 4) y) :: r)
  | [_] => None
  end.

(** ** [encoding.go] *)

Section Encoding.
Context (zlib_deflate : bytes -> bytes) (zlib_inflate : bytes -> option bytes)
        (marshal_endpoint : Endpoint -> option bytes) (unmarshal_endpoint : bytes -> option Endpoint)
        (marshal_kv : string -> string -> option bytes) (unmarshal_kv : bytes -> option (gmap string string)).

Definition encode (buf : bytes) : string := bytes_str (hex_EncodeToString (zlib_deflate buf)).

(** Every failure gives nil. *)
Definition decode (d : string) : bytes :=
  match hex_DecodeString (str_bytes d) with
  | None => []
  | Some hr => default [] (zlib_inflate hr)
  end.

Definition encodeEndpoints (en : list Endpoint) : list string :=
  omap (fun e => b ← marshal_endpoint e; Some ("e-" ++ encode b)%string) en.

(** [range] over a map, in the order of [md]. *)
Definition encodeMetadata (md : list (string * string)) : list string :=
  omap (fun '(k, v) => b ← marshal_kv k v; Some ("t-" ++ encode b)%string) md.

Definition encodeVersion (v : string) : list string := ["v-" ++ encode (str_bytes v)]%string.

(** The bytes a tag of kind [kind] stands for, if it is to be read, and the new
    [ver]; [tag[1]] is read without a length check. *)
Definition read_tag (kind : Ascii.ascii) (ver : option Ascii.ascii) (tag : string) : outcome (option bytes * option Ascii.ascii) :=
  match tag with
  | EmptyString => Ret (None, ver)
  | String k rest =>
      if decide (k = kind) then
        match rest with
        | EmptyString => Panic "index out of range"
        | String v data =>
            if bool_decide (is_Some ver /\ ver <> Some v) then Ret (None, ver)
            else Ret (Some (if decide (v = "="%char) then str_bytes data
                            else if decide (v = "-"%char) then decode data else []),
                      if decide (v = Ascii.zero) then None else Some v)
        end
      else Ret (None, ver)
  end.

Fixpoint decode_tags {A} (kind : Ascii.ascii) (add : bytes -> A -> A) (tags : list string)
    (ver : option Ascii.ascii) (acc : A) : outcome A :=
  match tags with
  | [] => Ret acc
  | tag :: tags =>
      r <- read_tag kind ver tag;
      let '(buf, ver) := r in
      decode_tags kind add tags ver (match buf with Some buf => add buf acc | None => acc end)
  end.

Definition decodeEndpoints (tags : list string) : outcome (list Endpoint) :=
  decode_tags "e" (fun buf en => match unmarshal_endpoint buf with Some e => en ++ [e] | None => en end) tags None [].

Definition decodeMetadata (tags : list string) : outcome (gmap string string) :=
  decode_tags "t" (fun buf md => match unmarshal_kv buf with Some kv => kv ∪ md | None => md end) tags None ∅.

Fixpoint decodeVersion (tags : list string) : string * bool :=
  match tags with
  | [] => ("", false)
  | String "v"%char (String "="%char s) :: _ => (s, true)
  | String "v"%char (String "-"%char s) :: _ => (bytes_str (decode s), true)
  | _ :: tags => decodeVersion tags
  end.
End Encoding.

(** ** What consul reports *)

Record AgentService := mkAgentService {
  as_ID : string; as_Service : string; as_Tags : list string; as_Meta : gmap string string;
  as_Port : Z; as_Address : string }.

(** [Checks] are the statuses of the health checks. *)
Record ServiceEntry := mkServiceEntry { e_Node_Address : string; e_Service : AgentService; e_Checks : list string }.

Definition consulServerIDKey : string := "server_id".
Definition consulStartedAtKey : string := "started_at".

Definition meta_get (k : string) (meta : gmap string string) : string := default "" (meta !! k).

Definition decodeStartedAt (meta : gmap string string) : Z :=
  let value := meta_get consulStartedAtKey meta in
  if decide (value = "") then 0 else
  match ParseInt value with
  | Some startedAt => if startedAt <? 0 then 0 else startedAt
  | None => 0
  end.

Section Registry.
Context (zlib_deflate : bytes -> bytes) (zlib_inflate : bytes -> option bytes)
        (marshal_endpoint : Endpoint -> option bytes) (unmarshal_endpoint : bytes -> option Endpoint)
        (marshal_kv : string -> string -> option bytes) (unmarshal_kv : bytes -> option (gmap string string)).

Abbreviation decodeEndpoints' := (decodeEndpoints zlib_inflate unmarshal_endpoint).
Abbreviation decodeMetadata' := (decodeMetadata zlib_inflate unmarshal_kv).
Abbreviation decodeVersion' := (decodeVersion zlib_inflate).

(** The body of the loop over the entries, in [GetService] and in the watcher:
    the services found so far by version. *)
Definition add_entry (serviceMap : gmap string Service) (e : ServiceEntry) : outcome (gmap string Service) :=
  let s := e_Service e in
  let version := fst (decodeVersion' (as_Tags s)) in
  let address := if decide (as_Address s = "") then e_Node_Address e else as_Address s in
  svc <- match serviceMap !! version with
         | Some svc => Ret svc
         | None => eps <- decodeEndpoints' (as_Tags s); Ret (mkService (as_Service s) version ∅ eps [])
         end;
  let serviceMap := <[version := svc]> serviceMap in
  if bool_decide ("critical" ∈ e_Checks e) then Ret serviceMap
  else
    md <- decodeMetadata' (as_Tags s);
    let node := mkNode (decodeStartedAt (as_Meta s)) (meta_get consulServerIDKey (as_Meta s)) (as_ID s)
                  address (as_Port s) (Some md) in
    let nodes := Nodes svc in
    Ret (<[version := svc <| Nodes := nodes ++ [node] |>]> serviceMap).

Fixpoint add_entries (es : list ServiceEntry) (serviceMap : gmap string Service) : outcome (gmap string Service) :=
  match es with
  | [] => Ret serviceMap
  | e :: es => m <- add_entry serviceMap e; add_entries es m
  end.

(** [GetService]: the services by version, to be listed in any order. *)
Definition GetService (name : string) (rsp : result string (list ServiceEntry)) : outcome (result string (gmap string Service)) :=
  match rsp with
  | Err e => Ret (Err e)
  | Ok rsp =>
      m <- add_entries (filter (fun e => as_Service (e_Service e) = name) rsp) ∅;
      Ret (Ok m)
  end.

(** ** Registering *)

Definition second : Z := 1000000000.
Definition minute : Z := 60 * second.

Definition getDeregisterTTL (t : Z) : Z :=
  let splay := 5 * second in
  if t <? minute then minute + splay else int64 (t + splay).

(** A TCP check or a TTL check, with the time after which a critical service is
    deregistered. *)
Inductive ServiceCheck :=
| TCPCheck (addr : string) (port interval dereg : Z)
| TTLCheck (ttl dereg : Z).

Record Registration := mkRegistration { asr_service : AgentService; asr_check : option ServiceCheck; asr_connect : bool }.

(** Calls on consul's agent. *)
Inductive consul_call :=
| ServiceRegister (r : Registration)
| ServiceDeregister (id : string)
| PassTTL (check : string).

Record consulRegistry := mkConsulRegistry { tcp_check : option Z; connect : bool; register : gmap string Z }.

#[export] Instance eta_consulRegistry : Eta consulRegistry := fun r => mkConsulRegistry (tcp_check r) (connect r) (register r).

Definition need_node : string := "require at least one node".

(** The registration of a service's first node. *)
Definition registration (c : consulRegistry) (ttl : Z) (s : Service) (node : Node) (md : list (string * string)) : Registration :=
  let tags := encodeMetadata zlib_deflate marshal_kv md ++ encodeEndpoints zlib_deflate marshal_endpoint (Endpoints s)
                ++ encodeVersion zlib_deflate (Version s) in
  let check := match tcp_check c with
               | Some interval => Some (TCPCheck (Address node) (Port node) interval (getDeregisterTTL interval))
               | None => if 0 <? ttl then Some (TTLCheck ttl (getDeregisterTTL ttl)) else None
               end in
  mkRegistration
    (mkAgentService (InstanceID node) (Name s) tags
       (<[consulServerIDKey := ServerID node]> {[ consulStartedAtKey := FormatInt (StartedAt node) ]})
       (Port node) (Address node))
    check (connect c).

(** Consul's agent is a state [W] of its own. *)
Context {W : Type} (agent : consul_call -> W -> W * option string)
        (hash : Service -> result string Z) (range_map : option (gmap string string) -> list (string * string)).

Definition service_check (id : string) : string := ("service:" ++ id)%string.

Definition full_register (ttl h : Z) (s : Service) (node : Node) (c : consulRegistry) (w : W) : consulRegistry * W * option string :=
  let '(w, err) := agent (ServiceRegister (registration c ttl s node (range_map (n_Metadata node)))) w in
  match err with
  | Some e => (c, w, Some e)
  | None =>
      let reg := register c in
      let c := c <| register := <[InstanceID node := h]> reg |> in
      if ttl =? 0 then (c, w, None)
      else let '(w, err) := agent (PassTTL (service_check (InstanceID node))) w in (c, w, err)
  end.

Definition Register (ttl : Z) (s : Service) (c : consulRegistry) (w : W) : consulRegistry * W * option string :=
  match Nodes s with
  | [] => (c, w, Some need_node)
  | node :: _ =>
      match hash s with
      | Err e => (c, w, Some e)
      | Ok h =>
          if bool_decide (register c !! InstanceID node = Some h) then
            let '(w, err) := agent (PassTTL (service_check (InstanceID node))) w in
            match err with
            | None => (c, w, None)
            | Some _ => full_register ttl h s node c w
            end
          else full_register ttl h s node c w
      end
  end.

Definition Deregister (s : Service) (c : consulRegistry) (w : W) : consulRegistry * W * option string :=
  match Nodes s with
  | [] => (c, w, Some need_node)
  | node :: _ =>
      let reg := register c in
      let c := c <| register := delete (InstanceID node) reg |> in
      let '(w, err) := agent (ServiceDeregister (InstanceID node)) w in
      (c, w, err)
  end.
End Registry.
