(* ===== verification/ConsulTheorems.v ===== *)
(** * The round trip of a service through consul *)
From Stdlib Require Import Strings.Ascii.
From S2P Require Import Prelude Registry Consul.
#[local] Open Scope mq_scope.
#[local] Open Scope string_scope.
#[local] Open Scope list_scope.
#[local] Open Scope Z_scope.

(** ** Text forms *)

Lemma from_hex_digit n : 0 <= n < 16 -> from_hex (hex_digit n) = Some n.
Proof.
  intros Hn.
  pose proof (Zrange_forallb (fun n => bool_decide (from_hex (hex_digit n) = Some n)) 16 eq_refl n Hn) as H.
  by apply bool_decide_eq_true in H.
Qed.

Lemma nibbles b : zb (Z.lor (Z.shiftl (Z.shiftr (bz b) 4) 4) (Z.land (bz b) 15)) = b.
Proof. by destruct b. Qed.

Lemma hex_roundtrip bs : hex_DecodeString (hex_EncodeToString bs) = Some bs.
Proof.
  induction bs as [|b bs IH]; [done|]. cbn [hex_EncodeToString hex_DecodeString]. pose proof (bz_range b).
  assert (0 <= Z.shiftr (bz b) 4 < 16).
  { rewrite Z.shiftr_div_pow2 by lia. change (2 ^ 4) with 16. split; [apply Z.div_pos; lia | apply Z.div_lt_upper_bound; lia]. }
  assert (0 <= Z.land (bz b) 15 < 16) by (change 15 with (Z.ones 4); rewrite Z.land_ones by lia; apply Z.mod_pos_bound; lia).
  rewrite !from_hex_digit, IH by done. cbn. by rewrite nibbles.
Qed.

Lemma str_bytes_str s : str_bytes (bytes_str s) = s.
Proof. apply String.list_byte_of_string_of_list_byte. Qed.

Lemma bytes_str_bytes s : bytes_str (str_bytes s) = s.
Proof. apply String.string_of_list_byte_of_string. Qed.

(** ** Tags *)

Section RoundTrip.
Context (zlib_deflate : bytes -> bytes) (zlib_inflate : bytes -> option bytes)
        (marshal_endpoint : Endpoint -> option bytes) (unmarshal_endpoint : bytes -> option Endpoint)
        (marshal_kv : string -> string -> option bytes) (unmarshal_kv : bytes -> option (gmap string string))
        (inflate_deflate : forall b, zlib_inflate (zlib_deflate b) = Some b).

Abbreviation enc := (encode zlib_deflate).

Lemma decode_encode b : decode zlib_inflate (enc b) = b.
Proof. unfold decode, encode. by rewrite str_bytes_str, hex_roundtrip, inflate_deflate. Qed.

(** A tag in the hex form. *)
Definition hex_tag (kind : ascii) (b : bytes) : string := String kind (String "-" (enc b)).

Lemma read_hex_tag kind ver b : ver = None \/ ver = Some "-"%char ->
  read_tag zlib_inflate kind ver (hex_tag kind b) = Ret (Some b, Some "-"%char).
Proof.
  intros Hv. unfold read_tag, hex_tag. rewrite decide_True by done.
  rewrite bool_decide_eq_false_2 by (intros [[x Hx] Hne]; destruct Hv; congruence).
  rewrite decide_False, decide_True, decide_False, decode_encode by done. done.
Qed.

Lemma decode_hex_tags {A} kind (add : bytes -> A -> A) bufs rest : forall ver acc,
  ver = None \/ ver = Some "-"%char -> exists ver', (ver' = None \/ ver' = Some "-"%char) /\
  decode_tags zlib_inflate kind add ((hex_tag kind <$> bufs) ++ rest) ver acc =
  decode_tags zlib_inflate kind add rest ver' (foldl (fun a b => add b a) acc bufs).
Proof.
  induction bufs as [|b bufs IH]; intros ver acc Hv; [by exists ver|].
  cbn [fmap list_fmap app decode_tags]. rewrite read_hex_tag by done. cbn [outcome_bind]. apply IH. by right.
Qed.

Lemma decode_other_tags {A} kind k (add : bytes -> A -> A) bufs rest ver acc : k <> kind ->
  decode_tags zlib_inflate kind add ((hex_tag k <$> bufs) ++ rest) ver acc =
  decode_tags zlib_inflate kind add rest ver acc.
Proof.
  intros Hk. induction bufs as [|b bufs IH]; [done|]. cbn [fmap list_fmap app decode_tags].
  unfold read_tag at 1, hex_tag. rewrite decide_False by done. cbn [outcome_bind]. exact IH.
Qed.

Lemma encode_kind {A} kind (f : A -> option bytes) (l : list A) :
  omap (fun x => b ← f x; Some (hex_tag kind b)) l = hex_tag kind <$> omap f l.
Proof. induction l as [|x l IH]; [done|]. cbn. destruct (f x); cbn; by rewrite IH. Qed.

(** The tags [Register] makes of what can be marshalled. *)
Definition all_tags (mds eps : list bytes) (v : string) : list string :=
  (hex_tag "t" <$> mds) ++ (hex_tag "e" <$> eps) ++ [hex_tag "v" (str_bytes v)].

Lemma tags_eq md en v :
  encodeMetadata zlib_deflate marshal_kv md ++ encodeEndpoints zlib_deflate marshal_endpoint en ++ encodeVersion zlib_deflate v =
  all_tags (omap (fun kv => marshal_kv kv.1 kv.2) md) (omap marshal_endpoint en) v.
Proof.
  unfold all_tags. f_equal; [|f_equal]; [|by rewrite <- encode_kind].
  rewrite <- encode_kind. unfold encodeMetadata. induction md as [|[k x] md IH]; [done|]. cbn. destruct (marshal_kv k x); cbn; by rewrite IH.
Qed.

Lemma decodeVersion_tags mds eps v : fst (decodeVersion zlib_inflate (all_tags mds eps v)) = v.
Proof.
  unfold all_tags. induction mds as [|b mds IH]; [|exact IH]. cbn [fmap list_fmap app].
  induction eps as [|b eps IH]; [|exact IH]. cbn. by rewrite decode_encode, bytes_str_bytes.
Qed.

Lemma decodeEndpoints_tags mds eps v :
  decodeEndpoints zlib_inflate unmarshal_endpoint (all_tags mds eps v) = Ret (omap unmarshal_endpoint eps).
Proof.
  unfold decodeEndpoints, all_tags. rewrite decode_other_tags by done.
  destruct (decode_hex_tags "e" (fun buf en => match unmarshal_endpoint buf with Some e => en ++ [e] | None => en end)
              eps [hex_tag "v" (str_bytes v)] None []) as (ver' & _ & E); [by left|]. rewrite E.
  change [hex_tag "v" (str_bytes v)] with ((hex_tag "v" <$> [str_bytes v]) ++ []). rewrite decode_other_tags by done.
  cbn [decode_tags]. f_equal. clear E.
  enough (Hacc : forall acc, foldl (fun en buf => match unmarshal_endpoint buf with Some e => en ++ [e] | None => en end)
            acc eps = acc ++ omap unmarshal_endpoint eps) by apply Hacc.
  induction eps as [|b eps IH]; intros acc; cbn; [by rewrite app_nil_r|].
  rewrite IH. by destruct (unmarshal_endpoint b) as [e|]; [rewrite <- app_assoc|].
Qed.

(** The metadata read from the encodings of its entries, one entry each. *)
Definition read_entries (bufs : list bytes) : gmap string string :=
  foldl (fun md buf => match unmarshal_kv buf with Some kv => kv ∪ md | None => md end) ∅ bufs.

Lemma decodeMetadata_tags mds eps v : decodeMetadata zlib_inflate unmarshal_kv (all_tags mds eps v) = Ret (read_entries mds).
Proof.
  unfold decodeMetadata, all_tags, read_entries.
  destruct (decode_hex_tags "t" (fun buf md => match unmarshal_kv buf with Some kv => kv ∪ md | None => md end)
              mds ((hex_tag "e" <$> eps) ++ [hex_tag "v" (str_bytes v)]) None ∅) as (ver' & _ & E); [by left|].
  rewrite E. clear E. rewrite decode_other_tags by done.
  change [hex_tag "v" (str_bytes v)] with ((hex_tag "v" <$> [str_bytes v]) ++ []). by rewrite decode_other_tags.
Qed.

(** JSON carries an entry of the metadata, an endpoint. *)
Definition carries_kv (kv : string * string) : Prop := exists b, marshal_kv kv.1 kv.2 = Some b /\ unmarshal_kv b = Some {[ kv.1 := kv.2 ]}.
Definition carries_endpoint (e : Endpoint) : Prop := exists b, marshal_endpoint e = Some b /\ unmarshal_endpoint b = Some e.

Lemma read_carried_entries md : NoDup md.*1 -> Forall carries_kv md ->
  read_entries (omap (fun kv => marshal_kv kv.1 kv.2) md) = list_to_map md.
Proof.
  intros Hnd Hm. unfold read_entries. rewrite <- (right_id_L ∅ (∪) (list_to_map md)).
  assert (Hd : (list_to_map md : gmap string string) ##ₘ ∅) by apply map_disjoint_empty_r. revert Hd.
  generalize (∅ : gmap string string) as acc.
  revert Hnd. induction Hm as [|[k x] md (b & Hb1 & Hb2) _ IH]; intros Hnd acc Hd; cbn in Hnd, Hd |- *; [by rewrite (left_id_L ∅ (∪))|]. cbn [fst snd] in Hb1, Hb2.
  apply NoDup_cons in Hnd as [Hk Hnd]. rewrite Hb1. cbn [foldl]. rewrite Hb2.
  assert (Hka : acc !! k = None) by (eapply map_disjoint_Some_l; [exact Hd | apply lookup_insert_eq]).
  assert (Hkm : (list_to_map md : gmap string string) !! k = None) by (by apply not_elem_of_list_to_map_1).
  rewrite IH; [|done|].
  - rewrite <- insert_union_singleton_l, <- insert_union_l, insert_union_r by done. done.
  - rewrite <- insert_union_singleton_l. apply map_disjoint_insert_r. split; [done|].
    eapply map_disjoint_weaken_l; [exact Hd|]. by apply insert_subseteq.
Qed.

Lemma read_carried_endpoints en : Forall carries_endpoint en -> omap unmarshal_endpoint (omap marshal_endpoint en) = en.
Proof. induction 1 as [|e en (b & Hb1 & Hb2) _ IH]; [done|]. cbn. rewrite Hb1. cbn. by rewrite Hb2, IH. Qed.

(** ** Discovery *)

(** An instance as it was registered, and what consul says of it: its own address
    and the statuses of its checks. *)
Record instance := mkInstance {
  in_service : Service; in_node : Node; in_md : list (string * string); in_consul : string; in_checks : list string }.

(** The start time is an int64, and [in_md] the metadata as [Register] ranges over it. *)
Record well_typed (it : instance) : Prop := {
  wt_started : - 2 ^ 63 <= StartedAt (in_node it) < 2 ^ 63;
  wt_metadata : in_md it ≡ₚ map_to_list (default ∅ (n_Metadata (in_node it))) }.

(** The node and the endpoints a registration is listed with: the address of consul's own
    node for an empty one, no start time for one before 1970, and what JSON reads. *)
Definition listed (it : instance) : Node :=
  let n := in_node it in
  mkNode (Z.max 0 (StartedAt n)) (ServerID n) (InstanceID n) (if decide (Address n = "") then in_consul it else Address n) (Port n)
    (Some (read_entries (omap (fun kv => marshal_kv kv.1 kv.2) (in_md it)))).
Definition listed_endpoints (it : instance) : list Endpoint :=
  omap unmarshal_endpoint (omap marshal_endpoint (Endpoints (in_service it))).

(** A registration that loses nothing. *)
Record complete (it : instance) : Prop := {
  cp_started : 0 <= StartedAt (in_node it);
  cp_address : Address (in_node it) <> "";
  cp_metadata : is_Some (n_Metadata (in_node it));
  cp_kv : Forall carries_kv (in_md it);
  cp_endpoints : Forall carries_endpoint (Endpoints (in_service it)) }.

Lemma listed_complete it : well_typed it -> complete it -> listed it = in_node it /\ listed_endpoints it = Endpoints (in_service it).
Proof.
  intros [_ Hmd] [Hst Had [md Emd] Hkv Hep]. split; [|by apply read_carried_endpoints].
  rewrite Emd in Hmd. cbn in Hmd.
  assert (NoDup (in_md it).*1) as Hnd by (rewrite Hmd; apply NoDup_fst_map_to_list).
  unfold listed. rewrite read_carried_entries, decide_False, Z.max_r by done.
  assert ((list_to_map (in_md it) : gmap string string) = md) as ->.
  { rewrite <- (list_to_map_to_list md). apply list_to_map_proper; [done|]. exact Hmd. }
  rewrite <- Emd. by destruct (in_node it).
Qed.

Definition entry_of (c : consulRegistry) (ttl : Z) (it : instance) : ServiceEntry :=
  mkServiceEntry (in_consul it)
    (asr_service (registration zlib_deflate marshal_endpoint marshal_kv c ttl (in_service it) (in_node it) (in_md it)))
    (in_checks it).

Definition live (it : instance) : Prop := "critical" ∉ in_checks it.

(** The nodes of the instances that are not critical. *)
Definition live_nodes (its : list instance) : list Node := listed <$> filter live its.

Definition of_version (v : string) (its : list instance) : list instance :=
  filter (fun it => Version (in_service it) = v) its.

(** The service the instances of one version are discovered as. *)
Definition discovered (s : option Service) (v : string) (its : list instance) : option Service :=
  match s, its with
  | Some s, _ => Some (s <| Nodes := Nodes s ++ live_nodes its |>)
  | None, it :: _ => Some (mkService (Name (in_service it)) v ∅ (listed_endpoints it) (live_nodes its))
  | None, [] => None
  end.

Abbreviation add_entry' := (add_entry zlib_inflate unmarshal_endpoint unmarshal_kv).
Abbreviation add_entries' := (add_entries zlib_inflate unmarshal_endpoint unmarshal_kv).

Lemma decodeStartedAt_registered (sid : string) t : - 2 ^ 63 <= t < 2 ^ 63 ->
  decodeStartedAt (<[consulServerIDKey := sid]> {[consulStartedAtKey := FormatInt t]}) = Z.max 0 t.
Proof.
  intros Ht. unfold decodeStartedAt, meta_get. rewrite lookup_insert_ne, lookup_singleton_eq by done. cbn [from_option id].
  unfold id. rewrite ParseInt_FormatInt, decide_False by (done || intros E; assert (Hp : ParseInt (FormatInt t) = Some t) by (by apply ParseInt_FormatInt);
    by rewrite E in Hp). destruct (Z.ltb_spec t 0); lia.
Qed.

Lemma add_entry_registered c ttl it m : well_typed it ->
  exists m', add_entry' m (entry_of c ttl it) = Ret m' /\
    forall v, m' !! v = if decide (v = Version (in_service it)) then discovered (m !! v) v [it] else m !! v.
Proof.
  intros [Hst _]. set (v := Version (in_service it)). unfold add_entry, entry_of, registration.
  cbn [e_Service e_Node_Address e_Checks asr_service as_Tags as_Address as_Service as_Meta as_ID as_Port].
  rewrite tags_eq. fold v. rewrite decodeVersion_tags, decodeEndpoints_tags, decodeMetadata_tags, decodeStartedAt_registered by done.
  fold (listed_endpoints it).
  set (svc := default (mkService (Name (in_service it)) v ∅ (listed_endpoints it) []) (m !! v)).
  assert (Esvc : (match m !! v with Some svc => Ret svc | None =>
             x <- Ret (listed_endpoints it); Ret (mkService (Name (in_service it)) v ∅ x []) end) = Ret svc)
    by (unfold svc; by destruct (m !! v)).
  rewrite Esvc. cbn [outcome_bind]. unfold meta_get at 1. rewrite lookup_insert_eq. cbn [from_option id]. unfold id.
  unfold discovered, live_nodes. destruct (bool_decide ("critical" ∈ in_checks it)) eqn:Ec.
  - apply bool_decide_eq_true in Ec. eexists. split; [done|]. intros v'. destruct (decide (v' = v)) as [->|Hv].
    + rewrite lookup_insert_eq, filter_cons_False by (unfold live; tauto). unfold svc.
      destruct (m !! v) as [[]|]; [|done]. cbn. by rewrite app_nil_r.
    + by rewrite lookup_insert_ne.
  - apply bool_decide_eq_false in Ec. eexists. split; [done|]. intros v'. destruct (decide (v' = v)) as [->|Hv].
    + rewrite lookup_insert_eq, filter_cons_True by done. unfold svc. by destruct (m !! v) as [[]|].
    + by rewrite !lookup_insert_ne by done.
Qed.

Lemma discovered_cons s v it its : discovered s v (it :: its) = discovered (discovered s v [it]) v its.
Proof.
  assert (Hl : live_nodes (it :: its) = live_nodes [it] ++ live_nodes its).
  { unfold live_nodes. change (it :: its) with ([it] ++ its). by rewrite filter_app, fmap_app. }
  unfold discovered. rewrite Hl. destruct s as [s|]; [|done]. f_equal.
  change (s <| Nodes := Nodes s ++ (live_nodes [it] ++ live_nodes its) |> =
          s <| Nodes := (Nodes s ++ live_nodes [it]) ++ live_nodes its |>). by rewrite app_assoc.
Qed.

Lemma add_entries_registered c ttl its : forall m, Forall well_typed its ->
  exists m', add_entries' (entry_of c ttl <$> its) m = Ret m' /\
    forall v, m' !! v = match of_version v its with [] => m !! v | l => discovered (m !! v) v l end.
Proof.
  induction its as [|it its IH]; intros m Hr; [by exists m|]. apply Forall_cons in Hr as [Hit Hr].
  destruct (add_entry_registered c ttl it m Hit) as (m1 & E1 & H1). cbn [fmap list_fmap add_entries].
  rewrite E1. cbn [outcome_bind]. destruct (IH m1 Hr) as (m2 & E2 & H2). exists m2. split; [done|].
  intros v. rewrite H2, H1. unfold of_version. destruct (decide (v = Version (in_service it))) as [->|Hv].
  - rewrite filter_cons_True by done. destruct (filter _ its) eqn:Ef; [done|]. by rewrite (discovered_cons _ _ it (_ :: _)).
  - by rewrite filter_cons_False by congruence.
Qed.

(** C24. What is registered is discovered.  For any list of instances registered
    under consul, [GetService] of a name returns, for each version, one service
    with the name, the version and the endpoints of the first instance, whose
    nodes are exactly those registered with that name and version and not in a
    critical state, in consul's order; a version nobody registered is not listed.  A node
    comes back with its identity and port, its address (consul's own node's if it has none),
    its start time (0 for a negative one) and its metadata as JSON reads it (empty for
    none): unchanged, as are the endpoints, when it has an address, a start time that is
    one and metadata, and JSON carries each entry and endpoint. *)
Theorem registrations_are_discovered (c : consulRegistry) (ttl : Z) (name : string) (its : list instance)
  (Hr : Forall well_typed its) :
  exists m, GetService zlib_inflate unmarshal_endpoint unmarshal_kv name (Ok (entry_of c ttl <$> its)) = Ret (Ok m) /\
    (forall v, m !! v = discovered None v (filter (fun it => Name (in_service it) = name /\ Version (in_service it) = v) its)) /\
    forall it, it ∈ its -> complete it -> listed it = in_node it /\ listed_endpoints it = Endpoints (in_service it).
Proof.
  set (mine := filter (fun it => Name (in_service it) = name) its).
  destruct (add_entries_registered c ttl mine ∅) as (m & E & Hm).
  { apply Forall_forall. intros x [_ Hx]%list_elem_of_filter. rewrite Forall_forall in Hr. by apply Hr. }
  exists m. split_and!; [| |intros it Hit; apply listed_complete; by eapply Forall_forall in Hr].
  - unfold GetService. rewrite list_filter_fmap. change (filter (fun x => as_Service (e_Service (entry_of c ttl x)) = name) its) with mine.
    by rewrite E.
  - intros v. rewrite Hm, lookup_empty. unfold of_version, mine.
    assert (Ef : filter (fun it => Version (in_service it) = v) (filter (fun it => Name (in_service it) = name) its) =
              filter (fun it => Name (in_service it) = name /\ Version (in_service it) = v) its).
    { rewrite list_filter_filter. apply list_filter_iff. tauto. }
    rewrite Ef. by destruct (filter (fun it => _ /\ _) its).
Qed.
End RoundTrip.

(** ** A sample codec: no compression, endpoints by name, metadata with a length *)

Definition plain_endpoint (e : Endpoint) : option bytes :=
  match e with
  | mkEndpoint n None None md => if decide (md = ∅) then Some (str_bytes n) else None
  | _ => None
  end.
Definition read_endpoint (b : bytes) : option Endpoint := Some (mkEndpoint (bytes_str b) None None ∅).

Definition plain_kv (k v : string) : option bytes :=
  if decide (zlen (str_bytes k) < 256) then Some (zb (zlen (str_bytes k)) :: str_bytes k ++ str_bytes v) else None.
Definition read_kv (b : bytes) : option (gmap string string) :=
  match b with
  | [] => None
  | n :: b => Some {[ bytes_str (take (Z.to_nat (bz n)) b) := bytes_str (drop (Z.to_nat (bz n)) b) ]}
  end.

Definition sample_instance (id : string) (started : Z) (addr : string) (checks : list string) : instance :=
  let node := mkNode started "chat@1" id addr 80 (Some (list_to_map [("zone", "a")])) in
  mkInstance (mkService "chat" "1" ∅ [mkEndpoint "HD_say" None None ∅] [node]) node [("zone", "a")] "10.0.0.9" checks.

(** One that is complete, one in a critical state, one without an address or a start time. *)
Definition sample_instances : list instance :=
  [sample_instance "a" 5 "10.0.0.1" ["passing"]; sample_instance "b" 5 "10.0.0.1" ["critical"]; sample_instance "c" (-1) "" []].

Abbreviation sample_nodes := (live_nodes plain_kv read_kv sample_instances).

Lemma registrations_are_discovered_witness :
  sample_nodes = [in_node (sample_instance "a" 5 "10.0.0.1" []); mkNode 0 "chat@1" "c" "10.0.0.9" 80 (Some (list_to_map [("zone", "a")]))] /\
  exists m, GetService (fun b => Some b) read_endpoint read_kv "chat"
              (Ok (entry_of id plain_endpoint plain_kv (mkConsulRegistry None false ∅) 60 <$> sample_instances)) = Ret (Ok m) /\
    m !! "1" = Some (mkService "chat" "1" ∅ [mkEndpoint "HD_say" None None ∅] sample_nodes) /\ m !! "2" = None.
Proof.
  split; [vm_compute; reflexivity|].
  destruct (registrations_are_discovered id (fun b => Some b) plain_endpoint read_endpoint plain_kv read_kv
           (fun b => eq_refl) (mkConsulRegistry None false ∅) 60 "chat" sample_instances) as (m & Hm & Hv & _).
  - unfold sample_instances. rewrite !Forall_cons. split_and!; try done; (split; [cbn; lia | vm_compute; reflexivity]).
  - exists m. split; [exact Hm|]. split; rewrite Hv; vm_compute; reflexivity.
Defined.
