(* ===== verification/ConsulWatcher.v ===== *)
(** * The consul watcher

    [consulWatcher] of [registry/consul_watcher.go]: what consul reports about
    one service ([serviceHandler]) or about the list of services ([handle])
    becomes events for [Next].  Services are shared by pointer between the
    watcher's table and the events, so they live in a store: an event names its
    service, and [sent] keeps what the service was when the event was sent. *)
From S2P Require Import Prelude Registry Selector Consul.
#[local] Open Scope mq_scope.
#[local] Open Scope string_scope.
#[local] Open Scope list_scope.
#[local] Open Scope Z_scope.

(** A pointer to a service: its place in the store. *)
Abbreviation sptr := nat.

Record event := mkEvent { ev_Action : string; ev_Service : sptr; ev_sent : Service }.

Record consulWatcher := mkConsulWatcher {
  store : list Service; w_services : gmap string (list sptr); watchers : gset string;
  next : list event; exit : bool; wo_Service : string }.

#[export] Instance eta_consulWatcher : Eta consulWatcher := fun r =>
  mkConsulWatcher (store r) (w_services r) (watchers r) (next r) (exit r) (wo_Service r).

Definition newConsulWatcher (wo : string) : consulWatcher := mkConsulWatcher [] ∅ ∅ [] false wo.

(** ** Store *)

Definition no_service : Service := mkService "" "" ∅ [] [].

Definition deref (w : consulWatcher) (p : sptr) : Service := default no_service (store w !! p).

Definition new_ptr (s : Service) (w : consulWatcher) : sptr * consulWatcher :=
  let st := store w in (length st, w <| store := st ++ [s] |>).

(** [cw.next <- &Result{action, p}] *)
Definition send (action : string) (p : sptr) (w : consulWatcher) : consulWatcher :=
  let e := mkEvent action p (deref w p) in
  let n := next w in w <| next := n ++ [e] |>.

(** [p.Nodes = nodes] *)
Definition set_nodes (p : sptr) (nodes : list Node) (w : consulWatcher) : consulWatcher :=
  let s := deref w p in
  let st := store w in w <| store := <[p := s <| Nodes := nodes |>]> st |>.

(** ** [serviceHandler] *)

(** The old nodes that are not among the new ones. *)
Definition dead_nodes (old new : Service) : list Node := filter (fun n => negb (seen (Nodes new) n)) (Nodes old).

(** The loop over the old services of the name: the action for the new one, and
    a "delete" for the nodes of the same version that are gone. *)
Fixpoint compare_old (olds : list sptr) (new : Service) (action : string) (w : consulWatcher) : string * consulWatcher :=
  match olds with
  | [] => (action, w)
  | p :: olds =>
      let old := deref w p in
      if decide (Version old <> Version new) then compare_old olds new action w
      else
        let nodes := dead_nodes old new in
        let w := if 0 <? zlen nodes then send "delete" p (set_nodes p nodes w) else w in
        compare_old olds new "update" w
  end.

(** One new service: its events, and its pointer for the new table. *)
Definition one_service (olds : option (list sptr)) (new : Service) (w : consulWatcher) : sptr * consulWatcher :=
  let '(p, w) := new_ptr new w in
  match olds with
  | None => (p, send "create" p w)
  | Some olds =>
      let '(action, w) := compare_old olds new "create" w in
      (p, send action p w)
  end.

Fixpoint new_services (olds : option (list sptr)) (news : list Service) (w : consulWatcher) : list sptr * consulWatcher :=
  match news with
  | [] => ([], w)
  | new :: news =>
      let '(p, w) := one_service olds new w in
      let '(ps, w) := new_services olds news w in
      (p :: ps, w)
  end.

(** The old versions that are not among the new ones. *)
Fixpoint drop_versions (serviceMap : gmap string Service) (olds : list sptr) (w : consulWatcher) : consulWatcher :=
  match olds with
  | [] => w
  | p :: olds =>
      let w := match serviceMap !! Version (deref w p) with None => send "delete" p w | Some _ => w end in
      drop_versions serviceMap olds w
  end.

Section Watcher.
Context (zlib_inflate : bytes -> option bytes) (unmarshal_endpoint : bytes -> option Endpoint)
        (unmarshal_kv : bytes -> option (gmap string string))
        (range_services : gmap string Service -> list Service).

(** [data] is [None] when it is not a list of entries; the map of new services is
    ranged over in an order of the runtime's. *)
Definition serviceHandler (data : option (list ServiceEntry)) (w : consulWatcher) : outcome consulWatcher :=
  match data with
  | None => Ret w
  | Some entries =>
      serviceMap <- add_entries zlib_inflate unmarshal_endpoint unmarshal_kv entries ∅;
      let serviceName := match last entries with Some e => as_Service (e_Service e) | None => "" end in
      let olds := w_services w !! serviceName in
      let '(newServices, w) := new_services olds (range_services serviceMap) w in
      let w := drop_versions serviceMap (default [] olds) w in
      let ss := w_services w in
      Ret (w <| w_services := <[serviceName := newServices]> ss |>)
  end.

(** ** [handle] *)

Definition named (name : string) : Service := mkService name "" ∅ [] [].

(** [parse_ok] is the outcome of [watch.Parse]. *)
Definition add_watcher (parse_ok : string -> bool) (service : string) (w : consulWatcher) : consulWatcher :=
  if negb (bool_decide (wo_Service w = "")) && negb (bool_decide (service = wo_Service w)) then w
  else if decide (service ∈ watchers w) then w
  else if parse_ok service then
    let ws := watchers w in
    let '(p, w) := new_ptr (named service) (w <| watchers := {[ service ]} ∪ ws |>) in
    send "create" p w
  else w.

Definition forget_services (services : list string) (w : consulWatcher) : consulWatcher :=
  let ss := w_services w in w <| w_services := filter (fun kv => kv.1 ∈ services) ss |>.

Definition drop_watcher (services : list string) (service : string) (w : consulWatcher) : consulWatcher :=
  if decide (service ∈ services) then w
  else
    let ws := watchers w in
    let '(p, w) := new_ptr (named service) (w <| watchers := ws ∖ {[ service ]} |>) in
    send "delete" p w.

(** [data] is [None] when it is not a map of services; otherwise the names consul
    lists, in the order the map is ranged over. *)
Definition handle (parse_ok : string -> bool) (data : option (list string)) (w : consulWatcher) : consulWatcher :=
  match data with
  | None => w
  | Some services =>
      let w := foldl (fun w service => add_watcher parse_ok service w) w services in
      let w := forget_services services w in
      foldl (fun w service => drop_watcher services service w) w (elements (watchers w))
  end.
End Watcher.

(** ** [Next] and [Stop] *)

(** When both are ready [select] takes either. *)
Inductive Next_result := NextClosed | NextEvent (action : string) (s : Service) | NextWaits.

Definition Next (take_exit : bool) (w : consulWatcher) : Next_result * consulWatcher :=
  match next w with
  | e :: rest =>
      if exit w && take_exit then (NextClosed, w)
      else (NextEvent (ev_Action e) (deref w (ev_Service e)), w <| next := rest |>)
  | [] => (if exit w then NextClosed else NextWaits, w)
  end.

Definition Stop (w : consulWatcher) : consulWatcher :=
  if exit w then w else w <| exit := true |> <| next := [] |>.
