(* ===== verification/ConsulWatcherTheorems.v ===== *)
(** * Theorems on the consul watcher

    The events a report causes, as a function of the old and the new services, and
    the cache of the selector driven by them. *)
From S2P Require Import Prelude Registry Selector SelectorTheorems Consul ConsulWatcher.
#[local] Open Scope mq_scope.
#[local] Open Scope string_scope.
#[local] Open Scope list_scope.
#[local] Open Scope Z_scope.

(** ** The store *)

Lemma deref_new s w q : (q < length (store w))%nat -> deref (snd (new_ptr s w)) q = deref w q.
Proof. intros Hq. unfold deref. cbn. by rewrite lookup_app_l. Qed.

Lemma deref_new_eq s w : deref (snd (new_ptr s w)) (length (store w)) = s.
Proof. unfold deref. cbn. by rewrite lookup_app_r, Nat.sub_diag. Qed.

Lemma deref_send a p w q : deref (send a p w) q = deref w q.
Proof. done. Qed.

Lemma deref_set_nodes p ns w q : q <> p -> deref (set_nodes p ns w) q = deref w q.
Proof. intros Hq. unfold deref. cbn. by rewrite list_lookup_insert_ne. Qed.

Lemma deref_set_nodes_eq p ns w : (p < length (store w))%nat ->
  deref (set_nodes p ns w) p = deref w p <| Nodes := ns |>.
Proof. intros Hp. unfold deref at 1. cbn. by rewrite list_lookup_insert_eq. Qed.

(** ** The events of a report *)

Definition sents (w : consulWatcher) : list (string * Service) := (fun e => (ev_Action e, ev_sent e)) <$> next w.

Definition old_version (v : string) (olds : list Service) : option Service := head (filter (fun s => Version s = v) olds).

Definition delete_event (old new : Service) : list (string * Service) :=
  if decide (dead_nodes old new = []) then [] else [("delete", old <| Nodes := dead_nodes old new |>)].

(** What is sent for one new service, given the services known of its name. *)
Definition events_for (olds : option (list Service)) (new : Service) : list (string * Service) :=
  match olds ≫= old_version (Version new) with
  | Some old => delete_event old new ++ [("update", new)]
  | None => [("create", new)]
  end.

Definition dropped (serviceMap : gmap string Service) (olds : list Service) : list Service :=
  filter (fun s => serviceMap !! Version s = None) olds.

Definition report_events (olds : option (list Service)) (serviceMap : gmap string Service) (news : list Service) :
    list (string * Service) :=
  mjoin (events_for olds <$> news) ++ (pair "delete" <$> dropped serviceMap (default [] olds)).

Lemma sents_send a p w : sents (send a p w) = sents w ++ [(a, deref w p)].
Proof. unfold sents. cbn. by rewrite fmap_app. Qed.

Lemma old_version_cons s olds v :
  old_version v (s :: olds) = if decide (Version s = v) then Some s else old_version v olds.
Proof.
  unfold old_version. destruct (decide (Version s = v)).
  - by rewrite filter_cons_True.
  - by rewrite filter_cons_False.
Qed.

Lemma old_version_None v olds : Forall (fun s => Version s <> v) olds -> old_version v olds = None.
Proof. induction 1 as [|s olds Hs _ IH]; [done|]. rewrite old_version_cons. by rewrite decide_False. Qed.

Lemma old_version_Some v olds old : old_version v olds = Some old -> Version old = v /\ old ∈ olds.
Proof.
  induction olds as [|s olds IH]; [done|]. rewrite old_version_cons. destruct (decide (Version s = v)).
  - intros [= ->]. split; [done | left].
  - intros Ho. destruct (IH Ho). split; [done | by right].
Qed.

(** Pointers [ps] to the services [olds], but for the nodes of those whose
    version satisfies [D]. *)
Definition points (D : string -> Prop) (w : consulWatcher) (ps : list sptr) (olds : list Service) : Prop :=
  Forall2 (fun p s => (p < length (store w))%nat /\ Version (deref w p) = Version s /\
             (~ D (Version s) -> deref w p = s)) ps olds.

Lemma points_versions D w ps olds v : points D w ps olds -> Forall (fun s => Version s <> v) olds ->
  Forall (fun p => Version (deref w p) <> v) ps.
Proof.
  induction 1 as [|p s ps olds (_ & E & _) _ IH]; [constructor|]. intros [Hs Hf]%Forall_cons.
  constructor; [by rewrite E | by apply IH].
Qed.

Lemma compare_old_skip new ps : forall action w, Forall (fun p => Version (deref w p) <> Version new) ps ->
  compare_old ps new action w = (action, w).
Proof.
  induction ps as [|p ps IH]; intros action w Hf; [done|]. apply Forall_cons in Hf as [Hp Hf].
  cbn. rewrite decide_True by done. by apply IH.
Qed.

Lemma compare_old_spec D new ps olds w : points D w ps olds -> NoDup (Version <$> olds) -> NoDup ps -> ~ D (Version new) ->
  let r := compare_old ps new "create" w in
  match old_version (Version new) olds with
  | None => r = ("create", w)
  | Some old => fst r = "update" /\ exists p, p ∈ ps /\ (p < length (store w))%nat /\ deref w p = old /\
      snd r = if decide (dead_nodes old new = []) then w else send "delete" p (set_nodes p (dead_nodes old new) w)
  end.
Proof.
  intros Hps Hnd Hndp HD. revert Hnd Hndp.
  induction Hps as [|p s ps olds (Hlt & Ev & Es) Hps IH]; intros Hnd Hndp; [done|].
  apply NoDup_cons in Hnd as [Hs Hnd]. apply NoDup_cons in Hndp as [Hp Hndp]. cbn zeta.
  rewrite old_version_cons. cbn [compare_old]. destruct (decide (Version s = Version new)) as [E|E].
  - rewrite decide_False by (rewrite Ev; tauto). rewrite E in Es. specialize (Es HD). rewrite Es.
    assert (Hrest : Forall (fun s' => Version s' <> Version new) olds).
    { apply Forall_forall. intros s' Hs' E'. apply Hs. rewrite E, <- E'. by apply list_elem_of_fmap_2. }
    pose proof (points_versions _ _ _ _ _ Hps Hrest) as Hskip.
    destruct (decide (dead_nodes s new = [])) as [Hd|Hd].
    + rewrite Hd. cbn. rewrite compare_old_skip by done. split; [done|]. exists p. split_and!; [left|done..].
    + rewrite (proj2 (zlen_pos _)) by done. rewrite compare_old_skip.
      * split; [done|]. exists p. split_and!; [left|done..].
      * rewrite Forall_forall in Hskip |- *. intros q Hq. rewrite deref_send, deref_set_nodes by (by intros ->). by apply Hskip.
  - rewrite decide_True by (by rewrite Ev). specialize (IH Hnd Hndp). cbn zeta in IH.
    destruct (old_version (Version new) olds) as [old|]; [|done].
    destruct IH as (? & q & ? & ?). split; [done|]. exists q. split; [by right | done].
Qed.

(** Everything a step keeps: the pointers to the old services, and what all other
    pointers point to. *)
Record keeps_store (D : string -> Prop) (ps : list sptr) (olds : list Service) (w w' : consulWatcher) : Prop := {
  ks_points : points D w' ps olds;
  ks_grows : (length (store w) <= length (store w'))%nat;
  ks_other : forall q, q ∉ ps -> (q < length (store w))%nat -> deref w' q = deref w q;
  ks_services : w_services w' = w_services w }.

Lemma points_valid D w ps olds q : points D w ps olds -> q ∈ ps -> (q < length (store w))%nat.
Proof.
  intros Hp Hq. apply list_elem_of_lookup in Hq as [i Hi].
  eapply Forall2_lookup_l in Hp as (s & _ & Hlt & _); done.
Qed.

Lemma points_new D s w ps olds : points D w ps olds -> points D (snd (new_ptr s w)) ps olds.
Proof.
  intros Hp. eapply Forall2_impl; [exact Hp|]. intros p x (Hlt & ?). rewrite deref_new by done.
  split; [|done]. cbn. rewrite length_app. lia.
Qed.

Lemma points_send D a p w ps olds : points D w ps olds -> points D (send a p w) ps olds.
Proof. done. Qed.

Lemma points_mono (D D' : string -> Prop) w ps olds : (forall v, D v -> D' v) -> points D w ps olds -> points D' w ps olds.
Proof. intros HD Hp. eapply Forall2_impl; [exact Hp|]. naive_solver. Qed.

(** Changing the nodes of a version makes its pointer loose. *)
Lemma points_set_nodes D v p ns w ps olds : points D w ps olds -> p ∈ ps -> Version (deref w p) = v ->
  points (fun v' => D v' \/ v' = v) (set_nodes p ns w) ps olds.
Proof.
  intros Hp Hin <-. unfold points. eapply Forall2_impl; [exact Hp|]. intros q s (Hlt & Ev & Es).
  split; [cbn; by rewrite length_insert|]. destruct (decide (q = p)) as [->|Hq].
  - rewrite deref_set_nodes_eq by done. split; [done|]. intros HD. destruct HD. right. by rewrite Ev.
  - rewrite deref_set_nodes by done. split; [done|]. intros HD. apply Es. tauto.
Qed.

Lemma one_service_spec D new ps olds w : points D w ps olds -> NoDup (Version <$> olds) -> NoDup ps ->
  ~ D (Version new) ->
  let r := one_service (Some ps) new w in
  sents (snd r) = sents w ++ events_for (Some olds) new /\
  keeps_store (fun v => D v \/ v = Version new) ps olds w (snd r) /\
  fst r = length (store w) /\ (fst r < length (store (snd r)))%nat /\ deref (snd r) (fst r) = new.
Proof.
  intros Hp Hnd Hndp HD. unfold one_service.
  set (w1 := snd (new_ptr new w)). change (new_ptr new w) with (length (store w), w1). cbn zeta iota beta.
  pose proof (points_new D new w ps olds Hp) as Hp1. fold w1 in Hp1.
  pose proof (compare_old_spec D new ps olds w1 Hp1 Hnd Hndp HD) as Hc. cbn zeta in Hc.
  assert (Hl1 : length (store w1) = S (length (store w))) by (unfold w1; cbn; rewrite length_app; cbn; lia).
  assert (Hnew1 : deref w1 (length (store w)) = new) by apply deref_new_eq.
  assert (Hold1 : forall q, (q < length (store w))%nat -> deref w1 q = deref w q) by (intros; by apply deref_new).
  assert (Hfresh : length (store w) ∉ ps) by (intros Hin; apply (points_valid _ _ _ _ _ Hp) in Hin; lia).
  (* It is enough to look at what comparing leaves. *)
  assert (Hgoal : forall a w2, length (store w2) = length (store w1) -> w_services w2 = w_services w1 ->
    (forall q, q ∉ ps -> deref w2 q = deref w1 q) ->
    points (fun v => D v \/ v = Version new) w2 ps olds ->
    sents (send a (length (store w)) w2) = sents w ++ events_for (Some olds) new ->
    let r := (length (store w), send a (length (store w)) w2) in
    sents (snd r) = sents w ++ events_for (Some olds) new /\
    keeps_store (fun v => D v \/ v = Version new) ps olds w (snd r) /\
    fst r = length (store w) /\ (fst r < length (store (snd r)))%nat /\ deref (snd r) (fst r) = new).
  { intros a w2 El Es Eq Hp2 Hse r. cbn [r fst snd]. split; [done|]. split; [|split; [done|split]].
    - split; [done| |intros q Hq Hlt|exact Es].
      + change (store (send a (length (store w)) w2)) with (store w2). lia.
      + rewrite deref_send, Eq, Hold1 by done. done.
    - change (store (send a (length (store w)) w2)) with (store w2). lia.
    - by rewrite deref_send, Eq. }
  unfold events_for in *. cbn [mbind option_bind] in *.
  destruct (old_version (Version new) olds) as [old|] eqn:Ho.
  - destruct (compare_old ps new "create" w1) as [a w2]. cbn [fst snd] in Hc.
    destruct Hc as (-> & p & Hin & Hplt & Hdp & ->). apply old_version_Some in Ho as [Hov _].
    assert (Hpn : length (store w) <> p) by (intros E; by rewrite E in Hfresh).
    unfold delete_event in *. apply Hgoal; destruct (decide (dead_nodes old new = [])) as [Hd|Hd]; try done.
    + cbn. by rewrite length_insert.
    + intros q Hq. rewrite deref_send, deref_set_nodes; [done | by intros ->].
    + by apply (points_mono D); [tauto|].
    + apply points_send, points_set_nodes; [done..|]. by rewrite Hdp.
    + by rewrite sents_send, Hnew1.
    + rewrite !sents_send, deref_send, (deref_set_nodes _ _ _ (length (store w))), Hnew1, deref_set_nodes_eq, Hdp by done.
      by rewrite <- app_assoc.
  - rewrite Hc. apply Hgoal; try done; [by apply (points_mono D); [tauto|] | by rewrite sents_send, Hnew1].
Qed.

(** The new table's pointers: fresh ones. *)
Definition fresh_ptrs (n : nat) (w : consulWatcher) (qs : list sptr) (news : list Service) : Prop :=
  Forall2 (fun p s => (n <= p < length (store w))%nat /\ deref w p = s) qs news.

Lemma fresh_ptrs_weaken n n' w qs news : (n' <= n)%nat -> fresh_ptrs n w qs news -> fresh_ptrs n' w qs news.
Proof. intros Hn Hf. eapply Forall2_impl; [exact Hf|]. intros p s [? ?]. split; [lia | done]. Qed.

Lemma new_services_spec olds ps news : forall D w, points D w ps olds -> NoDup (Version <$> olds) -> NoDup ps ->
  NoDup (Version <$> news) -> Forall (fun s => ~ D (Version s)) news ->
  let r := new_services (Some ps) news w in
  sents (snd r) = sents w ++ mjoin (events_for (Some olds) <$> news) /\
  keeps_store (fun v => D v \/ v ∈ Version <$> news) ps olds w (snd r) /\
  fresh_ptrs (length (store w)) (snd r) (fst r) news.
Proof.
  induction news as [|new news IH]; intros D w Hp Hnd Hndp Hndn HD; cbn zeta.
  - cbn [new_services fst snd fmap list_fmap mjoin list_join]. split; [by rewrite app_nil_r|]. split; [|constructor].
    split; try done. by apply (points_mono D); [tauto|].
  - cbn [fmap list_fmap] in Hndn. apply NoDup_cons in Hndn as [Hnew Hndn]. apply Forall_cons in HD as [HDn HD].
    destruct (one_service_spec D new ps olds w Hp Hnd Hndp HDn) as (Hs1 & [Kp1 Kg1 Kn1 Ks1] & Hq1 & Hlt1 & Hd1).
    cbn [new_services]. destruct (one_service (Some ps) new w) as [p w1]. cbn [fst snd] in *.
    destruct (IH _ w1 Kp1 Hnd Hndp Hndn) as (Hs2 & [Kp2 Kg2 Kn2 Ks2] & Hf2).
    { rewrite Forall_forall in HD |- *. intros s Hs [Hv|Hv]; [by apply (HD s)|].
      apply Hnew. rewrite <- Hv. by apply list_elem_of_fmap_2. }
    destruct (new_services (Some ps) news w1) as [qs w2]. cbn [fst snd] in *. split; [|split].
    + by rewrite Hs2, Hs1, <- app_assoc.
    + split; [|lia| |congruence].
      * eapply points_mono; [|exact Kp2]. intros v. cbn. rewrite elem_of_cons. tauto.
      * intros q Hq Hlt. rewrite Kn2 by (done || lia). by apply Kn1.
    + assert (Hfr : p ∉ ps) by (intros Hin; apply (points_valid _ _ _ _ _ Hp) in Hin; lia).
      constructor; [split; [lia|]; rewrite Kn2; [done..|lia]|].
      by apply (fresh_ptrs_weaken (length (store w1))).
Qed.

Lemma new_services_first news : forall w, let r := new_services None news w in
  sents (snd r) = sents w ++ mjoin (events_for None <$> news) /\
  (length (store w) <= length (store (snd r)))%nat /\
  (forall q, (q < length (store w))%nat -> deref (snd r) q = deref w q) /\ w_services (snd r) = w_services w /\
  fresh_ptrs (length (store w)) (snd r) (fst r) news.
Proof.
  induction news as [|new news IH]; intros w; cbn zeta.
  - cbn. rewrite app_nil_r. split_and!; try done; constructor.
  - cbn [new_services]. unfold one_service. set (w0 := snd (new_ptr new w)).
    change (new_ptr new w) with (length (store w), w0). cbn zeta iota beta.
    set (w1 := send "create" (length (store w)) w0).
    assert (Hl1 : length (store w1) = S (length (store w))) by (cbn; rewrite length_app; cbn; lia).
    destruct (IH w1) as (Hs & Hg & Hd & Hss & Hf). destruct (new_services None news w1) as [qs w2]. cbn [fst snd] in *.
    assert (Hnew : deref w1 (length (store w)) = new) by apply deref_new_eq.
    split_and!; [|lia| |done|].
    + rewrite Hs. unfold w1. rewrite sents_send. cbn [fmap list_fmap mjoin list_join].
      unfold w0. rewrite deref_new_eq. by rewrite <- app_assoc.
    + intros q Hq. rewrite Hd by lia. by apply deref_new.
    + constructor; [split; [lia|rewrite Hd; [done|lia]]|]. by apply (fresh_ptrs_weaken (length (store w1))); [lia|].
Qed.

Lemma drop_versions_spec serviceMap ps olds : forall w,
  points (fun v => is_Some (serviceMap !! v)) w ps olds ->
  let w' := drop_versions serviceMap ps w in
  sents w' = sents w ++ (pair "delete" <$> dropped serviceMap olds) /\ store w' = store w /\ w_services w' = w_services w.
Proof.
  intros w Hp. revert w Hp. intros w Hp. remember w as w0 eqn:E0 in Hp.
  assert (Hst : store w = store w0) by congruence. clear E0. revert w Hst.
  induction Hp as [|p s ps olds (Hlt & Ev & Es) _ IH]; intros w Hst; cbn zeta.
  - cbn. by rewrite app_nil_r.
  - cbn [drop_versions]. assert (Hd : deref w p = deref w0 p) by (unfold deref; by rewrite Hst).
    rewrite Hd, Ev. unfold dropped. destruct (serviceMap !! Version s) as [x|] eqn:E.
    + rewrite filter_cons_False by congruence. by apply IH.
    + rewrite filter_cons_True by done.
      destruct (IH (send "delete" p w) Hst) as (H1 & H2 & H3). split_and!; [|done..].
      rewrite H1, sents_send, Hd, Es by (intros [y Hy]; congruence). by rewrite <- app_assoc.
Qed.

(** ** The table of the watcher *)

Record wf_watcher (w : consulWatcher) : Prop := {
  ww_valid : forall name ps, w_services w !! name = Some ps ->
    NoDup ps /\ Forall (fun p => (p < length (store w))%nat) ps /\ services_ok name (deref w <$> ps) }.

(** The services the watcher knows of a name. *)
Definition known (w : consulWatcher) (name : string) : list Service := deref w <$> default [] (w_services w !! name).

Definition by_version (m : gmap string Service) (name : string) : Prop :=
  forall v s, m !! v = Some s -> Version s = v /\ Name s = name.

Section Report.
Context (zlib_inflate : bytes -> option bytes) (unmarshal_endpoint : bytes -> option Endpoint)
        (unmarshal_kv : bytes -> option (gmap string string))
        (range_services : gmap string Service -> list Service)
        (range_all : forall m, range_services m ≡ₚ (map_to_list m).*2).

Abbreviation entries' := (add_entries zlib_inflate unmarshal_endpoint unmarshal_kv).
Abbreviation serviceHandler' := (serviceHandler zlib_inflate unmarshal_endpoint unmarshal_kv range_services).

Lemma add_entries_by_version name es : forall m m', Forall (fun e => as_Service (e_Service e) = name) es ->
  by_version m name -> entries' es m = Ret m' -> by_version m' name.
Proof.
  induction es as [|e es IH]; intros m m' Hes Hm; [by intros [= <-]|]. apply Forall_cons in Hes as [He Hes]. cbn [add_entries].
  destruct (add_entry _ _ _ m e) as [m1|] eqn:E1; [|done]. cbn [outcome_bind]. apply IH; [done|].
  unfold add_entry in E1. set (v := fst (decodeVersion _ _)) in E1.
  destruct (match m !! v with Some _ => _ | None => _ end) as [svc|] eqn:Es; [|done]. cbn [outcome_bind] in E1.
  assert (Hsvc : Version svc = v /\ Name svc = name).
  { destruct (m !! v) as [s|] eqn:Em; [injection Es as <-; by apply Hm|].
    destruct (decodeEndpoints _ _ _); [|done]. by injection Es as <-. }
  destruct (bool_decide _); [injection E1 as <-|].
  2: destruct (decodeMetadata _ _ _); [|done]; injection E1 as <-.
  all: intros v' s'; destruct (decide (v' = v)) as [->|Hv];
    [rewrite lookup_insert_eq; by intros [= <-] | rewrite ?lookup_insert_ne by done; apply Hm].
Qed.

(** What a service map lists of an instance. *)
Definition offered (m : gmap string Service) (v id : string) : Prop := exists s, m !! v = Some s /\ lists (Nodes s) id.

Lemma range_versions m name : by_version m name -> NoDup (Version <$> range_services m) /\
  Forall (fun s => Name s = name) (range_services m) /\
  forall s, s ∈ range_services m <-> m !! Version s = Some s.
Proof.
  intros Hm. assert (Hin : forall s, s ∈ range_services m <-> m !! Version s = Some s).
  { intros s. rewrite range_all, list_elem_of_fmap. split.
    - intros ((v & s') & -> & Hs). apply elem_of_map_to_list in Hs. cbn. by destruct (Hm _ _ Hs) as [-> _].
    - intros Hs. exists (Version s, s). split; [done|]. by apply elem_of_map_to_list. }
  split; [|split; [|done]].
  - rewrite range_all. assert (E : Version <$> (map_to_list m).*2 = (map_to_list m).*1).
    { rewrite <- list_fmap_compose. apply list_fmap_ext. intros i [v s] Hi. cbn.
      apply list_elem_of_lookup_2, elem_of_map_to_list in Hi. by destruct (Hm _ _ Hi). }
    rewrite E. apply NoDup_fst_map_to_list.
  - apply Forall_forall. intros s Hs. apply Hin in Hs. by destruct (Hm _ _ Hs).
Qed.

Lemma fresh_deref w n (qs : list sptr) (news : list Service) : fresh_ptrs n w qs news ->
  deref w <$> qs = news /\ Forall (fun p => (p < length (store w))%nat) qs.
Proof. induction 1 as [|p s qs news [? ?] _ [IH1 IH2]]; [done|]. cbn. split; [congruence | constructor; [lia|done]]. Qed.

Lemma last_name name es : es <> [] -> Forall (fun e => as_Service (e_Service e) = name) es ->
  match last es with Some e => as_Service (e_Service e) | None => "" end = name.
Proof.
  intros Hne Hf. destruct (last es) as [e|] eqn:E; [|by apply last_None in E].
  rewrite Forall_forall in Hf. apply Hf. apply last_Some_elem_of in E. done.
Qed.

Lemma deref_ext w w' (ps : list sptr) : (forall p, p ∈ ps -> deref w' p = deref w p) -> deref w' <$> ps = deref w <$> ps.
Proof. induction ps as [|p ps IH]; intros Hd; cbn; [done|]. rewrite Hd by left. f_equal. apply IH. intros q Hq. apply Hd. by right. Qed.

Definition known_of (w : consulWatcher) (name : string) : option (list Service) :=
  match w_services w !! name with Some ps => Some (deref w <$> ps) | None => None end.

(** What one report does: its events, the new table, and nothing to other names. *)
Record reported (name : string) (m : gmap string Service) (w w' : consulWatcher) : Prop := {
  rp_sent : sents w' = sents w ++ report_events (known_of w name) m (range_services m);
  rp_known : known_of w' name = Some (range_services m);
  rp_other : forall n, n <> name -> known_of w' n = known_of w n;
  rp_wf : wf_watcher w' }.

(** Both kinds of report end alike. *)
Lemma report_ends name m w w2 qs : wf_watcher w -> by_version m name ->
  w_services w2 = w_services w -> (length (store w) <= length (store w2))%nat ->
  (forall q, q ∉ default [] (w_services w !! name) -> (q < length (store w))%nat -> deref w2 q = deref w q) ->
  fresh_ptrs (length (store w)) w2 qs (range_services m) ->
  sents w2 = sents w ++ report_events (known_of w name) m (range_services m) ->
  reported name m w (let ss := w_services w2 in w2 <| w_services := <[name := qs]> ss |>).
Proof.
  intros Hw Hm Es Hg Hd Hq Hse. cbn zeta. set (w3 := w2 <| w_services := _ |>).
  destruct (range_versions m name Hm) as (Hnd & Hnm & _). destruct (fresh_deref _ _ _ _ Hq) as [Hqd Hqv].
  assert (E3 : w_services w3 = <[name := qs]> (w_services w)) by (cbn; by rewrite Es).
  assert (Hd3 : forall ps : list sptr, deref w3 <$> ps = deref w2 <$> ps) by (intros; reflexivity).
  assert (Ho : forall n (ps : list sptr), n <> name -> w_services w !! n = Some ps -> deref w3 <$> ps = deref w <$> ps).
  { intros n ps Hn Hps. rewrite Hd3. apply deref_ext. intros p Hp.
    destruct (ww_valid _ Hw n ps Hps) as (_ & Hlt & _ & Hname). rewrite Forall_forall in Hlt.
    apply Hd; [|by apply Hlt]. intros Hin. destruct (w_services w !! name) as [ps'|] eqn:Eps; [|by apply not_elem_of_nil in Hin].
    destruct (ww_valid _ Hw name ps' Eps) as (_ & _ & _ & Hname'). cbn in Hin.
    rewrite Forall_fmap, Forall_forall in Hname, Hname'. specialize (Hname p Hp).
    specialize (Hname' p Hin). cbn in Hname, Hname'. congruence. }
  split.
  - exact Hse.
  - unfold known_of. rewrite E3, lookup_insert_eq. cbn. by rewrite Hd3, Hqd.
  - intros n Hn. unfold known_of. rewrite E3, lookup_insert_ne by done.
    destruct (w_services w !! n) as [ps|] eqn:Eps; [|done]. cbn. by rewrite (Ho n ps Hn Eps).
  - split. intros n ps. rewrite E3. destruct (decide (n = name)) as [->|Hn].
    + rewrite lookup_insert_eq. intros [= <-]. rewrite Hd3, Hqd. split_and!; [|done|by split].
      apply (NoDup_fmap_1 (deref w2)). rewrite Hqd. by apply (NoDup_fmap_1 Version).
    + rewrite lookup_insert_ne by done. intros Hps. rewrite (Ho n ps Hn Hps).
      destruct (ww_valid _ Hw n ps Hps) as (? & Hlt & ?). split_and!; [done| |done].
      eapply Forall_impl; [exact Hlt|]. intros p Hp. cbn beta in Hp |- *. change (store w3) with (store w2). lia.
Qed.

Lemma points_deref D w ps : Forall (fun p => (p < length (store w))%nat) ps -> points D w ps (deref w <$> ps).
Proof. induction 1 as [|p ps Hp _ IH]; cbn; by constructor. Qed.

Lemma serviceHandler_spec name entries w w' : wf_watcher w -> entries <> [] ->
  Forall (fun e => as_Service (e_Service e) = name) entries ->
  serviceHandler' (Some entries) w = Ret w' ->
  exists m, entries' entries ∅ = Ret m /\ by_version m name /\ reported name m w w'.
Proof.
  intros Hw Hne Hes. unfold serviceHandler. destruct (entries' entries ∅) as [m|] eqn:Em; cbn [outcome_bind]; [|done].
  rewrite (last_name name) by done. assert (Hm : by_version m name) by (apply (add_entries_by_version name entries ∅); [done | intros v s; by rewrite lookup_empty | done]).
  destruct (range_versions m name Hm) as (Hnd & _ & Hin).
  destruct (w_services w !! name) as [ps|] eqn:Eps.
  - destruct (ww_valid _ Hw name ps Eps) as (Hndp & Hlt & Hndv & _).
    pose proof (points_deref (fun _ => False) w ps Hlt) as Hp.
    destruct (new_services_spec (deref w <$> ps) ps (range_services m) (fun _ => False) w) as (Hs & [Kp Kg Ko Ks] & Hf);
      [done..| by apply Forall_forall; tauto |].
    destruct (new_services (Some ps) (range_services m) w) as [qs w2]. cbn [fst snd default] in *.
    assert (Hp2 : points (fun v => is_Some (m !! v)) w2 ps (deref w <$> ps)).
    { eapply points_mono; [|exact Kp]. intros v [[]|Hv]. apply list_elem_of_fmap in Hv as (s & -> & Hs'%Hin). by eexists. }
    destruct (drop_versions_spec m ps _ w2 Hp2) as (Hs3 & Est & Ess). set (w3 := drop_versions m ps w2) in *.
    intros [= <-]. exists m. split_and!; [done..|].
    assert (Hd3 : forall q, deref w3 q = deref w2 q) by (intros; unfold deref; by rewrite Est).
    apply report_ends; fold w3; try done.
    + by rewrite Ess, Ks.
    + by rewrite Est.
    + rewrite Eps. intros q Hq Hlq. rewrite Hd3. by apply Ko.
    + eapply Forall2_impl; [exact Hf|]. intros p s. by rewrite Est, Hd3.
    + rewrite Hs3, Hs, <- app_assoc. unfold known_of. by rewrite Eps.
  - destruct (new_services_first (range_services m) w) as (Hs & Hg & Hd & Ks & Hf).
    destruct (new_services None (range_services m) w) as [qs w2]. cbn [fst snd default drop_versions] in *.
    intros [= <-]. exists m. split_and!; [done..|]. apply report_ends; try done.
    + intros q _. by apply Hd.
    + rewrite Hs. unfold known_of, report_events. rewrite Eps. cbn. by rewrite app_nil_r.
Qed.

End Report.

(** ** The cache driven by the events *)

(** The cache has no entry for the name, or lists exactly [V] of it. *)
Definition in_step (c : cacheSelector) (name : string) (V : string -> string -> Prop) : Prop :=
  cache c !! name = None \/ forall v id, cached c name v id <-> V v id.

(** The cache after an event, with nothing else changed. *)
Record tracks (name : string) (c c' : cacheSelector) (V : string -> string -> Prop) : Prop := {
  tr_wf : wf_cache c';
  tr_step : in_step c' name V;
  tr_other : forall n v id, n <> name -> cached c' n v id <-> cached c n v id }.

Lemma in_step_iff c name V V' : in_step c name V -> (forall v id, V v id <-> V' v id) -> in_step c name V'.
Proof. intros [?|Hc] Hv; [by left|]. right. intros v id. by rewrite Hc. Qed.

Lemma tracks_iff name c c' V V' : tracks name c c' V -> (forall v id, V v id <-> V' v id) -> tracks name c c' V'.
Proof. intros [] Hv. split; [done| |done]. by eapply in_step_iff. Qed.

Lemma tracks_trans name c c1 c2 V V' : tracks name c c1 V -> tracks name c1 c2 V' -> tracks name c c2 V'.
Proof. intros [_ _ Ho] [Hw Hs Ho']. split; [done..|]. intros n v id Hn. by rewrite Ho', Ho. Qed.

Definition event_step (now : Z) (c : cacheSelector) (e : string * Service) : cacheSelector :=
  (update now (Some (mkResult e.1 (Some e.2))) c).1.

Lemma tracks_none now action srv c V : wf_cache c -> cache c !! Name srv = None ->
  tracks (Name srv) c (event_step now c (action, srv)) V.
Proof. intros Hw Hc. unfold event_step. cbn [fst snd]. rewrite update_uncached by done. split; [done|by left|done]. Qed.

Lemma tracks_upsert now action srv c V : wf_cache c -> in_step c (Name srv) V -> action = "create" \/ action = "update" ->
  tracks (Name srv) c (event_step now c (action, srv)) (fun v id => V v id \/ (v = Version srv /\ lists (Nodes srv) id)).
Proof.
  intros Hw Hs Ha. destruct (cache c !! Name srv) as [services|] eqn:Ec; [|by apply tracks_none].
  destruct Hs as [?|Hs]; [congruence|].
  destruct (update_follows now action srv services c Hw Ec) as (H1 & H2 & H3). split; [done| |done].
  right. intros v id. unfold event_step. cbn [fst snd]. rewrite H2. unfold after_event.
  destruct (decide (Nodes srv = [])) as [En|En].
  - rewrite Hs, En. split; [tauto|]. intros [?|[_ (n & Hn%not_elem_of_nil & _)]]; [|done].
    split; [|done]. by destruct Ha as [-> | ->].
  - destruct (decide (v = Version srv)); [rewrite decide_True by done|]; rewrite Hs; tauto.
Qed.

Lemma tracks_delete now srv c V : wf_cache c -> in_step c (Name srv) V ->
  tracks (Name srv) c (event_step now c ("delete", srv)) (fun v id => V v id /\ ~ (v = Version srv /\ lists (Nodes srv) id)).
Proof.
  intros Hw Hs. destruct (cache c !! Name srv) as [services|] eqn:Ec; [|by apply tracks_none].
  destruct Hs as [?|Hs]; [congruence|].
  destruct (update_follows now "delete" srv services c Hw Ec) as (H1 & H2 & H3). split; [done| |done].
  unfold event_step. cbn [fst snd]. destruct (decide (Nodes srv = [])) as [En|En].
  - left. unfold update. rewrite Ec, En. apply (lookup_delete_eq (M := gmap string)).
  - right. intros v id. rewrite H2. unfold after_event. rewrite (decide_False (P := Nodes srv = [])) by done.
    destruct (decide (v = Version srv)); [|rewrite Hs; tauto].
    rewrite (decide_False (P := _ \/ _)) by (by intros []). rewrite decide_True, Hs by done. tauto.
Qed.

Definition view (ss : list Service) (v id : string) : Prop := exists s, s ∈ ss /\ Version s = v /\ lists (Nodes s) id.

Lemma view_cons s ss v id : view (s :: ss) v id <-> v = Version s /\ lists (Nodes s) id \/ view ss v id.
Proof. unfold view. setoid_rewrite elem_of_cons. naive_solver. Qed.

Lemma tracks_drops now name ds : forall c V, wf_cache c -> in_step c name V -> Forall (fun s => Name s = name) ds ->
  tracks name c (foldl (event_step now) c (pair "delete" <$> ds)) (fun v id => V v id /\ ~ view ds v id).
Proof.
  induction ds as [|d ds IH]; intros c V Hw Hs Hn; cbn [fmap list_fmap foldl].
  - split; [done| |done]. eapply in_step_iff; [exact Hs|]. intros v id. split; [|tauto]. intros ?. split; [done|].
    by intros (s & Hs'%not_elem_of_nil & _).
  - apply Forall_cons in Hn as [<- Hn]. pose proof (tracks_delete now d c V Hw Hs) as Ht.
    eapply tracks_trans; [exact Ht|]. eapply tracks_iff; [apply IH; [apply Ht..|done]|].
    intros v id. cbn. rewrite view_cons. tauto.
Qed.

Lemma tracks_creates now name news : forall c V, wf_cache c -> in_step c name V -> Forall (fun s => Name s = name) news ->
  tracks name c (foldl (event_step now) c (mjoin (events_for None <$> news))) (fun v id => V v id \/ view news v id).
Proof.
  induction news as [|s news IH]; intros c V Hw Hs Hn; cbn [fmap list_fmap mjoin list_join foldl].
  - split; [done| |done]. eapply in_step_iff; [exact Hs|]. intros v id. split; [by left|]. intros [?|(s & Hs'%not_elem_of_nil & _)]; done.
  - apply Forall_cons in Hn as [<- Hn]. pose proof (tracks_upsert now "create" s c V Hw Hs ltac:(by left)) as Ht.
    cbn [events_for mbind option_bind app foldl].
    eapply tracks_trans; [exact Ht|]. eapply tracks_iff; [apply IH; [apply Ht..|done]|].
    intros v id. cbn. rewrite view_cons. tauto.
Qed.

(** The view when the versions of [done] have been reported. *)
Definition replaced (olds done : list Service) (v id : string) : Prop :=
  if decide (v ∈ Version <$> done) then view done v id else view olds v id.

Lemma old_version_view v olds id : NoDup (Version <$> olds) ->
  view olds v id <-> match old_version v olds with Some s => lists (Nodes s) id | None => False end.
Proof.
  induction olds as [|s olds IH]; cbn [fmap list_fmap]; intros Hnd.
  - split; [intros (s & Hs%not_elem_of_nil & _)|]; done.
  - apply NoDup_cons in Hnd as [Hs Hnd]. rewrite view_cons, old_version_cons.
    destruct (decide (Version s = v)) as [<-|Hv]; [|rewrite IH by done; naive_solver].
    split; [|by left]. intros [[_ ?]|(s' & Hs' & Hv' & _)]; [done|]. destruct Hs. rewrite <- Hv'. by apply list_elem_of_fmap_2.
Qed.

#[local] Instance lists_dec nodes id : Decision (lists nodes id).
Proof.
  refine (cast_if (decide (Exists (fun n => InstanceID n = id) nodes))); unfold lists; by rewrite <- Exists_exists.
Defined.

Lemma lists_dead old new id : lists (dead_nodes old new) id <-> lists (Nodes old) id /\ ~ lists (Nodes new) id.
Proof. apply lists_unseen. Qed.

Lemma tracks_one now name olds finished new c : wf_cache c -> NoDup (Version <$> olds) ->
  in_step c name (replaced olds finished) -> Name new = name -> Forall (fun s => Name s = name) olds ->
  Version new ∉ Version <$> finished ->
  tracks name c (foldl (event_step now) c (events_for (Some olds) new)) (replaced olds (new :: finished)).
Proof.
  intros Hw Hnd Hs Hn Ho Hv. unfold events_for. cbn [mbind option_bind].
  pose proof (old_version_view (Version new) olds) as Hview.
  assert (Hiff : forall V : string -> string -> Prop,
    (forall v id, V v id <-> (v <> Version new /\ replaced olds finished v id) \/ (v = Version new /\ lists (Nodes new) id)) ->
    forall v id, V v id <-> replaced olds (new :: finished) v id).
  { intros V HV v id. rewrite HV. unfold replaced. cbn [fmap list_fmap].
    destruct (decide (v ∈ Version new :: (Version <$> finished))) as [Hin|Hin]; rewrite elem_of_cons in Hin.
    - rewrite view_cons. destruct (decide (v ∈ Version <$> finished)) as [Hf|Hf].
      + assert (v <> Version new) by congruence. tauto.
      + assert (v = Version new) as -> by tauto. split; [tauto|]. intros [[_ ?]|(s & Hs' & Hsv & _)]; [tauto|].
        destruct Hf. rewrite <- Hsv. by apply list_elem_of_fmap_2.
    - rewrite decide_False by tauto. tauto. }
  assert (Hcur : forall id, replaced olds finished (Version new) id <-> view olds (Version new) id).
  { intros id. unfold replaced. by rewrite decide_False. }
  destruct (old_version (Version new) olds) as [old|] eqn:Eo.
  - apply old_version_Some in Eo as [Eov Eoin].
    assert (Hno : Name old = name) by (rewrite Forall_forall in Ho; by apply Ho).
    unfold delete_event. destruct (decide (dead_nodes old new = [])) as [Hd|Hd]; cbn [app foldl].
    + subst name. eapply tracks_iff; [apply tracks_upsert; [done|exact Hs|by right]|]. apply Hiff. intros v id. cbn.
      destruct (decide (v = Version new)) as [->|]; [|tauto]. rewrite Hcur, Hview by done.
      pose proof (lists_dead old new id) as Hl. rewrite Hd in Hl.
      assert (~ lists [] id) by (by intros (? & ?%not_elem_of_nil & _)).
      destruct (decide (lists (Nodes new) id)) as [|]; tauto.
    + pose proof (tracks_delete now (old <| Nodes := dead_nodes old new |>) c (replaced olds finished) Hw) as Ht.
      rewrite <- Hno in *. specialize (Ht Hs). change (Name (old <| Nodes := dead_nodes old new |>)) with (Name old) in Ht.
      eapply tracks_trans; [exact Ht|]. rewrite <- Hn.
      eapply tracks_iff; [apply tracks_upsert; [apply Ht | rewrite Hn; apply Ht | by right]|]. apply Hiff. intros v id. cbn.
      change (Version (old <| Nodes := dead_nodes old new |>)) with (Version old).
      rewrite lists_dead, Eov.
      destruct (decide (v = Version new)) as [->|]; [|tauto]. rewrite Hcur, Hview by done.
      destruct (decide (lists (Nodes new) id)); tauto.
  - cbn [foldl]. subst name. eapply tracks_iff; [apply tracks_upsert; [done|exact Hs|by left]|]. apply Hiff. intros v id. cbn.
    destruct (decide (v = Version new)) as [->|]; [|tauto]. rewrite Hcur, Hview by done. tauto.
Qed.

Lemma tracks_news now name olds news : forall finished c, wf_cache c -> NoDup (Version <$> olds) ->
  in_step c name (replaced olds finished) -> Forall (fun s => Name s = name) olds ->
  Forall (fun s => Name s = name) news -> NoDup (Version <$> news) ->
  Forall (fun s => Version s ∉ Version <$> finished) news ->
  tracks name c (foldl (event_step now) c (mjoin (events_for (Some olds) <$> news))) (replaced olds (reverse news ++ finished)).
Proof.
  induction news as [|s news IH]; intros finished c Hw Hnd Hs Ho Hn Hndn Hv.
  - by split.
  - apply Forall_cons in Hn as [Hsn Hn]. apply Forall_cons in Hv as [Hsv Hv]. cbn [fmap list_fmap] in Hndn |- *.
    apply NoDup_cons in Hndn as [Hsnew Hndn]. cbn [mjoin list_join]. rewrite reverse_cons, foldl_app.
    pose proof (tracks_one now name olds finished s c Hw Hnd Hs Hsn Ho Hsv) as Ht.
    eapply tracks_trans; [exact Ht|]. rewrite <- app_assoc. cbn [app].
    apply IH; [apply Ht|done|apply Ht|done..|].
    rewrite Forall_forall in Hv |- *. intros s' Hs'. cbn [fmap list_fmap]. rewrite elem_of_cons. intros [E|Hin]; [|by apply (Hv s')].
    apply Hsnew. rewrite <- E. by apply list_elem_of_fmap_2.
Qed.

Lemma replaced_nil olds v id : replaced olds [] v id <-> view olds v id.
Proof. unfold replaced. rewrite decide_False; [done|]. apply not_elem_of_nil. Qed.

(** All events of a report on a known name leave the cache with the new services. *)
Lemma tracks_report now name olds m news c : wf_cache c -> NoDup (Version <$> olds) ->
  in_step c name (view olds) -> Forall (fun s => Name s = name) olds ->
  Forall (fun s => Name s = name) news -> NoDup (Version <$> news) -> (forall s, s ∈ news <-> m !! Version s = Some s) ->
  (forall v s, m !! v = Some s -> Version s = v) ->
  tracks name c (foldl (event_step now) c (report_events (Some olds) m news)) (offered m).
Proof.
  intros Hw Hnd Hs Ho Hn Hndn Hin Hm. unfold report_events. rewrite foldl_app.
  pose proof (tracks_news now name olds news [] c Hw Hnd) as Ht.
  specialize (Ht (in_step_iff _ _ _ _ Hs (fun v id => iff_sym (replaced_nil olds v id))) Ho Hn Hndn).
  specialize (Ht ltac:(apply Forall_forall; intros; apply not_elem_of_nil)). rewrite app_nil_r in Ht.
  eapply tracks_trans; [exact Ht|]. eapply tracks_iff; [apply tracks_drops; [apply Ht..|]|].
  { apply Forall_forall. intros s [_ Hs']%list_elem_of_filter. rewrite Forall_forall in Ho. by apply Ho. }
  intros v id. cbn beta.
  assert (Hnew : view (reverse news) v id <-> offered m v id).
  { unfold view, offered. setoid_rewrite elem_of_reverse. setoid_rewrite Hin. split.
    - intros (s & Hs' & <- & ?). by exists s.
    - intros (s & Hs' & ?). rewrite <- (Hm _ _ Hs') in Hs' |- *. by exists s. }
  assert (Hdrop : view (dropped m olds) v id <-> m !! v = None /\ view olds v id).
  { unfold view, dropped. setoid_rewrite list_elem_of_filter. naive_solver. }
  rewrite Hdrop. unfold replaced. destruct (decide (v ∈ Version <$> reverse news)) as [Hv|Hv].
  - rewrite Hnew. split; [tauto|]. intros Hf. split; [done|]. destruct Hf as (s & E & _). intros [? _]. congruence.
  - assert (m !! v = None) as ->.
    { destruct (m !! v) as [s|] eqn:E; [|done]. destruct Hv. rewrite <- (Hm _ _ E).
      apply list_elem_of_fmap_2, elem_of_reverse, Hin. by rewrite (Hm _ _ E). }
    rewrite <- Hnew. split; [tauto|]. intros (s & Hs' & Hsv & _). destruct Hv. rewrite <- Hsv. by apply list_elem_of_fmap_2.
Qed.

Lemma events_frame now name evs : forall c, wf_cache c -> Forall (fun e => Name e.2 = name) evs ->
  wf_cache (foldl (event_step now) c evs) /\
  forall n v id, n <> name -> cached (foldl (event_step now) c evs) n v id <-> cached c n v id.
Proof.
  induction evs as [|[a s] evs IH]; intros c Hw Hn; [done|]. apply Forall_cons in Hn as [<- Hn]. cbn [foldl snd] in *.
  assert (H1 : wf_cache (event_step now c (a, s)) /\
            forall n v id, n <> Name s -> cached (event_step now c (a, s)) n v id <-> cached c n v id).
  { unfold event_step. cbn [fst snd]. destruct (cache c !! Name s) as [services|] eqn:E.
    - destruct (update_follows now a s services c Hw E) as (? & _ & ?). done.
    - by rewrite update_uncached. }
  destruct H1 as [Hw1 Ho1]. destruct (IH _ Hw1 Hn) as [Hw2 Ho2]. split; [done|].
  intros n v id Hne. rewrite Ho2, Ho1 by done. done.
Qed.

Lemma report_events_named name olds m news : Forall (fun s => Name s = name) (default [] olds) ->
  Forall (fun s => Name s = name) news -> Forall (fun e : string * Service => Name e.2 = name) (report_events olds m news).
Proof.
  intros Ho Hn. apply Forall_app. split.
  - apply Forall_forall. intros e (l & He & (s & -> & Hs)%list_elem_of_fmap)%list_elem_of_join.
    rewrite Forall_forall in Ho, Hn. specialize (Hn s Hs). unfold events_for in He.
    destruct (olds ≫= old_version (Version s)) as [old|] eqn:Eo; [|by apply list_elem_of_singleton in He as ->].
    apply elem_of_app in He as [He|He%list_elem_of_singleton]; [|by subst e].
    destruct olds as [olds|]; [|done]. apply old_version_Some in Eo as [_ Eo].
    unfold delete_event in He. destruct (decide _); [by apply not_elem_of_nil in He|].
    apply list_elem_of_singleton in He as ->. exact (Ho old Eo).
  - rewrite Forall_fmap. apply Forall_forall. intros s [_ Hs]%list_elem_of_filter.
    rewrite Forall_forall in Ho. by apply Ho.
Qed.

(** An empty report, which consul sends when the last instance is gone, names no
    service: no event is sent, and the services known under any name stay. *)
Lemma empty_report zi ue uk range w w' : range ∅ = [] -> default [] (known_of w "") = [] ->
  serviceHandler zi ue uk range (Some []) w = Ret w' ->
  next w' = next w /\ sents w' = sents w /\ forall n, n <> "" -> known_of w' n = known_of w n.
Proof.
  intros Hr Hk. cbn. rewrite Hr. cbn. assert (default [] (w_services w !! "") = []) as ->.
  { unfold known_of in Hk. destruct (w_services w !! "") as [l|]; [|done]. cbn in Hk |- *. by destruct l. }
  intros [= <-]. split; [done|]. split; [done|]. intros n Hn. unfold known_of. cbn. by rewrite lookup_insert_ne.
Qed.

(** C23. The watcher's events keep the selector's cache in step with consul as long as a
    service has an instance left.  A report of at least one instance, all of one service,
    appends events to the channel and
    leaves the table well formed, with exactly the reported services; a cache
    that takes each event as it was sent, and that listed exactly the instances
    known before (or nothing under the name), afterwards lists exactly the
    reported ones that are not critical (or nothing, to be fetched anew); on the
    first report of a name they are added to what it lists; other names keep
    theirs.  The order the runtime ranges over the new services does not matter.  An empty
    report, which consul sends when the last instance is gone, names no service: it sends
    no event and changes nothing known under a name, so that a cache lists on what is gone. *)
Theorem watch_keeps_cache_in_step
  (zlib_inflate : bytes -> option bytes) (unmarshal_endpoint : bytes -> option Endpoint)
  (unmarshal_kv : bytes -> option (gmap string string)) (range_services : gmap string Service -> list Service)
  (now : Z) (name : string) (entries : list ServiceEntry) (w w' : consulWatcher) (c : cacheSelector)
  (Hrange : forall m, range_services m ≡ₚ (map_to_list m).*2)
  (Hw : wf_watcher w) (Hc : wf_cache c)
  (Hes : Forall (fun e => as_Service (e_Service e) = name) entries)
  (Hrep : serviceHandler zlib_inflate unmarshal_endpoint unmarshal_kv range_services (Some entries) w = Ret w') :
  match entries with
  | [] => default [] (known_of w "") = [] ->
      next w' = next w /\ sents w' = sents w /\ forall n, n <> "" -> known_of w' n = known_of w n
  | _ => exists m evs, add_entries zlib_inflate unmarshal_endpoint unmarshal_kv entries ∅ = Ret m /\
      sents w' = sents w ++ evs /\ wf_watcher w' /\ known_of w' name = Some (range_services m) /\
      (forall n, n <> name -> known_of w' n = known_of w n) /\
      let c' := foldl (event_step now) c evs in
      wf_cache c' /\ (forall n v id, n <> name -> cached c' n v id <-> cached c n v id) /\
      match known_of w name with
      | Some olds => in_step c name (view olds) -> in_step c' name (offered m)
      | None => forall V, in_step c name V -> in_step c' name (fun v id => V v id \/ offered m v id)
      end
  end.
Proof.
  destruct entries as [|e0 es] eqn:Ee.
  { intros Hk. eapply empty_report; [|exact Hk|exact Hrep]. apply Permutation_nil_r. by rewrite Hrange, map_to_list_empty. }
  rewrite <- Ee in *. assert (Hne : entries <> []) by congruence. clear Ee e0 es.
  destruct (serviceHandler_spec _ _ _ _ Hrange name entries w w' Hw Hne Hes Hrep) as (m & Em & Hm & [Hs Hk Ho Hww]).
  destruct (range_versions range_services Hrange m name Hm) as (Hnd & Hn & Hin).
  assert (Hmv : forall v s, m !! v = Some s -> Version s = v) by (intros v s Hvs; by apply Hm in Hvs as [-> _]).
  exists m, (report_events (known_of w name) m (range_services m)). split_and!; [done..|].
  assert (Hok : services_ok name (default [] (known_of w name))).
  { unfold known_of. destruct (w_services w !! name) as [ps|] eqn:Eps; [by apply (ww_valid _ Hw name ps)|].
    split; [apply NoDup_nil_2 | done]. }
  destruct Hok as [Hndo Hno]. pose proof (report_events_named name _ m _ Hno Hn) as Hev.
  destruct (events_frame now name _ c Hc Hev) as [H1 H2]. split; [done|]. split; [done|].
  destruct (known_of w name) as [olds|]; cbn [default] in *.
  - intros Hstep. apply tracks_report; done.
  - intros V HV. unfold report_events, dropped. cbn [default]. rewrite filter_nil, app_nil_r.
    eapply in_step_iff; [apply (tracks_creates now name (range_services m) c V Hc HV Hn)|].
    intros v id. cbn. unfold view, offered. setoid_rewrite Hin. split.
    + intros [?|(s & Hs' & <- & ?)]; [by left|]. right. by exists s.
    + intros [?|(s & Hs' & ?)]; [by left|]. right. exists s. split; [by rewrite (Hmv _ _ Hs')|]. split; [by apply Hmv | done].
Qed.

(** Two reports of the service "chat": instances a and b, then b and c. *)
Definition demo_entry (id : string) : ServiceEntry :=
  mkServiceEntry "10.0.0.9" (mkAgentService id "chat" ["v=1"] ∅ 80 "10.0.0.1") ["passing"].
Definition demo_range (m : gmap string Service) : list Service := (map_to_list m).*2.
Definition demo_handler := serviceHandler (fun b => Some b) (fun _ => None) (fun _ => None) demo_range.
Definition demo_result (o : outcome consulWatcher) : consulWatcher :=
  match o with Ret w => w | Panic _ => newConsulWatcher "" end.
Definition demo_first : consulWatcher := demo_result (demo_handler (Some [demo_entry "a"; demo_entry "b"]) (newConsulWatcher "")).
Definition demo_second : consulWatcher := demo_result (demo_handler (Some [demo_entry "b"; demo_entry "c"]) demo_first).

Lemma demo_first_wf : wf_watcher demo_first.
Proof.
  assert (Hr : demo_handler (Some [demo_entry "a"; demo_entry "b"]) (newConsulWatcher "") = Ret demo_first) by (vm_compute; reflexivity).
  assert (H0 : wf_watcher (newConsulWatcher "")) by (split; intros n ps E; cbn in E; by rewrite lookup_empty in E).
  destruct (serviceHandler_spec (fun b => Some b) (fun _ => None) (fun _ => None) demo_range (fun m => reflexivity _) "chat" [demo_entry "a"; demo_entry "b"] _ _ H0 ltac:(done)
              ltac:(by repeat constructor) Hr) as (m & _ & _ & [_ _ _ Hw]). exact Hw.
Qed.

(** The events of the second report, as they were sent. *)
Example demo_events : drop 1 ((fun e => (e.1, InstanceID <$> Nodes e.2)) <$> sents demo_second) =
  [("delete", ["a"]); ("update", ["b"; "c"])].
Proof. vm_compute. reflexivity. Qed.

(** The watcher has by then changed the service of the first event, which its
    receiver may hold: a pointer read late shows only the instance that is gone. *)
Example demo_event_changes :
  match next demo_second with
  | e :: _ => (InstanceID <$> Nodes (ev_sent e), InstanceID <$> Nodes (deref demo_second (ev_Service e))) = (["a"; "b"], ["a"])
  | [] => False
  end.
Proof. vm_compute. reflexivity. Qed.

Lemma watch_keeps_cache_in_step_witness :
  exists m evs, add_entries (fun b => Some b) (fun _ => None) (fun _ => None) [demo_entry "b"; demo_entry "c"] ∅ = Ret m /\
    sents demo_second = sents demo_first ++ evs /\ wf_watcher demo_second /\ known_of demo_second "chat" = Some (demo_range m) /\
    (forall n, n <> "chat" -> known_of demo_second n = known_of demo_first n) /\
    let c' := foldl (event_step 7) wc evs in
    wf_cache c' /\ (forall n v id, n <> "chat" -> cached c' n v id <-> cached wc n v id) /\
    match known_of demo_first "chat" with
    | Some olds => in_step wc "chat" (view olds) -> in_step c' "chat" (offered m)
    | None => forall V, in_step wc "chat" V -> in_step c' "chat" (fun v id => V v id \/ offered m v id)
    end.
Proof.
  apply (watch_keeps_cache_in_step (fun b => Some b) (fun _ => None) (fun _ => None) demo_range 7 "chat" [demo_entry "b"; demo_entry "c"]
           demo_first demo_second wc).
  - intros m. reflexivity.
  - exact demo_first_wf.
  - apply wf_set; [intros n l E; cbn in E; by rewrite lookup_empty in E|]. split; [|by repeat constructor].
    apply NoDup_cons; split; [set_solver|apply NoDup_singleton].
  - by repeat constructor.
  - vm_compute. reflexivity.
Defined.
