(* ===== verification/Server.v ===== *)
(** * Servers and services

    [rpcServer] of [server/rpc_server.go], which announces a module's server in
    the registry, the address it announces ([utils/lib/addr/addr.go]), and
    [service] of [service/service.go], which announces it again and again until
    its context ends.

    The registry is the interface [RegistryOps]; consul implements it.  Option
    plumbing, logging and the rpc transport behind the server are not modelled. *)
From Stdlib Require Import Strings.Ascii.
From S2P Require Import Prelude Registry Consul.
#[local] Open Scope mq_scope.
#[local] Open Scope string_scope.
#[local] Open Scope list_scope.
#[local] Open Scope Z_scope.

(** ** The registry's interface *)

Class RegistryOps (W : Type) := {
  reg_Register : Z -> Service -> W -> W * option string;
  reg_Deregister : Service -> W -> W * option string;
  reg_String : string }.

(** ** Addresses *)

(** An address of a network interface: IPv4, or anything [To4] refuses. *)
Inductive ip_addr := IPv4 (a b c d : Z) | OtherAddr.

Definition ip_num (a b c d : Z) : Z := Z.lor (Z.shiftl a 24) (Z.lor (Z.shiftl b 16) (Z.lor (Z.shiftl c 8) d)).

(** The blocks: network and prefix length. *)
Definition privateBlocks : list (Z * Z) :=
  [(ip_num 10 0 0 0, 8); (ip_num 172 16 0 0, 12); (ip_num 192 168 0 0, 16); (ip_num 100 64 0 0, 10)].

Definition in_block (n : Z) (block : Z * Z) : bool :=
  Z.shiftr n (32 - block.2) =? Z.shiftr block.1 (32 - block.2).

Definition isPrivateIP (a b c d : Z) : bool := existsb (in_block (ip_num a b c d)) privateBlocks.

Definition ip_string (a b c d : Z) : string :=
  String.concat "." (FormatInt <$> [a; b; c; d]).

Fixpoint first_private (addrs : list ip_addr) : option string :=
  match addrs with
  | [] => None
  | IPv4 a b c d :: addrs => if isPrivateIP a b c d then Some (ip_string a b c d) else first_private addrs
  | OtherAddr :: addrs => first_private addrs
  end.

(** [addr.Extract]; [ifaces] is what [net.InterfaceAddrs] returns. *)
Definition Extract (ifaces : result string (list ip_addr)) (addr : string) : result string string :=
  if decide (addr <> "" /\ addr <> "0.0.0.0" /\ addr <> "[::]") then Ok addr
  else
    match ifaces with
    | Err e => Err ("Failed to get interface addresses! Err: " ++ e)%string
    | Ok addrs =>
        match first_private addrs with
        | Some ip => Ok ip
        | None => Err "No private IP address found, and explicit IP not provided"
        end
    end.

(** [addr.IPs]: an interface whose addresses cannot be read is passed over. *)
Definition IPs (ifaces : result string (list (result string (list ip_addr)))) : list string :=
  match ifaces with
  | Err _ => []
  | Ok ifaces =>
      flat_map (fun i => match i with
                         | Err _ => []
                         | Ok addrs => omap (fun a => match a with IPv4 a b c d => Some (ip_string a b c d) | OtherAddr => None end) addrs
                         end) ifaces
  end.

(** [strconv.Atoi], its error dropped: what is not a number gives 0, what is out
    of range the nearest [int]. *)
Definition Atoi (s : string) : Z :=
  match parse_signed s with
  | None => 0
  | Some v => Z.max (- 2 ^ 63) (Z.min v (2 ^ 63 - 1))
  end.

Definition colon : ascii := ":"%char.

(** The host and port of the advertised address, or else of the address. *)
Definition advertised (advertise address : string) : string * Z :=
  let advt := if decide (advertise <> "") then advertise else address in
  let parts := split_on colon advt "" in
  match reverse parts with
  | last :: (p :: ps) => (String.concat ":" (reverse (p :: ps)), Atoi last)
  | _ => (String.concat ":" parts, 0)
  end.

(** ** [rpcServer] *)

Record ServerOptions := mkServerOptions {
  so_Name : string; so_ID : string; so_Version : string; so_Address : string; so_Advertise : string;
  so_Metadata : gmap string string; so_RegisterInterval : Z; so_RegisterTTL : Z }.

(** [transport] says that the rpc server behind is there ([OnInit] makes it,
    [Stop] drops it). *)
Record rpcServer := mkRpcServer {
  opts : ServerOptions; registered : bool; transport : bool; id : string; instanceID : string; startedAt : Z }.

#[export] Instance eta_ServerOptions : Eta ServerOptions := fun r =>
  mkServerOptions (so_Name r) (so_ID r) (so_Version r) (so_Address r) (so_Advertise r) (so_Metadata r) (so_RegisterInterval r) (so_RegisterTTL r).
#[export] Instance eta_rpcServer : Eta rpcServer := fun r =>
  mkRpcServer (opts r) (registered r) (transport r) (id r) (instanceID r) (startedAt r).

(** An option changes the options; what is left empty gets its default ([newOptions]). *)
Definition Option : Type := ServerOptions -> ServerOptions.

Definition or_default (s d : string) : string := if decide (s = "") then d else s.

Definition apply_options (opt : list Option) : ServerOptions :=
  foldl (fun o f => f o) (mkServerOptions "" "" "" "" "" ∅ 0 0) opt.

Definition newOptions (DefaultID : string) (opt : list Option) : ServerOptions :=
  let o := apply_options opt in
  o <| so_Address := or_default (so_Address o) ":0" |> <| so_Name := or_default (so_Name o) "go-server" |>
    <| so_ID := or_default (so_ID o) DefaultID |> <| so_Version := or_default (so_Version o) "1.0.0" |>.

Definition server_id (o : ServerOptions) : string := (so_Name o ++ "@" ++ so_ID o)%string.

(** [newRPCServer]; [uuid] is the generated one, empty when there is none. *)
Definition newRPCServer (o : ServerOptions) (uuid : string) (now : Z) : outcome rpcServer :=
  if decide (uuid = "") then Panic "Create RPC server instance ID fail"
  else Ret (mkRpcServer o false false (server_id o) (server_id o ++ "#" ++ uuid)%string now).

(** [OnInit]: the address of the new transport, or the error of making it. *)
Definition server_OnInit (tr : result string string) (s : rpcServer) : rpcServer * option string :=
  match tr with
  | Err e => (s, Some e)
  | Ok address => let o := opts s in (s <| transport := true |> <| opts := o <| so_Address := address |> |>, None)
  end.

Section Server.
Context {W : Type} `{RegistryOps W} (ifaces : result string (list ip_addr)).

(** The service a server announces, and the one it takes back. *)
Definition announced (s : rpcServer) (addr : string) (port : Z) : Service :=
  let config := opts s in
  let metadata := <["registry" := reg_String]> (<["server" := "rpc"]> (so_Metadata config)) in
  mkService (so_Name config) (so_Version config) ∅ []
    [mkNode (startedAt s) (server_id config) (instanceID s) addr port (Some metadata)].

Definition withdrawn (s : rpcServer) (addr : string) (port : Z) : Service :=
  let config := opts s in
  mkService (so_Name config) (so_Version config) ∅ [] [mkNode 0 "" (instanceID s) addr port None].

Definition ServiceRegister (s : rpcServer) (w : W) : rpcServer * W * option string :=
  let '(host, port) := advertised (so_Advertise (opts s)) (so_Address (opts s)) in
  match Extract ifaces host with
  | Err e => (s, w, Some e)
  | Ok addr =>
      match reg_Register (so_RegisterTTL (opts s)) (announced s addr port) w with
      | (w, Some e) => (s, w, Some e)
      | (w, None) => (s <| registered := true |>, w, None)
      end
  end.

Definition ServiceDeregister (s : rpcServer) (w : W) : rpcServer * W * option string :=
  let '(host, port) := advertised (so_Advertise (opts s)) (so_Address (opts s)) in
  match Extract ifaces host with
  | Err e => (s, w, Some e)
  | Ok addr =>
      match reg_Deregister (withdrawn s addr port) w with
      | (w, Some e) => (s, w, Some e)
      | (w, None) => (s <| registered := false |>, w, None)
      end
  end.

(** [Stop]: an error of closing the transport is only logged. *)
Definition server_Stop (s : rpcServer) : rpcServer := s <| transport := false |>.

(** ** [service] *)

(** A hook changes the world, or fails. *)
Definition hook : Type := W -> W * option string.

Record service := mkService_ {
  BeforeStart : list hook; AfterStart : list hook; BeforeStop : list hook; AfterStop : list hook;
  RegisterInterval : Z; server : rpcServer }.

Definition with_server (s : rpcServer) (v : service) : service :=
  mkService_ (BeforeStart v) (AfterStart v) (BeforeStop v) (AfterStop v) (RegisterInterval v) s.

(** Hooks before or after a start: the first error ends them. *)
Fixpoint run_hooks (hs : list hook) (w : W) : W * option string :=
  match hs with
  | [] => (w, None)
  | h :: hs => match h w with (w, Some e) => (w, Some e) | (w, None) => run_hooks hs w end
  end.

(** Hooks around a stop: all run, the last error is kept. *)
Fixpoint run_all_hooks (hs : list hook) (w : W) (gerr : option string) : W * option string :=
  match hs with
  | [] => (w, gerr)
  | h :: hs => match h w with (w, Some e) => run_all_hooks hs w (Some e) | (w, None) => run_all_hooks hs w gerr end
  end.

(** [Start]; the server's own [Start] does nothing. *)
Definition Start (v : service) (w : W) : service * W * option string :=
  match run_hooks (BeforeStart v) w with
  | (w, Some e) => (v, w, Some e)
  | (w, None) =>
      let '(s, w, err) := ServiceRegister (server v) w in
      let v := with_server s v in
      match err with
      | Some e => (v, w, Some e)
      | None => let '(w, err) := run_hooks (AfterStart v) w in (v, w, err)
      end
  end.

Definition service_Stop (v : service) (w : W) : service * W * option string :=
  let '(w, gerr) := run_all_hooks (BeforeStop v) w None in
  let '(s, w, err) := ServiceDeregister (server v) w in
  let v := with_server s v in
  match err with
  | Some e => (v, w, Some e)
  | None =>
      let v := with_server (server_Stop (server v)) v in
      let '(w, gerr) := run_all_hooks (AfterStop v) w gerr in
      (v, w, gerr)
  end.

(** One tick of [run]: an error is only logged. *)
Definition tick (v : service) (w : W) : service * W :=
  let '(s, w, _) := ServiceRegister (server v) w in (with_server s v, w).

Fixpoint ticks (n : nat) (v : service) (w : W) : service * W :=
  match n with
  | O => (v, w)
  | S n => let '(v, w) := tick v w in ticks n v w
  end.

(** [Wait]: the ticks taken until the context ends and the loop has left, none
    when there is no interval; then [Stop]. *)
Definition Wait (n : nat) (v : service) (w : W) : service * W * option string :=
  let n := if RegisterInterval v <=? 0 then O else n in
  let '(v, w) := ticks n v w in service_Stop v w.

Definition Run (n : nat) (v : service) (w : W) : service * W * option string :=
  match Start v w with
  | (v, w, Some e) => (v, w, Some e)
  | (v, w, None) => Wait n v w
  end.

(** [NewService] with the options a module gives: the server, the ttl (which goes
    to the server) and the interval. *)
Definition NewService (s : rpcServer) (ttl interval : Z) : service :=
  let o := opts s in mkService_ [] [] [] [] interval (s <| opts := o <| so_RegisterTTL := ttl |> |>).
End Server.
Arguments service W : clear implicits.

(** ** Consul as the registry *)

(** The agent's state, and the registry's own. *)
Record consul_world (W : Type) := mkConsulWorld { cw_registry : consulRegistry; cw_agent : W }.
Arguments mkConsulWorld {W}.
Arguments cw_registry {W}.
Arguments cw_agent {W}.

Definition consul_registry {W : Type} (zlib_deflate : bytes -> bytes) (marshal_endpoint : Endpoint -> option bytes)
    (marshal_kv : string -> string -> option bytes) (agent : consul_call -> W -> W * option string)
    (hash : Service -> result string Z) (range_map : option (gmap string string) -> list (string * string)) :
    RegistryOps (consul_world W) := {|
  reg_Register ttl s w :=
    let '(c, a, err) := Register zlib_deflate marshal_endpoint marshal_kv agent hash range_map ttl s (cw_registry w) (cw_agent w) in
    (mkConsulWorld c a, err);
  reg_Deregister s w :=
    let '(c, a, err) := Deregister agent s (cw_registry w) (cw_agent w) in (mkConsulWorld c a, err);
  reg_String := "consul" |}.
