(* ===== verification/Modules.v ===== *)
(** * Modules

    [BaseModule] of [module/base/base_module.go], which announces a module's
    service when the module is ready and takes it back when it is destroyed, and
    [ModuleManager] of [module/base/module_manager.go] with the two guarded calls
    of [module_agent.go], which start and stop all modules of a process.

    A module's own callbacks are a parameter.  What [BaseModule]
    forwards to the application or its listener is in [ModuleCalls]. *)
From S2P Require Import Prelude Registry Server.
#[local] Open Scope mq_scope.
#[local] Open Scope string_scope.
#[local] Open Scope list_scope.
#[local] Open Scope Z_scope.

Record ModuleSettings := mkModuleSettings { ms_ID : string; ms_ProcessID : string }.

(** ** [BaseModule] *)

Section BaseModule.
Context {W : Type} `{RegistryOps W} (ifaces : result string (list ip_addr)).

(** [b_service] is [None] before [OnInit]. *)
Record BaseModule := mkBaseModule { serviceStarted : bool; b_service : option (service W) }.

Definition GetServerID (m : BaseModule) : string :=
  match b_service m with Some v => id (server v) | None => "no server" end.

Definition GetInstanceID (m : BaseModule) : string :=
  match b_service m with Some v => instanceID (server v) | None => "" end.

(** What the module's surroundings provide when it is initialised: its type and
    version, the application's ttl and interval, generated ids, the transport, the
    clock, the host. *)
Record init_env := mkInitEnv {
  ie_GetType : string; ie_Version : string; ie_RegisterTTL : Z; ie_RegisterInterval : Z;
  ie_GenerateID : string; ie_DefaultID : string; ie_uuid : string; ie_now : Z;
  ie_transport : result string string; ie_hostname : string; ie_pid : string }.

(** The options added for what the module left open. *)
Definition default_options (e : init_env) (settings : option ModuleSettings) (opts : ServerOptions) : outcome (list Option) :=
  id_opt <- (if decide (so_ID opts = "") then
               match settings with
               | None => Panic "nil pointer dereference"
               | Some st => Ret [fun o => o <| so_ID := if decide (ms_ID st = "") then ie_GenerateID e else ms_ID st |>]
               end
             else Ret []);
  Ret ((if so_RegisterInterval opts =? 0 then [fun o => o <| so_RegisterInterval := ie_RegisterInterval e |>] else []) ++
       (if so_RegisterTTL opts =? 0 then [fun o => o <| so_RegisterTTL := ie_RegisterTTL e |>] else []) ++
       (if decide (so_Name opts = "") then [fun o => o <| so_Name := ie_GetType e |>] else []) ++ id_opt ++
       (if decide (so_Version opts = "") then [fun o => o <| so_Version := ie_Version e |>] else [])).

Definition OnInit (e : init_env) (settings : option ModuleSettings) (opt : list Option) (m : BaseModule) : outcome BaseModule :=
  more <- default_options e settings (apply_options opt);
  s <- newRPCServer (newOptions (ie_DefaultID e) (opt ++ more)) (ie_uuid e) (ie_now e);
  match server_OnInit (ie_transport e) s with
  | (_, Some _) => Panic "Server OnInit fail"
  | (s, None) =>
      let o := opts s in
      let md := so_Metadata o in
      let s := s <| opts := o <| so_Metadata := <["pid" := ie_pid e]> (<["hostname" := ie_hostname e]> md) |> |> in
      Ret (mkBaseModule (serviceStarted m) (Some (NewService s (ie_RegisterTTL e) (ie_RegisterInterval e))))
  end.

(** [OnReady]; [reset] is what resetting the selector does to the world.  The
    goroutine it starts is [Wait], whose steps are taken in [OnDestroy]. *)
Definition OnReady (reset : string -> W -> W) (m : BaseModule) (w : W) : outcome (BaseModule * W) :=
  match b_service m with
  | None => Panic "nil pointer dereference"
  | Some v =>
      match Start ifaces v w with
      | (_, _, Some _) => Panic "Service start fail"
      | (v, w, None) => Ret (mkBaseModule true (Some v), reset (so_Name (opts (server v))) w)
      end
  end.

(** [OnDestroy]: the context ends, the goroutine of [OnReady], which has taken [n]
    ticks since, stops the service, and the server is destroyed. *)
Definition OnDestroy (n : nat) (m : BaseModule) (w : W) : outcome (BaseModule * W) :=
  match b_service m with
  | None => Panic "nil pointer dereference"
  | Some v =>
      let '(v, w) := if serviceStarted m then let '(v, w, _) := Wait ifaces n v w in (v, w) else (v, w) in
      Ret (mkBaseModule (serviceStarted m) (Some (with_server (server_Stop (server v)) v)), w)
  end.
End BaseModule.
Arguments BaseModule W : clear implicits.

(** ** [ModuleManager] *)

(** [mi] is the module, by a name of its own; [closeSig] says that a signal is in the
    channel, which holds one; [running] counts the goroutines the wait group waits
    for. *)
Record ModuleAgent := mkModuleAgent { mi : nat; settings : option ModuleSettings; closeSig : bool; running : nat }.

(** The agents are shared by pointer between [mods] and [runMods]. *)
Record ModuleManager := mkModuleManager { agents : list ModuleAgent; mods : list nat; runMods : list nat }.

#[export] Instance eta_ModuleAgent : Eta ModuleAgent := fun r =>
  mkModuleAgent (mi r) (settings r) (closeSig r) (running r).
#[export] Instance eta_ModuleManager : Eta ModuleManager := fun r => mkModuleManager (agents r) (mods r) (runMods r).

Definition NewModuleManager : ModuleManager := mkModuleManager [] [] [].

Definition new_agent (m : nat) (mer : ModuleManager) : nat * ModuleManager :=
  let ags := agents mer in
  (length ags, mer <| agents := ags ++ [mkModuleAgent m None false 0] |>).

Definition Register (m : nat) (mer : ModuleManager) : ModuleManager :=
  let '(p, mer) := new_agent m mer in let ps := mods mer in mer <| mods := ps ++ [p] |>.

Definition RegisterRunMod (m : nat) (mer : ModuleManager) : ModuleManager :=
  let '(p, mer) := new_agent m mer in let ps := runMods mer in mer <| runMods := ps ++ [p] |>.

Definition set_agent (p : nat) (f : ModuleAgent -> ModuleAgent) (mer : ModuleManager) : ModuleManager :=
  let ags := agents mer in mer <| agents := alter f p ags |>.

(** The configuration: the settings of each module type, in the order the map is
    ranged over. *)
Abbreviation module_conf := (list (string * list ModuleSettings)).

(** [CheckModuleSettings]: the loops over the types and their settings, with [gid]
    and [pid]. *)
Fixpoint check_settings (Type_ : string) (sts : list ModuleSettings) (gid pid : gmap string string) : outcome (gmap string string) :=
  match sts with
  | [] => Ret gid
  | st :: sts =>
      match gid !! ms_ID st with
      | Some Stype => Panic ("ID (" ++ ms_ID st ++ ") been used in modules of type [" ++ Stype ++ "] and cannot be reused")
      | None =>
          match pid !! ms_ProcessID st with
          | Some id => Panic ("In the list of modules of type [" ++ Type_ ++ "], ProcessID (" ++ ms_ProcessID st
                                ++ ") has been used for ID module for (" ++ id ++ ")")
          | None => check_settings Type_ sts (<[ms_ID st := Type_]> gid) (<[ms_ProcessID st := ms_ID st]> pid)
          end
      end
  end.

Fixpoint check_types (conf : module_conf) (gid : gmap string string) : outcome unit :=
  match conf with
  | [] => Ret tt
  | (Type_, sts) :: conf => gid <- check_settings Type_ sts gid ∅; check_types conf gid
  end.

Definition CheckModuleSettings (conf : module_conf) : outcome unit := check_types conf ∅.

(** The settings of a type: the first match ends the loop over the types. *)
Fixpoint type_settings (T : string) (conf : module_conf) : list ModuleSettings :=
  match conf with
  | [] => []
  | (Type_, sts) :: conf => if decide (T = Type_) then sts else type_settings T conf
  end.

(** The calls on modules and what the manager starts and signals. *)
Inductive mod_event :=
| CallOnInit (m : nat) (st : option ModuleSettings)
| CallInited (m : nat)
| CallOnReady (m : nat)
| GoRun (m : nat)
| CloseSig (m : nat)
| CallOnDestroy (m : nat).

(** How a module's [Run] ends: on its signal, by itself, or never. *)
Inductive run_end := OnSignal | ByItself | Never.

Section Manager.
(** [panics t e]: what call [e] panics with after the history [t], if it does. *)
Context (GetType : nat -> string) (inited_hook : bool) (panics : list mod_event -> mod_event -> option string)
        (Run_end : nat -> run_end).

(** The history, and the panic that ended the code. *)
Abbreviation trace := (list mod_event).

Definition call (e : mod_event) (t : trace) : trace * option string := (t ++ [e], panics t e).

(** The loop over one module's settings. *)
Definition match_settings (ProcessID : string) (p : nat) (sts : list ModuleSettings) (mer : ModuleManager) : ModuleManager :=
  foldl (fun mer st =>
    if decide (ProcessID = ms_ProcessID st) then
      let ps := runMods mer in
      set_agent p (fun a => a <| settings := Some st |>) (mer <| runMods := ps ++ [p] |>)
    else mer) mer sts.

Definition agent_of (mer : ModuleManager) (p : nat) : ModuleAgent := default (mkModuleAgent 0 None false 0) (agents mer !! p).

Definition match_modules (conf : module_conf) (ProcessID : string) (mer : ModuleManager) : ModuleManager :=
  foldl (fun mer p => match_settings ProcessID p (type_settings (GetType (mi (agent_of mer p))) conf) mer) mer (mods mer).

(** [m.wg.Add(1); go run(m)] *)
Definition go_run (p : nat) (r : ModuleManager * trace) : ModuleManager * trace :=
  let '(mer, t) := r in
  let m := mi (agent_of mer p) in
  (set_agent p (fun a => let n := running a in a <| running := S n |>) mer, t ++ [GoRun m]).

(** The initialisation loop from index [i]; a panic leaves it, and the process. *)
Fixpoint init_loop (ps : list nat) (i : nat) (bootstrapCount : nat) (r : ModuleManager * trace) : ModuleManager * trace * option string :=
  match ps with
  | [] => (r, None)
  | p :: ps =>
      let '(mer, t) := r in
      let a := agent_of mer p in
      match call (CallOnInit (mi a) (settings a)) t with
      | (t, Some e) => (mer, t, Some e)
      | (t, None) =>
          match (if inited_hook then call (CallInited (mi a)) t else (t, None)) with
          | (t, Some e) => (mer, t, Some e)
          | (t, None) =>
              match call (CallOnReady (mi a)) t with
              | (t, Some e) => (mer, t, Some e)
              | (t, None) =>
                  let r := if Nat.ltb i bootstrapCount then go_run p (mer, t) else (mer, t) in
                  init_loop ps (S i) bootstrapCount r
              end
          end
      end
  end.

(** [Init]; [conf] is both the application's settings and the global
    configuration they are loaded into. *)
Definition Init (conf : module_conf) (ProcessID : string) (mer : ModuleManager) (t : trace) : ModuleManager * trace * option string :=
  match CheckModuleSettings conf with
  | Panic e => (mer, t, Some e)
  | Ret _ =>
      let bootstrapCount := length (runMods mer) in
      let mer := match_modules conf ProcessID mer in
      match init_loop (runMods mer) 0 bootstrapCount (mer, t) with
      | (r, Some e) => (r, Some e)
      | (mer, t, None) => (foldl (fun r p => go_run p r) (mer, t) (drop bootstrapCount (runMods mer)), None)
      end
  end.

(** [m.closeSig <- true] blocks when a signal is there already; [m.wg.Wait()] when
    a goroutine is left that does not end: each signal ends one. *)
Definition stop_agent (p : nat) (mer : ModuleManager) : option ModuleManager :=
  let a := agent_of mer p in
  if closeSig a then None
  else
    match Run_end (mi a), running a with
    | Never, S _ => None
    | OnSignal, S (S _) => None
    | OnSignal, S O => Some (set_agent p (fun a => a <| running := O |>) mer)
    | _, _ => Some (set_agent p (fun a => a <| running := O |> <| closeSig := true |>) mer)
    end.

(** [Destroy] goes through [runMods] from the end; [false]: it blocked.  A panic of
    [OnDestroy] is recovered. *)
Fixpoint destroy_loop (ps : list nat) (r : ModuleManager * trace) : ModuleManager * trace * bool :=
  match ps with
  | [] => (r, true)
  | p :: ps =>
      let '(mer, t) := r in
      let m := mi (agent_of mer p) in
      match stop_agent p mer with
      | None => (mer, t ++ [CloseSig m], false)
      | Some mer => destroy_loop ps (mer, fst (call (CallOnDestroy m) (t ++ [CloseSig m])))
      end
  end.

Definition Destroy (mer : ModuleManager) (t : trace) : ModuleManager * trace * bool :=
  destroy_loop (reverse (runMods mer)) (mer, t).
End Manager.
