(* ===== verification/ModulesTheorems.v ===== *)
(** * The order in which modules start and stop

    The checks of the configuration, and the calls of [Init] and [Destroy] as lists
    read off the registrations. *)
From S2P Require Import Prelude Registry Server Modules.
#[local] Open Scope mq_scope.
#[local] Open Scope string_scope.
#[local] Open Scope list_scope.
#[local] Open Scope Z_scope.

(** ** Agents by pointer *)

Definition valid (mer : ModuleManager) (p : nat) : Prop := (p < length (agents mer))%nat.

Lemma agent_of_set p f mer q : valid mer p ->
  agent_of (set_agent p f mer) q = if decide (q = p) then f (agent_of mer p) else agent_of mer q.
Proof.
  intros Hv. unfold agent_of, set_agent. cbn. destruct (decide (q = p)) as [->|Hne].
  - rewrite list_lookup_alter_eq. destruct (lookup_lt_is_Some_2 _ _ Hv) as [a ->]. done.
  - by rewrite list_lookup_alter_ne.
Qed.

Lemma valid_set p f mer q : valid (set_agent p f mer) q <-> valid mer q.
Proof. unfold valid, set_agent. cbn. by rewrite length_alter. Qed.

(** The manager differs in the agents only, and they at [ps] only, by [f]. *)
Record touched (ps : list nat) (f : nat -> ModuleAgent -> ModuleAgent) (mer mer' : ModuleManager) : Prop := {
  tc_agent p : agent_of mer' p = if decide (p ∈ ps) then f p (agent_of mer p) else agent_of mer p;
  tc_valid p : valid mer' p <-> valid mer p }.

Lemma touched_nil f mer : touched [] f mer mer.
Proof. by split. Qed.

Lemma touched_skip ps f p mer mer' : touched ps f mer mer' -> p ∉ ps -> f p (agent_of mer p) = agent_of mer p ->
  touched (p :: ps) f mer mer'.
Proof.
  intros [Ha Hv] Hp Hf. split; [|done]. intros q. rewrite Ha. destruct (decide (q = p)) as [->|].
  - by rewrite decide_False, decide_True, Hf by (done || apply list_elem_of_here).
  - destruct (decide (q ∈ ps)); destruct (decide (q ∈ p :: ps)); set_solver.
Qed.

Lemma touched_cons ps f p g mer mer1 mer' : valid mer p -> p ∉ ps -> f p (agent_of mer p) = g (agent_of mer p) ->
  (forall q, agent_of mer1 q = agent_of (set_agent p g mer) q) -> (forall q, valid mer1 q <-> valid mer q) ->
  touched ps f mer1 mer' -> touched (p :: ps) f mer mer'.
Proof.
  intros Hp Hni Hf H1 H2 [Ha Hv]. split; [|intros q; by rewrite Hv, H2]. intros q.
  rewrite Ha, H1, agent_of_set by done. destruct (decide (q = p)) as [->|].
  - by rewrite decide_False, decide_True, Hf by (done || apply list_elem_of_here).
  - destruct (decide (q ∈ ps)); destruct (decide (q ∈ p :: ps)); set_solver.
Qed.

(** ** The configuration *)

Definition mine (ProcessID : string) (sts : list ModuleSettings) : option ModuleSettings :=
  head (filter (fun st => ms_ProcessID st = ProcessID) sts).

(** IDs are unique over all types, process ids within each. *)
Definition settings_unique (conf : module_conf) : Prop :=
  NoDup (ms_ID <$> (conf ≫= snd)) /\ Forall (fun c => NoDup (ms_ProcessID <$> c.2)) conf.

Lemma check_settings_spec T sts : forall gid pid,
  (exists gid', check_settings T sts gid pid = Ret gid' /\ (forall i, is_Some (gid' !! i) <-> is_Some (gid !! i) \/ i ∈ ms_ID <$> sts)) /\
    NoDup (ms_ID <$> sts) /\ NoDup (ms_ProcessID <$> sts) /\
    Forall (fun st => gid !! ms_ID st = None /\ pid !! ms_ProcessID st = None) sts \/
  (exists e, check_settings T sts gid pid = Panic e) /\
    ~ (NoDup (ms_ID <$> sts) /\ NoDup (ms_ProcessID <$> sts) /\
       Forall (fun st => gid !! ms_ID st = None /\ pid !! ms_ProcessID st = None) sts).
Proof.
  induction sts as [|st sts IH]; intros gid pid; cbn [check_settings].
  { left. split; [exists gid|split_and!; by constructor]. split; [done|]. intros i. set_solver. }
  destruct (gid !! ms_ID st) eqn:Eg.
  { right. split; [by eexists|]. intros (_ & _ & [[Hg _] _]%Forall_cons). by rewrite Eg in Hg. }
  destruct (pid !! ms_ProcessID st) eqn:Ep.
  { right. split; [by eexists|]. intros (_ & _ & [[_ Hp] _]%Forall_cons). by rewrite Ep in Hp. }
  assert (Hsplit : Forall (fun st' => <[ms_ID st := T]> gid !! ms_ID st' = None /\ <[ms_ProcessID st := ms_ID st]> pid !! ms_ProcessID st' = None) sts
            <-> Forall (fun st' => gid !! ms_ID st' = None /\ pid !! ms_ProcessID st' = None) sts /\
                ms_ID st ∉ ms_ID <$> sts /\ ms_ProcessID st ∉ ms_ProcessID <$> sts).
  { clear. induction sts as [|st' sts IH]; [split; [intros _; split_and!; [constructor|apply not_elem_of_nil..]|constructor]|].
    rewrite !Forall_cons, !fmap_cons, !not_elem_of_cons, IH, !lookup_insert_None. naive_solver. }
  destruct (IH (<[ms_ID st := T]> gid) (<[ms_ProcessID st := ms_ID st]> pid)) as [((gid' & E & Hd) & H1 & H2 & H3)|(E & Hn)].
  - left. apply Hsplit in H3 as (H3 & H4 & H5). split; [exists gid'; split; [done|]|].
    + intros i. rewrite Hd, fmap_cons, elem_of_cons, lookup_insert_is_Some'. naive_solver.
    + rewrite !fmap_cons, !NoDup_cons, Forall_cons. done.
  - right. split; [done|]. rewrite !fmap_cons, !NoDup_cons, Forall_cons. rewrite Hsplit in Hn. tauto.
Qed.

Lemma check_types_spec conf : forall gid,
  (check_types conf gid = Ret tt <-> settings_unique conf /\ Forall (fun st => gid !! ms_ID st = None) (conf ≫= snd)).
Proof.
  unfold settings_unique. induction conf as [|[T sts] conf IH]; intros gid; cbn [check_types].
  { split; [intros _|done]. split; [split|]; by constructor. }
  rewrite bind_cons, fmap_app, NoDup_app, Forall_app, Forall_cons. cbn [snd].
  destruct (check_settings_spec T sts gid ∅) as [((gid' & -> & Hd) & H1 & H2 & H3)|((e & ->) & Hn)]; cbn [outcome_bind].
  - rewrite (IH gid'). split.
    + intros ((Hc & Hp) & Hg). rewrite Forall_forall in Hg. split_and!; [done| |done|done|done| |].
      * intros i Hi (st & -> & Hst)%list_elem_of_fmap. specialize (Hg st Hst).
        assert (is_Some (gid' !! ms_ID st)) as [? ?] by (apply Hd; by right). congruence.
      * eapply Forall_impl; [exact H3|]. naive_solver.
      * apply Forall_forall. intros st Hst. apply eq_None_not_Some. intros Hs.
        specialize (Hg st Hst). apply eq_None_not_Some in Hg. apply Hg. apply Hd. by left.
    + intros (((_ & Hx & Hc) & _ & Hp) & _ & Hg). split; [done|]. rewrite Forall_forall in Hg |- *. intros st Hst.
      apply eq_None_not_Some. intros [Hs|Hi]%Hd; [destruct Hs as [? Hs]; rewrite (Hg st Hst) in Hs; done|].
      apply (Hx _ Hi). by apply list_elem_of_fmap_2.
  - split; [done|]. intros (((Ha & _ & _) & Hb & _) & Hg & _). destruct Hn. split_and!; [done..|].
    eapply Forall_impl; [exact Hg|]. intros st Hst. split; [done | apply lookup_empty].
Qed.

Lemma CheckModuleSettings_spec conf : CheckModuleSettings conf = Ret tt <-> settings_unique conf.
Proof.
  unfold CheckModuleSettings. rewrite check_types_spec. split; [by intros [? _]|]. intros H. split; [done|].
  apply Forall_forall. intros st _. apply lookup_empty.
Qed.

Lemma filter_ext_in {A} (P Q : A -> Prop) `{!forall x, Decision (P x)} `{!forall x, Decision (Q x)} l :
  Forall (fun x => P x <-> Q x) l -> filter P l = filter Q l.
Proof.
  induction 1 as [|x l Hx Hl IH]; [done|]. rewrite !filter_cons, IH.
  destruct (decide (P x)), (decide (Q x)); tauto.
Qed.

(** ** Choosing the modules of the process *)

Section Manager.
Context (GetType : nat -> string) (inited_hook : bool) (panics : list mod_event -> mod_event -> option string)
        (Run_end : nat -> run_end) (conf : module_conf) (ProcessID : string) (Hconf : settings_unique conf).

(** The settings a module runs with in this process. *)
Definition chosen (m : nat) : option ModuleSettings := mine ProcessID (type_settings (GetType m) conf).

Definition choose (a : ModuleAgent) : ModuleAgent :=
  match chosen (mi a) with Some st => a <| settings := Some st |> | None => a end.

Lemma type_settings_unique T : NoDup (ms_ProcessID <$> type_settings T conf).
Proof using Hconf.
  destruct Hconf as [_ Hp]. clear Hconf. induction Hp as [|[T' sts] c' Hd Hp IH]; cbn [type_settings]; [constructor|].
  by destruct (decide (T = T')).
Qed.

Lemma match_settings_none p sts mer : Forall (fun st => ms_ProcessID st <> ProcessID) sts -> match_settings ProcessID p sts mer = mer.
Proof. induction 1; [done|]. cbn. by rewrite decide_False by congruence. Qed.

Lemma match_settings_spec p sts mer : NoDup (ms_ProcessID <$> sts) ->
  match_settings ProcessID p sts mer =
    match mine ProcessID sts with
    | Some st => let ps := runMods mer in set_agent p (fun a => a <| settings := Some st |>) (mer <| runMods := ps ++ [p] |>)
    | None => mer
    end.
Proof.
  unfold mine. induction sts as [|st sts IH]; [done|]. rewrite fmap_cons, NoDup_cons. intros [Hni Hnd].
  rewrite filter_cons. unfold match_settings in *. cbn [foldl].
  destruct (decide (ms_ProcessID st = ProcessID)) as [E|E].
  - rewrite decide_True by done. cbn [head]. apply match_settings_none. apply Forall_forall. intros st' Hst' E'.
    apply Hni. rewrite E, <- E'. by apply list_elem_of_fmap_2.
  - rewrite decide_False by congruence. by apply IH.
Qed.

Abbreviation add_chosen := (fun mer p => match_settings ProcessID p (type_settings (GetType (mi (agent_of mer p))) conf) mer).

Lemma match_modules_spec ps : forall mer, NoDup ps -> Forall (valid mer) ps ->
  let mer' := foldl add_chosen mer ps in
  touched ps (fun _ => choose) mer mer' /\
  runMods mer' = runMods mer ++ filter (fun p => is_Some (chosen (mi (agent_of mer p)))) ps.
Proof using Hconf.
  induction ps as [|p ps IH]; intros mer Hnd Hv mer'.
  { split; [apply touched_nil | by rewrite filter_nil, app_nil_r]. }
  apply NoDup_cons in Hnd as [Hni Hnd]. apply Forall_cons in Hv as [Hp Hv]. rewrite filter_cons.
  assert (Hms := match_settings_spec p _ mer (type_settings_unique (GetType (mi (agent_of mer p))))).
  fold (chosen (mi (agent_of mer p))) in Hms. subst mer'. cbn [foldl]. rewrite Hms.
  destruct (chosen (mi (agent_of mer p))) as [st|] eqn:Ec; cbn zeta.
  - rewrite decide_True by by eexists.
    set (mer1 := set_agent p _ _). assert (Hv1 : forall q, valid mer1 q <-> valid mer q) by (intros q; unfold valid, mer1, set_agent; cbn; by rewrite length_alter).
    assert (Ha1 : forall q, agent_of mer1 q = agent_of (set_agent p (fun a => a <| settings := Some st |>) mer) q) by done.
    destruct (IH mer1 Hnd) as [Ht Hr].
    { eapply Forall_impl; [exact Hv|]. intros q Hq. by apply Hv1. }
    split.
    + eapply touched_cons; [exact Hp|exact Hni| |exact Ha1|exact Hv1|exact Ht]. unfold choose. by rewrite Ec.
    + rewrite Hr. change (runMods mer1) with (runMods mer ++ [p]). rewrite <- app_assoc. f_equal. cbn [app]. f_equal.
      apply filter_ext_in. apply Forall_forall. intros q Hq. rewrite Ha1, agent_of_set by done.
      by rewrite decide_False by (intros ->; done).
  - rewrite decide_False by by intros [??].
    destruct (IH mer Hnd Hv) as [Ht Hr]. split; [|done]. apply touched_skip; [done..|]. unfold choose. by rewrite Ec.
Qed.

(** ** The calls of [Init] *)

Definition data (mer : ModuleManager) (p : nat) : nat * option ModuleSettings :=
  let a := agent_of mer p in (mi a, settings a).

(** What a module is called with until it is ready. *)
Definition block (d : nat * option ModuleSettings) : list mod_event :=
  CallOnInit d.1 d.2 :: (if inited_hook then [CallInited d.1] else []) ++ [CallOnReady d.1].

(** The loop's calls from index [i]: the first [bc] modules run at once. *)
Fixpoint starts (i bc : nat) (ds : list (nat * option ModuleSettings)) : list mod_event :=
  match ds with
  | [] => []
  | d :: ds => block d ++ (if Nat.ltb i bc then [GoRun d.1] else []) ++ starts (S i) bc ds
  end.

Definition may_panic (e : mod_event) : bool := match e with GoRun _ => false | _ => true end.

(** The calls of a list until one panics. *)
Fixpoint play (evs t : list mod_event) : list mod_event * option string :=
  match evs with
  | [] => (t, None)
  | e :: evs => match (if may_panic e then panics t e else None) with Some x => (t ++ [e], Some x) | None => play evs (t ++ [e]) end
  end.

Lemma play_spec evs : forall t,
  (play evs t = (t ++ evs, None)) \/
  exists pre e post x, evs = pre ++ e :: post /\ may_panic e = true /\ panics (t ++ pre) e = Some x /\ play evs t = (t ++ pre ++ [e], Some x).
Proof.
  induction evs as [|e evs IH]; intros t; cbn [play]; [left; by rewrite app_nil_r|].
  destruct (if may_panic e then panics t e else None) as [x|] eqn:Ep.
  - right. exists [], e, evs, x. rewrite app_nil_r. destruct (may_panic e); naive_solver.
  - destruct (IH (t ++ [e])) as [->|(pre & e' & post & x & -> & Hm & Hp & ->)]; rewrite <- !app_assoc in *; [by left|].
    right. by exists (e :: pre), e', post, x.
Qed.

Definition one_more (a : ModuleAgent) : ModuleAgent := let n := running a in a <| running := S n |>.

Definition bump (p : nat) (mer : ModuleManager) : ModuleManager := set_agent p one_more mer.

Definition bumps (ps : list nat) (mer : ModuleManager) : ModuleManager := foldl (fun mer p => bump p mer) mer ps.

Lemma data_bump p mer q : data (bump p mer) q = data mer q.
Proof.
  unfold data, agent_of, bump, set_agent. cbn. destruct (decide (q = p)) as [->|].
  - rewrite list_lookup_alter_eq. by destruct (agents mer !! p).
  - by rewrite list_lookup_alter_ne.
Qed.

Lemma data_bumps ps : forall mer q, data (bumps ps mer) q = data mer q.
Proof. induction ps as [|p ps IH]; intros mer q; [done|]. cbn. fold (bumps ps (bump p mer)). by rewrite IH, data_bump. Qed.

Lemma runMods_bumps ps : forall mer, runMods (bumps ps mer) = runMods mer.
Proof. induction ps as [|p ps IH]; intros mer; [done|]. by etransitivity; [apply IH|]. Qed.

Lemma init_loop_spec bc ps : forall i mer t, exists mer',
  init_loop inited_hook panics ps i bc (mer, t) =
    (mer', fst (play (starts i bc (data mer <$> ps)) t), snd (play (starts i bc (data mer <$> ps)) t)) /\
  (snd (play (starts i bc (data mer <$> ps)) t) = None -> mer' = bumps (take (bc - i) ps) mer).
Proof.
  induction ps as [|p ps IH]; intros i mer t; cbn [init_loop fmap list_fmap starts]; [exists mer; by rewrite take_nil|].
  unfold call, block. cbn [play app may_panic]. change (data mer p).1 with (mi (agent_of mer p)).
  change (data mer p).2 with (settings (agent_of mer p)).
  destruct (panics t _); [by exists mer|].
  set (t1 := t ++ [_]). set (m := mi (agent_of mer p)).
  assert (Hrest : forall t2, exists mer',
    (let '(t, o) := (t2 ++ [CallOnReady m], panics t2 (CallOnReady m)) in
     match o with
     | Some e => (mer, t, Some e)
     | None => init_loop inited_hook panics ps (S i) bc (if Nat.ltb i bc then go_run p (mer, t) else (mer, t))
     end) =
      (mer', fst (play ([CallOnReady m] ++ (if Nat.ltb i bc then [GoRun m] else []) ++ starts (S i) bc (data mer <$> ps)) t2),
       snd (play ([CallOnReady m] ++ (if Nat.ltb i bc then [GoRun m] else []) ++ starts (S i) bc (data mer <$> ps)) t2)) /\
      (snd (play ([CallOnReady m] ++ (if Nat.ltb i bc then [GoRun m] else []) ++ starts (S i) bc (data mer <$> ps)) t2) = None ->
       mer' = bumps (take (bc - i) (p :: ps)) mer)).
  { intros t2. cbn [app play may_panic]. destruct (panics t2 _); [by exists mer|].
    destruct (Nat.ltb_spec i bc) as [Hi|Hi]; cbn [app play may_panic go_run].
    - destruct (IH (S i) (bump p mer) ((t2 ++ [CallOnReady m]) ++ [GoRun m])) as (mer' & E & Hm).
      rewrite (list_fmap_ext (data (bump p mer)) (data mer) ps) in * by (intros; apply data_bump).
      exists mer'. split; [exact E|]. intros H. rewrite (Hm H). by replace (bc - i)%nat with (S (bc - S i)) by lia.
    - destruct (IH (S i) mer (t2 ++ [CallOnReady m])) as (mer' & E & Hm). exists mer'. split; [exact E|]. intros H.
      rewrite (Hm H). by replace (bc - i)%nat with 0%nat by lia; replace (bc - S i)%nat with 0%nat by lia. }
  destruct inited_hook; cbn [app play may_panic]; [|apply Hrest].
  destruct (panics t1 _); [by exists mer|]. apply Hrest.
Qed.

Lemma go_runs ps : forall mer t,
  foldl (fun r p => go_run p r) (mer, t) ps = (bumps ps mer, t ++ ((fun p => GoRun (data mer p).1) <$> ps)).
Proof.
  induction ps as [|p ps IH]; intros mer t; [by rewrite app_nil_r|]. cbn [foldl go_run]. change (set_agent p _ mer) with (bump p mer). rewrite IH, <- app_assoc.
  rewrite (list_fmap_ext (fun q => GoRun (data (bump p mer) q).1) (fun q => GoRun (data mer q).1) ps); [done|].
  intros. by rewrite data_bump.
Qed.

(** ** The calls of [Destroy] *)

Lemma bumps_touched ps : forall mer, NoDup ps -> Forall (valid mer) ps ->
  touched ps (fun _ => one_more) mer (bumps ps mer) /\ runMods (bumps ps mer) = runMods mer.
Proof.
  induction ps as [|p ps IH]; intros mer Hnd Hv; [split; [apply touched_nil | done]|].
  apply NoDup_cons in Hnd as [Hni Hnd]. apply Forall_cons in Hv as [Hp Hv].
  destruct (IH (bump p mer) Hnd) as [Ht Hr].
  { eapply Forall_impl; [exact Hv|]. intros q Hq. by apply valid_set. }
  split; [|by etransitivity; [exact Hr|]].
  apply (touched_cons ps _ p one_more mer (bump p mer)); [done..| |exact Ht]. intros q. apply valid_set.
Qed.

Definition stop_block (m : nat) : list mod_event := [CloseSig m; CallOnDestroy m].

(** An agent whose module runs once and has not been told to stop. *)
Definition runs (a : ModuleAgent) : Prop := closeSig a = false /\ running a = 1%nat /\ Run_end (mi a) <> Never.

Lemma stop_agent_runs mer p : runs (agent_of mer p) -> exists f, stop_agent Run_end p mer = Some (set_agent p f mer).
Proof.
  intros (Hc & Hr & He). unfold stop_agent. rewrite Hc, Hr. destruct (Run_end _); [by eexists..|done].
Qed.

(** An agent that runs a module that never ends blocks [Destroy]. *)
Lemma destroy_loop_blocks p : forall ps mer t,
  p ∈ ps -> Run_end (mi (agent_of mer p)) = Never -> running (agent_of mer p) <> O ->
  exists mer' t', destroy_loop panics Run_end ps (mer, t) = (mer', t', false).
Proof.
  induction ps as [|q ps IH]; intros mer t Hin Hn Hr; [by apply elem_of_nil in Hin|]. cbn [destroy_loop].
  destruct (stop_agent Run_end q mer) as [mer1|] eqn:E; [|by eauto].
  assert (Hq : p <> q /\ exists f, mer1 = set_agent q f mer).
  { unfold stop_agent in E. split.
    - intros <-. rewrite Hn in E. destruct (closeSig _), (running _); congruence.
    - repeat case_match; simplify_eq; by eexists. }
  destruct Hq as (Hne & f & ->). apply elem_of_cons in Hin as [?|Hin]; [done|].
  assert (Hp : agent_of (set_agent q f mer) p = agent_of mer p).
  { unfold agent_of, set_agent. cbn. by rewrite list_lookup_alter_ne by done. }
  apply IH; by rewrite ?Hp.
Qed.

Lemma destroy_loop_spec ps : forall mer t, NoDup ps -> Forall (valid mer) ps -> Forall (fun p => runs (agent_of mer p)) ps ->
  exists mer', destroy_loop panics Run_end ps (mer, t) = (mer', t ++ (ps ≫= fun p => stop_block (mi (agent_of mer p))), true).
Proof.
  induction ps as [|p ps IH]; intros mer t Hnd Hv Hr; [exists mer; by rewrite app_nil_r|].
  apply NoDup_cons in Hnd as [Hni Hnd]. apply Forall_cons in Hv as [Hp Hv]. apply Forall_cons in Hr as [Hrp Hr].
  cbn [destroy_loop]. destruct (stop_agent_runs mer p Hrp) as [f ->]. unfold call. cbn [fst].
  assert (Hsame : forall q, q ∈ ps -> agent_of (set_agent p f mer) q = agent_of mer q).
  { intros q Hq. rewrite agent_of_set by done. by rewrite decide_False by (intros ->; done). }
  destruct (IH (set_agent p f mer) ((t ++ [CloseSig (mi (agent_of mer p))]) ++ [CallOnDestroy (mi (agent_of mer p))]) Hnd) as (mer' & ->).
  - eapply Forall_impl; [exact Hv|]. intros q. apply valid_set.
  - rewrite Forall_forall in Hr |- *. intros q Hq. rewrite Hsame by done. by apply Hr.
  - exists mer'. f_equal. f_equal. rewrite bind_cons, <- !app_assoc. cbn. do 3 f_equal. clear -Hsame.
    induction ps as [|q ps IH]; [done|]. cbn. rewrite Hsame by apply list_elem_of_here. cbn. do 2 f_equal.
    apply IH. intros q' Hq'. apply Hsame. by apply list_elem_of_further.
Qed.

(** ** Registered managers *)

Definition register_all (regs : list (bool * nat)) : ModuleManager :=
  foldl (fun mer (r : bool * nat) => if r.1 then RegisterRunMod r.2 mer else Register r.2 mer) NewModuleManager regs.

(** The modules registered to run anyhow ([true]), and the others. *)
Definition registered_as (b : bool) (regs : list (bool * nat)) : list nat := (filter (fun r => r.1 = b) regs).*2.

Definition fresh (a : ModuleAgent) : Prop := settings a = None /\ closeSig a = false /\ running a = O.

Record registered (regs : list (bool * nat)) (mer : ModuleManager) : Prop := {
  rg_nodup : NoDup (runMods mer ++ mods mer);
  rg_valid : Forall (valid mer) (runMods mer ++ mods mer);
  rg_fresh p : fresh (agent_of mer p);
  rg_run : (fun p => mi (agent_of mer p)) <$> runMods mer = registered_as true regs;
  rg_mods : (fun p => mi (agent_of mer p)) <$> mods mer = registered_as false regs }.

Lemma agent_of_new m mer q : agent_of (new_agent m mer).2 q = if decide (q = length (agents mer)) then mkModuleAgent m None false 0 else agent_of mer q.
Proof.
  unfold agent_of, new_agent. cbn. destruct (decide (q = length (agents mer))) as [->|Hq].
  - by rewrite lookup_app_r, Nat.sub_diag by lia.
  - destruct (decide (q < length (agents mer))%nat) as [Hl|Hl]; [by rewrite lookup_app_l|].
    rewrite (lookup_ge_None_2 (agents mer)), lookup_ge_None_2 by (rewrite ?length_app; cbn; lia). done.
Qed.

Lemma registered_as_snoc b regs r : registered_as b (regs ++ [r]) = registered_as b regs ++ if decide (r.1 = b) then [r.2] else [].
Proof. unfold registered_as. rewrite filter_app, fmap_app, filter_cons, filter_nil. by destruct (decide _). Qed.

Lemma register_all_registered regs : registered regs (register_all regs).
Proof using.
  clear -regs. induction regs as [|[b m] regs IH] using rev_ind; [by split; constructor|].
  unfold register_all. rewrite foldl_app. fold (register_all regs). cbn [foldl fst snd].
  set (mer := register_all regs) in *. destruct IH as [Hnd Hv Hf Hr Hm].
  pose proof (agent_of_new m mer) as Ha. set (mer1 := (new_agent m mer).2) in *. set (p := length (agents mer)) in *.
  assert (Hp : p ∉ runMods mer ++ mods mer).
  { intros Hin. rewrite Forall_forall in Hv. specialize (Hv p Hin). unfold valid, p in Hv. lia. }
  assert (Hold : forall l : list nat, (forall q, q ∈ l -> q ∈ runMods mer ++ mods mer) -> (fun q => mi (agent_of mer1 q)) <$> l = (fun q => mi (agent_of mer q)) <$> l).
  { intros l Hl. apply list_fmap_ext. intros i q Hq. apply list_elem_of_lookup_2, Hl in Hq. rewrite Ha, decide_False; [done|]. by intros ->. }
  assert (Hvalid : forall q, q ∈ p :: (runMods mer ++ mods mer) -> valid mer1 q).
  { intros q Hq. unfold valid, mer1, new_agent. cbn. rewrite length_app. cbn. apply elem_of_cons in Hq as [->|Hq]; [unfold p; lia|].
    rewrite Forall_forall in Hv. specialize (Hv q Hq). unfold valid in Hv. lia. }
  destruct b.
  - change (RegisterRunMod m mer) with (mkModuleManager (agents mer1) (mods mer) (runMods mer ++ [p])).
    assert (Hperm : (runMods mer ++ [p]) ++ mods mer ≡ₚ p :: (runMods mer ++ mods mer)) by solve_Permutation.
    split; cbn [runMods mods]; change (agent_of (mkModuleManager _ _ _)) with (agent_of mer1);
      change (valid (mkModuleManager _ _ _)) with (valid mer1).
    + rewrite Hperm. by apply NoDup_cons.
    + rewrite Hperm. by apply Forall_forall.
    + intros q. rewrite Ha. by destruct (decide _); [|apply Hf].
    + rewrite registered_as_snoc, <- Hr, fmap_app, Hold by set_solver. cbn. by rewrite Ha, decide_True.
    + rewrite registered_as_snoc, <- Hm, app_nil_r. apply (Hold (mods mer)). set_solver.
  - change (Register m mer) with (mkModuleManager (agents mer1) (mods mer ++ [p]) (runMods mer)).
    assert (Hperm : runMods mer ++ (mods mer ++ [p]) ≡ₚ p :: (runMods mer ++ mods mer)) by solve_Permutation.
    split; cbn [runMods mods]; change (agent_of (mkModuleManager _ _ _)) with (agent_of mer1);
      change (valid (mkModuleManager _ _ _)) with (valid mer1).
    + rewrite Hperm. by apply NoDup_cons.
    + rewrite Hperm. by apply Forall_forall.
    + intros q. rewrite Ha. by destruct (decide _); [|apply Hf].
    + rewrite registered_as_snoc, <- Hr, app_nil_r. apply (Hold (runMods mer)). set_solver.
    + rewrite registered_as_snoc, <- Hm, fmap_app, Hold by set_solver. cbn. by rewrite Ha, decide_True.
Qed.

(** ** [Init] on a registered manager *)

Definition bootstrap (regs : list (bool * nat)) : list (nat * option ModuleSettings) :=
  (fun m => (m, None)) <$> registered_as true regs.

(** The other modules that run in this process, with their settings. *)
Definition configured (regs : list (bool * nat)) : list (nat * option ModuleSettings) :=
  omap (fun m => st ← chosen m; Some (m, Some st)) (registered_as false regs).

Lemma starts_app l1 l2 : forall i,
  starts i (i + length l1) (l1 ++ l2) = (l1 ≫= fun d => block d ++ [GoRun d.1]) ++ (l2 ≫= block).
Proof.
  induction l1 as [|d l1 IH]; intros i.
  - assert (Hge : forall l i bc, (bc <= i)%nat -> starts i bc l = l ≫= block).
    { clear i. induction l as [|d l IH]; intros i bc Hi; [done|]. cbn [starts]. rewrite (proj2 (Nat.ltb_ge i bc)), IH by lia. done. }
    cbn [app length]. rewrite Nat.add_0_r. apply Hge. lia.
  - cbn [app length starts]. rewrite (proj2 (Nat.ltb_lt i _)) by (cbn; lia).
    replace (i + S (length l1))%nat with (S i + length l1)%nat by lia. rewrite IH, bind_cons, <- !app_assoc. done.
Qed.

(** What [match_modules] makes of a registered manager. *)
Record matched (regs : list (bool * nat)) (mer : ModuleManager) : Prop := {
  mt_nodup : NoDup (runMods mer);
  mt_valid : Forall (valid mer) (runMods mer);
  mt_idle p : closeSig (agent_of mer p) = false /\ running (agent_of mer p) = O;
  mt_data : data mer <$> runMods mer = bootstrap regs ++ configured regs }.

Lemma match_modules_matched regs : matched regs (match_modules GetType conf ProcessID (register_all regs)).
Proof using Hconf.
  destruct (register_all_registered regs) as [Hnd Hv Hf Hr Hm]. set (mer := register_all regs) in *.
  apply NoDup_app in Hnd as (Hnd1 & Hdis & Hnd2). apply Forall_app in Hv as [Hv1 Hv2].
  destruct (match_modules_spec (mods mer) mer Hnd2 Hv2) as [[Ha Hval] Hrun].
  fold (match_modules GetType conf ProcessID mer) in *. set (mer' := match_modules _ _ _ mer) in *.
  set (P := fun p => is_Some (chosen (mi (agent_of mer p)))) in *.
  assert (Hch : forall a, fresh a -> closeSig (choose a) = false /\ running (choose a) = O).
  { intros a (_ & ? & ?). unfold choose. by destruct (chosen (mi a)). }
  split.
  - rewrite Hrun. apply NoDup_app. split_and!; [done| |by apply NoDup_filter].
    intros p Hp [_ Hp2]%list_elem_of_filter. by apply (Hdis p).
  - rewrite Hrun. apply Forall_app. split; apply Forall_forall; intros p Hp; apply Hval.
    + by eapply Forall_forall in Hv1.
    + apply list_elem_of_filter in Hp as [_ Hp]. by eapply Forall_forall in Hv2.
  - intros p. rewrite Ha. destruct (decide _); [apply Hch, Hf|]. by destruct (Hf p) as (? & ? & ?).
  - rewrite Hrun, fmap_app. f_equal.
    + unfold bootstrap. rewrite <- Hr, <- list_fmap_compose. apply list_fmap_ext. intros i p Hp%list_elem_of_lookup_2. cbn.
      unfold data. rewrite Ha, decide_False by (intros Hp2; by apply (Hdis p)). by destruct (Hf p) as [-> _].
    + unfold configured. rewrite <- Hm. clear Hrun Hm Hnd2 Hdis.
      assert (Hdata : forall p, p ∈ mods mer -> data mer' p = data (set_agent p choose mer) p).
      { intros p Hp. unfold data. rewrite Ha, agent_of_set by (by eapply Forall_forall in Hv2). by rewrite decide_True, decide_True. }
      clear Ha. induction (mods mer) as [|p ps IH]; [done|]. rewrite filter_cons. apply Forall_cons in Hv2 as [Hp Hv2].
      cbn [fmap list_fmap omap list_omap]. unfold P at 1.
      assert (Hd := Hdata p (list_elem_of_here p ps)). unfold data in Hd. rewrite agent_of_set, decide_True in Hd by done.
      unfold choose in Hd. destruct (decide (is_Some (chosen (mi (agent_of mer p))))) as [[st Ec]|Hn].
      * rewrite Ec in *. cbn [fmap list_fmap mbind option_bind]. unfold data at 1. rewrite Hd. cbn. f_equal.
        apply IH; [done|].
        intros q Hq. apply Hdata. by apply list_elem_of_further.
      * apply eq_None_not_Some in Hn as ->. cbn. apply IH; [done|]. intros q Hq. apply Hdata. by apply list_elem_of_further.
Qed.
End Manager.

(** [ModuleManager.Init] and [Destroy] keep their order.  If an ID occurs twice
    in the configuration, or a process id twice under one type, [Init] panics
    before any call.  Otherwise its calls are, in the order of registration: for each
    bootstrap module [OnInit], the hook, [OnReady] and the start of [Run]; for each
    module configured for this process, with its settings, the same without
    [Run]; and when all are ready, the [Run] of these.  A panic ends [Init] with the
    call that panicked, and then no configured module runs.  After a complete [Init],
    if every [Run] ends, [Destroy] does not block and stops each module once, in
    reverse order, though any [OnDestroy] panics; and if one does not end, it blocks. *)
Lemma modules_start_and_stop_in_order
  (GetType : nat -> string) (inited_hook : bool) (panics : list mod_event -> mod_event -> option string)
  (Run_end : nat -> run_end) (conf : module_conf) (ProcessID : string) (regs : list (bool * nat)) :
  let first := bootstrap regs in
  let later := configured GetType conf ProcessID regs in
  let ready := (first ≫= fun d => block inited_hook d ++ [GoRun d.1]) ++ (later ≫= block inited_hook) in
  let '(mer, t, err) := Init GetType inited_hook panics conf ProcessID (register_all regs) [] in
  (~ settings_unique conf -> is_Some err /\ t = []) /\
  (settings_unique conf ->
    match err with
    | Some e => exists pre ev post, ready = pre ++ ev :: post /\ t = pre ++ [ev] /\ panics pre ev = Some e
    | None => t = ready ++ (GoRun ∘ fst <$> later) /\
        forall t0, Forall (fun d => Run_end d.1 <> Never) (first ++ later) ->
          exists mer', Destroy panics Run_end mer t0 = (mer', t0 ++ (reverse (first ++ later) ≫= fun d => stop_block d.1), true)
    end /\
    (err = None -> forall t0, Exists (fun d => Run_end d.1 = Never) (first ++ later) ->
      exists mer' t', Destroy panics Run_end mer t0 = (mer', t', false))).
Proof.
  intros first later ready. unfold Init.
  destruct (CheckModuleSettings conf) as [[]|e] eqn:Ec.
  2: { split; [done|]. intros Hu%CheckModuleSettings_spec. congruence. }
  apply CheckModuleSettings_spec in Ec.
  assert (Hbc : length (runMods (register_all regs)) = length first).
  { unfold first, bootstrap. by rewrite <- (rg_run _ _ (register_all_registered regs)), !length_fmap. }
  rewrite Hbc. destruct (match_modules_matched GetType conf ProcessID Ec regs) as [Hnd Hv Hi Hd].
  set (mer := match_modules _ _ _ _) in *. fold first later in Hd.
  destruct (init_loop_spec inited_hook panics (length first) (runMods mer) 0 mer []) as (mer' & -> & Hm).
  rewrite Hd, (starts_app inited_hook first later 0 : starts _ _ (length first) _ = _) in *. fold ready in Hm |- *.
  destruct (play_spec panics ready []) as [E|(pre & ev & post & x & E & _ & Hp & E')].
  2: { rewrite E'. cbn. split; [done|]. intros _. split; [by exists pre, ev, post|done]. }
  rewrite E in *. cbn [fst snd app] in *. rewrite go_runs, (Hm eq_refl), Nat.sub_0_r.
  split; [done|]. intros _.
  destruct (bumps_touched (runMods mer) mer Hnd Hv) as [[Ha Hval] Hr].
  assert (Hmi : forall p, mi (agent_of (bumps (runMods mer) mer) p) = (data mer p).1).
  { intros p. by rewrite <- (data_bumps (runMods mer) mer p). }
  assert (Hbumps : forall bc, bumps (drop bc (runMods mer)) (bumps (take bc (runMods mer)) mer) = bumps (runMods mer) mer).
  { intros bc. unfold bumps. by rewrite <- foldl_app, take_drop. }
  rewrite runMods_bumps, Hbumps. split_and!.
  - f_equal. rewrite (list_fmap_ext _ ((GoRun ∘ fst) ∘ data mer)) by (intros; unfold compose; by rewrite data_bumps).
    by rewrite list_fmap_compose, fmap_drop, Hd, drop_app_length.
  - intros t0 Hend. unfold Destroy. rewrite Hr.
    destruct (destroy_loop_spec panics Run_end (reverse (runMods mer)) (bumps (runMods mer) mer) t0) as (mer2 & E2).
    + by rewrite reverse_Permutation.
    + rewrite reverse_Permutation. eapply Forall_impl; [exact Hv|]. intros p. apply Hval.
    + rewrite reverse_Permutation. apply Forall_forall. intros p Hin. unfold runs. rewrite Hmi, Ha, decide_True by done.
      destruct (Hi p) as [H1 H2]. split_and!; [done | cbn; by rewrite H2|].
      rewrite <- Hd in Hend. rewrite Forall_fmap, Forall_forall in Hend. by apply Hend.
    + exists mer2. rewrite E2. do 2 f_equal. f_equal. rewrite <- Hd, <- fmap_reverse. clear -Hmi.
      induction (reverse (runMods mer)) as [|p ps IH]; [done|]. rewrite fmap_cons, !bind_cons, Hmi. by f_equal.
  - intros _ t0 Hnever. unfold Destroy. rewrite Hr. rewrite <- Hd, Exists_fmap in Hnever.
    apply Exists_exists in Hnever as (p & Hin & Hn). apply (destroy_loop_blocks panics Run_end p); [by apply elem_of_reverse|by rewrite Hmi|].
    rewrite Ha, decide_True by done. done.
Qed.

Definition demo_types (m : nat) : string := match m with 0%nat => "Timer" | 1%nat => "Gate" | 2%nat => "Chat" | _ => "Web" end.
Definition demo_conf : module_conf :=
  [("Chat", [mkModuleSettings "chat1" "p1"; mkModuleSettings "chat2" "p2"]); ("Gate", [mkModuleSettings "gate1" "p1"])].
Definition demo_regs : list (bool * nat) := [(true, 0%nat); (false, 1%nat); (false, 2%nat); (false, 3%nat)].
Definition demo_init := Init demo_types false (fun _ _ => None) demo_conf "p1" (register_all demo_regs) [].

Lemma demo_conf_unique : settings_unique demo_conf.
Proof. apply CheckModuleSettings_spec. vm_compute. reflexivity. Qed.

Lemma modules_start_and_stop_in_order_witness :
  let gate := mkModuleSettings "gate1" "p1" in
  let chat := mkModuleSettings "chat1" "p1" in
  let '(mer, t, err) := demo_init in
  err = None /\
  t = [CallOnInit 0 None; CallOnReady 0; GoRun 0; CallOnInit 1 (Some gate); CallOnReady 1; CallOnInit 2 (Some chat); CallOnReady 2;
       GoRun 1; GoRun 2] /\
  exists mer', Destroy (fun _ _ => Some "oops") (fun _ => OnSignal) mer [] =
    (mer', [CloseSig 2; CallOnDestroy 2; CloseSig 1; CallOnDestroy 1; CloseSig 0; CallOnDestroy 0], true).
Proof.
  cbn zeta. pose proof (modules_start_and_stop_in_order demo_types false (fun _ _ => None) (fun _ => OnSignal)
    demo_conf "p1" demo_regs) as H. cbn zeta in H. fold demo_init in H. destruct demo_init as [[mer t] err] eqn:E.
  destruct H as [_ H]. specialize (H demo_conf_unique). destruct H as [H _]. destruct err as [e|].
  - exfalso. destruct H as (pre & ev & post & _ & _ & Hp). discriminate Hp.
  - destruct H as [Ht Hd]. split; [done|]. split; [by rewrite Ht|].
    destruct (Hd [] ltac:(by repeat constructor)) as [mer' Hm]. exists mer'. vm_compute in E. injection E as <- _. vm_compute. vm_compute in Hm.
    injection Hm as <-. reflexivity.
Defined.
