(* ===== verification/ServerTheorems.v ===== *)
(** * The life of a module's service in the registry

    [BaseModule], [service], [rpcServer] and the consul registry together: the calls on
    consul's agent from [OnInit] to [OnDestroy]. *)
From S2P Require Import Prelude Registry Consul Server Modules.
#[local] Open Scope mq_scope.
#[local] Open Scope string_scope.
#[local] Open Scope list_scope.
#[local] Open Scope Z_scope.

(** ** The options of a module *)

(** The application's ttl and interval win over the module's own options, for
    [OnInit] hands them to [NewService] after it has resolved the options. *)
Lemma OnInit_service {W} e settings opt (m m' : BaseModule W) : OnInit e settings opt m = Ret m' ->
  exists s, b_service m' = Some (NewService s (ie_RegisterTTL e) (ie_RegisterInterval e)) /\ serviceStarted m' = serviceStarted m /\
    registered s = false /\ transport s = true /\ instanceID s = (id s ++ "#" ++ ie_uuid e)%string /\ id s = server_id (opts s).
Proof.
  unfold OnInit. destruct (default_options _ _ _) as [more|]; [|done]. cbn [outcome_bind].
  unfold newRPCServer. destruct (decide _); [done|]. cbn [outcome_bind]. unfold server_OnInit.
  destruct (ie_transport e); [|done]. cbn. injection 1 as <-. eexists. split; [reflexivity|]. done.
Qed.

Lemma OnInit_overrides_ttl {W} e settings opt (m m' : BaseModule W) v : OnInit e settings opt m = Ret m' -> b_service m' = Some v ->
  so_RegisterTTL (opts (server v)) = ie_RegisterTTL e /\ RegisterInterval v = ie_RegisterInterval e.
Proof. intros (s & -> & _)%OnInit_service [= <-]. done. Qed.

(** ** Consul's agent as a log of calls *)

(** [answer t c]: the error of call [c] after the calls [t], if it fails. *)
Definition logging (answer : list consul_call -> consul_call -> option string) (c : consul_call) (t : list consul_call) :
    list consul_call * option string := (t ++ [c], answer t c).

Section Life.
Context (zlib_deflate : bytes -> bytes) (marshal_endpoint : Endpoint -> option bytes) (marshal_kv : string -> string -> option bytes)
        (answer : list consul_call -> consul_call -> option string) (hash : Service -> result string Z)
        (range_map : option (gmap string string) -> list (string * string)) (ifaces : result string (list ip_addr)).

#[local] Instance consul_log : RegistryOps (consul_world (list consul_call)) :=
  consul_registry zlib_deflate marshal_endpoint marshal_kv (logging answer) hash range_map.

Abbreviation reg_of := (fun c ttl s node => registration zlib_deflate marshal_endpoint marshal_kv c ttl s node (range_map (n_Metadata node))).

(** One renewal: the check passes, or it fails and the service is registered anew
    with what it was registered with. *)
Definition renewal (r : Registration) (check : string) (t l : list consul_call) : Prop :=
  answer t (PassTTL check) = None /\ l = [PassTTL check] \/
  is_Some (answer t (PassTTL check)) /\
    (l = [PassTTL check; Consul.ServiceRegister r] \/ l = [PassTTL check; Consul.ServiceRegister r; PassTTL check]).

Inductive renewals (r : Registration) (check : string) : nat -> list consul_call -> list consul_call -> Prop :=
| renewals_O t : renewals r check O t t
| renewals_S n t l t' : renewal r check t l -> renewals r check n (t ++ l) t' -> renewals r check (S n) t t'.

(** The registry knows instance [i] under hash [h], and is otherwise configured as [c]. *)
Definition knows (c c' : consulRegistry) (i : string) (h : Z) : Prop :=
  register c' !! i = Some h /\ tcp_check c' = tcp_check c /\ connect c' = connect c.

Lemma knows_registration c c' i h ttl s node : knows c c' i h -> reg_of c' ttl s node = reg_of c ttl s node.
Proof. intros (_ & Ht & Hc). unfold registration. by rewrite Ht, Hc. Qed.

Lemma register_first ttl s node nodes h c t c' t' : Nodes s = node :: nodes -> hash s = Ok h -> register c !! InstanceID node = None ->
  Consul.Register zlib_deflate marshal_endpoint marshal_kv (logging answer) hash range_map ttl s c t = (c', t', None) ->
  knows c c' (InstanceID node) h /\
  t' = t ++ Consul.ServiceRegister (reg_of c ttl s node) :: (if ttl =? 0 then [] else [PassTTL (service_check (InstanceID node))]).
Proof.
  intros Hn Hh Hc. unfold Consul.Register. rewrite Hn, Hh, bool_decide_eq_false_2 by (rewrite Hc; done).
  unfold full_register, logging. destruct (answer t _); [done|].
  destruct (ttl =? 0).
  - injection 1 as <- <-. split; [|done]. split; [apply lookup_insert_eq | done].
  - injection 1 as <- <- _. rewrite <- app_assoc. split; [|done]. split; [apply lookup_insert_eq | done].
Qed.

Lemma register_again ttl s node nodes h c c0 t : Nodes s = node :: nodes -> hash s = Ok h -> knows c0 c (InstanceID node) h ->
  exists c' l err, Consul.Register zlib_deflate marshal_endpoint marshal_kv (logging answer) hash range_map ttl s c t = (c', t ++ l, err) /\
    knows c0 c' (InstanceID node) h /\ renewal (reg_of c0 ttl s node) (service_check (InstanceID node)) t l.
Proof.
  intros Hn Hh Hk. pose proof (knows_registration _ _ _ _ ttl s node Hk) as Hr. destruct Hk as (Hc & Ht & Hco).
  unfold Consul.Register. rewrite Hn, Hh, bool_decide_eq_true_2 by done. unfold logging at 1, renewal.
  destruct (answer t (PassTTL _)) as [e|] eqn:Ea.
  2: { eexists _, _, _. split; [reflexivity|]. split; [done|]. by left. }
  unfold full_register, logging. rewrite Hr. destruct (answer (t ++ _) _).
  { eexists _, _, _. rewrite <- app_assoc. split; [reflexivity|]. split; [done|]. right. split; [done|]. by left. }
  assert (Hk' : knows c0 (c <| register := <[InstanceID node := h]> (register c) |>) (InstanceID node) h)
    by (split; [apply lookup_insert_eq | done]).
  destruct (ttl =? 0); eexists _, _, _; rewrite <- ?app_assoc; (split; [reflexivity|]; split; [exact Hk'|]; right; split; [done|]; auto).
Qed.

(** ** Ticks *)

(** The service and address a server announces. *)
Definition announces (s : rpcServer) (addr : string) (port : Z) : Prop :=
  let '(host, p) := advertised (so_Advertise (opts s)) (so_Address (opts s)) in Extract ifaces host = Ok addr /\ port = p.

Lemma ServiceRegister_announced s addr port w : announces s addr port ->
  ServiceRegister ifaces s w =
    let '(w, err) := reg_Register (so_RegisterTTL (opts s)) (announced s addr port) w in
    match err with Some e => (s, w, Some e) | None => (s <| registered := true |>, w, None) end.
Proof.
  unfold announces, ServiceRegister. destruct (advertised _ _) as [host p]. intros [-> ->]. by destruct (reg_Register _ _ w) as [? []].
Qed.

(** What does not change while the service runs. *)
Definition same_server (s s' : rpcServer) : Prop := opts s' = opts s /\ instanceID s' = instanceID s /\ startedAt s' = startedAt s.

Lemma same_announced s s' addr port : same_server s s' -> announced s' addr port = announced s addr port.
Proof. intros (Ho & Hi & Hs). unfold announced. by rewrite Ho, Hi, Hs. Qed.

Lemma same_announces s s' addr port : same_server s s' -> announces s addr port -> announces s' addr port.
Proof. intros (Ho & _). unfold announces. by rewrite Ho. Qed.

(** The node a server announces. *)
Definition own_node (s : rpcServer) (addr : string) (port : Z) : Node :=
  mkNode (startedAt s) (server_id (opts s)) (instanceID s) addr port (Some (<["registry" := "consul"]> (<["server" := "rpc"]> (so_Metadata (opts s))))).

Lemma announced_nodes s addr port : Nodes (announced s addr port) = [own_node s addr port].
Proof. unfold announced, own_node. cbn. reflexivity. Qed.

Lemma ticks_renew n s addr port h c0 : announces s addr port -> hash (announced s addr port) = Ok h ->
  forall v w, same_server s (server v) -> knows c0 (cw_registry w) (instanceID s) h ->
  exists v' w', ticks ifaces n v w = (v', w') /\ same_server s (server v') /\ knows c0 (cw_registry w') (instanceID s) h /\
    AfterStop v' = AfterStop v /\ BeforeStop v' = BeforeStop v /\
    renewals (reg_of c0 (so_RegisterTTL (opts s)) (announced s addr port) (own_node s addr port)) (service_check (instanceID s)) n
      (cw_agent w) (cw_agent w').
Proof.
  intros Ha Hh. induction n as [|n IH]; intros v w Hs Hk; cbn [ticks].
  { exists v, w. split_and!; try done. constructor. }
  unfold tick. rewrite (ServiceRegister_announced _ addr port) by (by eapply same_announces).
  rewrite (same_announced s) by done. replace (so_RegisterTTL (opts (server v))) with (so_RegisterTTL (opts s)) by (by destruct Hs as [-> _]).
  destruct (register_again (so_RegisterTTL (opts s)) (announced s addr port) (own_node s addr port) [] h (cw_registry w) c0 (cw_agent w)
              (announced_nodes s addr port) Hh Hk) as (c' & l & err & E & Hk' & Hr).
  cbn [reg_Register consul_log consul_registry]. rewrite E. cbn [fst snd].
  destruct err as [err|].
  - destruct (IH (with_server (server v) v) (mkConsulWorld c' (cw_agent w ++ l)) ltac:(by destruct Hs as (? & ? & ?)) Hk') as (v' & w' & E' & H1 & H2 & H3 & H4 & H5).
    exists v', w'. split_and!; try done. by econstructor.
  - destruct (IH (with_server (server v <| registered := true |>) v) (mkConsulWorld c' (cw_agent w ++ l)) ltac:(by destruct Hs as (? & ? & ?)) Hk')
      as (v' & w' & E' & H1 & H2 & H3 & H4 & H5).
    exists v', w'. split_and!; try done. by econstructor.
Qed.
(** ** The life of a module *)

(** A service without hooks. *)
Definition plain (v : service (consul_world (list consul_call))) : Prop :=
  BeforeStart v = [] /\ AfterStart v = [] /\ BeforeStop v = [] /\ AfterStop v = [].

Lemma Start_registers v v' c t w' : plain v -> register c !! instanceID (server v) = None -> Start ifaces v (mkConsulWorld c t) = (v', w', None) ->
  exists addr port h, announces (server v) addr port /\ hash (announced (server v) addr port) = Ok h /\
    knows c (cw_registry w') (instanceID (server v)) h /\ same_server (server v) (server v') /\
    BeforeStop v' = [] /\ AfterStop v' = [] /\ RegisterInterval v' = RegisterInterval v /\
    cw_agent w' = t ++ Consul.ServiceRegister (reg_of c (so_RegisterTTL (opts (server v))) (announced (server v) addr port) (own_node (server v) addr port))
      :: (if so_RegisterTTL (opts (server v)) =? 0 then [] else [PassTTL (service_check (instanceID (server v)))]).
Proof.
  intros (H1 & H2 & H3 & H4) Hc. unfold Start. rewrite H1. cbn [run_hooks]. set (s := server v) in *.
  destruct (advertised (so_Advertise (opts s)) (so_Address (opts s))) as [host port] eqn:Ead.
  destruct (Extract ifaces host) as [addr|e] eqn:Eex; [|unfold ServiceRegister; by rewrite Ead, Eex].
  assert (Ha : announces s addr port) by (unfold announces; by rewrite Ead).
  rewrite (ServiceRegister_announced s addr port _ Ha).
  cbn [reg_Register consul_log consul_registry cw_registry cw_agent].
  destruct (Consul.Register _ _ _ _ _ _ _ _ _ _) as [[c' t'] err] eqn:Er. destruct err as [err|]; [done|].
  cbn [AfterStart with_server]. rewrite H2. cbn [run_hooks]. injection 1 as <- <-.
  destruct (hash (announced s addr port)) as [h|] eqn:Eh.
  2: { exfalso. revert Er. unfold Consul.Register. by rewrite announced_nodes, Eh. }
  destruct (register_first _ _ _ _ _ _ _ _ _ (announced_nodes s addr port) Eh Hc Er) as [Hk Ht].
  exists addr, port, h. split_and!; try done.
Qed.

Lemma Wait_withdraws n v v' w w' err s addr port h c0 : announces s addr port -> hash (announced s addr port) = Ok h ->
  same_server s (server v) -> knows c0 (cw_registry w) (instanceID s) h -> BeforeStop v = [] -> AfterStop v = [] ->
  Wait ifaces n v w = (v', w', err) ->
  same_server s (server v') /\ register (cw_registry w') !! instanceID s = None /\
  exists t, renewals
      (reg_of c0 (so_RegisterTTL (opts s)) (announced s addr port) (own_node s addr port)) (service_check (instanceID s))
      (if RegisterInterval v <=? 0 then O else n) (cw_agent w) t /\ cw_agent w' = t ++ [Consul.ServiceDeregister (instanceID s)].
Proof.
  intros Ha Hh Hs Hk Hb Haf. unfold Wait.
  destruct (ticks_renew (if RegisterInterval v <=? 0 then O else n)
    s addr port h c0 Ha Hh v w Hs Hk) as (v1 & w1 & -> & Hs1 & Hk1 & H3 & H4 & Hr).
  pose proof (same_announces s (server v1) addr port Hs1 Ha) as Ha1. unfold service_Stop. rewrite H4, Hb. cbn [run_all_hooks].
  unfold ServiceDeregister. unfold announces in Ha1.
  destruct (advertised (so_Advertise (opts (server v1))) (so_Address (opts (server v1)))) as [host p]. destruct Ha1 as [-> _].
  cbn [reg_Deregister consul_log consul_registry]. unfold Consul.Deregister, withdrawn, logging. cbn [Nodes InstanceID].
  assert (Hi : instanceID (server v1) = instanceID s) by (by destruct Hs1 as (_ & ? & _)). rewrite Hi.
  destruct (answer (cw_agent w1) _) as [e|].
  - injection 1 as <- <- _. split; [done|]. split; [apply lookup_delete_eq|]. by exists (cw_agent w1).
  - cbn [AfterStop with_server]. rewrite H3, Haf. cbn [run_all_hooks]. injection 1 as <- <- _.
    split; [by destruct Hs1 as (? & ? & ?)|]. split; [apply lookup_delete_eq|]. by exists (cw_agent w1).
Qed.
End Life.

(** A module's service in the registry, from [OnInit] to [OnDestroy], whatever
    consul answers: [OnReady], when it does not panic, has registered the module's
    instance, under the announced address, with the application's ttl, and passed its
    check unless the ttl is 0; each of the [n] ticks of the registration loop (none if
    the interval is not positive) only passes the check, or, when that fails, registers
    the instance again with what it was registered with; and the last call, after
    [OnDestroy], deregisters the instance, which the registry then no longer knows.
    The transport is closed in any case. *)
Lemma module_life_in_registry
  (zlib_deflate : bytes -> bytes) (marshal_endpoint : Endpoint -> option bytes) (marshal_kv : string -> string -> option bytes)
  (answer : list consul_call -> consul_call -> option string) (hash : Service -> result string Z)
  (range_map : option (gmap string string) -> list (string * string)) (ifaces : result string (list ip_addr))
  (e : init_env) (settings : option ModuleSettings) (opt : list Option) (n : nat) (c : consulRegistry) (t0 : list consul_call)
  (m0 m1 m2 : BaseModule (consul_world (list consul_call))) (w1 w2 : consul_world (list consul_call)) :
  let R := consul_log zlib_deflate marshal_endpoint marshal_kv answer hash range_map in
  OnInit e settings opt (mkBaseModule false None) = Ret m0 ->
  register c !! GetInstanceID m0 = None ->
  OnReady (H := R) ifaces (fun _ w => w) m0 (mkConsulWorld c t0) = Ret (m1, w1) ->
  OnDestroy (H := R) ifaces n m1 w1 = Ret (m2, w2) ->
  exists v addr port r t,
    b_service m0 = Some v /\ announces ifaces (server v) addr port /\
    r = registration zlib_deflate marshal_endpoint marshal_kv c (ie_RegisterTTL e) (announced (H := R) (server v) addr port)
          (own_node (server v) addr port) (range_map (n_Metadata (own_node (server v) addr port))) /\
    let i := GetInstanceID m0 in
    cw_agent w1 = t0 ++ Consul.ServiceRegister r :: (if ie_RegisterTTL e =? 0 then [] else [PassTTL (service_check i)]) /\
    renewals answer r (service_check i) (if ie_RegisterInterval e <=? 0 then O else n) (cw_agent w1) t /\
    cw_agent w2 = t ++ [Consul.ServiceDeregister i] /\ register (cw_registry w2) !! i = None /\
    GetInstanceID m2 = i /\ transport <$> (server <$> b_service m2) = Some false.
Proof.
  intros R Hinit Hfresh. apply OnInit_service in Hinit as (s0 & Hv & _ & _ & _ & _ & _).
  unfold GetInstanceID in Hfresh. unfold OnReady, GetInstanceID at 1. rewrite Hv in *. set (v := NewService _ _ _) in *.
  destruct (Start ifaces v (mkConsulWorld c t0)) as [[v1 w] [|]] eqn:Es; [done|]. injection 1 as <- <-.
  destruct (Start_registers zlib_deflate marshal_endpoint marshal_kv answer hash range_map ifaces v v1 c t0 w ltac:(done) Hfresh Es)
    as (addr & port & h & Ha & Hh & Hk & Hs & Hb & Haf & Hri & Ht).
  unfold OnDestroy. cbn [b_service serviceStarted]. destruct (Wait ifaces n v1 w) as [[v2 w'] err] eqn:Ew. injection 1 as <- <-.
  destruct (Wait_withdraws zlib_deflate marshal_endpoint marshal_kv answer hash range_map ifaces n v1 v2 w w' err (server v) addr port h c
    Ha Hh Hs Hk Hb Haf Ew) as (Hs2 & Hd & t & Hr & Ht2).
  rewrite Hri in Hr. exists v, addr, port. eexists _, t. split; [done|]. split; [exact Ha|]. split; [reflexivity|].
  unfold GetInstanceID. rewrite Hv. split_and!; try done. by destruct Hs2 as (_ & ? & _).
Qed.

Definition demo_env : init_env :=
  mkInitEnv "chat" "1.0" (20 * second) (10 * second) "gen" "uuid0" "u-1" 1000 (Ok "nats_inbox") "host" "42".
Definition demo_answer (t : list consul_call) (_ : consul_call) : option string := if decide (length t = 3%nat) then Some "critical" else None.
Definition demo_registry : RegistryOps (consul_world (list consul_call)) :=
  consul_log (fun b => b) (fun _ => None) (fun _ _ => None) demo_answer (fun _ => Ok 7) (fun _ => []).
Definition demo_settings : option ModuleSettings := Some (mkModuleSettings "c1" "p1").
Definition no_module : BaseModule (consul_world (list consul_call)) := mkBaseModule false None.
Definition demo_start : consul_world (list consul_call) := mkConsulWorld (mkConsulRegistry None false ∅) [].

Definition ret_or {A} (d : A) (m : outcome A) : A := match m with Ret a => a | Panic _ => d end.
Definition demo_m0 : BaseModule (consul_world (list consul_call)) := ret_or no_module (OnInit demo_env demo_settings [] no_module).
Definition demo_ready := ret_or (no_module, demo_start) (OnReady (H := demo_registry) (Err "none") (fun _ w => w) demo_m0 demo_start).
Definition demo_done := ret_or (no_module, demo_start) (OnDestroy (H := demo_registry) (Err "none") 2 demo_ready.1 demo_ready.2).

Definition kind_of_call (c : consul_call) : string * string :=
  match c with
  | Consul.ServiceRegister r => ("register", as_ID (asr_service r))
  | Consul.ServiceDeregister i => ("deregister", i)
  | PassTTL i => ("pass", i)
  end.

(** The run of the witness: the second tick finds the check critical. *)
Example demo_calls : (kind_of_call <$> cw_agent demo_done.2) =
  [("register", "chat@c1#u-1"); ("pass", "service:chat@c1#u-1"); ("pass", "service:chat@c1#u-1"); ("pass", "service:chat@c1#u-1");
   ("register", "chat@c1#u-1"); ("pass", "service:chat@c1#u-1"); ("deregister", "chat@c1#u-1")].
Proof. vm_compute. reflexivity. Qed.

Lemma module_life_in_registry_witness :
  GetInstanceID demo_m0 = "chat@c1#u-1" /\
  exists v addr port r t,
    b_service demo_m0 = Some v /\ announces (Err "none") (server v) addr port /\
    r = registration (fun b => b) (fun _ => None) (fun _ _ => None) (mkConsulRegistry None false ∅) (20 * second)
          (announced (H := demo_registry) (server v) addr port) (own_node (server v) addr port) [] /\
    cw_agent demo_ready.2 = [] ++ [Consul.ServiceRegister r; PassTTL (service_check (GetInstanceID demo_m0))] /\
    renewals demo_answer r (service_check (GetInstanceID demo_m0)) 2 (cw_agent demo_ready.2) t /\
    cw_agent demo_done.2 = t ++ [Consul.ServiceDeregister (GetInstanceID demo_m0)] /\
    register (cw_registry demo_done.2) !! GetInstanceID demo_m0 = None /\
    GetInstanceID demo_done.1 = GetInstanceID demo_m0 /\ transport <$> (server <$> b_service demo_done.1) = Some false.
Proof.
  split; [vm_compute; reflexivity|].
  apply (module_life_in_registry (fun b => b) (fun _ => None) (fun _ _ => None) demo_answer (fun _ => Ok 7) (fun _ => []) (Err "none")
    demo_env demo_settings [] 2 (mkConsulRegistry None false ∅) [] demo_m0 demo_ready.1 demo_done.1 demo_ready.2 demo_done.2);
    vm_compute; reflexivity.
Defined.

(** ** Addresses *)

(** The address found when none is given is one of the machine's, and a private one. *)
Lemma Extract_finds (ifaces : list (list ip_addr)) addr ip : addr = "" \/ addr = "0.0.0.0" \/ addr = "[::]" ->
  Extract (Ok (mjoin ifaces)) addr = Ok ip ->
  ip ∈ IPs (Ok (Ok <$> ifaces)) /\ exists a b c d, ip = ip_string a b c d /\ isPrivateIP a b c d = true.
Proof.
  intros Ha. unfold Extract. rewrite decide_False by naive_solver. destruct (first_private (mjoin ifaces)) as [x|] eqn:E; [|done]. intros [= ->].
  assert (H : forall l, first_private l = Some ip -> exists a b c d, IPv4 a b c d ∈ l /\ ip = ip_string a b c d /\ isPrivateIP a b c d = true).
  { induction l as [|[a b c d|] l IH]; cbn [first_private]; [done| |].
    - destruct (isPrivateIP a b c d) eqn:Ep.
      + intros Hip%(inj Some). rewrite <- Hip. exists a, b, c, d. split; [by apply list_elem_of_here|done].
      + intros (a' & b' & c' & d' & Hin & ?)%IH. exists a', b', c', d'. split; [by apply list_elem_of_further|done].
    - intros (a' & b' & c' & d' & Hin & ?)%IH. exists a', b', c', d'. split; [by apply list_elem_of_further|done]. }
  destruct (H _ E) as (a & b & c & d & Hin & -> & Hp). split; [|by exists a, b, c, d]. apply list_elem_of_join in Hin as (l & Hl & Hin).
  unfold IPs. apply list_elem_of_In, in_flat_map. exists (Ok l). split.
  - apply list_elem_of_In. by apply list_elem_of_fmap_2.
  - apply list_elem_of_In, list_elem_of_omap. by exists (IPv4 a b c d).
Qed.
