(* ===== verification/NatsServer.v ===== *)
(** * The rpc server's subscription

    [NatsServer] of [rpc/base/nats_server.go]: the loop that receives requests, the
    goroutine that unsubscribes once [done] is closed, and [Shutdown].  They run
    concurrently, without a lock: every step of one of them is an event, and
    [ns_step] says what it does, or that it cannot happen.

    Outside the model: NATS (what [NextMsg] returns and whether a subscription
    succeeds are events; a subscription that is not valid gives neither messages nor
    timeouts) and protobuf ([unmarshal]).  [Call] is the rpc server's. *)
From S2P Require Import Prelude RpcArgs NatsClient RpcServer.
#[local] Open Scope mq_scope.
#[local] Open Scope string_scope.
#[local] Open Scope list_scope.
#[local] Open Scope Z_scope.

(** ** [setAddrs] *)

Definition nats_scheme : string := "nats://".
Definition DefaultURL : string := "nats://127.0.0.1:4222".

Fixpoint clean_addrs (addrs : list string) : list string :=
  match addrs with
  | [] => []
  | addr :: addrs =>
      if decide (addr = "") then clean_addrs addrs
      else (if String.prefix nats_scheme addr then addr else nats_scheme ++ addr)%string :: clean_addrs addrs
  end.

Definition setAddrs (addrs : list string) : list string :=
  match clean_addrs addrs with [] => [DefaultURL] | cAddrs => cAddrs end.

(** ** The server *)

(** Where the loop is: at its condition, in [NextMsg], before [IsValid], before
    [SubscribeSync], left ([stopeds] follows at once), or in a call that never
    returns. *)
Inductive loop_at := AtCheck | AtNext | AtValid | AtSubscribe | Left | Stuck.

(** Where [Shutdown] is: not called, after [safeClose(done)], after [isClose = true],
    returned. *)
Inductive shutdown_at := NotCalled | Closing | Waiting | Returned.

#[export] Instance loop_at_eq_dec : EqDecision loop_at.
Proof. solve_decision. Defined.
#[export] Instance shutdown_at_eq_dec : EqDecision shutdown_at.
Proof. solve_decision. Defined.

(** Subscriptions have numbers; [live] are those that are valid; [unsubscribed] says
    that the goroutine has run; [rpc] is the rpc server. *)
Record NatsServer (W : Type) := mkNatsServer {
  ns_done : bool; ns_isClose : bool; ns_stopeds : bool; ns_subs : option nat; ns_live : gset nat; ns_next : nat;
  ns_loop : loop_at; ns_unsubscribed : bool; ns_shutdown : shutdown_at; ns_rpc : W }.
Arguments mkNatsServer {W}.
Arguments ns_done {W}.
Arguments ns_isClose {W}.
Arguments ns_stopeds {W}.
Arguments ns_subs {W}.
Arguments ns_live {W}.
Arguments ns_next {W}.
Arguments ns_loop {W}.
Arguments ns_unsubscribed {W}.
Arguments ns_shutdown {W}.
Arguments ns_rpc {W}.

#[export] Instance eta_NatsServer W : Eta (NatsServer W) := fun r =>
  mkNatsServer (ns_done r) (ns_isClose r) (ns_stopeds r) (ns_subs r) (ns_live r) (ns_next r) (ns_loop r)
    (ns_unsubscribed r) (ns_shutdown r) (ns_rpc r).

(** What [NextMsg] returns. *)
Inductive next_msg := Msg (data : bytes) | Timeout | Failed.

Inductive ns_event :=
| LoopCheck
| NextMsg (m : next_msg)
| CheckValid
| SubscribeSync (ok : bool)
| Unsubscribe
| SafeClose
| SetClose
| ShutdownReturns
| ConnectionLost.

#[export] Instance next_msg_eq_dec : EqDecision next_msg.
Proof. solve_decision. Defined.
#[export] Instance ns_event_eq_dec : EqDecision ns_event.
Proof. solve_decision. Defined.

Section NatsServer.
Context {W : Type} (unmarshal : bytes -> option RPCInfo) (Call : RPCInfo -> ST W unit).

(** [NewNatsServer], its subscription made. *)
Definition NewNatsServer (w : W) : NatsServer W :=
  mkNatsServer false false false (Some 0%nat) {[ 0%nat ]} 1 AtCheck false NotCalled w.

Definition valid_subs (s : NatsServer W) : bool :=
  match ns_subs s with Some n => bool_decide (n ∈ ns_live s) | None => false end.

(** [on_request_handle] returns, its [recover] included, and [stopeds] is closed. *)
Definition leave_loop (s : NatsServer W) : NatsServer W := s <| ns_loop := Left |> <| ns_stopeds := true |>.

(** A message: what cannot be unmarshalled is dropped. *)
Definition receive (data : bytes) (s : NatsServer W) : NatsServer W :=
  match unmarshal data with
  | None => s <| ns_loop := AtCheck |>
  | Some rpcInfo =>
      match Call rpcInfo (ns_rpc s) with
      | Done w _ => s <| ns_rpc := w |> <| ns_loop := AtCheck |>
      | Panicked w _ => leave_loop (s <| ns_rpc := w |>)
      | Blocked => s <| ns_loop := Stuck |>
      end
  end.

Definition ns_step (s : NatsServer W) (e : ns_event) : option (NatsServer W) :=
  match e, ns_loop s, ns_shutdown s with
  | LoopCheck, AtCheck, _ => Some (if ns_isClose s then leave_loop s else s <| ns_loop := AtNext |>)
  | NextMsg (Msg data), AtNext, _ => if valid_subs s then Some (receive data s) else None
  | NextMsg Timeout, AtNext, _ => if valid_subs s then Some (s <| ns_loop := AtValid |>) else None
  | NextMsg Failed, AtNext, _ => Some (s <| ns_loop := AtValid |>)
  | CheckValid, AtValid, _ => Some (s <| ns_loop := if valid_subs s then AtCheck else AtSubscribe |>)
  | SubscribeSync true, AtSubscribe, _ =>
      let n := ns_next s in let l := ns_live s in
      Some (s <| ns_subs := Some n |> <| ns_live := {[ n ]} ∪ l |> <| ns_next := S n |> <| ns_loop := AtCheck |>)
  | SubscribeSync false, AtSubscribe, _ => Some (s <| ns_subs := None |> <| ns_loop := AtCheck |>)
  | Unsubscribe, _, _ =>
      if ns_done s && negb (ns_unsubscribed s) then
        let l := ns_live s in
        Some (s <| ns_unsubscribed := true |> <| ns_live := match ns_subs s with Some n => l ∖ {[ n ]} | None => l end |>)
      else None
  | SafeClose, _, NotCalled => Some (s <| ns_done := true |> <| ns_shutdown := Closing |>)
  | SetClose, _, Closing => Some (s <| ns_isClose := true |> <| ns_shutdown := Waiting |>)
  | ShutdownReturns, _, Waiting => if ns_stopeds s then Some (s <| ns_shutdown := Returned |>) else None
  | ConnectionLost, _, _ => Some (s <| ns_live := ∅ |>)
  | _, _, _ => None
  end.

Definition ns_run : list ns_event -> NatsServer W -> option (NatsServer W) := run_steps ns_step.

(** The requests received in a run. *)
Definition requests (evs : list ns_event) : list RPCInfo :=
  omap (fun e => match e with NextMsg (Msg data) => unmarshal data | _ => None end) evs.

Definition is_loop (e : ns_event) : bool :=
  match e with LoopCheck | NextMsg _ | CheckValid | SubscribeSync _ => true | _ => false end.
End NatsServer.
