(* ===== verification/NatsServerTheorems.v ===== *)
(** * Theorems on the rpc server's subscription

    The requests of a run reach the rpc server in order; [Shutdown] returns, and what
    it leaves behind. *)
From S2P Require Import Prelude RpcArgs NatsClient RpcServer NatsServer.
#[local] Open Scope mq_scope.
#[local] Open Scope string_scope.
#[local] Open Scope list_scope.
#[local] Open Scope Z_scope.

Lemma prefix_app_self s t : String.prefix s (s ++ t)%string = true.
Proof. induction s as [|c s IH]; [by destruct t|]. change (String c s ++ t)%string with (String c (s ++ t)). cbn. by destruct (Ascii.ascii_dec c c). Qed.

(** Every address given to NATS has the scheme, and there is one. *)
Lemma setAddrs_spec addrs : setAddrs addrs <> [] /\ Forall (fun a => String.prefix nats_scheme a = true) (setAddrs addrs).
Proof.
  assert (Hc : Forall (fun a => String.prefix nats_scheme a = true) (clean_addrs addrs)).
  { induction addrs as [|a addrs IH]; [constructor|]. cbn [clean_addrs]. destruct (decide (a = "")); [done|].
    constructor; [|done]. destruct (String.prefix nats_scheme a) eqn:E; [done | apply prefix_app_self]. }
  unfold setAddrs. destruct (clean_addrs addrs) eqn:E; [|done]. split; [done|]. by repeat constructor.
Qed.

Section NatsServer.
Context {W : Type} (unmarshal : bytes -> option RPCInfo) (Call : RPCInfo -> ST W unit).

Abbreviation step := (ns_step unmarshal Call).
Abbreviation run := (ns_run unmarshal Call).

(** Case analysis on an enabled step. *)
Ltac step_cases H :=
  match type of H with
  | ns_step _ _ _ ?e = Some _ =>
      unfold ns_step, receive, leave_loop in H; destruct e; repeat case_match; try discriminate H; simplify_eq/=
  end.

(** ** Requests *)

(** The rpc server after a request, however its handling ends. *)
Definition after_request (w : W) (r : RPCInfo) : W :=
  match Call r w with Done w' _ | Panicked w' _ => w' | Blocked => w end.

Lemma step_serves s e s' : step s e = Some s' -> ns_rpc s' = foldl after_request (ns_rpc s) (requests unmarshal [e]).
Proof.
  intros H. unfold requests. cbn [omap list_omap].
  step_cases H; try done; cbn in *; unfold after_request; repeat case_match; congruence.
Qed.

Lemma requests_cons e evs : requests unmarshal (e :: evs) = requests unmarshal [e] ++ requests unmarshal evs.
Proof. unfold requests. cbn. by destruct (match e with NextMsg (Msg data) => _ | _ => _ end). Qed.

(** The requests of a run are handed to the rpc server in the order received. *)
Lemma requests_in_order evs : forall s s', run evs s = Some s' -> ns_rpc s' = foldl after_request (ns_rpc s) (requests unmarshal evs).
Proof.
  induction evs as [|e evs IH]; intros s s' H; cbn in H; [by injection H as <-|].
  apply bind_Some in H as (s1 & Hs1 & H). by rewrite (IH _ _ H), requests_cons, foldl_app, <- (step_serves _ _ _ Hs1).
Qed.

(** ** Shutdown *)

Record ns_inv (s : NatsServer W) : Prop := {
  ni_stopeds : ns_stopeds s = true <-> ns_loop s = Left;
  ni_returned : ns_shutdown s = Returned -> ns_stopeds s = true;
  ni_close : ns_isClose s = true -> ns_shutdown s = Waiting \/ ns_shutdown s = Returned }.

Lemma step_inv s e s' : ns_inv s -> step s e = Some s' -> ns_inv s'.
Proof. intros [H1 H2 H3] Hst. step_cases Hst; split; cbn; intuition congruence. Qed.

Lemma run_inv evs s s' : ns_inv s -> run evs s = Some s' -> ns_inv s'.
Proof. apply run_steps_keep, step_inv. Qed.

Lemma new_inv w : ns_inv (NewNatsServer w).
Proof. split; cbn; intuition congruence. Qed.

(** The steps the loop can still take once [isClose] is set. *)
Definition rank (l : loop_at) : nat :=
  match l with Left | Stuck => 0 | AtCheck => 1 | AtSubscribe => 2 | AtValid => 3 | AtNext => 4 end.

Definition loop_steps (evs : list ns_event) : nat := length (filter (fun e => is_loop e = true) evs).

Lemma step_rank s e s' : ns_isClose s = true -> step s e = Some s' ->
  ns_isClose s' = true /\ (rank (ns_loop s') + (if is_loop e then 1 else 0) <= rank (ns_loop s))%nat.
Proof. intros Hc H. step_cases H; cbn; (split; [congruence|]); repeat case_match; cbn; lia || congruence. Qed.

Lemma run_rank evs : forall s s', ns_isClose s = true -> run evs s = Some s' ->
  ns_isClose s' = true /\ (rank (ns_loop s') + loop_steps evs <= rank (ns_loop s))%nat.
Proof.
  induction evs as [|e evs IH]; intros s s' Hc H; cbn in H; [injection H as <-; cbn; split; [done|lia]|].
  apply bind_Some in H as (s1 & Hs1 & H). destruct (step_rank _ _ _ Hc Hs1) as [Hc1 Hr1].
  destruct (IH _ _ Hc1 H) as [Hc2 Hr2]. split; [done|]. unfold loop_steps in *. rewrite filter_cons.
  destruct (is_loop e); [rewrite decide_True by done | rewrite decide_False by done]; cbn [length]; lia.
Qed.

(** A loop that has not left and is not stuck in a call can go on. *)
Lemma loop_goes_on s : rank (ns_loop s) <> 0%nat -> exists e s', is_loop e = true /\ step s e = Some s'.
Proof.
  intros Hr. destruct (ns_loop s) eqn:Hl; cbn in Hr; try done.
  - exists LoopCheck. eexists. split; [done|]. unfold ns_step. by rewrite Hl.
  - exists (NextMsg Failed). eexists. split; [done|]. unfold ns_step. by rewrite Hl.
  - exists CheckValid. eexists. split; [done|]. unfold ns_step. by rewrite Hl.
  - exists (SubscribeSync true). eexists. split; [done|]. unfold ns_step. by rewrite Hl.
Qed.

(** After the goroutine has unsubscribed: the loop has a valid subscription again,
    or is still on its way to one. *)
Definition resubscribes (s : NatsServer W) : Prop :=
  ns_unsubscribed s = true /\
  (valid_subs s = true \/ (ns_loop s = AtNext \/ ns_loop s = AtValid \/ ns_loop s = AtSubscribe)).

Lemma step_resubscribes s e s' : resubscribes s -> e <> ConnectionLost -> e <> SubscribeSync false -> step s e = Some s' -> resubscribes s'.
Proof.
  intros [Hu Hv] He1 He2 H. assert (e <> Unsubscribe).
  { intros ->. unfold ns_step in H. rewrite Hu, andb_false_r in H. by repeat case_match. }
  unfold resubscribes in *. step_cases H; unfold valid_subs in *; cbn in *; (split; [congruence|]); repeat case_match; simplify_eq/=;
    rewrite ?bool_decide_eq_true in *; first [by intuition congruence | left; set_solver].
Qed.

Lemma run_resubscribes evs : forall s s', resubscribes s -> ConnectionLost ∉ evs -> SubscribeSync false ∉ evs -> run evs s = Some s' -> resubscribes s'.
Proof.
  induction evs as [|e evs IH]; intros s s' Hs H1 H2 H; cbn in H; [by injection H as <-|].
  apply bind_Some in H as (s1 & Hs1 & H). apply not_elem_of_cons in H1 as [? H1], H2 as [? H2].
  eapply (IH s1); try done. by apply (step_resubscribes s e s1); [|congruence|congruence|].
Qed.
End NatsServer.

(** C26. [Shutdown] returns, and what is left.  Once it has set [isClose], in every
    run the loop takes at most four more steps, and it can always take one unless it
    has left or a call never returns; when it has left, [Shutdown] returns.  But the
    loop subscribes anew when it finds its subscription gone, and does not look at
    [isClose] in between: if the goroutine unsubscribes while the loop waits for a
    message, then in every run where the connection holds and the subscription
    succeeds, the server's address has a valid subscription when [Shutdown] has
    returned, and nothing is left to remove it. *)
Theorem shutdown_returns_but_stays_subscribed {W : Type} (unmarshal : bytes -> option RPCInfo) (Call : RPCInfo -> ST W unit)
  (w : W) (before after : list ns_event) (s s' : NatsServer W)
  (Hs : ns_run unmarshal Call before (NewNatsServer w) = Some s) (Hs' : ns_run unmarshal Call after s = Some s') :
  (ns_isClose s = true ->
    (loop_steps after <= 4)%nat /\
    (ns_loop s' = Left \/ ns_loop s' = Stuck \/ exists e s2, is_loop e = true /\ ns_step unmarshal Call s' e = Some s2) /\
    (ns_loop s' = Left -> ns_shutdown s' = Returned \/ exists s2, ns_step unmarshal Call s' ShutdownReturns = Some s2)) /\
  (ns_unsubscribed s = true -> ns_loop s = AtNext -> ConnectionLost ∉ after -> SubscribeSync false ∉ after ->
    ns_shutdown s' = Returned ->
    valid_subs s' = true /\ ns_step unmarshal Call s' Unsubscribe = None).
Proof.
  pose proof (run_inv _ _ _ _ _ (new_inv w) Hs) as Hi. pose proof (run_inv _ _ _ _ _ Hi Hs') as Hi'. split.
  - intros Hc. destruct (run_rank _ _ _ _ _ Hc Hs') as [Hc' Hr]. split.
    { assert (rank (ns_loop s) <= 4)%nat by (destruct (ns_loop s); cbn; lia). lia. } split.
    + destruct (decide (rank (ns_loop s') = 0%nat)) as [E|E].
      * destruct (ns_loop s'); cbn in E; (discriminate E || auto).
      * right. right. by apply loop_goes_on.
    + intros Hl. apply (ni_stopeds _ Hi') in Hl. destruct (ni_close _ Hi' Hc') as [Hw|?]; [right|by left].
      eexists. unfold ns_step. rewrite Hw, Hl. done.
  - intros Hu Hl H1 H2 Hret.
    destruct (run_resubscribes _ _ _ s s' ltac:(split; [done|]; right; by left) H1 H2 Hs') as [Hu' [Hv|Hl']].
    + split; [done|]. unfold ns_step. by rewrite Hu', andb_false_r.
    + apply (ni_returned _ Hi'), (ni_stopeds _ Hi') in Hret. intuition congruence.
Qed.

(** A shutdown of an idle server. *)
Definition demo_before : list ns_event := [LoopCheck; SafeClose; Unsubscribe; SetClose].
Definition demo_after : list ns_event := [NextMsg Failed; CheckValid; SubscribeSync true; LoopCheck; ShutdownReturns].
Definition demo_run (evs : list ns_event) : NatsServer unit :=
  default (NewNatsServer tt) (ns_run (fun _ => None) (fun _ => st_ret tt) evs (NewNatsServer tt)).

Lemma shutdown_returns_but_stays_subscribed_witness :
  (loop_steps demo_after <= 4)%nat /\ ns_shutdown (demo_run (demo_before ++ demo_after)) = Returned /\
  valid_subs (demo_run (demo_before ++ demo_after)) = true.
Proof.
  destruct (shutdown_returns_but_stays_subscribed (fun _ => None) (fun _ => st_ret tt) tt demo_before demo_after
    (demo_run demo_before) (demo_run (demo_before ++ demo_after))) as [H1 H2]; [vm_compute; reflexivity..|].
  split; [apply H1; vm_compute; reflexivity|]. split; [vm_compute; reflexivity|].
  apply H2; try (vm_compute; reflexivity); apply (bool_decide_unpack _); vm_compute; exact I.
Defined.

(** A panic that gets out of the rpc server ends the loop: the server keeps its
    subscription, but receives nothing more. *)
Lemma escaped_panic_ends_receiving {W} unmarshal Call (s : NatsServer W) data r w why :
  ns_loop s = AtNext -> valid_subs s = true -> unmarshal data = Some r -> Call r (ns_rpc s) = Panicked w why ->
  exists s', ns_step unmarshal Call s (NextMsg (Msg data)) = Some s' /\ valid_subs s' = true /\ ns_loop s' = Left /\
    forall e s2, is_loop e = true -> ns_step unmarshal Call s' e = Some s2 -> False.
Proof.
  intros Hl Hv Hr Hc. eexists. split; [unfold ns_step; rewrite Hl, Hv; reflexivity|]. unfold receive. rewrite Hr, Hc.
  split; [exact Hv|]. split; [done|]. intros e s2 He H. unfold ns_step in H. cbn in H. destruct e; try done; repeat case_match; done.
Qed.
