(* ===== verification/UriRoute.v ===== *)
(** * Routing by URI

    [URIRoute] of [gate/uriroute/uri_route.go], a route handler an application
    installs in the gate: the topic of a publication is a URI, whose scheme and host
    name the module, whose path the function, and whose query says with [msg_id] that
    the client wants a reply.

    Outside the model: [net/url] ([url_Parse], [url_ParseQuery]), JSON validity, the
    encoding of the session copy, the rpc, and the selector and parser an application
    may set.  The call's timeout is not modelled. *)
From S2P Require Import Prelude MqttPack RpcArgs Agent.
#[local] Open Scope mq_scope.
#[local] Open Scope string_scope.
#[local] Open Scope list_scope.
#[local] Open Scope Z_scope.

(** What the handler uses of [url.URL]. *)
Record URL := mkURL { Scheme : string; Hostname : string; Path : string; RawQuery : string }.

(** A request: with encoded arguments, or with the session and the parsed value. *)
Inductive uri_call (Srv Bean : Type) :=
| CallWithArgs (c : agent_call Srv)
| CallWithBean (server : Srv) (func : string) (reply : bool) (bean : Bean).
Arguments CallWithArgs {Srv Bean} c.
Arguments CallWithBean {Srv Bean} server func reply bean.

(** The session's topic, and the requests made. *)
Record uri_state (Srv Bean : Type) := mkUriState { session_topic : string; uri_calls : list (uri_call Srv Bean) }.
Arguments mkUriState {Srv Bean}.
Arguments session_topic {Srv Bean}.
Arguments uri_calls {Srv Bean}.

#[export] Instance eta_uri_state Srv Bean : Eta (uri_state Srv Bean) := fun r => mkUriState (session_topic r) (uri_calls r).

Section UriRoute.
Context {Srv V Bean : Type}
        (url_Parse : string -> result string URL)
        (url_ParseQuery : string -> result string (list string))
        (Selector : option (string -> URL -> result string Srv))
        (DataParsing : option (string -> URL -> bytes -> result string (option Bean)))
        (GetRouteServer : string -> result string Srv)
        (json_Unmarshal : bytes -> result string unit)
        (Serializable : string -> result string bytes)
        (perform : uri_call Srv Bean -> route_result V * option string).

(** What [OnRoute] returns: whether to reply, the result, the error. *)
Abbreviation routed := (bool * route_result V * option string)%type.
Abbreviation state := (uri_state Srv Bean).

Definition module_of (uu : URL) : string :=
  if decide (Hostname uu = "modulus" \/ Hostname uu = "cache" \/ Hostname uu = "random") then Scheme uu
  else (Scheme uu ++ "@" ++ Hostname uu)%string.

Definition find_server (topic : string) (uu : URL) : result string Srv :=
  match Selector with
  | Some sel => sel topic uu
  | None =>
      match GetRouteServer (module_of uu) with
      | Ok ss => Ok ss
      | Err _ => Err ("Service(type:" ++ module_of uu ++ ") not found")%string
      end
  end.

(** The parsed value, when there is a parser and it gives one. *)
Definition parse_data (topic : string) (uu : URL) (msg : bytes) : option Bean :=
  match DataParsing with
  | Some parse => match parse topic uu msg with Ok (Some bean) => Some bean | _ => None end
  | None => None
  end.

(** [Call] or [CallArgs] when a reply is wanted, else [CallNR] or [CallNRArgs], whose
    result is nil. *)
Definition request (needreturn : bool) (c : uri_call Srv Bean) (s : state) : state * routed :=
  let cs := uri_calls s in
  let '(r, err) := perform c in
  (s <| uri_calls := cs ++ [c] |>, (needreturn, if needreturn then r else RNil, err)).

(** The tag of the default argument. *)
Definition default_tag (msg : bytes) : result string string :=
  if looks_json msg then
    match json_Unmarshal msg with
    | Ok _ => Ok MAP
    | Err e => Err ("The JSON format is incorrect " ++ e)%string
    end
  else Ok BYTES.

Definition OnRoute (topic : string) (msg : bytes) (s : state) : state * routed :=
  match url_Parse topic with
  | Err e => (s, (true, RNil, Some ("topic is not uri " ++ e)%string))
  | Ok uu =>
      match url_ParseQuery (RawQuery uu) with
      | Err e => (s, (true, RNil, Some ("parse query error " ++ e)%string))
      | Ok keys =>
          let needreturn := bool_decide ("msg_id" ∈ keys) in
          let s := s <| session_topic := topic |> in
          match find_server topic uu with
          | Err e => (s, (needreturn, RNil, Some e))
          | Ok server =>
              match parse_data topic uu msg with
              | Some bean => request needreturn (CallWithBean server (Path uu) needreturn bean) s
              | None =>
                  match default_tag msg with
                  | Err e => (s, (needreturn, RNil, Some e))
                  | Ok tag =>
                      match Serializable topic with
                      | Err e => (s, (needreturn, RNil, Some e))
                      | Ok b => request needreturn (CallWithArgs (mkCall server (Path uu) needreturn ["SESSION"; tag] [b; msg])) s
                      end
                  end
              end
          end
      end
  end.
End UriRoute.
