(* ===== verification/UriRouteTheorems.v ===== *)
(** * Theorems on routing by URI

    A publication makes one request or reports an error, and the agent that installs
    the handler answers exactly the publications that ask for it. *)
From S2P Require Import Prelude MqttPack RpcArgs Agent AgentTheorems UriRoute.
#[local] Open Scope mq_scope.
#[local] Open Scope string_scope.
#[local] Open Scope list_scope.
#[local] Open Scope Z_scope.

Section UriRoute.
Context {Srv V Bean : Type}
        (url_Parse : string -> result string URL)
        (url_ParseQuery : string -> result string (list string))
        (Selector : option (string -> URL -> result string Srv))
        (DataParsing : option (string -> URL -> bytes -> result string (option Bean)))
        (GetRouteServer : string -> result string Srv)
        (json_Unmarshal : bytes -> result string unit)
        (Serializable : string -> result string bytes)
        (perform : uri_call Srv Bean -> route_result V * option string).

Abbreviation on_route := (OnRoute url_Parse url_ParseQuery Selector DataParsing GetRouteServer json_Unmarshal Serializable perform).

(** Server, function and wish for a reply of a request. *)
Definition addressed (c : uri_call Srv Bean) : Srv * string * bool :=
  match c with
  | CallWithArgs c => (ac_server c, ac_func c, ac_reply c)
  | CallWithBean server func reply _ => (server, func, reply)
  end.

(** The topic parses, and its query asks for a reply or not. *)
Definition asks (topic : string) (uu : URL) (reply : bool) : Prop :=
  url_Parse topic = Ok uu /\ exists keys, url_ParseQuery (RawQuery uu) = Ok keys /\ reply = bool_decide ("msg_id" ∈ keys).

(** One request, or none and an error. *)
Definition routed_once (topic : string) (msg : bytes) (s : uri_state Srv Bean) (o : uri_state Srv Bean * (bool * route_result V * option string)) : Prop :=
  let '(s', (needreturn, r, err)) := o in
  (exists uu c server, asks topic uu needreturn /\ find_server Selector GetRouteServer topic uu = Ok server /\
    addressed c = (server, Path uu, needreturn) /\
    uri_calls s' = uri_calls s ++ [c] /\ session_topic s' = topic /\
    err = (perform c).2 /\ r = (if needreturn then (perform c).1 else RNil) /\
    match c with
    | CallWithBean _ _ _ bean => parse_data DataParsing topic uu msg = Some bean
    | CallWithArgs a => parse_data DataParsing topic uu msg = None /\
        exists tag b, default_tag json_Unmarshal msg = Ok tag /\ Serializable topic = Ok b /\ ac_types a = ["SESSION"; tag] /\ ac_args a = [b; msg]
    end) \/
  (uri_calls s' = uri_calls s /\ is_Some err /\ r = RNil /\
    ((exists uu, asks topic uu needreturn) \/ needreturn = true /\ forall uu b, ~ asks topic uu b)).

Lemma OnRoute_routed topic msg s : routed_once topic msg s (on_route topic msg s).
Proof.
  unfold OnRoute. destruct (url_Parse topic) as [uu|e] eqn:Eu.
  2: { right. split_and!; [done|by eexists|done|]. right. split; [done|]. intros uu b [Hu _]. congruence. }
  destruct (url_ParseQuery (RawQuery uu)) as [keys|e] eqn:Ek.
  2: { right. split_and!; [done|by eexists|done|]. right. split; [done|]. intros uu' b [Hu (k & Hk & _)]. congruence. }
  assert (Ha : asks topic uu (bool_decide ("msg_id" ∈ keys))) by (split; [done|by exists keys]).
  set (needreturn := bool_decide _) in *.
  assert (Hfail : forall e, routed_once topic msg s (s <| session_topic := topic |>, (needreturn, RNil, Some e))).
  { intros e. right. split_and!; [done|by eexists|done|left; by exists uu]. }
  destruct (find_server _ _ topic uu) as [server|e] eqn:Ef; [|apply Hfail].
  destruct (parse_data DataParsing topic uu msg) as [bean|] eqn:Eb.
  - unfold request. destruct (perform _) as [r err] eqn:Ep. left. eexists uu, _, server. rewrite Ep. by split_and!.
  - destruct (default_tag json_Unmarshal msg) as [tag|e] eqn:Et; [|apply Hfail].
    destruct (Serializable topic) as [b|e] eqn:Es; [|apply Hfail].
    unfold request. destruct (perform _) as [r err] eqn:Ep. left. eexists uu, _, server. rewrite Ep. split_and!; try done.
    by exists tag, b.
Qed.

(** ** In the agent *)

Context (json_valid : bytes -> bool) (session_bytes : string -> result string bytes)
        (CallArgs : agent_call Srv -> result string (route_result V))
        (ProtocolMarshal : route_result V -> option string -> result string (option bytes))
        (SendMessageHook : string -> bytes -> result string bytes).

Abbreviation handler s := (Some (fun topic msg => (on_route topic msg s).2)).

Lemma toResult_writes t r e (a : agent Srv) : (forall r e, exists data, ProtocolMarshal r e = Ok (Some data)) ->
  (forall t b, exists b', SendMessageHook t b = Ok b') ->
  match toResult ProtocolMarshal SendMessageHook t r e a with
  | Done a' _ | Panicked a' _ => exists body, outbox a' = outbox a ++ [(t, body)]
  | Blocked => False
  end.
Proof.
  intros Hm Hh. assert (Hw : forall data, exists body, match WriteMsg SendMessageHook t data a with
    | Done a' _ | Panicked a' _ => outbox a' = outbox a ++ [(t, body)] | Blocked => False end).
  { intros data. unfold WriteMsg. destruct (Hh t data) as [b' ->]. by exists b'. }
  assert (Hwrite : forall data, match WriteMsg SendMessageHook t data a with
    | Done a' _ | Panicked a' _ => exists body, outbox a' = outbox a ++ [(t, body)] | Blocked => False end).
  { intros data. destruct (Hw data) as [b Hb]. destruct (WriteMsg SendMessageHook t data a); [by exists b..|done]. }
  unfold toResult. destruct r as [data|v|]; [apply Hwrite|..].
  - destruct (Hm (RVal v) e) as [data ->]. apply Hwrite.
  - destruct (Hm RNil e) as [data ->]. apply Hwrite.
Qed.

(** C28. A publication handled by the agent that has installed the URI route.  The
    route makes one request - to the function the path names, on the module the
    scheme and host name, wanting a reply if and only if the query has [msg_id], with
    the parsed value or the session and the body - or none, and then it has an error.
    The agent writes nothing when the query has no [msg_id]; otherwise, the error
    included, and also when the topic does not parse, at most one message on the same
    topic; and exactly one where results can be marshalled and no hook refuses. *)
Theorem uri_publish_is_answered (s : uri_state Srv Bean) (a : agent Srv) (p : Pack) (pub : Publish) (tb : bytes)
  (Hp : bz (msg_type p) = PUBLISH) (Hv : pvariable p = VPublish pub) (Ht : topic_name pub = Some tb) :
  let t := bytes_str tb in
  routed_once t (MqttPack.msg pub) s (on_route t (MqttPack.msg pub) s) /\
  match handle (handler s) GetRouteServer json_valid session_bytes CallArgs ProtocolMarshal SendMessageHook p a with
  | Done a' _ | Panicked a' _ =>
      calls a' = calls a /\
      (outbox a' = outbox a \/ exists body, outbox a' = outbox a ++ [(t, body)]) /\
      (forall uu, asks t uu false -> outbox a' = outbox a) /\
      ((forall r e, exists data, ProtocolMarshal r e = Ok (Some data)) -> (forall t b, exists b', SendMessageHook t b = Ok b') ->
       (forall uu, ~ asks t uu false) -> exists body, outbox a' = outbox a ++ [(t, body)])
  | Blocked => False
  end.
Proof.
  intros t. pose proof (OnRoute_routed t (MqttPack.msg pub) s) as Hr. split; [exact Hr|].
  unfold handle, GetType. rewrite Hp, Z.eqb_refl. unfold st_bind, st_mod, GetVariable. cbn [exec_then].
  rewrite Hv. unfold pub_topic. rewrite Ht. fold t.
  destruct (on_route t (MqttPack.msg pub) s) as [s' [[needreturn r] err]]. cbn [snd]. unfold routed_once in Hr.
  set (a1 := a <| revNum := revNum a + 1 |>). destruct needreturn.
  - assert (Hno : forall uu, ~ asks t uu false).
    { assert (Hone : forall uu uu' b b', asks t uu b -> asks t uu' b' -> b = b').
      { intros uu uu' b b' [Hu (k & Hk & ->)] [Hu' (k' & Hk' & ->)]. rewrite Hu in Hu'. injection Hu' as <-.
        rewrite Hk in Hk'. by injection Hk' as <-. }
      intros uu Hf. destruct Hr as [(uu' & c & server & Ha & _)|(_ & _ & _ & [[uu' Ha]|[_ Hn]])].
      - by apply (Hone _ _ _ _ Hf) in Ha.
      - by apply (Hone _ _ _ _ Hf) in Ha.
      - by apply (Hn uu false). }
    pose proof (only_replies_toResult ProtocolMarshal SendMessageHook t True r err I a1) as Ho.
    pose proof (toResult_writes t r err a1) as Hw.
    destruct (toResult ProtocolMarshal SendMessageHook t r err a1) as [a'|a'|]; [destruct Ho as (_ & Hc & Hob)..|done];
      (split_and!; [done | naive_solver | naive_solver | naive_solver]).
  - assert (Hask : exists uu, asks t uu false) by (destruct Hr as [(uu & c & server & Ha & _)|(_ & _ & _ & [?|[? _]])]; [by exists uu|done|done]).
    cbn. split_and!; [done | by left | done|]. intros _ _ Hn. destruct Hask as [uu Ha]. by destruct (Hn uu).
Qed.
End UriRoute.

(** ** A publication by URI *)

Definition demo_url (t : string) : result string URL :=
  if decide (t = "chat://c1/say?msg_id=7") then Ok (mkURL "chat" "c1" "/say" "msg_id=7") else Err "invalid".
Definition demo_query (_ : string) : result string (list string) := Ok ["msg_id"].
Definition demo_topic : string := "chat://c1/say?msg_id=7".
Definition demo_pub : Publish := mkPublish (Some (str_bytes demo_topic)) 0 [x01].
Definition demo_publish : Pack := mkPack (zb PUBLISH) x00 x00 x00 0 (VPublish demo_pub).
Definition demo_perform (_ : uri_call string unit) : route_result unit * option string := (RVal tt, None).
Definition demo_marshal (_ : route_result unit) (_ : option string) : result string (option bytes) := Ok (Some [x03]).
Definition demo_route := OnRoute demo_url demo_query None None Ok (fun _ => Ok tt) (fun _ => Ok [x04]) demo_perform.
Definition demo_uri_handle := Agent.handle (Some (fun t m => (demo_route t m (mkUriState "" [])).2)) Ok (fun _ => true) (fun _ => Ok [x04])
  (fun _ => Err "unused") demo_marshal (fun _ b => Ok b) demo_publish (Agent.OnInit 2 0).

Example demo_uri_request : uri_calls (demo_route demo_topic [x01] (mkUriState "" [])).1 =
  [CallWithArgs (mkCall "chat@c1" "/say" true ["SESSION"; BYTES] [[x04]; [x01]])].
Proof. vm_compute. reflexivity. Qed.

Lemma uri_publish_is_answered_witness :
  match demo_uri_handle with
  | Done a' _ | Panicked a' _ => exists body, outbox a' = [] ++ [(demo_topic, body)]
  | Blocked => False
  end.
Proof.
  pose proof (uri_publish_is_answered demo_url demo_query None None Ok (fun _ => Ok tt) (fun _ => Ok [x04]) demo_perform
    (fun _ => true) (fun _ => Ok [x04]) (fun _ => Err "unused") demo_marshal (fun _ b => Ok b) (mkUriState "" []) (Agent.OnInit 2 0)
    demo_publish demo_pub (str_bytes demo_topic) ltac:(vm_compute; reflexivity) ltac:(reflexivity) ltac:(reflexivity)) as [_ H].
  change (bytes_str (str_bytes demo_topic)) with demo_topic in H. fold demo_route in H.
  unfold demo_uri_handle. destruct (Agent.handle _ _ _ _ _ _ _ _ _) as [a'|a'|].
  1, 2: destruct H as (_ & _ & _ & H); apply H; [intros; by exists [x03] | intros t b; by exists b |];
    intros uu (Hu & keys & [= <-] & Hb); vm_compute in Hb; discriminate Hb.
  exact H.
Defined.
