(* ===== verification/Etcd.v ===== *)
(** * The etcd registry

    [etcdv3Registry] of [registry/etcdv3/etcdv3.go] and its watcher
    ([registry/etcdv3/watcher.go]): a service is a key per node in etcd's key-value
    store, kept alive by a lease.

    The etcd client is the interface [EtcdOps]; [EtcdLaws] is what its documentation
    says of the keys.  JSON is a pair of parameters, the hash of a service one more.
    The configuration of the client is not modelled. *)
From Stdlib Require Import Strings.Ascii.
From S2P Require Import Prelude Registry.
#[local] Open Scope mq_scope.
#[local] Open Scope string_scope.
#[local] Open Scope list_scope.
#[local] Open Scope Z_scope.

(** ** The etcd client *)

Inductive keepalive_error := ErrLeaseNotFound | KeepAliveError (e : string).

Class EtcdOps (W : Type) := {
  et_Delete : string -> W -> W * option string;
  et_Grant : Z -> W -> W * result string Z;
  et_KeepAliveOnce : Z -> W -> W * option keepalive_error;
  et_Put : string -> string -> option Z -> W -> W * option string;
  et_Get : string -> W -> W * result string (list (string * string)) }.

(** The keys etcd holds: a call that succeeds does what it says, one that fails may
    still have done it; leases do not touch the keys; [et_Get] lists the keys with the
    prefix. *)
Class EtcdLaws (W : Type) `{EtcdOps W} := {
  et_kv : W -> gmap string string;
  law_Put k v l w : et_kv (et_Put k v l w).1 = <[k := v]> (et_kv w) \/
                    ((et_Put k v l w).2 <> None /\ et_kv (et_Put k v l w).1 = et_kv w);
  law_Delete k w : et_kv (et_Delete k w).1 = delete k (et_kv w) \/
                   ((et_Delete k w).2 <> None /\ et_kv (et_Delete k w).1 = et_kv w);
  law_Grant t w : et_kv (et_Grant t w).1 = et_kv w;
  law_KeepAlive l w : et_kv (et_KeepAliveOnce l w).1 = et_kv w;
  law_Get p w : et_kv (et_Get p w).1 = et_kv w;
  law_Get_keys p w kvs k v : (et_Get p w).2 = Ok kvs -> (k, v) ∈ kvs <-> et_kv w !! k = Some v /\ String.prefix p k = true }.

(** ** Keys *)

Definition prefix : string := "/mqant-registry".
Definition slash_char : Ascii.ascii := "/"%char.

(** [strings.Replace(s, "/", "-", -1)] *)
Fixpoint dashed (s : string) : string :=
  match s with
  | EmptyString => EmptyString
  | String c s => String (if decide (c = slash_char) then "-"%char else c) (dashed s)
  end.

(** [path.Clean] of a rooted path: empty elements and ["."] are dropped, [".."] drops
    the element before it. *)
Fixpoint clean_elements (elems : list string) (out : list string) : list string :=
  match elems with
  | [] => out
  | e :: elems =>
      if decide (e = "" \/ e = ".") then clean_elements elems out
      else if decide (e = "..") then clean_elements elems (take (length out - 1) out)
      else clean_elements elems (out ++ [e])
  end.

Definition path_Clean (rooted : string) : string :=
  ("/" ++ String.concat "/" (clean_elements (split_on slash_char rooted "") []))%string.

(** [path.Join]: the elements that are not empty, joined and cleaned. *)
Definition path_Join (elems : list string) : string :=
  path_Clean (String.concat "/" (filter (fun e => e <> "") elems)).

Definition nodePath (s id : string) : string := path_Join [prefix; dashed s; dashed id].
Definition servicePath (s : string) : string := path_Join [prefix; dashed s].

(** ** The registry *)

Record etcdv3Registry := mkEtcdRegistry { e_register : gmap string Z; e_leases : gmap string Z }.

#[export] Instance eta_etcdv3Registry : Eta etcdv3Registry := fun r => mkEtcdRegistry (e_register r) (e_leases r).

Definition need_one_node : string := "Require at least one node".

Section Etcd.
Context {W : Type} `{EtcdOps W} (json_marshal : Service -> string) (json_unmarshal : string -> option Service)
        (hash : Service -> result string Z).

Definition encode (s : Service) : string := json_marshal s.
Definition decode (ds : string) : option Service := json_unmarshal ds.

(** A call's state and error. *)
Abbreviation ret := (etcdv3Registry * W * option string)%type.

Fixpoint delete_nodes (name : string) (nodes : list Node) (w : W) : W * option string :=
  match nodes with
  | [] => (w, None)
  | node :: nodes =>
      match et_Delete (nodePath name (InstanceID node)) w with
      | (w, Some e) => (w, Some e)
      | (w, None) => delete_nodes name nodes w
      end
  end.

Definition Deregister (s : Service) (e : etcdv3Registry) (w : W) : ret :=
  match Nodes s with
  | [] => (e, w, Some need_one_node)
  | _ =>
      let r := e_register e in let l := e_leases e in
      let e := e <| e_register := delete (Name s) r |> <| e_leases := delete (Name s) l |> in
      let '(w, err) := delete_nodes (Name s) (Nodes s) w in
      (e, w, err)
  end.

(** The service with one node, as it is stored. *)
Definition single (s : Service) (node : Node) : Service := s <| Nodes := [node] |>.

Fixpoint put_nodes (s : Service) (lease : option Z) (nodes : list Node) (w : W) : W * option string :=
  match nodes with
  | [] => (w, None)
  | node :: nodes =>
      match et_Put (nodePath (Name s) (InstanceID node)) (encode (single s node)) lease w with
      | (w, Some e) => (w, Some e)
      | (w, None) => put_nodes s lease nodes w
      end
  end.

Definition nanoseconds : Z := 1000000000.

(** The lease asked for when there is a ttl, in whole seconds. *)
Definition grant (ttl : Z) (w : W) : W * result string (option Z) :=
  if 0 <? ttl then
    match et_Grant (Z.quot ttl nanoseconds) w with
    | (w, Err e) => (w, Err e)
    | (w, Ok id) => (w, Ok (Some id))
    end
  else (w, Ok None).

(** The part of [Register] after the lease of the service was refreshed. *)
Definition register_nodes (ttl : Z) (leaseNotFound : bool) (s : Service) (e : etcdv3Registry) (w : W) : ret :=
  match hash s with
  | Err er => (e, w, Some er)
  | Ok h =>
      if bool_decide (e_register e !! Name s = Some h) && negb leaseNotFound then (e, w, None)
      else
        match grant ttl w with
        | (w, Err er) => (e, w, Some er)
        | (w, Ok lease) =>
            match put_nodes s lease (Nodes s) w with
            | (w, Some er) => (e, w, Some er)
            | (w, None) =>
                let r := e_register e in let l := e_leases e in
                (e <| e_register := <[Name s := h]> r |>
                   <| e_leases := match lease with Some id => <[Name s := id]> l | None => l end |>, w, None)
            end
        end
  end.

Definition Register (ttl : Z) (s : Service) (e : etcdv3Registry) (w : W) : ret :=
  match Nodes s with
  | [] => (e, w, Some need_one_node)
  | _ =>
      match e_leases e !! Name s with
      | None => register_nodes ttl false s e w
      | Some leaseID =>
          match et_KeepAliveOnce leaseID w with
          | (w, None) => register_nodes ttl false s e w
          | (w, Some ErrLeaseNotFound) => register_nodes ttl true s e w
          | (w, Some (KeepAliveError er)) => (e, w, Some er)
          end
      end
  end.

(** The loop of [GetService]: the services by version. *)
Fixpoint add_stored (kvs : list (string * string)) (serviceMap : gmap string Service) : gmap string Service :=
  match kvs with
  | [] => serviceMap
  | (_, v) :: kvs =>
      match decode v with
      | None => add_stored kvs serviceMap
      | Some sn =>
          let s := default (sn <| Nodes := [] |>) (serviceMap !! Version sn) in
          let ns := Nodes s in
          add_stored kvs (<[Version sn := s <| Nodes := ns ++ Nodes sn |>]> serviceMap)
      end
  end.

Definition ErrNotFound : string := "not found".

Definition GetService (name : string) (w : W) : W * result string (gmap string Service) :=
  match et_Get (servicePath name ++ "/")%string w with
  | (w, Err e) => (w, Err e)
  | (w, Ok []) => (w, Err ErrNotFound)
  | (w, Ok kvs) => (w, Ok (add_stored kvs ∅))
  end.

Definition ListServices (w : W) : W * result string (list string) :=
  match et_Get prefix w with
  | (w, Err e) => (w, Err e)
  | (w, Ok kvs) => (w, Ok (elements (list_to_set (omap (fun kv => Name <$> decode kv.2) kvs) : gset string)))
  end.

(** ** The watcher *)

(** An event: a key put (created, modified or neither), or deleted, with the value it
    had if etcd sends it. *)
Inductive kv_event :=
| EventPut (IsCreate IsModify : bool) (Value : string)
| EventDelete (PrevKv : option string).

Record Result := mkResult { Action : string; r_Service : Service }.

Definition event_result (ev : kv_event) : outcome (option Result) :=
  match ev with
  | EventPut IsCreate IsModify v =>
      let action := if IsCreate then "create" else if IsModify then "update" else "" in
      Ret (mkResult action <$> decode v)
  | EventDelete None => Panic "nil pointer dereference"
  | EventDelete (Some v) => Ret (mkResult "delete" <$> decode v)
  end.

(** The first event of a response that holds a service. *)
Fixpoint first_event (events : list kv_event) : outcome (option Result) :=
  match events with
  | [] => Ret None
  | ev :: events =>
      r <- event_result ev;
      match r with Some r => Ret (Some r) | None => first_event events end
  end.

(** [Next] on the responses that are still to come, when the channel then closes; the
    responses left. *)
Fixpoint Next (ws : list (result string (list kv_event))) : outcome (result string Result * list (result string (list kv_event))) :=
  match ws with
  | [] => Ret (Err "could not get next", [])
  | Err e :: ws => Ret (Err e, ws)
  | Ok events :: ws =>
      r <- first_event events;
      match r with Some r => Ret (Ok r, ws) | None => Next ws end
  end.
End Etcd.
