(* ===== verification/EtcdTheorems.v ===== *)
(** * Theorems on the etcd registry

    What is registered is discovered, what is deregistered no longer is, and other
    services are left alone, over any client that keeps the laws; and what the watcher
    delivers of a batch. *)
From Stdlib Require Import Strings.Ascii.
From S2P Require Import Prelude Registry Etcd.
#[local] Open Scope mq_scope.
#[local] Open Scope string_scope.
#[local] Open Scope list_scope.
#[local] Open Scope Z_scope.

Lemma prefix_append s t : String.prefix s (s ++ t)%string = true.
Proof.
  induction s as [|c s IH]; [by destruct t|]. rewrite str_app_cons. cbn. by destruct (Ascii.ascii_dec c c).
Qed.

(** ** Keys *)

Lemma dashed_no_slash s : no_char slash_char (dashed s).
Proof. induction s as [|c s IH]; [done|]. cbn. split; [|done]. by destruct (decide (c = slash_char)). Qed.

(** A name that is an element of its own in a path. *)
Definition plain (s : string) : Prop := dashed s <> "" /\ dashed s <> "." /\ dashed s <> "..".

Lemma path_Join_plain elems : Forall plain elems ->
  path_Join (prefix :: (dashed <$> elems)) = String.concat "/" (prefix :: (dashed <$> elems)).
Proof.
  intros Hp. unfold path_Join. rewrite filter_cons, decide_True by done.
  assert (Hf : filter (fun e => e <> "") (dashed <$> elems) = dashed <$> elems).
  { induction Hp as [|e elems (He & _) Hp IH]; [done|]. by rewrite fmap_cons, filter_cons, decide_True, IH by done. }
  rewrite Hf. unfold path_Clean.
  assert (Hc : forall l, String.concat "/" (prefix :: l) = String.concat "/" ("" :: "mqant-registry" :: l)) by (by intros []).
  rewrite Hc. rewrite (split_on_concat slash_char) by
    (repeat constructor; try done; apply Forall_fmap, Forall_forall; intros; apply dashed_no_slash).
  rewrite str_app_nil. cbn [clean_elements]. rewrite decide_True, !decide_False by (by left + intuition discriminate).
  assert (Hcl : forall l out, Forall plain l -> clean_elements (dashed <$> l) out = out ++ (dashed <$> l)).
  { induction l as [|e l IH]; intros out Hl; [by rewrite app_nil_r|]. apply Forall_cons in Hl as [(H1 & H2 & H3) Hl].
    cbn. rewrite !decide_False by (done || intuition). rewrite IH by done. by rewrite <- app_assoc. }
  rewrite Hcl by done. by destruct elems.
Qed.

Lemma nodePath_plain s id : plain s -> plain id -> nodePath s id = (servicePath s ++ "/" ++ dashed id)%string.
Proof.
  intros Hs Hi. unfold nodePath, servicePath. change [prefix; dashed s; dashed id] with (prefix :: (dashed <$> [s; id])).
  change [prefix; dashed s] with (prefix :: (dashed <$> [s])). rewrite !path_Join_plain by auto.
  cbn [fmap list_fmap String.concat]. by rewrite <- !str_app_assoc.
Qed.

(** ** The store *)

Section Etcd.
Context {W : Type} `{EtcdLaws W} (json_marshal : Service -> string) (json_unmarshal : string -> option Service)
        (hash : Service -> result string Z).

Definition path (s : Service) (n : Node) : string := nodePath (Name s) (InstanceID n).
Definition paths (s : Service) : list string := path s <$> Nodes s.

(** The store with the nodes put, and with them deleted. *)
Definition with_nodes (s : Service) (nodes : list Node) (kv : gmap string string) : gmap string string :=
  foldl (fun kv n => <[path s n := json_marshal (single s n)]> kv) kv nodes.
Definition without_nodes (s : Service) (nodes : list Node) (kv : gmap string string) : gmap string string :=
  foldl (fun kv n => delete (path s n) kv) kv nodes.

Lemma put_nodes_ok s lease nodes : forall w w', put_nodes json_marshal s lease nodes w = (w', None) ->
  et_kv w' = with_nodes s nodes (et_kv w).
Proof.
  induction nodes as [|n nodes IH]; intros w w' Hp; cbn [put_nodes] in Hp; [by injection Hp as <-|].
  pose proof (law_Put (nodePath (Name s) (InstanceID n)) (encode json_marshal (single s n)) lease w) as Hl.
  destruct (et_Put _ _ _ w) as [w1 [er|]]; [done|]. cbn in Hl. rewrite (IH _ _ Hp).
  destruct Hl as [->|[? _]]; [done|congruence].
Qed.

Lemma put_nodes_frame s lease nodes k : k ∉ path s <$> nodes -> forall w, et_kv (put_nodes json_marshal s lease nodes w).1 !! k = et_kv w !! k.
Proof.
  induction nodes as [|n nodes IH]; intros Hk w; [done|]. rewrite fmap_cons, not_elem_of_cons in Hk. destruct Hk as [Hn Hk].
  cbn [put_nodes]. pose proof (law_Put (nodePath (Name s) (InstanceID n)) (encode json_marshal (single s n)) lease w) as Hl.
  assert (Hw : et_kv (et_Put (nodePath (Name s) (InstanceID n)) (encode json_marshal (single s n)) lease w).1 !! k = et_kv w !! k).
  { destruct Hl as [->|[_ ->]]; [|done]. by rewrite lookup_insert_ne. }
  destruct (et_Put _ _ _ w) as [w1 [er|]]; [done|]. cbn in Hw. by rewrite IH.
Qed.

Lemma delete_nodes_ok s nodes : forall w w', delete_nodes (Name s) nodes w = (w', None) -> et_kv w' = without_nodes s nodes (et_kv w).
Proof.
  induction nodes as [|n nodes IH]; intros w w' Hp; cbn [delete_nodes] in Hp; [by injection Hp as <-|].
  pose proof (law_Delete (nodePath (Name s) (InstanceID n)) w) as Hl.
  destruct (et_Delete _ w) as [w1 [er|]]; [done|]. cbn in Hl. rewrite (IH _ _ Hp).
  destruct Hl as [->|[? _]]; [done|congruence].
Qed.

Lemma lookup_with_nodes s nodes kv k : NoDup (path s <$> nodes) ->
  with_nodes s nodes kv !! k = match list_find (fun n => path s n = k) nodes with
                               | Some (_, n) => Some (json_marshal (single s n))
                               | None => kv !! k
                               end.
Proof.
  revert kv. induction nodes as [|n nodes IH]; intros kv Hnd; [done|]. apply NoDup_cons in Hnd as [Hni Hnd].
  cbn [with_nodes foldl list_find]. fold (with_nodes s nodes (<[path s n := json_marshal (single s n)]> kv)). rewrite IH by done.
  destruct (decide (path s n = k)) as [<-|Hne].
  - destruct (list_find _ nodes) as [[i m]|] eqn:E; [|by rewrite lookup_insert_eq].
    apply list_find_Some in E as (Hm & Hp & _). destruct Hni. rewrite <- Hp. by eapply list_elem_of_fmap_2, list_elem_of_lookup_2.
  - destruct (list_find _ nodes) as [[i m]|]; [done|]. by rewrite lookup_insert_ne.
Qed.

Lemma lookup_without_nodes s nodes kv k : without_nodes s nodes kv !! k = if decide (k ∈ path s <$> nodes) then None else kv !! k.
Proof.
  revert kv. induction nodes as [|n nodes IH]; intros kv; [done|]. cbn [without_nodes foldl].
  fold (without_nodes s nodes (delete (path s n) kv)). rewrite IH. rewrite fmap_cons.
  destruct (decide (k ∈ path s <$> nodes)); [by rewrite decide_True by (by apply elem_of_cons; right)|].
  destruct (decide (k = path s n)) as [->|].
  - rewrite decide_True by apply list_elem_of_here. apply lookup_delete_eq.
  - rewrite decide_False by (by rewrite elem_of_cons; intros [|]). by apply lookup_delete_ne.
Qed.

(** ** Discovery *)

Definition listed (m : gmap string Service) (v : string) (n : Node) : Prop := exists s, m !! v = Some s /\ n ∈ Nodes s.

(** A value that offers node [n] under version [v]. *)
Definition offers (val v : string) (n : Node) : Prop :=
  exists s, json_unmarshal val = Some s /\ Version s = v /\ n ∈ Nodes s.

(** What is stored for a name at keys other than [excluded]. *)
Definition stored (kv : gmap string string) (name : string) (excluded : list string) (v : string) (n : Node) : Prop :=
  exists k val, kv !! k = Some val /\ k ∉ excluded /\ String.prefix (servicePath name ++ "/") k = true /\ offers val v n.

Lemma add_stored_spec kvs v n : forall m, listed (add_stored json_unmarshal kvs m) v n <-> listed m v n \/ exists k val, (k, val) ∈ kvs /\ offers val v n.
Proof.
  clear json_marshal hash. induction kvs as [|[k val] kvs IH]; intros m; cbn [add_stored]; [set_solver|].
  unfold decode. destruct (json_unmarshal val) as [sn|] eqn:E.
  - rewrite IH. clear IH. split.
    + intros [(s & Hs & Hn)|(k' & val' & Hin & Ho)]; [|right; exists k', val'; set_solver].
      destruct (decide (v = Version sn)) as [->|Hne].
      * rewrite lookup_insert_eq in Hs. injection Hs as <-. cbn in Hn. apply elem_of_app in Hn as [Hn|Hn].
        -- destruct (m !! Version sn) as [s0|] eqn:E0; cbn in Hn; [|set_solver]. left. by exists s0.
        -- right. exists k, val. split; [set_solver|]. by exists sn.
      * rewrite lookup_insert_ne in Hs by done. left. by exists s.
    + intros [(s & Hs & Hn)|(k' & val' & [[= -> ->]|Hin]%elem_of_cons & Ho)]; [| |right; by exists k', val'].
      * left. destruct (decide (v = Version sn)) as [->|Hne].
        -- eexists. split; [apply lookup_insert_eq|]. cbn. rewrite Hs. cbn. set_solver.
        -- exists s. by rewrite lookup_insert_ne.
      * left. destruct Ho as (s' & Es & <- & Hn). rewrite E in Es. injection Es as <-.
        eexists. split; [apply lookup_insert_eq|]. cbn. set_solver.
  - rewrite IH. split; [intros [?|(k' & val' & ? & ?)]; [by left|right; exists k', val'; set_solver]|].
    intros [?|(k' & val' & [[= -> ->]|Hin]%elem_of_cons & Ho)]; [by left| |right; by exists k', val'].
    destruct Ho as (s' & Es & _). congruence.
Qed.

Lemma GetService_lists name w w' m : GetService json_unmarshal name w = (w', Ok m) ->
  et_kv w' = et_kv w /\ forall v n, listed m v n <-> stored (et_kv w) name [] v n.
Proof.
  clear json_marshal hash. unfold GetService. pose proof (law_Get (servicePath name ++ "/")%string w) as Hk.
  pose proof (law_Get_keys (servicePath name ++ "/")%string w) as Hl.
  destruct (et_Get _ w) as [w1 [kvs|e]]; [|done]. cbn in Hk, Hl. 
  assert (E : match kvs with [] => (w1, Err ErrNotFound) | _ => (w1, Ok (add_stored json_unmarshal kvs ∅)) end = (w', Ok m) ->
    w1 = w' /\ add_stored json_unmarshal kvs ∅ = m) by (destruct kvs; [done|]; by intros [= <- <-]).
  intros [<- <-]%E. clear E. split; [done|]. intros v n. rewrite add_stored_spec.
  unfold stored. split.
  - intros [(s & Hs & _)|(k & val & Hin & Ho)]; [by rewrite lookup_empty in Hs|].
    apply (Hl _ k val eq_refl) in Hin as [? ?]. exists k, val. split_and!; try done. apply not_elem_of_nil.
  - intros (k & val & Hkv & _ & Hp & Ho). right. exists k, val. split; [|done]. by apply (Hl _ k val eq_refl).
Qed.

(** ** Registering *)

Lemma grant_kv ttl w : et_kv (grant ttl w).1 = et_kv w.
Proof. unfold grant. destruct (0 <? ttl); [|done]. pose proof (law_Grant (Z.quot ttl nanoseconds) w) as Hg. by destruct (et_Grant _ w) as [w1 [|]]. Qed.

(** What a call of [Register] has done, by its result: it failed, and only the keys
    of the service may differ; the service was known unchanged; or it was put. *)
Definition register_effect (s : Service) (e : etcdv3Registry) (kv : gmap string string) (e1 : etcdv3Registry)
    (kv1 : gmap string string) (err : option string) : Prop :=
  match err with
  | Some _ => e1 = e /\ forall k, k ∉ paths s -> kv1 !! k = kv !! k
  | None => exists h, hash s = Ok h /\ e_register e1 !! Name s = Some h /\
      (e_register e !! Name s = Some h /\ kv1 = kv \/ kv1 = with_nodes s (Nodes s) kv)
  end.

Lemma register_nodes_effect ttl lost s e w :
  let r := register_nodes json_marshal hash ttl lost s e w in
  register_effect s e (et_kv w) r.1.1 (et_kv r.1.2) r.2.
Proof.
  unfold register_nodes. destruct (hash s) as [h|] eqn:Eh; [|done].
  destruct (bool_decide _ && _) eqn:Eb.
  { apply andb_true_iff in Eb as [Eb%bool_decide_eq_true _]. exists h. split_and!; [done..|]. by left. }
  pose proof (grant_kv ttl w) as Hg. destruct (grant ttl w) as [w1 [lease|er]]; cbn in Hg |- *; [|by rewrite Hg].
  destruct (put_nodes json_marshal s lease (Nodes s) w1) as [w2 [er|]] eqn:Ep.
  - split; [done|]. intros k Hk. rewrite <- Hg. by rewrite <- (put_nodes_frame s lease (Nodes s) k Hk w1), Ep.
  - exists h. split; [done|]. split; [apply lookup_insert_eq|]. right. cbn. by rewrite (put_nodes_ok _ _ _ _ _ Ep), Hg.
Qed.

Lemma Register_effect ttl s e w :
  let r := Register json_marshal hash ttl s e w in register_effect s e (et_kv w) r.1.1 (et_kv r.1.2) r.2.
Proof.
  unfold Register. destruct (Nodes s); [done|].
  destruct (e_leases e !! Name s) as [lid|]; [|apply register_nodes_effect].
  pose proof (law_KeepAlive lid w) as Hk. destruct (et_KeepAliveOnce lid w) as [w1 [[|er]|]]; cbn in Hk.
  1, 3: pose proof (register_nodes_effect ttl true s e w1) as H1; pose proof (register_nodes_effect ttl false s e w1) as H2;
    rewrite Hk in H1, H2; assumption.
  cbn. by rewrite Hk.
Qed.

Lemma with_nodes_again s kv : NoDup (paths s) -> with_nodes s (Nodes s) (with_nodes s (Nodes s) kv) = with_nodes s (Nodes s) kv.
Proof. intros Hnd. apply map_eq. intros k. rewrite !lookup_with_nodes by done. by destruct (list_find _ _) as [[? ?]|]. Qed.

Lemma without_with_nodes s kv : NoDup (paths s) ->
  without_nodes s (Nodes s) (with_nodes s (Nodes s) kv) = without_nodes s (Nodes s) kv.
Proof.
  intros Hnd. apply map_eq. intros k. rewrite !lookup_without_nodes. destruct (decide (k ∈ path s <$> Nodes s)) as [|Hk]; [done|].
  rewrite lookup_with_nodes by done. destruct (list_find _ _) as [[i n]|] eqn:E; [|done].
  apply list_find_Some in E as (Hn & <- & _). destruct Hk. by eapply list_elem_of_fmap_2, list_elem_of_lookup_2.
Qed.

Lemma stored_with s kv v n : NoDup (paths s) -> plain (Name s) -> Forall (fun n => plain (InstanceID n)) (Nodes s) ->
  Forall (fun n => json_unmarshal (json_marshal (single s n)) = Some (single s n)) (Nodes s) ->
  stored (with_nodes s (Nodes s) kv) (Name s) [] v n <-> v = Version s /\ n ∈ Nodes s \/ stored kv (Name s) (paths s) v n.
Proof.
  intros Hnd Hp Hi Hj. unfold stored. rewrite Forall_forall in Hi, Hj. split.
  - intros (k & val & Hk & _ & Hpre & Ho). rewrite lookup_with_nodes in Hk by done.
    destruct (list_find _ _) as [[i m]|] eqn:E.
    + left. apply list_find_Some in E as (Hm%list_elem_of_lookup_2 & _ & _). injection Hk as <-.
      destruct Ho as (s' & Es & <- & Hn). rewrite (Hj m Hm) in Es. injection Es as <-. cbn in Hn.
      apply list_elem_of_singleton in Hn as ->. done.
    + right. exists k, val. split_and!; try done. intros (m & -> & Hm)%list_elem_of_fmap.
      apply list_find_None in E. rewrite Forall_forall in E. by apply (E m Hm).
  - intros [[-> Hn]|(k & val & Hk & Hni & Hpre & Ho)].
    + exists (path s n), (json_marshal (single s n)). rewrite lookup_with_nodes by done. split_and!.
      * destruct (list_find (fun m => path s m = path s n) (Nodes s)) as [[i m]|] eqn:E.
        -- apply list_find_Some in E as (Hm & Hp' & _). f_equal. f_equal. f_equal.
           apply list_elem_of_lookup in Hn as [j Hj']. unfold paths in Hnd.
           assert (i = j) as ->; [|congruence].
           eapply (NoDup_lookup _ _ _ (path s n) Hnd); rewrite list_lookup_fmap; [by rewrite Hm; cbn; f_equal | by rewrite Hj'].
        -- apply list_find_None in E. rewrite Forall_forall in E. by destruct (E n Hn).
      * apply not_elem_of_nil.
      * unfold path. rewrite nodePath_plain by auto. rewrite <- str_app_assoc. apply prefix_append.
      * exists (single s n). split; [by apply Hj|]. split; [done|]. cbn. set_solver.
    + exists k, val. rewrite lookup_with_nodes by done. destruct (list_find _ _) as [[i m]|] eqn:E.
      * apply list_find_Some in E as (Hm & <- & _). destruct Hni. by eapply list_elem_of_fmap_2, list_elem_of_lookup_2.
      * split_and!; try done. apply not_elem_of_nil.
Qed.

Lemma stored_without s kv v n : stored (without_nodes s (Nodes s) kv) (Name s) [] v n <-> stored kv (Name s) (paths s) v n.
Proof.
  clear json_marshal hash. unfold stored. setoid_rewrite lookup_without_nodes. split.
  - intros (k & val & Hk & _ & Hpre & Ho). destruct (decide _); [done|]. by exists k, val.
  - intros (k & val & Hk & Hni & Hpre & Ho). exists k, val. rewrite decide_False by done. split_and!; try done. apply not_elem_of_nil.
Qed.
End Etcd.

(** C25. The etcd registry over any client that keeps the laws, for a service whose
    nodes have keys of their own.  A [Register] that fails leaves the registry, and
    the keys of all others, as they were.  After one that succeeds, where the service
    was not known unchanged already, [GetService] lists exactly the service's nodes,
    under its version, and what was stored under the name at other keys; registering
    it again changes no key; and after [Deregister] only the others are listed. *)
Theorem etcd_registrations_are_discovered {W : Type} `{EtcdLaws W}
  (json_marshal : Service -> string) (json_unmarshal : string -> option Service) (hash : Service -> result string Z)
  (ttl : Z) (s : Service) (e e1 : etcdv3Registry) (w w1 : W) (err : option string)
  (Hj : Forall (fun n => json_unmarshal (json_marshal (single s n)) = Some (single s n)) (Nodes s))
  (Hn : plain (Name s)) (Hi : Forall (fun n => plain (InstanceID n)) (Nodes s)) (Hnd : NoDup (paths s))
  (Hnew : forall h, hash s = Ok h -> e_register e !! Name s <> Some h)
  (Hreg : Register json_marshal hash ttl s e w = (e1, w1, err)) :
  match err with
  | Some _ => e1 = e /\ forall k, k ∉ paths s -> et_kv w1 !! k = et_kv w !! k
  | None =>
      (forall w2 m, GetService json_unmarshal (Name s) w1 = (w2, Ok m) -> forall v n,
        listed m v n <-> v = Version s /\ n ∈ Nodes s \/ stored json_unmarshal (et_kv w) (Name s) (paths s) v n) /\
      (forall e2 w2, Register json_marshal hash ttl s e1 w1 = (e2, w2, None) -> et_kv w2 = et_kv w1) /\
      (forall e2 w2 w3 m, Deregister s e1 w1 = (e2, w2, None) -> GetService json_unmarshal (Name s) w2 = (w3, Ok m) -> forall v n,
        listed m v n <-> stored json_unmarshal (et_kv w) (Name s) (paths s) v n)
  end.
Proof.
  pose proof (Register_effect json_marshal hash ttl s e w) as He. rewrite Hreg in He. cbn in He.
  destruct err as [er|]; [done|]. destruct He as (h & Eh & Eh1 & [[Hk _]|Hkv]); [by destruct (Hnew h Eh)|]. split_and!.
  - intros w2 m Hg v n. apply GetService_lists in Hg as [_ ->]. rewrite Hkv. by apply stored_with.
  - intros e2 w2 Hagain. pose proof (Register_effect json_marshal hash ttl s e1 w1) as He. rewrite Hagain in He. cbn in He.
    destruct He as (h' & _ & _ & [[_ ->]| ->]); [done|]. rewrite Hkv. by apply with_nodes_again.
  - intros e2 w2 w3 m Hd Hg v n. apply GetService_lists in Hg as [_ ->].
    assert (et_kv w2 = without_nodes s (Nodes s) (et_kv w1)) as ->.
    { unfold Deregister in Hd. destruct (Nodes s) eqn:En; [done|]. rewrite <- En in *.
      destruct (delete_nodes (Name s) (Nodes s) w1) as [w' er'] eqn:Ed. injection Hd as _ <- ->. by apply delete_nodes_ok in Ed. }
    rewrite Hkv, without_with_nodes by done. apply stored_without.
Qed.

(** ** A client in memory *)

Definition memory : Type := gmap string string.

#[export] Instance memory_ops : EtcdOps memory := {|
  et_Delete k w := (delete k w, None);
  et_Grant t w := (w, Ok 1);
  et_KeepAliveOnce l w := (w, None);
  et_Put k v l w := (<[k := v]> w, None);
  et_Get p w := (w, Ok (filter (fun kv => String.prefix p kv.1 = true) (map_to_list w))) |}.

#[export] Instance memory_laws : EtcdLaws memory.
Proof.
  refine {| et_kv w := w |}; try done; try (intros; by left).
  intros p w kvs k v [= <-]. rewrite list_elem_of_filter. rewrite (elem_of_map_to_list (w : gmap string string)). cbn. tauto.
Defined.

Definition demo_node : Node := mkNode 5 "chat@1" "chat@1#u" "10.0.0.1" 7 None.
Definition demo_service : Service := mkService "chat" "1.0" ∅ [] [demo_node].
Definition demo_hash (_ : Service) : result string Z := Ok 9.
Definition demo_marshal (_ : Service) : string := "{}".
Definition demo_unmarshal (_ : string) : option Service := Some demo_service.
Definition no_registry : etcdv3Registry := mkEtcdRegistry ∅ ∅.
Definition demo_registered := Register demo_marshal demo_hash 0 demo_service no_registry (∅ : memory).

Lemma etcd_registrations_are_discovered_witness :
  demo_registered.2 = None /\
  (forall w2 m, GetService demo_unmarshal "chat" demo_registered.1.2 = (w2, Ok m) -> listed m "1.0" demo_node).
Proof.
  split; [reflexivity|]. intros w2 m Hg.
  apply (proj1 (etcd_registrations_are_discovered demo_marshal demo_unmarshal demo_hash 0 demo_service no_registry
    demo_registered.1.1 ∅ demo_registered.1.2 None ltac:(by repeat constructor) ltac:(by split_and!) ltac:(by repeat constructor)
    ltac:(apply NoDup_singleton) ltac:(done) ltac:(reflexivity)) w2 m Hg). left. split; [reflexivity | apply list_elem_of_here].
Defined.

(** ** Batches *)

(** [Next] takes a whole response off the channel and returns its first service: the
    other events of the response are lost. *)
Lemma batch_is_truncated unmarshal ev rest ws r : event_result unmarshal ev = Ret (Some r) ->
  Next unmarshal (Ok (ev :: rest) :: ws) = Ret (Ok r, ws).
Proof. intros E. cbn. by rewrite E. Qed.

(** Two nodes under one lease expire at once: one of them is reported. *)
Example expiry_reports_one : exists r,
  Next (fun v => Some (mkService v "" ∅ [] [])) [Ok [EventDelete (Some "a"); EventDelete (Some "b")]] = Ret (Ok r, []) /\
  Name (r_Service r) = "a".
Proof. eexists. split; reflexivity. Qed.
