(* ===== verification/NetServer.v ===== *)
(** * Listeners and the gate's run

    [TCPServer] ([network/tcp_server.go]) and [WSServer] ([network/ws_server_x.go]):
    the accept loop, a goroutine for each connection, and [Close]; and [Gate.Run]
    ([gate/base/mqtt_gate.go]), which starts them, waits for the close signal, has
    the handler close its agents and closes both servers.  They run concurrently:
    every step of one of them is an event, and [srv_step] and [gate_step] say what
    it does, or that it cannot happen.

    Outside the model: the sockets and TLS, and what a client sends.  When a client
    completes its handshake or goes away, and what [Accept] returns, are events.  The
    accept loop behind a [WSServer] is net/http's. *)
From S2P Require Import Prelude.
#[local] Open Scope mq_scope.
#[local] Open Scope string_scope.
#[local] Open Scope list_scope.
#[local] Open Scope Z_scope.

(** ** The accept loop's delay *)

Definition Millisecond : Z := 1000000.
Definition Second : Z := 1000 * Millisecond.

(** After a temporary error of [Accept]. *)
Definition next_delay (tempDelay : Z) : Z :=
  let d := if tempDelay =? 0 then 5 * Millisecond else tempDelay * 2 in
  if Second <? d then Second else d.

(** ** A server *)

Inductive net := WS | TCP.

(** Where a connection's goroutine is: made but not at [Add] (for a [WSServer], an
    HTTP connection that has not been upgraded), in [agent.Run], after it, after
    [Close], after [OnClose], ended; [Dropped] is an HTTP connection that ended
    without being upgraded. *)
Inductive conn_at := Spawned | Running | Returned | Closed | Told | Finished | Dropped.

(** [shook]: the handshake succeeded and [AgentLearner.Connect] was called;
    [listed]: the agent is in the handler's table; [closing]: [agent.Close] was
    called, whose goroutine has not closed the socket yet; [sock]: it is open. *)
Record conn := mkConn { c_at : conn_at; shook : bool; listed : bool; closing : bool; sock : bool }.

Inductive loop_at := NotStarted | Accepting | LoopEnded.
Inductive close_at := CloseIdle | LnClosed | LnDone | CloseReturned.

#[export] Instance net_eq_dec : EqDecision net. Proof. solve_decision. Defined.
#[export] Instance conn_at_eq_dec : EqDecision conn_at. Proof. solve_decision. Defined.
#[export] Instance loop_at_eq_dec : EqDecision loop_at. Proof. solve_decision. Defined.
#[export] Instance close_at_eq_dec : EqDecision close_at. Proof. solve_decision. Defined.

(** [ln]: the listener is open; [wgLn] and [wgConns] are the wait groups' counters
    (a [WSServer] has only the second). *)
Record srv := mkSrv {
  ln : bool; sv_loop : loop_at; tempDelay : Z; wgLn : Z; conns : list conn; wgConns : Z; sv_close : close_at }.

#[export] Instance eta_conn : Eta conn := fun r => mkConn (c_at r) (shook r) (listed r) (closing r) (sock r).
#[export] Instance eta_srv : Eta srv := fun r =>
  mkSrv (ln r) (sv_loop r) (tempDelay r) (wgLn r) (conns r) (wgConns r) (sv_close r).

(** [Start], its listener made. *)
Definition srv_Start : srv := mkSrv true NotStarted 0 0 [] 0 CloseIdle.

(** What [Accept] returns: a connection, a temporary error, another error. *)
Inductive accepted := AcceptOk | AcceptTemp | AcceptFail.

Inductive srv_event :=
| LoopStarts
| Accept (a : accepted)
| ConnAdd (i : nat)
| Drop (i : nat)
| Handshake (i : nat)
| OverTime (i : nat)
| SocketCloses (i : nat)
| PeerEnds (i : nat)
| SockEnds (i : nat)
| ConnClose (i : nat)
| OnClose (i : nat)
| ConnDone (i : nat)
| CloseLn
| WaitLn
| WaitConns.

#[export] Instance accepted_eq_dec : EqDecision accepted. Proof. solve_decision. Defined.
#[export] Instance srv_event_eq_dec : EqDecision srv_event. Proof. solve_decision. Defined.

(** A step of the [i]th connection's goroutine, and the change of [wgConns] it makes. *)
Definition at_conn (i : nat) (ok : conn -> bool) (f : conn -> conn) (d : Z) (s : srv) : option srv :=
  c ← conns s !! i;
  if ok c then let l := conns s in let n := wgConns s in Some (s <| conns := <[i := f c]> l |> <| wgConns := n + d |>)
  else None.

Definition is_at (p : conn_at) (c : conn) : bool := bool_decide (c_at c = p).
Definition go_to (p : conn_at) (c : conn) : conn := c <| c_at := p |>.

Definition fresh_conn : conn := mkConn Spawned false false false true.

Definition srv_step (k : net) (s : srv) (e : srv_event) : option srv :=
  match e with
  | LoopStarts =>
      if decide (sv_loop s = NotStarted) then
        let n := wgLn s in Some (s <| sv_loop := Accepting |> <| wgLn := if decide (k = TCP) then n + 1 else n |>)
      else None
  | Accept a =>
      if decide (sv_loop s = Accepting) then
        match a with
        | AcceptOk => if ln s then let l := conns s in Some (s <| tempDelay := 0 |> <| conns := l ++ [fresh_conn] |>) else None
        | AcceptTemp =>
            if ln s && bool_decide (k = TCP) then let d := tempDelay s in Some (s <| tempDelay := next_delay d |>) else None
        | AcceptFail =>
            let n := wgLn s in Some (s <| sv_loop := LoopEnded |> <| wgLn := if decide (k = TCP) then n - 1 else n |>)
        end
      else None
  | ConnAdd i => at_conn i (is_at Spawned) (go_to Running) 1 s
  | Drop i => if decide (k = WS) then at_conn i (is_at Spawned) (go_to Dropped) 0 s else None
  | Handshake i =>
      at_conn i (fun c => is_at Running c && negb (shook c) && sock c)
        (fun c => c <| shook := true |> <| listed := true |>) 0 s
  | OverTime i =>
      at_conn i (fun c => is_at Running c && negb (shook c) && negb (closing c)) (fun c => c <| closing := true |>) 0 s
  | SocketCloses i => at_conn i (fun c => closing c && sock c) (fun c => c <| sock := false |>) 0 s
  | PeerEnds i => at_conn i (is_at Running) (go_to Returned) 0 s
  | SockEnds i => at_conn i (fun c => is_at Running c && negb (sock c)) (go_to Returned) 0 s
  | ConnClose i => at_conn i (is_at Returned) (fun c => go_to Closed (c <| sock := false |>)) 0 s
  | OnClose i => at_conn i (is_at Closed) (fun c => go_to Told (c <| listed := false |>)) 0 s
  | ConnDone i => at_conn i (is_at Told) (go_to Finished) (-1) s
  | CloseLn => if decide (sv_close s = CloseIdle) then Some (s <| ln := false |> <| sv_close := LnClosed |>) else None
  | WaitLn => if decide (sv_close s = LnClosed /\ wgLn s = 0) then Some (s <| sv_close := LnDone |>) else None
  | WaitConns => if decide (sv_close s = LnDone /\ wgConns s = 0) then Some (s <| sv_close := CloseReturned |>) else None
  end.


(** ** [Gate.Run] *)

(** Where it is: waiting for the signal, in the handler's [OnDestroy] ([todo] are
    the agents its [Range] must still visit), closing the servers, returned. *)
Inductive run_at := Serving | Destroying (todo : list (net * nat)) | ClosingWs | ClosingTcp | RunReturned.

Record gate := mkGate { g_ws : option srv; g_tcp : option srv; g_at : run_at; g_calls : list (bool * net * nat) }.

#[export] Instance eta_gate : Eta gate := fun r => mkGate (g_ws r) (g_tcp r) (g_at r) (g_calls r).

(** The servers that have an address are started; a listener that cannot be made,
    or a certificate that cannot be loaded, panics ([listens]). *)
Definition Gate_start (WsAddr TCPAddr : string) (listens : net -> bool) : outcome gate :=
  if bool_decide (WsAddr <> "") && negb (listens WS) then Panic "Tcp listen fail"
  else if bool_decide (TCPAddr <> "") && negb (listens TCP) then Panic "Tcp listen fail"
  else Ret (mkGate (if decide (WsAddr = "") then None else Some srv_Start)
                   (if decide (TCPAddr = "") then None else Some srv_Start) Serving []).

Definition server_of (k : net) (g : gate) : option srv := match k with WS => g_ws g | TCP => g_tcp g end.
Definition put_server (k : net) (s : srv) (g : gate) : gate :=
  match k with WS => g <| g_ws := Some s |> | TCP => g <| g_tcp := Some s |> end.

Definition conn_of (k : net) (i : nat) (g : gate) : option conn := s ← server_of k g; conns s !! i.

Definition is_listed (g : gate) (p : net * nat) : bool :=
  match conn_of p.1 p.2 g with Some c => listed c | None => false end.

(** The agents in the handler's table. *)
Definition listed_conns (k : net) (g : gate) : list (net * nat) :=
  match server_of k g with
  | None => []
  | Some s => List.filter (is_listed g) (pair k <$> seq 0 (length (conns s)))
  end.

Inductive gate_event :=
| GServer (k : net) (e : srv_event)
| GSignal
| GVisit (k : net) (i : nat)
| GDestroyed
| GNext.

(** [Close]'s steps of a server are taken by [Run] where it calls it. *)
Definition closes (e : srv_event) : bool := match e with CloseLn | WaitLn | WaitConns => true | _ => false end.

Definition may_close (k : net) (a : run_at) : bool :=
  match k, a with WS, ClosingWs | TCP, ClosingTcp => true | _, _ => false end.

(** The calls the handler receives: [Connect] ([true]) and [DisConnect], the latter
    also for an agent without a session. *)
Definition call_of (k : net) (e : srv_event) : list (bool * net * nat) :=
  match e with Handshake i => [(true, k, i)] | OnClose i => [(false, k, i)] | _ => [] end.

(** [Range]'s function: [agent.Close], which leaves the closing to a goroutine, and
    the removal from the table. *)
Definition visit (c : conn) : conn := c <| closing := true |> <| listed := false |>.

Definition server_closed (k : net) (g : gate) : bool :=
  match server_of k g with Some s => bool_decide (sv_close s = CloseReturned) | None => true end.

Definition gate_step (g : gate) (e : gate_event) : option gate :=
  match e with
  | GServer k e =>
      s ← server_of k g;
      if negb (closes e) || may_close k (g_at g) then
        s ← srv_step k s e;
        let g := put_server k s g in let l := g_calls g in Some (g <| g_calls := l ++ call_of k e |>)
      else None
  | GSignal =>
      match g_at g with
      | Serving => Some (g <| g_at := Destroying (listed_conns WS g ++ listed_conns TCP g) |>)
      | _ => None
      end
  | GVisit k i =>
      match g_at g, server_of k g with
      | Destroying _, Some s => s ← at_conn i listed visit 0 s; Some (put_server k s g)
      | _, _ => None
      end
  | GDestroyed =>
      match g_at g with
      | Destroying todo => if forallb (fun p => negb (is_listed g p)) todo then Some (g <| g_at := ClosingWs |>) else None
      | _ => None
      end
  | GNext =>
      match g_at g with
      | ClosingWs => if server_closed WS g then Some (g <| g_at := ClosingTcp |>) else None
      | ClosingTcp => if server_closed TCP g then Some (g <| g_at := RunReturned |>) else None
      | _ => None
      end
  end.


Definition srv_run (k : net) : list srv_event -> srv -> option srv := run_steps (srv_step k).
Definition gate_run : list gate_event -> gate -> option gate := run_steps gate_step.
