(* ===== verification/NetServerTheorems.v ===== *)
(** * Theorems on the listeners and the gate's run

    The wait groups count what they are meant to, what [Close] waits for and what it
    misses, the accept loop's delay, when [Gate.Run] returns, and the handler's count
    of agents over a whole run. *)
From S2P Require Import Prelude NetServer.
#[local] Open Scope mq_scope.
#[local] Open Scope string_scope.
#[local] Open Scope list_scope.
#[local] Open Scope Z_scope.

(** ** Weights of lists *)

Fixpoint zsum {A} (f : A -> Z) (l : list A) : Z := match l with [] => 0 | x :: l => f x + zsum f l end.

Lemma zsum_app {A} (f : A -> Z) l l' : zsum f (l ++ l') = zsum f l + zsum f l'.
Proof. induction l as [|x l IH]; cbn; [done|]. lia. Qed.

Lemma zsum_insert {A} (f : A -> Z) l i x y : l !! i = Some x -> zsum f (<[i := y]> l) = zsum f l - f x + f y.
Proof.
  revert i. induction l as [|z l IH]; intros [|i] H; try done; [cbn in *; simplify_eq; lia|].
  change (<[S i := y]> (z :: l)) with (z :: <[i := y]> l). cbn [zsum]. rewrite (IH i H). lia.
Qed.

Lemma zsum_nonneg {A} (f : A -> Z) l : (forall x, 0 <= f x) -> 0 <= zsum f l.
Proof. intros H. induction l as [|x l IH]; cbn; [lia|]. specialize (H x). lia. Qed.

Lemma zsum_zero {A} (f : A -> Z) l : (forall x, 0 <= f x) -> zsum f l = 0 -> Forall (fun x => f x = 0) l.
Proof.
  intros H. induction l as [|x l IH]; [constructor|]. cbn. intros E.
  pose proof (zsum_nonneg f l H). specialize (H x). constructor; [lia|]. apply IH. lia.
Qed.

Lemma zsum_pos {A} (f : A -> Z) l i x : (forall x, 0 <= f x) -> l !! i = Some x -> 0 < f x -> 0 < zsum f l.
Proof.
  intros H Hi Hx. pose proof (zsum_nonneg f (<[i := x]> l) H).
  destruct (Z.eq_dec (zsum f l) 0) as [E|]; [|pose proof (zsum_nonneg f l H); lia].
  apply zsum_zero in E; [|done]. rewrite Forall_lookup in E. specialize (E _ _ Hi). cbn in E. lia.
Qed.

(** ** The delay *)

Fixpoint delays (n : nat) : Z := match n with O => 0 | S n => next_delay (delays n) end.

Lemma delays_closed n : delays (S n) = Z.min (5 * Millisecond * 2 ^ Z.of_nat n) Second.
Proof.
  induction n as [|n IH]; [done|]. change (delays (S (S n))) with (next_delay (delays (S n))). rewrite IH.
  rewrite Nat2Z.inj_succ, Z.pow_succ_r by lia. unfold next_delay, Second, Millisecond.
  assert (0 < 2 ^ Z.of_nat n) by (apply Z.pow_pos_nonneg; lia).
  destruct (_ =? 0) eqn:E; bool_prop; [lia|]. destruct (_ <? _) eqn:E2; bool_prop; lia.
Qed.

(** ** One server *)

Definition in_flight (c : conn) : Z :=
  match c_at c with Running | Returned | Closed | Told => 1 | _ => 0 end.

Lemma in_flight_nonneg c : 0 <= in_flight c.
Proof. unfold in_flight. destruct (c_at c); lia. Qed.

(** A connection's flags follow its goroutine. *)
Definition conn_ok (c : conn) : Prop :=
  (c_at c = Spawned -> shook c = false /\ closing c = false /\ sock c = true) /\
  (listed c = true -> shook c = true /\ (c_at c = Running \/ c_at c = Returned \/ c_at c = Closed)) /\
  (shook c = true -> listed c = false -> c_at c = Running \/ c_at c = Returned \/ c_at c = Closed ->
     closing c = true) /\
  (c_at c = Dropped -> shook c = false).

Record srv_inv (k : net) (s : srv) : Prop := {
  iv_conns : wgConns s = zsum in_flight (conns s);
  iv_ln : wgLn s = if decide (k = TCP /\ sv_loop s = Accepting) then 1 else 0;
  iv_closed : sv_close s <> CloseIdle -> ln s = false;
  iv_ok : Forall conn_ok (conns s) }.

Lemma at_conn_Some i ok f d s s' : at_conn i ok f d s = Some s' <->
  exists c, conns s !! i = Some c /\ ok c = true /\
    s' = s <| conns := <[i := f c]> (conns s) |> <| wgConns := wgConns s + d |>.
Proof.
  unfold at_conn. split.
  - intros (c & Hc & H)%bind_Some. destruct (ok c) eqn:E; [|done]. exists c. by simplify_eq.
  - intros (c & Hc & Hok & ->). by rewrite Hc; cbn; rewrite Hok.
Qed.

(** The step of a connection keeps the counter right when the step changes it as it
    changes the connection, and the connection well formed. *)
Lemma at_conn_inv k i ok f d s s' : srv_inv k s -> at_conn i ok f d s = Some s' ->
  (forall c, ok c = true -> conn_ok c -> in_flight (f c) = in_flight c + d /\ conn_ok (f c)) -> srv_inv k s'.
Proof.
  intros [H1 H2 H3 H4] (c & Hc & Hok & ->)%at_conn_Some Hf.
  pose proof (Forall_lookup_1 _ _ _ _ H4 Hc) as Hcok. destruct (Hf c Hok Hcok) as [Hfl Hfok].
  split; cbn; [|done|done|].
  - rewrite (zsum_insert _ _ _ _ _ Hc). lia.
  - by apply Forall_insert.
Qed.

Lemma is_at_true p c : is_at p c = true <-> c_at c = p.
Proof. unfold is_at. by rewrite bool_decide_eq_true. Qed.

(** Case analysis on a connection a step is possible for: [Hg] is the step's guard. *)
Ltac conn_split Hg :=
  let p := fresh "p" in let sh := fresh "sh" in let li := fresh "li" in let cl := fresh "cl" in let so := fresh "so" in
  intros [p sh li cl so] Hg; destruct p; cbn in Hg; try discriminate Hg; bool_prop; subst.

Ltac conn_case :=
  let Hg := fresh "Hg" in conn_split Hg; unfold conn_ok, in_flight; cbn; intuition congruence.

Lemma srv_step_inv k s e s' : srv_inv k s -> srv_step k s e = Some s' -> srv_inv k s'.
Proof.
  intros Hi H. pose proof Hi as [H1 H2 H3 H4].
  destruct e; cbn [srv_step] in H;
    try (eapply at_conn_inv; [exact Hi | exact H | conn_case]).
  - destruct (decide _) as [E|] in H; [|done]. injection H as <-. split; cbn; try done. rewrite H2, E.
    destruct k; cbn; done.
  - destruct (decide _) as [E|] in H; [|done]. destruct a.
    + destruct (ln s) eqn:El; [|done]. injection H as <-. split; cbn; [| |intros Hc; specialize (H3 Hc); congruence|].
      * rewrite zsum_app, H1. cbn. lia.
      * done.
      * apply Forall_app; split; [done|]. constructor; [|done]. unfold conn_ok; cbn; intuition congruence.
    + destruct (_ && _) in H; [|done]. injection H as <-. by split.
    + injection H as <-. split; cbn; [done| |done|done]. rewrite H2, E. destruct k; cbn; done.
  - destruct (decide _) in H; [|done]. eapply at_conn_inv; [exact Hi | exact H | conn_case].
  - destruct (decide _) as [E|] in H; [|done]. injection H as <-. by split.
  - destruct (decide _) as [[E1 E2]|] in H; [|done]. injection H as <-. split; cbn; try done. intros _. apply H3. congruence.
  - destruct (decide _) as [[E1 E2]|] in H; [|done]. injection H as <-. split; cbn; try done. intros _. apply H3. congruence.
Qed.

Lemma srv_Start_inv k : srv_inv k srv_Start.
Proof. split; cbn; try done. by rewrite decide_False by naive_solver. Qed.

Lemma srv_run_inv k evs s s' : srv_inv k s -> srv_run k evs s = Some s' -> srv_inv k s'.
Proof.
  intros Hi H. refine (run_steps_inv (srv_step k) (fun _ => True) (srv_inv k) _ evs s s' _ Hi H).
  - intros ? ? ? _. apply srv_step_inv.
  - by apply Forall_forall.
Qed.

(** A connection that is over for the server. *)
Definition ended (c : conn) : Prop := c_at c = Finished \/ c_at c = Dropped.

(** Once the listener is closed no connection is added, and what was over stays over. *)
Lemma closed_step k s e s' : srv_step k s e = Some s' -> ln s = false ->
  ln s' = false /\ length (conns s') = length (conns s) /\
  forall i c, conns s !! i = Some c -> exists c', conns s' !! i = Some c' /\ (ended c -> ended c').
Proof.
  intros H Hl. destruct e; cbn [srv_step] in H;
    try (destruct (decide _) as [?|?] in H; [|discriminate H]);
    try (destruct a; [rewrite Hl in H; discriminate H | rewrite Hl in H; discriminate H |]);
    try (injection H as <-; cbn; split; [by try rewrite Hl|]; split; [done|]; by eauto);
    (apply at_conn_Some in H as (c0 & Hc0 & Hok & ->); cbn; split; [done|]; split; [by rewrite length_insert|];
     intros j cj Hj; destruct (decide (i = j)) as [->|Hne];
       [rewrite list_lookup_insert_eq by (by eapply lookup_lt_Some); eexists; split; [done|];
        simplify_eq; unfold ended; destruct c0 as [[] sh li cl so]; cbn in *; try discriminate Hok; intuition congruence
       |rewrite list_lookup_insert_ne by done; by eauto]).
Qed.

Lemma closed_run k evs : forall s s', srv_run k evs s = Some s' -> ln s = false ->
  length (conns s') = length (conns s) /\
  forall i c, conns s !! i = Some c -> exists c', conns s' !! i = Some c' /\ (ended c -> ended c').
Proof.
  induction evs as [|e evs IH]; intros s s' H Hl; cbn in H; [injection H as <-; by eauto|].
  apply bind_Some in H as (s1 & Hs1 & H). destruct (closed_step _ _ _ _ Hs1 Hl) as (Hl1 & Hn1 & Hc1).
  destruct (IH _ _ H Hl1) as (Hn & Hc). split; [congruence|]. intros i c Hi.
  destruct (Hc1 _ _ Hi) as (c1 & Hi1 & He1). destruct (Hc _ _ Hi1) as (c' & Hi' & He'). by eauto.
Qed.

Lemma not_in_flight c : in_flight c = 0 -> c_at c = Spawned \/ ended c.
Proof. unfold in_flight, ended. destruct (c_at c); intuition (congruence || lia). Qed.

(** ** [Gate.Run] *)

(** The program's own steps: what it does without a client, a new connection or the
    close signal.  (The net/http goroutine of a connection that is not upgraded is
    the client's to end.) *)
Definition driven (e : gate_event) : bool :=
  match e with
  | GServer k e =>
      match e with
      | Accept AcceptOk | Accept AcceptTemp | Drop _ | Handshake _ | PeerEnds _ => false
      | ConnAdd _ => bool_decide (k = TCP)
      | _ => true
      end
  | GSignal => false
  | GVisit _ _ | GDestroyed | GNext => true
  end.

(** [Run] has still to close, or is closing, the server [k]. *)
Definition to_close (k : net) (g : gate) : Prop :=
  (exists s, server_of k g = Some s /\ sv_close s <> CloseReturned) /\
  match k with WS => g_at g = ClosingWs | TCP => g_at g = ClosingWs \/ g_at g = ClosingTcp end.

(** A connection in service that nothing of the gate will close. *)
Definition held (c : conn) : Prop := c_at c = Running /\ shook c = true /\ sock c = true /\ closing c = false.

Definition stranded (g : gate) : Prop :=
  exists k i c, to_close k g /\ conn_of k i g = Some c /\ held c.

Record gate_inv (g : gate) : Prop := {
  gi_srv : forall k s, server_of k g = Some s -> srv_inv k s;
  gi_ws : forall s, g_ws g = Some s -> g_at g = ClosingTcp \/ g_at g = RunReturned -> sv_close s = CloseReturned }.

Lemma put_server_at k s g : g_at (put_server k s g) = g_at g.
Proof. by destruct k. Qed.

Lemma server_of_put k k' s g : server_of k' (put_server k s g) = if decide (k = k') then Some s else server_of k' g.
Proof. by destruct k, k'. Qed.

Lemma Gate_start_inv w t f g : Gate_start w t f = Ret g -> gate_inv g.
Proof.
  unfold Gate_start. destruct (_ && _); [done|]. destruct (_ && _); [done|]. intros [= <-]. split; cbn.
  - intros [] s H; cbn in H; destruct (decide _) in H; simplify_eq; apply srv_Start_inv.
  - intros s _ [H|H]; done.
Qed.

(** What a step of a server does to [sv_close]. *)
Lemma srv_step_close k s e s' : srv_step k s e = Some s' ->
  sv_close s' = match e with CloseLn => LnClosed | WaitLn => LnDone | WaitConns => CloseReturned | _ => sv_close s end.
Proof.
  destruct e; cbn [srv_step]; intros H;
    try (apply at_conn_Some in H as (c & _ & _ & ->); done);
    repeat (case_match; try discriminate H); simplify_eq; try done.
  - apply at_conn_Some in H as (c & _ & _ & ->); done.
Qed.

Lemma gate_step_inv g e g' : gate_inv g -> gate_step g e = Some g' -> gate_inv g'.
Proof.
  intros [H1 H2] H. destruct e as [k e| |k i| |]; cbn [gate_step] in H.
  - apply bind_Some in H as (s & Hs & H). destruct (_ || _) eqn:Eo in H; [|done].
    apply bind_Some in H as (s' & Hst & H). injection H as <-. split.
    + intros k' s1 Hk. change (server_of k' (put_server k s' g) = Some s1) in Hk.
      rewrite server_of_put in Hk. destruct (decide (k = k')) as [<-|]; [|by apply H1].
      injection Hk as <-. eapply srv_step_inv; [by apply H1 | exact Hst].
    + intros s1 Hk Hat. change (server_of WS (put_server k s' g) = Some s1) in Hk. rewrite server_of_put in Hk.
      change (g_at (put_server k s' g) = ClosingTcp \/ g_at (put_server k s' g) = RunReturned) in Hat.
      rewrite put_server_at in Hat.
      destruct (decide (k = WS)) as [->|]; [|by apply H2]. injection Hk as <-. specialize (H2 s Hs Hat).
      rewrite (srv_step_close _ _ _ _ Hst). destruct e; try done; destruct Hat as [Hat|Hat]; rewrite Hat in Eo; discriminate Eo.
  - destruct (g_at g) eqn:E; try done. injection H as <-. split; [by intros [] s; [apply (H1 WS) | apply (H1 TCP)]|]. cbn. by intros s _ [?|?].
  - destruct (g_at g) eqn:E; try done. destruct (server_of k g) as [s|] eqn:Es; [|done].
    apply bind_Some in H as (s' & Hst & H). injection H as <-. split.
    + intros k' s1. rewrite server_of_put. destruct (decide (k = k')) as [<-|]; [|by apply H1]. intros [= <-].
      eapply at_conn_inv; [by apply H1 | exact Hst | conn_case].
    + rewrite put_server_at, E. by intros s1 _ [?|?].
  - destruct (g_at g) eqn:E; try done. destruct (forallb _ _); [|done]. injection H as <-.
    split; [by intros [] s; [apply (H1 WS) | apply (H1 TCP)]|]. cbn. by intros s _ [?|?].
  - destruct (g_at g) eqn:E; try done; destruct (server_closed _ g) eqn:Ec; try done; injection H as <-;
      (split; [by intros [] s; [apply (H1 WS) | apply (H1 TCP)]|]); cbn; intros s Hs _.
    + unfold server_closed in Ec. cbn in Ec. rewrite Hs in Ec. by apply bool_decide_eq_true in Ec.
    + apply H2; [done | by left].
Qed.

Lemma gate_run_inv evs g g' : gate_inv g -> gate_run evs g = Some g' -> gate_inv g'.
Proof.
  intros Hi H. refine (run_steps_inv gate_step (fun _ => True) gate_inv _ evs g g' _ Hi H).
  - intros ? ? ? _. apply gate_step_inv.
  - by apply Forall_forall.
Qed.

(** *** How many steps are left *)

Definition conn_rank (c : conn) : Z :=
  match c_at c with Spawned => 6 | Running => 5 | Returned => 4 | Closed => 3 | Told => 2 | Finished | Dropped => 0 end
  + Z.b2z (listed c) + Z.b2z (negb (closing c)) + Z.b2z (sock c).

Definition srv_rank (s : srv) : Z :=
  zsum conn_rank (conns s) + match sv_loop s with NotStarted => 2 | Accepting => 1 | LoopEnded => 0 end
  + match sv_close s with CloseIdle => 3 | LnClosed => 2 | LnDone => 1 | CloseReturned => 0 end.

Definition rank_of (o : option srv) : Z := match o with Some s => srv_rank s | None => 0 end.

Definition gate_rank (g : gate) : Z :=
  rank_of (g_ws g) + rank_of (g_tcp g)
  + match g_at g with Serving => 4 | Destroying _ => 3 | ClosingWs => 2 | ClosingTcp => 1 | RunReturned => 0 end.

Lemma conn_rank_nonneg c : 0 <= conn_rank c.
Proof. by destruct c as [[] [] [] [] []]. Qed.

Lemma srv_rank_nonneg s : 0 <= srv_rank s.
Proof. unfold srv_rank. pose proof (zsum_nonneg conn_rank (conns s) conn_rank_nonneg). repeat case_match; lia. Qed.

Lemma gate_rank_nonneg g : 0 <= gate_rank g.
Proof.
  unfold gate_rank, rank_of. destruct (g_ws g) as [s|], (g_tcp g) as [t|];
    try pose proof (srv_rank_nonneg s); try pose proof (srv_rank_nonneg t); repeat case_match; lia.
Qed.

Lemma at_conn_rank i ok f d s s' : at_conn i ok f d s = Some s' ->
  (forall c, ok c = true -> conn_rank (f c) < conn_rank c) -> srv_rank s' < srv_rank s.
Proof.
  intros (c & Hc & Hok & ->)%at_conn_Some Hf. specialize (Hf c Hok). unfold srv_rank. cbn.
  rewrite (zsum_insert _ _ _ _ _ Hc). lia.
Qed.

Ltac rank_case :=
  let Hg := fresh "Hg" in conn_split Hg; repeat match goal with b : bool |- _ => destruct b end; try discriminate Hg; reflexivity.

Lemma srv_step_rank k s e s' : driven (GServer k e) = true -> srv_step k s e = Some s' -> srv_rank s' < srv_rank s.
Proof.
  intros Hd H. destruct e; cbn in Hd; try discriminate Hd; cbn [srv_step] in H;
    try (eapply at_conn_rank; [exact H | rank_case]).
  all: destruct (decide _) as [E|] in H; [|discriminate H].
  - injection H as <-. unfold srv_rank. cbn. rewrite E. lia.
  - destruct a; try done. injection H as <-. unfold srv_rank. cbn. rewrite E. lia.
  - injection H as <-. unfold srv_rank. cbn. rewrite E. lia.
  - destruct E as [E _]. injection H as <-. unfold srv_rank. cbn. rewrite E. lia.
  - destruct E as [E _]. injection H as <-. unfold srv_rank. cbn. rewrite E. lia.
Qed.

Lemma put_server_rank k s s' g : server_of k g = Some s -> srv_rank s' < srv_rank s ->
  gate_rank (put_server k s' g) < gate_rank g.
Proof. intros H Hr. unfold gate_rank. destruct k; cbn in *; rewrite H; cbn; lia. Qed.

Lemma gate_step_rank g e g' : driven e = true -> gate_step g e = Some g' -> gate_rank g' < gate_rank g.
Proof.
  intros Hd H. destruct e as [k e| |k i| |]; cbn [gate_step] in H; try discriminate Hd.
  - apply bind_Some in H as (s & Hs & H). destruct (_ || _) in H; [|done].
    apply bind_Some in H as (s' & Hst & H). injection H as <-.
    apply (srv_step_rank _ _ _ _ Hd) in Hst. exact (put_server_rank _ _ _ _ Hs Hst).
  - destruct (g_at g) eqn:E; try done. destruct (server_of k g) as [s|] eqn:Es; [|done].
    apply bind_Some in H as (s' & Hst & H). injection H as <-. eapply put_server_rank; [exact Es|].
    eapply at_conn_rank; [exact Hst | rank_case].
  - destruct (g_at g) eqn:E; try done. destruct (forallb _ _); [|done]. injection H as <-. unfold gate_rank. cbn. rewrite E. lia.
  - destruct (g_at g) eqn:E; try done; destruct (server_closed _ g); try done; injection H as <-; unfold gate_rank; cbn; rewrite E; lia.
Qed.

(** *** Progress *)

(** A server that is being closed has a step of its own, unless it has a held
    connection. *)
Lemma closing_step k s : srv_inv k s -> sv_close s <> CloseReturned ->
  (forall i c, conns s !! i = Some c -> ~ held c) ->
  exists e s', driven (GServer k e) = true /\ srv_step k s e = Some s'.
Proof.
  intros [H1 H2 H3 _] Hc Hheld.
  assert (Hat : forall i c ok f d, conns s !! i = Some c -> ok c = true -> exists s', at_conn i ok f d s = Some s')
    by (intros i c ok f d Hi Hok; eexists; apply at_conn_Some; eauto).
  destruct (sv_close s) eqn:Ec; try done.
  - exists CloseLn. cbn [srv_step driven]. rewrite decide_True by done. by eauto.
  - destruct (Z.eq_dec (wgLn s) 0) as [E|E].
    + exists WaitLn. cbn [srv_step driven]. rewrite decide_True by done. by eauto.
    + rewrite H2 in E. destruct (decide (k = TCP /\ sv_loop s = Accepting)) as [[-> El]|]; [|done].
      exists (Accept AcceptFail). cbn [srv_step driven]. rewrite decide_True by done. by eauto.
  - destruct (Z.eq_dec (wgConns s) 0) as [E|E].
    + exists WaitConns. cbn [srv_step driven]. rewrite decide_True by done. by eauto.
    + assert (exists i c, conns s !! i = Some c /\ in_flight c = 1) as (i & c & Hi & Hf).
      { rewrite H1 in E. destruct (decide (Exists (fun c => in_flight c = 1) (conns s))) as [HE|HE].
        - apply Exists_exists in HE as (c & (i & Hi)%list_elem_of_lookup & Hf). by eauto.
        - exfalso. apply E. clear -HE. induction (conns s) as [|c l IH]; [done|]. cbn.
          assert (in_flight c = 0) as -> by (assert (in_flight c <> 1) by (intros ?; apply HE; by left);
            unfold in_flight in *; destruct (c_at c); congruence).
          rewrite IH; [done|]. intros Hx. apply HE. by right. }
      specialize (Hheld i c Hi). destruct c as [p sh li cl so]. unfold in_flight in Hf. cbn in Hf.
      destruct p; try discriminate Hf.
      * destruct so; [destruct cl; [|destruct sh]|].
        -- exists (SocketCloses i). by edestruct Hat as [s' Hs']; [exact Hi | | exists s'; split; [done | exact Hs']].
        -- exfalso. by apply Hheld.
        -- exists (OverTime i). by edestruct Hat as [s' Hs']; [exact Hi | | exists s'; split; [done | exact Hs']].
        -- exists (SockEnds i). by edestruct Hat as [s' Hs']; [exact Hi | | exists s'; split; [done | exact Hs']].
      * exists (ConnClose i). by edestruct Hat as [s' Hs']; [exact Hi | | exists s'; split; [done | exact Hs']].
      * exists (OnClose i). by edestruct Hat as [s' Hs']; [exact Hi | | exists s'; split; [done | exact Hs']].
      * exists (ConnDone i). by edestruct Hat as [s' Hs']; [exact Hi | | exists s'; split; [done | exact Hs']].
Qed.

Definition closing_at (g : gate) : Prop := g_at g = ClosingWs \/ g_at g = ClosingTcp.

Lemma gate_progress g : gate_inv g -> closing_at g -> ~ stranded g -> exists e g', driven e = true /\ gate_step g e = Some g'.
Proof.
  intros Hi Hat Hns.
  assert (exists k, may_close k (g_at g) = true /\ (k = WS /\ g_at g = ClosingWs \/ k = TCP /\ g_at g = ClosingTcp)) as (k & Hm & Hk)
    by (destruct Hat as [E|E]; rewrite E; [exists WS | exists TCP]; naive_solver).
  destruct (server_closed k g) eqn:Ec.
  { exists GNext. cbn [gate_step driven]. destruct Hk as [[-> E]|[-> E]]; rewrite E, Ec; by eauto. }
  unfold server_closed in Ec. destruct (server_of k g) as [s|] eqn:Es; [|done]. apply bool_decide_eq_false in Ec.
  destruct (closing_step k s) as (e & s' & Hd & Hst); [by apply Hi | done | |].
  - intros i c Hc Hh. apply Hns. exists k, i, c. split; [|split; [|done]].
    + split; [by eauto|]. destruct Hk as [[-> E]|[-> E]]; auto.
    + unfold conn_of. by rewrite Es.
  - exists (GServer k e). cbn [gate_step]. rewrite Es. cbn [mbind option_bind]. rewrite Hm, orb_true_r, Hst. by eauto.
Qed.

(** *** Held connections *)

Definition holds (s : srv) (i : nat) : Prop := exists c, conns s !! i = Some c /\ held c.

Lemma at_conn_holds k i ok f d s s' j : srv_inv k s -> at_conn i ok f d s = Some s' ->
  (forall c, ok c = true -> conn_ok c -> held (f c) <-> held c) -> holds s' j <-> holds s j.
Proof.
  intros Hi (c & Hc & Hok & ->)%at_conn_Some Hf. pose proof (Forall_lookup_1 _ _ _ _ (iv_ok _ _ Hi) Hc) as Hk. unfold holds. cbn. destruct (decide (i = j)) as [->|].
  - rewrite list_lookup_insert_eq by (by eapply lookup_lt_Some). specialize (Hf c Hok Hk). rewrite Hc. naive_solver.
  - by rewrite list_lookup_insert_ne.
Qed.

Ltac held_case :=
  let Hg := fresh "Hg" in conn_split Hg; unfold held, conn_ok; cbn; intuition congruence.

Lemma srv_step_holds k s e s' j : srv_inv k s -> driven (GServer k e) = true -> srv_step k s e = Some s' ->
  holds s' j <-> holds s j.
Proof.
  intros Hi Hd H. destruct e; cbn in Hd; try discriminate Hd; cbn [srv_step] in H;
    try (eapply at_conn_holds; [exact Hi | exact H | held_case]);
    (destruct (decide _) in H; [|discriminate H]); try (destruct a; try done); injection H as <-; done.
Qed.

(** A server with a held connection does not get out of [Close]; one that has got
    out has nothing left to close. *)
Lemma srv_step_returned k s e s' : srv_inv k s -> srv_step k s e = Some s' ->
  sv_close s' <> CloseReturned -> sv_close s <> CloseReturned.
Proof.
  intros _ H Hc E. apply Hc. rewrite (srv_step_close _ _ _ _ H). destruct e; try done; cbn [srv_step] in H;
    rewrite decide_False in H by (intuition congruence); discriminate H.
Qed.

Lemma holds_stays k s e s' i : srv_inv k s -> srv_step k s e = Some s' -> holds s i ->
  sv_close s <> CloseReturned -> sv_close s' <> CloseReturned.
Proof.
  intros Hi H (c & Hc & Hh) Hn. rewrite (srv_step_close _ _ _ _ H). destruct e; try done. cbn [srv_step] in H.
  destruct (decide _) as [[_ E]|] in H; [|discriminate H]. rewrite (iv_conns _ _ Hi) in E.
  pose proof (zsum_pos in_flight (conns s) i c in_flight_nonneg Hc) as Hp.
  assert (in_flight c = 1) by (unfold in_flight; by rewrite (proj1 Hh)). lia.
Qed.

Lemma stranded_alt g : stranded g <-> exists k s i, server_of k g = Some s /\ sv_close s <> CloseReturned /\
  match k with WS => g_at g = ClosingWs | TCP => closing_at g end /\ holds s i.
Proof.
  unfold stranded, to_close, conn_of, holds, closing_at. split.
  - intros (k & i & c & [(s & Hs & Hc) Hat] & Hi & Hh). rewrite Hs in Hi. exists k, s, i. by eauto 10.
  - intros (k & s & i & Hs & Hc & Hat & c & Hi & Hh). exists k, i, c. rewrite Hs. by eauto 10.
Qed.

Lemma stranded_step g e g' : gate_inv g -> closing_at g -> driven e = true -> gate_step g e = Some g' ->
  (stranded g' <-> stranded g) /\ (closing_at g' \/ g_at g' = RunReturned).
Proof.
  intros Hi Hat Hd H. rewrite !stranded_alt. destruct e as [k e| |k i| |]; cbn [gate_step] in H.
  - apply bind_Some in H as (s & Hs & H). destruct (_ || _) in H; [|done].
    apply bind_Some in H as (s' & Hst & H). injection H as <-.
    pose proof (gi_srv _ Hi _ _ Hs) as Hsi. split; [|left; unfold closing_at; cbn; by rewrite put_server_at].
    split.
    + intros (k' & t & j & Ht & Hc & Ha & Hh). change (server_of k' (put_server k s' g) = Some t) in Ht.
      unfold closing_at in Ha. cbn in Ha. rewrite put_server_at in Ha. rewrite server_of_put in Ht.
      destruct (decide (k = k')) as [<-|]; [|by exists k', t, j]. injection Ht as <-. exists k, s, j.
      split; [done|]. split; [by eapply srv_step_returned|]. split; [done|]. by apply (srv_step_holds _ _ _ _ j Hsi Hd Hst).
    + intros (k' & t & j & Ht & Hc & Ha & Hh). destruct (decide (k = k')) as [<-|Hne].
      * rewrite Hs in Ht. injection Ht as <-. exists k, s', j. change (server_of k (put_server k s' g) = Some s' /\
          sv_close s' <> CloseReturned /\ match k with WS => g_at (put_server k s' g) = ClosingWs | TCP => closing_at (put_server k s' g) end /\ holds s' j).
        unfold closing_at. rewrite server_of_put, decide_True, put_server_at by done. split; [done|].
        split; [by apply (holds_stays _ _ _ _ j Hsi Hst)|]. split; [done|]. by apply (srv_step_holds _ _ _ _ j Hsi Hd Hst).
      * exists k', t, j. change (server_of k' (put_server k s' g) = Some t /\
          sv_close t <> CloseReturned /\ match k' with WS => g_at (put_server k s' g) = ClosingWs | TCP => closing_at (put_server k s' g) end /\ holds t j).
        unfold closing_at. by rewrite server_of_put, decide_False, put_server_at.
  - done.
  - destruct Hat as [E|E]; rewrite E in H; discriminate H.
  - destruct Hat as [E|E]; rewrite E in H; discriminate H.
  - destruct Hat as [E|E]; rewrite E in H; destruct (server_closed _ g) eqn:Ec; try discriminate H; injection H as <-;
      (split; [|unfold closing_at; cbn; by auto]); unfold closing_at; cbn; unfold server_closed in Ec; split.
    + intros ([] & s & i & Hs & Hc & Ha & Hh); [discriminate Ha|]. exists TCP, s, i. auto.
    + intros ([] & s & i & Hs & Hc & Ha & Hh); [|by exists TCP, s, i; auto]. rewrite Hs in Ec. by apply bool_decide_eq_true in Ec.
    + intros ([] & s & i & Hs & Hc & Ha & Hh); cbn in Ha; intuition congruence.
    + intros ([] & s & i & Hs & Hc & Ha & Hh); [congruence|]. rewrite Hs in Ec. by apply bool_decide_eq_true in Ec.
Qed.

Definition past_destroy (g : gate) : Prop := closing_at g \/ g_at g = RunReturned.

Lemma returned_not_stranded g : g_at g = RunReturned -> ~ stranded g.
Proof. rewrite stranded_alt. unfold closing_at. intros -> ([] & s & i & _ & _ & Ha & _); intuition congruence. Qed.

Lemma returned_step g e g' : g_at g = RunReturned -> gate_step g e = Some g' -> g_at g' = RunReturned.
Proof.
  intros Hr H. destruct e as [k e| |k i| |]; cbn [gate_step] in H; rewrite ?Hr in H; try discriminate H.
  apply bind_Some in H as (s & Hs & H). destruct (_ || _) in H; [|done].
  apply bind_Some in H as (s' & Hst & H). injection H as <-. cbn. by rewrite put_server_at.
Qed.

Lemma driven_step g e g' : gate_inv g -> past_destroy g -> driven e = true -> gate_step g e = Some g' ->
  (stranded g' <-> stranded g) /\ past_destroy g'.
Proof.
  intros Hi [Hat|Hr] Hd H; [by eapply stranded_step|].
  pose proof (returned_step _ _ _ Hr H) as Hr'. split; [|by right].
  pose proof (returned_not_stranded _ Hr). pose proof (returned_not_stranded _ Hr'). tauto.
Qed.

Definition all_driven (evs : list gate_event) : Prop := Forall (fun e => driven e = true) evs.

Lemma driven_run evs g g' : gate_inv g -> past_destroy g -> all_driven evs -> gate_run evs g = Some g' ->
  stranded g' <-> stranded g.
Proof.
  intros Hi Hp Hd H.
  refine (proj2 (proj2 (run_steps_inv gate_step (fun e => driven e = true)
    (fun x => gate_inv x /\ past_destroy x /\ (stranded x <-> stranded g)) _ evs g g' Hd _ H))); [|done].
  intros x e x' Hde (Hx & Hpx & Hs) Hst. destruct (driven_step _ _ _ Hx Hpx Hde Hst) as [Hs' Hp'].
  split; [by eapply gate_step_inv|]. split; [done|]. by rewrite Hs'.
Qed.

(** A client that completes its handshake once [OnDestroy] is over is held. *)
Lemma late_handshake_strands k i g g' : to_close k g -> gate_step g (GServer k (Handshake i)) = Some g' ->
  (forall c, conn_of k i g = Some c -> closing c = false) -> stranded g'.
Proof.
  intros [(s & Hs & Hc) Hat] H Hcl. cbn [gate_step] in H. rewrite Hs in H. cbn in H.
  apply bind_Some in H as (s' & Hst & H). injection H as <-.
  pose proof Hst as (c & Hi & Hg & ->)%at_conn_Some. apply stranded_alt.
  match type of Hst with _ = Some ?s' => exists k, s', i end.
  assert (Hcf : closing c = false) by (apply Hcl; unfold conn_of; by rewrite Hs).
  split; [|split; [|split]].
  - match goal with |- server_of k (upd _ (put_server k ?x g)) = _ => change (server_of k (put_server k x g) = Some x) end.
    by rewrite server_of_put, decide_True.
  - done.
  - unfold closing_at. cbn. rewrite put_server_at. destruct k; done.
  - exists (c <| shook := true |> <| listed := true |>). cbn.
    rewrite list_lookup_insert_eq by (by eapply lookup_lt_Some). split; [done|].
    destruct c as [p sh li cl so]. cbn in *. bool_prop. rewrite is_at_true in *. cbn in *. by subst.
Qed.

(** ** Properties *)

(** C35. Both wait groups are exact in every run of a server: the connections' counter
    is the number of goroutines between [Add] and [Done], the listener's 1 while
    [TCPServer.run] accepts and 0 otherwise.  So when, in any of them, [Close] returns, no connection is
    ever added afterwards, and every connection has ended except those whose goroutine had not
    reached its [Add]; only these can be found in service later. *)
Theorem close_waits_for_counted (k : net) (evs : list srv_event) (s : srv) (Hs : srv_run k evs srv_Start = Some s) :
  wgConns s = zsum in_flight (conns s) /\
  wgLn s = (if decide (k = TCP /\ sv_loop s = Accepting) then 1 else 0) /\
  forall s', srv_step k s WaitConns = Some s' ->
    Forall (fun c => c_at c = Spawned \/ ended c) (conns s') /\
    forall evs2 s2, srv_run k evs2 s' = Some s2 ->
      length (conns s2) = length (conns s') /\
      forall i c2, conns s2 !! i = Some c2 -> ~ ended c2 -> exists c, conns s' !! i = Some c /\ c_at c = Spawned.
Proof.
  pose proof (srv_run_inv _ _ _ _ (srv_Start_inv k) Hs) as Hi. pose proof Hi as [H1 H2 H3 H4]. split; [done|]. split; [done|]. intros s' Hw.
  assert (Hcl : ln s' = false) by (apply (iv_closed _ _ (srv_step_inv _ _ _ _ Hi Hw)); by rewrite (srv_step_close _ _ _ _ Hw)).
  cbn [srv_step] in Hw. destruct (decide _) as [[E1 E2]|] in Hw; [|done]. injection Hw as <-.
  assert (Hend : Forall (fun c => c_at c = Spawned \/ ended c) (conns s)).
  { eapply Forall_impl; [apply (zsum_zero in_flight); [apply in_flight_nonneg | congruence]|]. apply not_in_flight. }
  split; [done|]. intros evs2 s2 Hs2. destruct (closed_run _ _ _ _ Hs2 Hcl) as [Hn Hc]. cbn in *. split; [done|].
  intros i c2 Hi2 Hne. destruct (conns s !! i) as [c|] eqn:E.
  - exists c. split; [done|]. destruct (Hc _ _ E) as (c' & Hi' & He).
    rewrite Forall_lookup in Hend. destruct (Hend _ _ E) as [?|He']; [done|]. simplify_eq. by destruct (Hne (He He')).
  - apply lookup_lt_Some in Hi2. apply lookup_ge_None in E. lia.
Qed.

(** A client arrives, is served and leaves; a second one is accepted and its goroutine
    has not run when the server closes: it is served after [Close] has returned. *)
Definition demo_arrivals : list srv_event :=
  [LoopStarts; Accept AcceptOk; ConnAdd 0; Handshake 0; Accept AcceptOk; PeerEnds 0; ConnClose 0; OnClose 0; ConnDone 0;
   CloseLn; Accept AcceptFail; WaitLn].

Definition demo_srv : srv := default srv_Start (srv_run TCP demo_arrivals srv_Start).
Definition demo_closed : srv := default srv_Start (srv_step TCP demo_srv WaitConns).
Definition demo_later : srv := default srv_Start (srv_run TCP [ConnAdd 1; Handshake 1] demo_closed).

Lemma close_waits_for_counted_witness :
  sv_close demo_closed = CloseReturned /\ c_at <$> conns demo_later = [Finished; Running] /\
  wgConns demo_srv = zsum in_flight (conns demo_srv) /\
  Forall (fun c => c_at c = Spawned \/ ended c) (conns demo_closed) /\
  length (conns demo_later) = length (conns demo_closed) /\
  forall i c2, conns demo_later !! i = Some c2 -> ~ ended c2 -> exists c, conns demo_closed !! i = Some c /\ c_at c = Spawned.
Proof.
  split; [reflexivity|]. split; [reflexivity|].
  destruct (close_waits_for_counted TCP demo_arrivals demo_srv) as (H1 & _ & H2); [vm_compute; reflexivity|].
  split; [exact H1|]. destruct (H2 demo_closed) as [H3 H4]; [vm_compute; reflexivity|]. split; [exact H3|].
  apply (H4 [ConnAdd 1; Handshake 1]%nat). vm_compute. reflexivity.
Defined.

(** After [n + 1] temporary errors of [Accept] in a row the loop of [TCPServer]
    sleeps for 5 ms doubled [n] times, but never more than a second; a connection
    resets the delay. *)
Lemma accept_backoff (n : nat) (s : srv)
  (Hl : ln s = true) (Ha : sv_loop s = Accepting) (Hd : tempDelay s = 0) :
  exists s', srv_run TCP (replicate (S n) (Accept AcceptTemp)) s = Some s' /\
    tempDelay s' = Z.min (5 * Millisecond * 2 ^ Z.of_nat n) Second /\
    exists s2, srv_step TCP s' (Accept AcceptOk) = Some s2 /\ tempDelay s2 = 0.
Proof.
  assert (H : forall m s0 j, ln s0 = true -> sv_loop s0 = Accepting -> tempDelay s0 = delays j ->
    exists s', srv_run TCP (replicate m (Accept AcceptTemp)) s0 = Some s' /\ ln s' = true /\ sv_loop s' = Accepting /\
      tempDelay s' = delays (m + j)).
  { clear. induction m as [|m IH]; intros s0 j Hl Ha Hd; [by exists s0|]. cbn [replicate srv_run run_steps].
    cbn [srv_step]. rewrite decide_True, Hl by done. cbn [andb bool_decide mbind option_bind decide].
    edestruct (IH (s0 <| tempDelay := next_delay (tempDelay s0) |>) (S j)) as (s' & Hr & ? & ? & Hdl); [done|done|cbn; by rewrite Hd|].
    exists s'. split; [exact Hr|]. split; [done|]. split; [done|]. rewrite Hdl. f_equal. lia. }
  destruct (H (S n) s 0%nat Hl Ha Hd) as (s' & Hr & Hl' & Ha' & Hd'). exists s'. split; [done|].
  rewrite Hd', Nat.add_0_r. split; [apply delays_closed|]. cbn [srv_step]. rewrite decide_True, Hl' by done. by eauto.
Qed.

Lemma accept_backoff_witness : exists s',
  srv_run TCP (replicate 9 (Accept AcceptTemp)) (srv_Start <| sv_loop := Accepting |>) = Some s' /\
  tempDelay s' = Z.min (5 * Millisecond * 2 ^ Z.of_nat 8) Second /\
  exists s2, srv_step TCP s' (Accept AcceptOk) = Some s2 /\ tempDelay s2 = 0.
Proof. apply (accept_backoff 8 (srv_Start <| sv_loop := Accepting |>)); reflexivity. Defined.

(** C34. Once the handler's [OnDestroy] is over, [Gate.Run] gets to its end by the
    program's own steps exactly when no client is held on a server still to be closed: none
    is in service with its handshake completed, its socket open and nothing closing it.  A client can
    be held when it shook hands too late for the list [OnDestroy] goes through, while
    [OnDestroy] ran or after it, and until it leaves; neither [OnDestroy] nor the closing of
    the servers closes it.  The program's own steps are at most [gate_rank] in number, so
    with none held every schedule of them ends in [Run]'s return. *)
Theorem gate_run_returns (WsAddr TCPAddr : string) (listens : net -> bool) (g0 g : gate) (evs : list gate_event)
  (Hst : Gate_start WsAddr TCPAddr listens = Ret g0) (Hrun : gate_run evs g0 = Some g) (Hat : closing_at g) :
  ((exists evs' g', all_driven evs' /\ gate_run evs' g = Some g' /\ g_at g' = RunReturned) <-> ~ stranded g) /\
  (forall evs' g', all_driven evs' -> gate_run evs' g = Some g' -> Z.of_nat (length evs') <= gate_rank g) /\
  (~ stranded g -> forall evs' g', all_driven evs' -> gate_run evs' g = Some g' ->
     g_at g' = RunReturned \/ exists e g2, driven e = true /\ gate_step g' e = Some g2).
Proof.
  pose proof (gate_run_inv _ _ _ (Gate_start_inv _ _ _ _ Hst) Hrun) as Hi.
  assert (Hprog : forall x, gate_inv x /\ past_destroy x /\ ~ stranded x ->
    g_at x = RunReturned \/ exists e x', driven e = true /\ gate_step x e = Some x').
  { intros x (Hx & [Hc|Hr] & Hn); [right; by apply gate_progress | by left]. }
  assert (Hkeep : forall x e x', driven e = true -> gate_inv x /\ past_destroy x /\ ~ stranded x -> gate_step x e = Some x' ->
    (gate_inv x' /\ past_destroy x' /\ ~ stranded x') /\ gate_rank x' < gate_rank x).
  { intros x e x' Hd (Hx & Hp & Hn) H. destruct (driven_step _ _ _ Hx Hp Hd H) as [Hs Hp'].
    split; [|by eapply gate_step_rank]. split; [by eapply gate_step_inv|]. by rewrite Hs. }
  split; [split|split].
  - intros (evs' & g' & Hd & H & Hr). rewrite <- (driven_run _ _ _ Hi (or_introl Hat) Hd H). by apply returned_not_stranded.
  - intros Hn. by apply (run_steps_reach gate_step _ _ _ _ Hkeep (fun x _ => gate_rank_nonneg x) Hprog g (conj Hi (conj (or_introl Hat) Hn))).
  - intros evs' g' Hd H. refine (run_steps_bounded gate_step (fun e => driven e = true) (fun _ => True) gate_rank _ _ evs' g g' Hd I H).
    + intros x e x' Hde _ Hx. split; [done|]. by eapply gate_step_rank.
    + intros x _. apply gate_rank_nonneg.
  - intros Hn evs' g' Hd H. apply Hprog.
    refine (run_steps_inv gate_step (fun e => driven e = true) (fun x => gate_inv x /\ past_destroy x /\ ~ stranded x) _ evs' g g' Hd _ H).
    + intros x e x' Hde Hx Hst'. by apply (Hkeep x e x').
    + split; [done|]. split; [by left | done].
Qed.

(** A TCP gate with a client in service, closed: one more client connects while the
    handler's [OnDestroy] is already over. *)
Definition demo_gate0 : gate := mkGate None (Some srv_Start) Serving [].
Definition demo_events : list gate_event :=
  (GServer TCP <$> [LoopStarts; Accept AcceptOk; ConnAdd 0; Handshake 0; Accept AcceptOk; ConnAdd 1])
  ++ [GSignal; GVisit TCP 0; GDestroyed].
Definition demo_late : list gate_event := [GServer TCP (Handshake 1)].
Definition demo_destroyed : gate := default demo_gate0 (gate_run demo_events demo_gate0).

Lemma gate_run_returns_witness :
  Gate_start "" ":3653" (fun _ => true) = Ret demo_gate0 /\ ~ stranded demo_destroyed /\
  (exists g', gate_run demo_late demo_destroyed = Some g' /\ stranded g') /\
  ((exists evs' g', all_driven evs' /\ gate_run evs' demo_destroyed = Some g' /\ g_at g' = RunReturned) <-> ~ stranded demo_destroyed) /\
  (forall evs' g', all_driven evs' -> gate_run evs' demo_destroyed = Some g' -> Z.of_nat (length evs') <= gate_rank demo_destroyed) /\
  (~ stranded demo_destroyed -> forall evs' g', all_driven evs' -> gate_run evs' demo_destroyed = Some g' ->
     g_at g' = RunReturned \/ exists e g2, driven e = true /\ gate_step g' e = Some g2).
Proof.
  split; [reflexivity|]. split; [|split].
  - rewrite stranded_alt. intros ([] & s & i & Hs & _ & _ & c & Hc & Hh); [discriminate Hs|].
    vm_compute in Hs. injection Hs as <-. destruct i as [|[|i]]; cbn in Hc; try discriminate Hc; injection Hc as <-;
      destruct Hh as (_ & H1 & _ & H2); discriminate.
  - eexists. split; [vm_compute; reflexivity|]. eapply (late_handshake_strands TCP 1 demo_destroyed).
    + split; [eexists; split; [vm_compute; reflexivity | discriminate] | left; vm_compute; reflexivity].
    + vm_compute; reflexivity.
    + intros c Hc. vm_compute in Hc. injection Hc as <-. reflexivity.
  - apply (gate_run_returns "" ":3653" (fun _ => true) demo_gate0 demo_destroyed demo_events);
      [reflexivity | vm_compute; reflexivity | left; vm_compute; reflexivity].
Defined.
