(* ===== verification/GateModule.v ===== *)
(** * The gate module

    [gate/options.go] and [Gate] of [gate/base/mqtt_gate.go]: its options, how
    [OnInit] completes them from the module's settings, the session rpcs it registers
    with its server, and the servers [Run] starts ([NetServer]).  The serializer of
    [Gate] is in [Session].

    [H] stands for the handlers, learners and hooks an application installs; [V] for
    the values of the rpc server.  What [BaseModule.OnInit] does is in [Modules]; the
    server it makes is the argument here. *)
From S2P Require Import Prelude RpcArgs NatsClient RpcServer NetServer.
#[local] Open Scope mq_scope.
#[local] Open Scope string_scope.
#[local] Open Scope list_scope.
#[local] Open Scope Z_scope.

(** ** Options *)

Record GateOptions (H SO : Type) := mkGateOptions {
  o_ConcurrentTasks : Z; o_BufSize : Z; o_MaxPackSize : Z; o_TLS : bool; o_TCPAddr : string; o_WsAddr : string;
  o_CertFile : string; o_KeyFile : string; o_Heartbeat : Z; o_OverTime : Z;
  o_RouteHandler : option H; o_StorageHandler : option H; o_AgentLearner : option H; o_SessionLearner : option H;
  o_GateHandler : option H; o_SendMessageHook : option H; o_Opts : list SO }.
Arguments mkGateOptions {H SO}.
Arguments o_ConcurrentTasks {H SO}.
Arguments o_BufSize {H SO}.
Arguments o_MaxPackSize {H SO}.
Arguments o_TLS {H SO}.
Arguments o_TCPAddr {H SO}.
Arguments o_WsAddr {H SO}.
Arguments o_CertFile {H SO}.
Arguments o_KeyFile {H SO}.
Arguments o_Heartbeat {H SO}.
Arguments o_OverTime {H SO}.
Arguments o_RouteHandler {H SO}.
Arguments o_StorageHandler {H SO}.
Arguments o_AgentLearner {H SO}.
Arguments o_SessionLearner {H SO}.
Arguments o_GateHandler {H SO}.
Arguments o_SendMessageHook {H SO}.
Arguments o_Opts {H SO}.

#[export] Instance eta_GateOptions H SO : Eta (GateOptions H SO) := fun r =>
  mkGateOptions (o_ConcurrentTasks r) (o_BufSize r) (o_MaxPackSize r) (o_TLS r) (o_TCPAddr r) (o_WsAddr r)
    (o_CertFile r) (o_KeyFile r) (o_Heartbeat r) (o_OverTime r) (o_RouteHandler r) (o_StorageHandler r)
    (o_AgentLearner r) (o_SessionLearner r) (o_GateHandler r) (o_SendMessageHook r) (o_Opts r).

Definition Minute : Z := 60 * Second.

Section Options.
Context {H SO : Type}.

Abbreviation options := (GateOptions H SO).
Definition Option : Type := options -> options.

Definition NewOptions (opts : list Option) : options :=
  foldl (fun opt o => o opt)
    (mkGateOptions 20 2048 65535 false "" "" "" "" Minute (Second * 10) None None None None None None []) opts.

Definition ConcurrentTasks (s : Z) : Option := fun o => o <| o_ConcurrentTasks := s |>.
Definition BufSize (s : Z) : Option := fun o => o <| o_BufSize := s |>.
Definition MaxPackSize (s : Z) : Option := fun o => o <| o_MaxPackSize := s |>.
Definition Heartbeat (s : Z) : Option := fun o => o <| o_Heartbeat := s |>.
Definition OverTime (s : Z) : Option := fun o => o <| o_OverTime := s |>.
Definition SetRouteHandler (s : option H) : Option := fun o => o <| o_RouteHandler := s |>.
Definition SetStorageHandler (s : option H) : Option := fun o => o <| o_StorageHandler := s |>.
Definition SetAgentLearner (s : option H) : Option := fun o => o <| o_AgentLearner := s |>.
Definition SetGateHandler (s : option H) : Option := fun o => o <| o_GateHandler := s |>.
Definition SetSessionLearner (s : option H) : Option := fun o => o <| o_SessionLearner := s |>.
Definition SetSendMessageHook (s : option H) : Option := fun o => o <| o_SendMessageHook := s |>.
Definition TLS (s : bool) : Option := fun o => o <| o_TLS := s |>.
Definition TCPAddr (s : string) : Option := fun o => o <| o_TCPAddr := s |>.
Definition WsAddr (s : string) : Option := fun o => o <| o_WsAddr := s |>.
Definition CertFile (s : string) : Option := fun o => o <| o_CertFile := s |>.
Definition KeyFile (s : string) : Option := fun o => o <| o_KeyFile := s |>.
Definition ServerOpts (s : list SO) : Option := fun o => o <| o_Opts := s |>.
End Options.

(** ** [Gate] *)

(** A value of the settings' map. *)
Inductive setting := SString (s : string) | SBool (b : bool) | SOther.

Record Gate (H SO : Type) := mkGateModule {
  gt_opts : GateOptions H SO; judgeGuest : option H; createAgent : option H }.
Arguments mkGateModule {H SO}.
Arguments gt_opts {H SO}.
Arguments judgeGuest {H SO}.
Arguments createAgent {H SO}.

#[export] Instance eta_Gate H SO : Eta (Gate H SO) := fun r => mkGateModule (gt_opts r) (judgeGuest r) (createAgent r).

(** The session rpcs, in the order they are registered. *)
Definition gate_functions : list string :=
  ["Update"; "Bind"; "UnBind"; "Push"; "Set"; "Remove"; "Send"; "SendBatch"; "BroadCast"; "IsConnect"; "Close"].

Section Gate.
Context {H SO V : Type}.

Abbreviation gate_module := (Gate H SO).

Definition SetJudgeGuest (f : option H) (gt : gate_module) : gate_module := gt <| judgeGuest := f |>.
Definition SetCreateAgent (f : option H) (gt : gate_module) : gate_module := gt <| createAgent := f |>.
Definition gt_option (f : @Option H SO) (gt : gate_module) : gate_module := let o := gt_opts gt in gt <| gt_opts := f o |>.
Definition gt_SetRouteHandler (h : option H) : gate_module -> gate_module := gt_option (SetRouteHandler h).
Definition gt_SetStorageHandler (h : option H) : gate_module -> gate_module := gt_option (SetStorageHandler h).
Definition gt_SetSessionLearner (h : option H) : gate_module -> gate_module := gt_option (SetSessionLearner h).

(** A setting that is not given as an option; one of another type panics. *)
Definition string_setting (settings : gmap string setting) (key cur : string) : outcome string :=
  if decide (cur = "") then
    match settings !! key with
    | Some (SString s) => Ret s
    | Some _ => Panic "interface conversion"
    | None => Ret ""
    end
  else Ret cur.

Definition bool_setting (settings : gmap string setting) (key : string) (cur : bool) : outcome bool :=
  if cur then Ret cur
  else match settings !! key with
       | Some (SBool b) => Ret b
       | Some _ => Panic "interface conversion"
       | None => Ret false
       end.

Definition from_settings (settings : gmap string setting) (o : GateOptions H SO) : outcome (GateOptions H SO) :=
  ws <- string_setting settings "WSAddr" (o_WsAddr o);
  tcp <- string_setting settings "TCPAddr" (o_TCPAddr o);
  tls <- bool_setting settings "TLS" (o_TLS o);
  cert <- string_setting settings "CertFile" (o_CertFile o);
  key <- string_setting settings "KeyFile" (o_KeyFile o);
  Ret (o <| o_WsAddr := ws |> <| o_TCPAddr := tcp |> <| o_TLS := tls |> <| o_CertFile := cert |> <| o_KeyFile := key |>).

(** [RegisterGO] for each of the handler's functions. *)
Fixpoint register_all (fs : list (string * FunctionInfo V)) : ST (RPCServer V) unit :=
  match fs with
  | [] => st_ret tt
  | (id, f) :: fs => (do* RpcServer.Register id f in register_all fs)%st
  end.

(** [OnInit]; [handler] is [NewGateHandler], [fn] its functions as reflection sees
    them, [srv] the server that [BaseModule.OnInit] made. *)
Definition OnInit (handler : H) (fn : string -> FunctionInfo V) (settings : gmap string setting) (opts : list (@Option H SO))
    (gt : gate_module) (srv : RPCServer V) : outcome (gate_module * RPCServer V) :=
  o <- from_settings settings (NewOptions opts);
  let gt := gt <| gt_opts := o <| o_AgentLearner := Some handler |> <| o_GateHandler := Some handler |> |> in
  match register_all ((fun id => (id, fn id)) <$> gate_functions) srv with
  | Done srv _ => Ret (gt, srv)
  | Panicked _ why => Panic why
  | Blocked => Panic "blocked"
  end.

(** The first part of [Run]. *)
Definition Run (listens : net -> bool) (gt : gate_module) : outcome gate :=
  Gate_start (o_WsAddr (gt_opts gt)) (o_TCPAddr (gt_opts gt)) listens.
End Gate.

(** ** What holds

    What the options and settings of a gate amount to, and that the functions it
    registers are the session rpcs. *)

(** ** Precedence *)

Definition setting_str (settings : gmap string setting) (key : string) : option string :=
  match settings !! key with Some (SString s) => Some s | Some _ => None | None => Some "" end.

Definition setting_bool (settings : gmap string setting) (key : string) : option bool :=
  match settings !! key with Some (SBool b) => Some b | Some _ => None | None => Some false end.

(** The option, or else the setting; [None] when the setting counts and has another type. *)
Definition effective_str (settings : gmap string setting) (key cur : string) : option string :=
  if decide (cur = "") then setting_str settings key else Some cur.

Definition effective_bool (settings : gmap string setting) (key : string) (cur : bool) : option bool :=
  if cur then Some true else setting_bool settings key.

Lemma string_setting_spec settings key cur :
  string_setting settings key cur = match effective_str settings key cur with Some s => Ret s | None => Panic "interface conversion" end.
Proof. unfold string_setting, effective_str, setting_str. by repeat case_match; simplify_eq. Qed.

Lemma bool_setting_spec settings key cur :
  bool_setting settings key cur = match effective_bool settings key cur with Some s => Ret s | None => Panic "interface conversion" end.
Proof. unfold bool_setting, effective_bool, setting_bool. by repeat case_match; simplify_eq. Qed.

Section Gate.
Context {H SO V : Type}.

(** The options with what the settings add, if all of them have the right type. *)
Definition effective (settings : gmap string setting) (o : GateOptions H SO) : option (GateOptions H SO) :=
  ws ← effective_str settings "WSAddr" (o_WsAddr o);
  tcp ← effective_str settings "TCPAddr" (o_TCPAddr o);
  tls ← effective_bool settings "TLS" (o_TLS o);
  cert ← effective_str settings "CertFile" (o_CertFile o);
  key ← effective_str settings "KeyFile" (o_KeyFile o);
  Some (o <| o_WsAddr := ws |> <| o_TCPAddr := tcp |> <| o_TLS := tls |> <| o_CertFile := cert |> <| o_KeyFile := key |>).

Lemma from_settings_spec settings (o : GateOptions H SO) :
  from_settings settings o = match effective settings o with Some o => Ret o | None => Panic "interface conversion" end.
Proof.
  unfold from_settings, effective. rewrite !string_setting_spec, bool_setting_spec.
  repeat (match goal with |- context [match ?x with Some _ => Ret _ | None => _ end] => destruct x end; cbn [outcome_bind mbind option_bind]; try done).
Qed.

Definition fresh_names (fs : list (string * FunctionInfo V)) (srv : RPCServer V) : Prop :=
  NoDup (fst <$> fs) /\ forall id, id ∈ (fst <$> fs) -> functions srv !! id = None.

Lemma register_all_done (fs : list (string * FunctionInfo V)) : forall srv, fresh_names fs srv ->
  register_all fs srv = Done (srv <| functions := list_to_map fs ∪ functions srv |>) tt.
Proof.
  induction fs as [|[id f] fs IH]; intros srv [Hnd Hfr].
  - cbn. unfold st_ret. rewrite (left_id_L ∅ (∪)). by destruct srv.
  - apply NoDup_cons in Hnd as [Hni Hnd]. cbn [register_all]. unfold st_bind, RpcServer.Register.
    rewrite (Hfr id) by (cbn; left). cbn [exec_then]. rewrite IH.
    + destruct srv as [fm a b c d e g]. cbn [functions upd]. f_equal. unfold upd; cbn. f_equal.
      rewrite <- insert_union_r; [|by apply not_elem_of_list_to_map_1]. by rewrite <- insert_union_l.
    + split; [done|]. intros x Hx. cbn. rewrite lookup_insert_ne by (intros ->; done). apply Hfr. by right.
Qed.
End Gate.

(** ** Properties *)

(** [OnInit] gives each of the addresses, the TLS flag and the key files the value
    of the option, or else of the module's setting, or else none, and panics exactly
    when a setting that counts has another type.  The other options stay as given,
    except that the gate's own handler takes the place of any installed with
    [SetGateHandler] or [SetAgentLearner].  On a server without these functions
    exactly the eleven session rpcs are added, and [Run] starts a server for each
    address. *)
Lemma gate_configuration {H SO V : Type} (handler : H) (fn : string -> FunctionInfo V) (settings : gmap string setting)
  (opts : list (@Option H SO)) (gt : Gate H SO) (srv : RPCServer V)
  (Hfresh : forall id, id ∈ gate_functions -> functions srv !! id = None) :
  match effective settings (NewOptions opts) with
  | None => is_panic (OnInit handler fn settings opts gt srv) = true
  | Some o => exists gt' srv', OnInit handler fn settings opts gt srv = Ret (gt', srv') /\
      gt_opts gt' = o <| o_AgentLearner := Some handler |> <| o_GateHandler := Some handler |> /\
      (forall id, functions srv' !! id = if decide (id ∈ gate_functions) then Some (fn id) else functions srv !! id) /\
      Run (fun _ => true) gt' = Ret (mkGate (if decide (o_WsAddr o = "") then None else Some srv_Start)
                                           (if decide (o_TCPAddr o = "") then None else Some srv_Start) Serving [])
  end.
Proof.
  unfold OnInit. rewrite from_settings_spec. destruct (effective settings (NewOptions opts)) as [o|]; [|done].
  cbn [outcome_bind]. rewrite register_all_done.
  - eexists _, _. split; [reflexivity|]. split; [done|]. split.
    + intros id. cbn [functions upd]. destruct (decide (id ∈ gate_functions)) as [Hin|Hin].
      * apply lookup_union_Some_l. apply elem_of_list_to_map_1.
        -- rewrite <- list_fmap_compose. apply (bool_decide_unpack _). vm_compute. exact I.
        -- apply list_elem_of_fmap. by exists id.
      * apply lookup_union_r, not_elem_of_list_to_map_1. rewrite <- list_fmap_compose. intros Hx. apply Hin.
        apply list_elem_of_fmap in Hx as (y & -> & Hy). exact Hy.
    + unfold Run, Gate_start. cbn. by rewrite !andb_false_r.
  - split.
    + rewrite <- list_fmap_compose. apply (bool_decide_unpack _). vm_compute. exact I.
    + intros id Hid. rewrite <- list_fmap_compose in Hid. apply list_elem_of_fmap in Hid as (y & -> & Hy). by apply Hfresh.
Qed.

Definition demo_settings : gmap string setting :=
  {[ "TCPAddr" := SString ":3653"; "WSAddr" := SString ":3654"; "TLS" := SBool true ]}.
Definition demo_opts : list (@Option nat nat) := [WsAddr ":80"; SetGateHandler (Some 7%nat); WsAddr ":81"].
Definition demo_fn (_ : string) : FunctionInfo nat := mkFunctionInfo [] true (fun _ => Returns []).
Definition demo_rpc : RPCServer nat := mkRPCServer ∅ 0 0 0 [] [] [].
Definition demo_gate_module : Gate nat nat := mkGateModule (NewOptions []) None None.

Lemma gate_configuration_witness : exists o gt' srv',
  effective demo_settings (NewOptions demo_opts) = Some o /\
  o_WsAddr o = ":81" /\ o_TCPAddr o = ":3653" /\ o_TLS o = true /\
  OnInit 1%nat demo_fn demo_settings demo_opts demo_gate_module demo_rpc = Ret (gt', srv') /\
  gt_opts gt' = o <| o_AgentLearner := Some 1%nat |> <| o_GateHandler := Some 1%nat |> /\
  functions srv' !! "Bind" = Some (demo_fn "Bind").
Proof.
  pose proof (gate_configuration 1%nat demo_fn demo_settings demo_opts demo_gate_module demo_rpc (fun _ _ => eq_refl)) as Hc.
  destruct (effective demo_settings (NewOptions demo_opts)) as [o|] eqn:E; [|vm_compute in E; discriminate E].
  destruct Hc as (gt' & srv' & H1 & H2 & H3 & _). exists o, gt', srv'.
  split; [reflexivity|]. vm_compute in E. injection E as <-. split; [reflexivity|]. split; [reflexivity|]. split; [reflexivity|].
  split; [exact H1|]. split; [exact H2|]. rewrite H3. reflexivity.
Defined.
