(* ===== verification/IdUtils.v ===== *)
(** * Identifiers and encodings

    The utilities of [utils/] that turn numbers and bytes into text and back:
    [base62.go], [id.go] with its generator, [uuid/uuid.go], [aes/aes_encrypt.go], and
    [randInt.go].

    Outside the model: the block cipher (a function of key and block; cipher feedback
    on top of it is written out), the random source, JSON's lexical level, and what
    [math.Pow] gives, converted to [int64], beyond the range of [int64]. *)
From Stdlib Require Import Strings.Ascii.
From S2P Require Import Prelude RpcArgs.
#[local] Open Scope mq_scope.
#[local] Open Scope string_scope.
#[local] Open Scope list_scope.
#[local] Open Scope Z_scope.

(** ** [strings.TrimSpace] *)

(** The encodings of the code points that are space. *)
Definition chars (l : list Z) : list ascii := (fun z => ascii_of_N (Z.to_N z)) <$> l.

Definition spaces : list (list ascii) :=
  chars <$> ([[9]; [10]; [11]; [12]; [13]; [32]; [194; 133]; [194; 160]; [225; 154; 128]]
    ++ ((fun i => [226; 128; 128 + Z.of_nat i]) <$> seq 0 11)
    ++ [[226; 128; 168]; [226; 128; 169]; [226; 128; 175]; [226; 129; 159]; [227; 128; 128]]).

Fixpoint strip (p s : list ascii) : option (list ascii) :=
  match p, s with
  | [], _ => Some s
  | a :: p, b :: s => if Ascii.eqb a b then strip p s else None
  | _ :: _, [] => None
  end.

Fixpoint strip_any (ps : list (list ascii)) (s : list ascii) : option (list ascii) :=
  match ps with
  | [] => None
  | p :: ps => match strip p s with Some s => Some s | None => strip_any ps s end
  end.

(** At most a space per character. *)
Fixpoint trim_left (ps : list (list ascii)) (fuel : nat) (s : list ascii) : list ascii :=
  match fuel with
  | O => s
  | S fuel => match strip_any ps s with Some s => trim_left ps fuel s | None => s end
  end.

Definition trim_list (s : list ascii) : list ascii :=
  let s := trim_left spaces (length s) s in
  reverse (trim_left (reverse <$> spaces) (length s) (reverse s)).

Definition TrimSpace (s : string) : string := String.string_of_list_ascii (trim_list (String.list_ascii_of_string s)).

(** ** Base 62 *)

Definition CODE62 : string := "0123456789abcdefghijklmnopqrstuvwxyzABCDEFGHIJKLMNOPQRSTUVWXYZ".
Definition CodeLenth : Z := 62.

Fixpoint position (c : ascii) (s : list ascii) : option Z :=
  match s with
  | [] => None
  | d :: s => if Ascii.eqb c d then Some 0 else Z.succ <$> position c s
  end.

(** The map [EDOC]; a key it does not have gives 0. *)
Definition EDOC (c : ascii) : Z := default 0 (position c (String.list_ascii_of_string CODE62)).

Definition digit62 (remain : Z) : ascii := nth (Z.to_nat remain) (String.list_ascii_of_string CODE62) "0"%char.

(** The loop of [IntToBase62]; an [int64] has at most 11 digits. *)
Fixpoint digits62 (fuel : nat) (number : Z) : list ascii :=
  match fuel with
  | O => []
  | S fuel => if 0 <? number then digit62 (number mod CodeLenth) :: digits62 fuel (number / CodeLenth) else []
  end.

Definition IntToBase62 (number : Z) : string :=
  if number =? 0 then "0" else String.string_of_list_ascii (digits62 11 number).

Section Base62.
(** [int64(math.Pow(62, index))] for an index whose power is 2^63 or more. *)
Context (pow_overflow : nat -> Z).

Definition pow62 (index : nat) : Z :=
  let p := CodeLenth ^ Z.of_nat index in if p <? 2 ^ 63 then p else pow_overflow index.

Fixpoint sum62 (index : nat) (s : list ascii) (result : Z) : Z :=
  match s with
  | [] => result
  | c :: s => sum62 (S index) s (int64 (result + int64 (EDOC c * pow62 index)))
  end.

Definition Base62ToInt (str : string) : Z := sum62 0 (String.list_ascii_of_string (TrimSpace str)) 0.
End Base62.

(** ** Hexadecimal *)

Definition hex_chars : list ascii := String.list_ascii_of_string "0123456789abcdef".
Definition hex_char (d : Z) : ascii := nth (Z.to_nat d) hex_chars "0"%char.

Definition hex_value (c : ascii) : option Z :=
  match position c hex_chars with
  | Some d => Some d
  | None => position c (String.list_ascii_of_string "0123456789ABCDEF")
  end.

(** [%0nx] of a number of at most [n] digits. *)
Fixpoint hex_fixed (n : nat) (z : Z) : list ascii :=
  match n with
  | O => []
  | S n => hex_fixed n (z / 16) ++ [hex_char (z mod 16)]
  end.

(** The digits, most significant first. *)
Fixpoint hex_number (s : list ascii) (acc : Z) : option Z :=
  match s with
  | [] => Some acc
  | c :: s => d ← hex_value c; hex_number s (16 * acc + d)
  end.

(** ** [ID] *)

Definition ID_String (id : Z) : string := String.string_of_list_ascii (hex_fixed 16 id).

(** [strconv.ParseUint(s, 16, 64)] *)
Definition ParseID (s : string) : result string Z :=
  match String.list_ascii_of_string s with
  | [] => Err "invalid syntax"
  | l => match hex_number l 0 with
         | None => Err "invalid syntax"
         | Some v => if v <? 2 ^ 64 then Ok v else Err "value out of range"
         end
  end.

Section Json.
(** [json.Marshal] of a string; [json.Unmarshal] into a string and into a [uint64]. *)
Context (json_marshal : string -> bytes) (json_string : bytes -> result string string) (json_uint64 : bytes -> result string Z).

Definition MarshalJSON (id : Z) : bytes := json_marshal (ID_String id).

Definition parseJSONString (data : bytes) : result string Z :=
  match json_string data with Err e => Err e | Ok s => ParseID s end.

Definition parseJSONInt (data : bytes) : result string Z := json_uint64 data.

Definition UnmarshalJSON (data : bytes) : result string Z :=
  match parseJSONString data with
  | Ok i => Ok i
  | Err _ => match parseJSONInt data with
             | Ok i => Ok i
             | Err _ => Err (bytes_str data ++ " is not a valid ID")%string
             end
  end.
End Json.

(** ** The generator *)

Definition BlockSize : nat := 16.

(** The counter, the bytes used of the block, the block. *)
Record generator := mkGenerator { ctr : bytes; used : nat; block : bytes }.

(** [init] *)
Definition init_generator (seed : bytes) : generator := mkGenerator seed BlockSize (replicate BlockSize x00).

(** The loop from the last byte: the carry goes on while a byte becomes 0. *)
Fixpoint increment (rev_ctr : bytes) : bytes :=
  match rev_ctr with
  | [] => []
  | b :: l => let b' := zb (bz b + 1) in b' :: (if bz b' =? 0 then increment l else l)
  end.

Section Generator.
Context (Encrypt : bytes -> bytes).

(** [GenerateID]; an id is eight bytes of the block (little-endian here). *)
Definition GenerateID (g : generator) : generator * Z :=
  let g := if decide (used g = BlockSize)
           then mkGenerator (reverse (increment (reverse (ctr g)))) 0 (Encrypt (ctr g)) else g in
  (mkGenerator (ctr g) (used g + 8) (block g), le_value (take 8 (drop (used g) (block g)))).

Fixpoint generate (n : nat) (g : generator) : generator * list Z :=
  match n with
  | O => (g, [])
  | S n => let '(g, i) := GenerateID g in let '(g, ids) := generate n g in (g, i :: ids)
  end.
End Generator.

(** ** [UUID] *)

(** [randBytes]: what the system's source gives, [n] bytes without an error, or else as many
    of the other source; [Int31n] of the [i]-th call. *)
Fixpoint math_bytes (Int31n : nat -> Z) (length : nat) (drawn : nat) : bytes :=
  match length with
  | O => []
  | S length => math_bytes Int31n length (S drawn) ++ [zb (Int31n drawn)]
  end.

Definition randBytes (length : nat) (read : bytes * bool) (Int31n : nat -> Z) : bytes :=
  if bool_decide (List.length read.1 = length) && read.2 then read.1 else math_bytes Int31n length 0.

(** [Rand] makes a version 4 of sixteen random bytes. *)
Definition uuid_Rand (x : bytes) : bytes :=
  let x := alter (fun b => zb (Z.lor (Z.land (bz b) 15) 64)) 6%nat x in
  alter (fun b => zb (Z.lor (Z.land (bz b) 63) 128)) 8%nat x.

Definition hex_bytes (x : bytes) : list ascii := x ≫= (fun b => hex_fixed 2 (bz b)).

Definition dash : ascii := "-"%char.

(** The lengths, in bytes, of the five groups. *)
Definition groups : list nat := [4; 2; 2; 2; 6]%nat.

Fixpoint hex_groups (gs : list nat) (x : bytes) : list ascii :=
  match gs with
  | [] => []
  | [g] => hex_bytes (take g x)
  | g :: gs => hex_bytes (take g x) ++ dash :: hex_groups gs (drop g x)
  end.

Definition uuid_Hex (x : bytes) : string := String.string_of_list_ascii (hex_groups groups x).

(** [hex.DecodeString] of an even number of digits. *)
Fixpoint hex_decode (s : list ascii) : option bytes :=
  match s with
  | a :: b :: s => x ← hex_value a; y ← hex_value b; l ← hex_decode s; Some (zb (16 * x + y) :: l)
  | _ => Some []
  end.

(** The regular expression's groups of digits, each but the last with a dash after
    it or none, then an optional brace and the end. *)
Definition optional (c : ascii) (s : list ascii) : list ascii :=
  match s with d :: s' => if Ascii.eqb c d then s' else s | [] => [] end.

Definition all_hex (s : list ascii) : bool := forallb (fun c => bool_decide (is_Some (hex_value c))) s.

Fixpoint match_groups (gs : list nat) (s : list ascii) : option (list ascii) :=
  match gs with
  | [] => match s with [] => Some [] | [c] => if Ascii.eqb c "}" then Some [] else None | _ => None end
  | g :: gs =>
      let d := take (2 * g) s in
      if (length d =? 2 * g)%nat && all_hex d then
        let s := drop (2 * g) s in
        rest ← match_groups gs (match gs with [] => s | _ => optional dash s end); Some (d ++ rest)
      else None
  end.

Definition FromStr (s : string) : result string bytes :=
  if decide (s = "") then Err "Empty string"
  else match match_groups groups (optional "{" (String.list_ascii_of_string s)) with
       | None => Err "Invalid string format"
       | Some digits => Ok (default [] (hex_decode digits))
       end.

Definition MustFromStr (s : string) : outcome bytes :=
  match FromStr s with Ok id => Ret id | Err e => Panic e end.

(** ** AES *)

Definition xor_bytes (a b : bytes) : bytes := zip_with (fun x y => zb (Z.lxor (bz x) (bz y))) a b.

Definition key_too_short : string := "The length of res key shall not be less than 16".

(** The key is cut to the longest length AES knows. *)
Definition getKey (StrKey : bytes) : outcome bytes :=
  let keyLen := length StrKey in
  if (keyLen <? 16)%nat then Panic key_too_short
  else if (32 <=? keyLen)%nat then Ret (take 32 StrKey)
  else if (24 <=? keyLen)%nat then Ret (take 24 StrKey)
  else Ret (take 16 StrKey).

Definition NewAesEncrypt (key : bytes) : result string bytes :=
  if (length key <? 16)%nat then Err key_too_short else Ok key.

Section Aes.
(** The cipher for a key. *)
Context (cipher : bytes -> bytes -> bytes).

(** [XORKeyStream] in cipher feedback mode, block by block: the next register is the
    ciphertext, which is the input when decrypting. *)
Fixpoint cfb (key : bytes) (decrypt : bool) (fuel : nat) (register src : bytes) : bytes :=
  match fuel, src with
  | S fuel, _ :: _ =>
      let chunk := take BlockSize src in
      let out := xor_bytes chunk (cipher key register) in
      out ++ cfb key decrypt fuel (if decrypt then chunk else out) (drop BlockSize src)
  | _, _ => []
  end.

Definition aes_Encrypt (StrKey msg : bytes) : outcome bytes :=
  key <- getKey StrKey; Ret (cfb key false (length msg) (take BlockSize key) msg).

(** The deferred function asserts that what was recovered is an error; [getKey] panics
    with a string. *)
Definition aes_Decrypt (StrKey src : bytes) : outcome bytes :=
  match getKey StrKey with
  | Ret key => Ret (cfb key true (length src) (take BlockSize key) src)
  | Panic _ => Panic "interface conversion: interface {} is string, not error"
  end.
End Aes.

(** ** [RandInt64] *)

(** [Int63n] panics unless its argument is positive. *)
Definition RandInt64 (Int63n : Z -> Z) (min max : Z) : outcome Z :=
  if max <=? min then Ret max
  else let n := int64 (max - min) in
       if n <=? 0 then Panic "invalid argument to Int63n" else Ret (int64 (Int63n n + min)).
