(* ===== verification/IdUtilsTheorems.v ===== *)
(** * Theorems on identifiers and encodings

    Round trips of the encodings, and that the id generator does not repeat. *)
From Stdlib Require Import Strings.Ascii.
From S2P Require Import Prelude RpcArgs RpcArgsTheorems IdUtils.
#[local] Open Scope mq_scope.
#[local] Open Scope string_scope.
#[local] Open Scope list_scope.
#[local] Open Scope Z_scope.

(** ** Characters and spaces *)

Definition not_head (c : ascii) (p : list ascii) : bool :=
  match p with [] => false | d :: _ => negb (Ascii.eqb d c) end.

(** No space begins, or ends, with the character. *)
Definition solid (c : ascii) : bool := forallb (not_head c) spaces && forallb (not_head c) (reverse <$> spaces).

Lemma strip_any_solid ps c s : forallb (not_head c) ps = true -> strip_any ps (c :: s) = None.
Proof.
  induction ps as [|p ps IH]; intros H; [done|]. cbn [forallb] in H. apply andb_true_iff in H as [H1 H2].
  cbn [strip_any]. destruct p as [|d p]; [done|]. cbn [strip]. apply negb_true_iff in H1. rewrite H1. by apply IH.
Qed.

Lemma trim_left_solid ps s : Forall (fun c => forallb (not_head c) ps = true) s -> trim_left ps (length s) s = s.
Proof.
  destruct s as [|c s]; intros H; [done|]. cbn [trim_left length]. apply Forall_cons in H as [H _]. by rewrite strip_any_solid.
Qed.

Lemma trim_solid s : Forall (fun c => solid c = true) s -> trim_list s = s.
Proof.
  intros H. unfold trim_list. rewrite trim_left_solid.
  - rewrite <- (length_reverse s), trim_left_solid; [apply reverse_involutive|].
    apply Forall_reverse. eapply Forall_impl; [exact H|]. intros c [_ Hc]%andb_true_iff. exact Hc.
  - eapply Forall_impl; [exact H|]. intros c [Hc _]%andb_true_iff. exact Hc.
Qed.

(** ** Base 62 *)

Lemma digit62_facts d : 0 <= d < 62 -> EDOC (digit62 d) = d /\ solid (digit62 d) = true.
Proof.
  intros Hd. pose proof (Zrange_forallb (fun d => (EDOC (digit62 d) =? d) && solid (digit62 d)) 62 eq_refl d Hd) as H.
  cbv beta in H. apply andb_true_iff in H as [H1 H2]. by apply Z.eqb_eq in H1.
Qed.

Lemma digits62_solid fuel : forall n, 0 <= n -> Forall (fun c => solid c = true) (digits62 fuel n).
Proof.
  induction fuel as [|fuel IH]; intros n Hn; cbn [digits62]; [constructor|]. destruct (0 <? n) eqn:E; [|constructor].
  constructor; [apply digit62_facts, Z.mod_pos_bound; done | apply IH, Z.div_pos; done].
Qed.

Lemma sum62_digits ov fuel : forall n index result, 0 <= n < 62 ^ Z.of_nat fuel -> 0 <= result ->
  result + n * 62 ^ Z.of_nat index < 2 ^ 63 ->
  sum62 ov index (digits62 fuel n) result = result + n * 62 ^ Z.of_nat index.
Proof.
  induction fuel as [|fuel IH]; intros n index result Hn Hr Hlt.
  - assert (n = 0) as -> by (cbn in Hn; lia). cbn. lia.
  - cbn [digits62]. destruct (0 <? n) eqn:E; bool_prop; [|assert (n = 0) as -> by lia; cbn; lia].
    cbn [sum62]. unfold CodeLenth.
    set (p := 62 ^ Z.of_nat index) in *. assert (Hp : 0 < p) by (apply Z.pow_pos_nonneg; lia).
    pose proof (Z.div_mod n 62 ltac:(lia)) as Hdm. pose proof (Z.mod_pos_bound n 62 ltac:(lia)) as Hm.
    set (q := n / 62) in *. set (m := n mod 62) in *. assert (Hq : 0 <= q) by (apply Z.div_pos; lia).
    assert (Hpp : 62 ^ Z.of_nat (S index) = 62 * p) by (unfold p; rewrite Nat2Z.inj_succ, Z.pow_succ_r by lia; lia).
    assert (0 <= m * p) by nia. assert (0 <= q * p) by nia. assert (n * p = 62 * (q * p) + m * p) by nia.
    assert (p < 2 ^ 63) by nia.
    destruct (digit62_facts m Hm) as [-> _]. unfold pow62, CodeLenth. fold p. rewrite (proj2 (Z.ltb_lt _ _)) by done.
    assert (E1 : int64 (m * p) = m * p) by (apply wrap_s_small; lia). rewrite E1.
    assert (E2 : int64 (result + m * p) = result + m * p) by (apply wrap_s_small; lia). rewrite E2.
    rewrite IH, Hpp; [lia | | lia | rewrite Hpp; lia].
    split; [done|]. rewrite Nat2Z.inj_succ, Z.pow_succ_r in Hn by lia. lia.
Qed.

(** ** Hexadecimal *)

Lemma hex_value_char d : 0 <= d < 16 -> hex_value (hex_char d) = Some d.
Proof.
  intros Hd. pose proof (Zrange_forallb (fun d => match hex_value (hex_char d) with Some v => v =? d | None => false end) 16 eq_refl d Hd) as H.
  cbv beta in H. destruct (hex_value (hex_char d)); [|done]. apply Z.eqb_eq in H. by subst.
Qed.

Lemma length_hex_fixed n : forall z, length (hex_fixed n z) = n.
Proof. induction n as [|n IH]; intros z; [done|]. cbn [hex_fixed]. rewrite length_app, IH. cbn. lia. Qed.

Lemma hex_number_app s : forall t acc, hex_number (s ++ t) acc = v ← hex_number s acc; hex_number t v.
Proof.
  induction s as [|c s IH]; intros t acc; [done|]. cbn. destruct (hex_value c); cbn; [apply IH | done].
Qed.

Lemma hex_number_fixed n : forall z, 0 <= z < 16 ^ Z.of_nat n -> hex_number (hex_fixed n z) 0 = Some z.
Proof.
  induction n as [|n IH]; intros z Hz; [cbn in *; f_equal; lia|]. cbn [hex_fixed].
  rewrite Nat2Z.inj_succ, Z.pow_succ_r in Hz by lia.
  pose proof (Z.div_mod z 16 ltac:(lia)). pose proof (Z.mod_pos_bound z 16 ltac:(lia)).
  rewrite hex_number_app, IH by (split; [apply Z.div_pos; lia | apply Z.div_lt_upper_bound; lia]).
  cbn [mbind option_bind hex_number]. rewrite hex_value_char by done. cbn [mbind option_bind]. f_equal. lia.
Qed.

(** ** The generator *)

Lemma length_increment l : length (increment l) = length l.
Proof. induction l as [|b l IH]; [done|]. cbn [increment]. destruct (_ =? 0); cbn; [by rewrite IH | done]. Qed.

Lemma le_value_cons b l : le_value (b :: l) = bz b + 256 * le_value l.
Proof. reflexivity. Qed.

Lemma le_value_bound l : 0 <= le_value l < 256 ^ Z.of_nat (length l).
Proof.
  induction l as [|b l IH]; [done|]. rewrite le_value_cons. pose proof (bz_range b).
  cbn [length]. rewrite Nat2Z.inj_succ, Z.pow_succ_r by lia. lia.
Qed.

(** The loop adds one to the counter. *)
Lemma le_value_increment l : le_value (increment l) = (le_value l + 1) mod 256 ^ Z.of_nat (length l).
Proof.
  induction l as [|b l IH]; [done|]. cbn [increment length]. rewrite Nat2Z.inj_succ, Z.pow_succ_r by lia.
  set (M := 256 ^ Z.of_nat (length l)) in *. assert (HM : 0 < M) by (apply Z.pow_pos_nonneg; lia).
  pose proof (bz_range b). pose proof (le_value_bound l) as Hb. fold M in Hb. rewrite bz_zb.
  destruct (Z.eq_dec (bz b) 255) as [E|E].
  - rewrite E. change ((255 + 1) mod 256) with 0. cbn [Z.eqb]. rewrite !le_value_cons, bz_zb, E, IH.
    change ((255 + 1) mod 256) with 0. replace (255 + 256 * le_value l + 1) with (256 * (le_value l + 1)) by lia.
    rewrite Zmult_mod_distr_l. lia.
  - rewrite (Z.mod_small (bz b + 1)) by lia. rewrite (proj2 (Z.eqb_neq _ _)) by lia.
    rewrite !le_value_cons, bz_zb, (Z.mod_small (bz b + 1)) by lia. rewrite Z.mod_small; lia.
Qed.

(** The counter after [k] blocks. *)
Fixpoint counter (k : nat) (c : bytes) : bytes :=
  match k with O => c | S k => counter k (reverse (increment (reverse c))) end.

Lemma length_counter k : forall c, length (counter k c) = length c.
Proof. induction k as [|k IH]; intros c; [done|]. cbn [counter]. by rewrite IH, length_reverse, length_increment, length_reverse. Qed.

Lemma be_value_counter k : forall c, be_value (counter k c) = (be_value c + Z.of_nat k) mod 256 ^ Z.of_nat (length c).
Proof.
  induction k as [|k IH]; intros c; cbn [counter].
  - rewrite Z.add_0_r, Z.mod_small; [done|]. unfold be_value. rewrite <- length_reverse. apply le_value_bound.
  - rewrite IH, length_reverse, length_increment, length_reverse. unfold be_value. rewrite reverse_involutive, le_value_increment, length_reverse.
    rewrite Z.add_mod_idemp_l by (apply Z.pow_nonzero; lia). f_equal. lia.
Qed.

Lemma le_value_inj l : forall m, length l = length m -> le_value l = le_value m -> l = m.
Proof.
  induction l as [|a l IH]; intros [|b m] Hl H; try done. rewrite !le_value_cons in H.
  pose proof (bz_range a). pose proof (bz_range b). assert (bz a = bz b) as E%bz_inj by lia. subst.
  f_equal. apply IH; [by injection Hl | lia].
Qed.

Section Generator.
Context (Encrypt : bytes -> bytes).

(** The two ids of a block. *)
Definition id_pair (b : bytes) : list Z := [le_value (take 8 b); le_value (take 8 (drop 8 b))].

Lemma generate_pairs k : forall c b, length c = 16%nat ->
  (generate Encrypt (2 * k) (mkGenerator c BlockSize b)).2 = seq 0 k ≫= (fun i => id_pair (Encrypt (counter i c))).
Proof.
  induction k as [|k IH]; intros c b Hc; [done|]. replace (2 * S k)%nat with (S (S (2 * k))) by lia.
  cbn [generate]. change (GenerateID Encrypt (mkGenerator c BlockSize b)) with
    (mkGenerator (reverse (increment (reverse c))) 8 (Encrypt c), le_value (take 8 (Encrypt c))).
  cbv beta iota. change (GenerateID Encrypt (mkGenerator ?c 8 ?b)) with (mkGenerator c BlockSize b, le_value (take 8 (drop 8 b))).
  cbv beta iota.
  destruct (generate Encrypt (2 * k) _) as [g ids] eqn:E. cbn [snd].
  specialize (IH (reverse (increment (reverse c))) (Encrypt c)).
  rewrite length_reverse, length_increment, length_reverse in IH. specialize (IH Hc). rewrite E in IH. cbn in IH. subst ids.
  change (seq 0 (S k)) with ([0%nat] ++ seq 1 k). by rewrite bind_app, <- fmap_S_seq, list_fmap_bind.
Qed.
End Generator.

(** ** UUIDs *)

Lemma hex_bytes_cons b x : hex_bytes (b :: x) = hex_char (bz b / 16 mod 16) :: hex_char (bz b mod 16) :: hex_bytes x.
Proof. reflexivity. Qed.

Lemma hex_decode_bytes x : hex_decode (hex_bytes x) = Some x.
Proof.
  induction x as [|b x IH]; [done|]. rewrite hex_bytes_cons. cbn [hex_decode].
  pose proof (bz_range b). pose proof (Z.mod_pos_bound (bz b) 16 ltac:(lia)). pose proof (Z.div_mod (bz b) 16 ltac:(lia)).
  assert (0 <= bz b / 16 < 16) by (split; [apply Z.div_pos; lia | apply Z.div_lt_upper_bound; lia]).
  rewrite (Z.mod_small (bz b / 16)), !hex_value_char by done. cbn [mbind option_bind]. rewrite IH. cbn [mbind option_bind].
  do 2 f_equal. rewrite <- (zb_bz b) at 3. f_equal. lia.
Qed.

Lemma hex_bytes_app x y : hex_bytes (x ++ y) = hex_bytes x ++ hex_bytes y.
Proof. apply bind_app. Qed.

Lemma length_hex_bytes x : length (hex_bytes x) = (2 * length x)%nat.
Proof. induction x as [|b x IH]; [done|]. change (b :: x) with ([b] ++ x). rewrite hex_bytes_app, length_app, IH. cbn. lia. Qed.

Lemma all_hex_bytes x : all_hex (hex_bytes x) = true.
Proof.
  induction x as [|b x IH]; [done|]. change (b :: x) with ([b] ++ x). rewrite hex_bytes_app. unfold all_hex in *.
  rewrite forallb_app, IH, andb_true_r, hex_bytes_cons. cbn [forallb hex_bytes mbind list_bind].
  pose proof (bz_range b). rewrite !hex_value_char by (apply Z.mod_pos_bound; lia). done.
Qed.

Lemma hex_group_head g x : (0 < g)%nat -> (g <= length x)%nat -> exists d s, 0 <= d < 16 /\ hex_bytes (take g x) = hex_char d :: s.
Proof.
  intros Hg Hx. destruct x as [|b x]; [cbn in Hx; lia|]. destruct g as [|g]; [lia|].
  exists (bz b / 16 mod 16). eexists. split; [apply Z.mod_pos_bound; lia|]. reflexivity.
Qed.

(** A digit is neither a dash nor a brace. *)
Lemma hex_char_plain d : 0 <= d < 16 -> Ascii.eqb dash (hex_char d) = false /\ Ascii.eqb "{" (hex_char d) = false.
Proof.
  intros Hd. pose proof (Zrange_forallb (fun d => negb (Ascii.eqb dash (hex_char d)) && negb (Ascii.eqb "{" (hex_char d))) 16 eq_refl d Hd) as H.
  cbv beta in H. apply andb_true_iff in H as [H1 H2]. by rewrite !negb_true_iff in *.
Qed.

(** The text of the groups with the separators [seps] (a dash or nothing) between. *)
Fixpoint join_groups (gs : list nat) (seps : list bool) (x : bytes) : list ascii :=
  match gs with
  | [] => []
  | [g] => hex_bytes (take g x)
  | g :: gs => hex_bytes (take g x) ++ (if hd true seps then [dash] else []) ++ join_groups gs (tl seps) (drop g x)
  end.

Lemma match_groups_join gs : forall seps x e, gs <> [] -> Forall (fun g => (0 < g)%nat) gs -> length x = sum_list gs ->
  e = [] \/ e = ["}"%char] -> match_groups gs (join_groups gs seps x ++ e) = Some (hex_bytes x).
Proof.
  induction gs as [|g gs IH]; intros seps x e Hne Hpos Hx He; [done|]. apply Forall_cons in Hpos as [Hg Hpos].
  cbn in Hx. assert (Hlen : length (hex_bytes (take g x)) = (2 * g)%nat) by (rewrite length_hex_bytes, length_take; lia).
  assert (Hsplit : hex_bytes x = hex_bytes (take g x) ++ hex_bytes (drop g x)) by (by rewrite <- hex_bytes_app, take_drop).
  assert (Hstep : forall rest, match_groups (g :: gs) (hex_bytes (take g x) ++ rest) =
    r ← match_groups gs (match gs with [] => rest | _ => optional dash rest end); Some (hex_bytes (take g x) ++ r)).
  { intros rest. cbn [match_groups]. rewrite take_app_exact, drop_app_exact by done.
    rewrite Hlen, Nat.eqb_refl, all_hex_bytes. cbn [andb]. by destruct gs. }
  destruct gs as [|g' gs].
  - cbn [join_groups]. rewrite Hstep. assert (Hd : drop g x = []) by (apply drop_ge; cbn in Hx; lia).
    rewrite Hsplit, Hd. by destruct He as [-> | ->].
  - change (join_groups (g :: g' :: gs) seps x) with
      (hex_bytes (take g x) ++ (if hd true seps then [dash] else []) ++ join_groups (g' :: gs) (tl seps) (drop g x)).
    rewrite <- !(assoc_L (++)), Hstep.
    assert (Hopt : optional dash ((if hd true seps then [dash] else []) ++ join_groups (g' :: gs) (tl seps) (drop g x) ++ e) =
                   join_groups (g' :: gs) (tl seps) (drop g x) ++ e).
    { destruct (hd true seps); [done|]. cbn [app]. apply Forall_cons in Hpos as [Hg' _].
      destruct (hex_group_head g' (drop g x)) as (d & s & Hd & Es); [done | rewrite length_drop; cbn in Hx; lia|].
      assert (exists s', join_groups (g' :: gs) (tl seps) (drop g x) = hex_char d :: s') as (s' & ->)
        by (destruct gs; cbn [join_groups]; rewrite Es; eexists; reflexivity).
      cbn [app optional]. by rewrite (proj1 (hex_char_plain d Hd)). }
    rewrite Hopt, IH by (try done; rewrite length_drop; lia). cbn [mbind option_bind]. by rewrite Hsplit.
Qed.

Lemma hex_groups_join gs : forall x, hex_groups gs x = join_groups gs [] x.
Proof. induction gs as [|g [|g' gs] IH]; intros x; [done|done|]. cbn [hex_groups join_groups hd tl app]. f_equal. f_equal. apply IH. Qed.

(** ** Cipher feedback *)

Lemma length_xor_bytes a b : length (xor_bytes a b) = Nat.min (length a) (length b).
Proof. apply length_zip_with. Qed.

Lemma xor_bytes_twice a b : (length a <= length b)%nat -> xor_bytes (xor_bytes a b) b = a.
Proof.
  revert b. induction a as [|x a IH]; intros [|y b] H; cbn in *; [done..|lia|]. unfold xor_bytes in *. cbn [zip_with].
  rewrite IH by lia. f_equal. pose proof (bz_range x). pose proof (bz_range y).
  rewrite bz_zb_small.
  - rewrite Z.lxor_assoc, Z.lxor_nilpotent, Z.lxor_0_r. apply zb_bz.
  - assert (E : Z.lxor (bz x) (bz y) = Z.lxor (bz x) (bz y) mod 2 ^ 8).
    { apply Z.bits_inj'. intros n Hn. destruct (Z.lt_ge_cases n 8).
      - by rewrite Z.mod_pow2_bits_low.
      - rewrite Z.mod_pow2_bits_high, Z.lxor_spec by lia.
        assert (forall z, 0 <= z < 256 -> Z.testbit z n = false) as Hz.
        { intros z Hz. rewrite <- (Z.mod_small z (2 ^ 8)) by (change (2 ^ 8) with 256; lia). apply Z.mod_pow2_bits_high. lia. }
        by rewrite !Hz. }
    rewrite E. apply Z.mod_pos_bound. done.
Qed.

Lemma cfb_inverse cipher key fuel : (forall b, length b = BlockSize -> length (cipher key b) = BlockSize) ->
  forall register src, length register = BlockSize -> (length src <= fuel)%nat ->
  length (cfb cipher key false fuel register src) = length src /\
  cfb cipher key true fuel register (cfb cipher key false fuel register src) = src.
Proof.
  intros Hc. induction fuel as [|fuel IH]; intros register src Hr Hl; [destruct src; [done | cbn in Hl; lia]|].
  destruct src as [|b src]; [done|]. set (s := b :: src) in *.
  set (k := cipher key register). assert (Hk : length k = BlockSize) by (by apply Hc).
  set (chunk := take BlockSize s). set (out := xor_bytes chunk k).
  change (cfb cipher key false (S fuel) register s) with (out ++ cfb cipher key false fuel out (drop BlockSize s)).
  assert (Hch : length chunk = Nat.min BlockSize (length s)) by apply length_take.
  assert (Hout : length out = length chunk) by (unfold out; rewrite length_xor_bytes, Hk; lia).
  assert (Hback : xor_bytes out k = chunk) by (apply xor_bytes_twice; lia).
  assert (Hd : length (drop BlockSize s) = (length s - BlockSize)%nat) by apply length_drop.
  assert (Hs1 : (1 <= length s)%nat) by (cbn; lia). assert (Hb : BlockSize = 16%nat) by done.
  set (rest := drop BlockSize s) in *.
  assert (Hrest : length (cfb cipher key false fuel out rest) = length rest /\
                  cfb cipher key true fuel out (cfb cipher key false fuel out rest) = rest).
  { destruct (Nat.le_gt_cases (length s) BlockSize) as [Hle|Hgt].
    - assert (rest = []) as -> by (apply length_zero_iff_nil; lia). by destruct fuel.
    - apply IH; lia. }
  destruct Hrest as [Hl2 Hinv]. split; [rewrite length_app, Hl2; lia|].
  destruct out as [|o out'] eqn:Eo; [cbn in Hout; lia|]. rewrite <- Eo in *. set (tail := cfb cipher key false fuel out rest) in *.
  assert (Ht : take BlockSize (out ++ tail) = out /\ drop BlockSize (out ++ tail) = tail).
  { destruct (Nat.le_gt_cases (length s) BlockSize) as [Hle|Hgt].
    - assert (tail = []) as -> by (apply length_zero_iff_nil; lia). rewrite app_nil_r. split; [apply take_ge | apply drop_ge]; lia.
    - split; [apply take_app_exact | apply drop_app_exact]; lia. }
  assert (Hcons : out ++ tail = o :: (out' ++ tail)) by (by rewrite Eo).
  rewrite Hcons. cbn [cfb]. rewrite <- Hcons, (proj1 Ht), (proj2 Ht). fold k. rewrite Hback, Hinv. apply take_drop.
Qed.

Lemma lists_of_string l : String.list_ascii_of_string (String.string_of_list_ascii l) = l.
Proof. apply String.list_ascii_of_string_of_list_ascii. Qed.

(** Base 62, least significant digit first. *)
Lemma Base62_roundtrip ov n : 0 <= n < 2 ^ 63 -> Base62ToInt ov (IntToBase62 n) = n.
Proof.
  intros Hn. unfold IntToBase62. destruct (n =? 0) eqn:E; [apply Z.eqb_eq in E; by subst|].
  unfold Base62ToInt, TrimSpace. rewrite !lists_of_string, trim_solid by (apply digits62_solid; lia).
  rewrite sum62_digits; cbn; [lia | | lia | lia]. split; [lia|]. transitivity (2 ^ 63); [lia | reflexivity].
Qed.

(** A negative number has no digits. *)
Lemma IntToBase62_negative n : n < 0 -> IntToBase62 n = "".
Proof.
  intros Hn. unfold IntToBase62. rewrite (proj2 (Z.eqb_neq _ _)) by lia. cbn [digits62].
  by rewrite (proj2 (Z.ltb_ge _ _)) by lia.
Qed.

Lemma ParseID_String id : 0 <= id < 2 ^ 64 -> ParseID (ID_String id) = Ok id.
Proof.
  intros Hid. unfold ParseID, ID_String. rewrite lists_of_string.
  destruct (hex_fixed 16 id) as [|c l] eqn:E; [pose proof (length_hex_fixed 16 id) as Hl; rewrite E in Hl; done|].
  rewrite <- E, hex_number_fixed by (change (16 ^ Z.of_nat 16) with (2 ^ 64); done).
  by rewrite (proj2 (Z.ltb_lt _ _)) by lia.
Qed.

(** The three forms a UUID may have. *)
Definition uuid_forms (x : bytes) : list string :=
  [uuid_Hex x; String.string_of_list_ascii (hex_bytes x);
   String.string_of_list_ascii ("{"%char :: String.list_ascii_of_string (uuid_Hex x) ++ ["}"%char])].

Lemma match_uuid seps x e : length x = 16%nat -> e = [] \/ e = ["}"%char] ->
  match_groups groups (join_groups groups seps x ++ e) = Some (hex_bytes x).
Proof. intros Hx He. apply match_groups_join; [done | repeat constructor | done | done]. Qed.

Lemma FromStr_forms x s : length x = 16%nat -> s ∈ uuid_forms x -> FromStr s = Ok x.
Proof.
  intros Hx Hs. assert (Hne : forall l, l <> [] -> String.string_of_list_ascii l <> "") by (intros [|c l] ?; done).
  assert (Hhd : forall seps, exists d l, 0 <= d < 16 /\ join_groups groups seps x = hex_char d :: l).
  { intros seps. destruct (hex_group_head 4 x) as (d & l & Hd & E); [lia | lia|]. exists d. eexists. split; [done|].
    unfold groups. cbn [join_groups]. rewrite E. reflexivity. }
  assert (Hplain : hex_bytes x = join_groups groups [false; false; false; false] x).
  { cbn [join_groups groups hd tl app]. rewrite <- !hex_bytes_app, !drop_drop. f_equal. cbn [Nat.add].
    clear -Hx. do 16 (destruct x as [|? x]; [done|]). by destruct x. }
  assert (Hform : forall seps pre e, (pre = [] \/ pre = ["{"%char]) -> (e = [] \/ e = ["}"%char]) ->
    FromStr (String.string_of_list_ascii (pre ++ join_groups groups seps x ++ e)) = Ok x).
  { intros seps pre e Hp He. destruct (Hhd seps) as (d & l & Hd & E). unfold FromStr. rewrite decide_False.
    - rewrite lists_of_string.
      assert (optional "{" (pre ++ join_groups groups seps x ++ e) = join_groups groups seps x ++ e) as ->.
      { destruct Hp as [-> | ->]; [|done]. rewrite E. cbn [app optional]. by rewrite (proj2 (hex_char_plain d Hd)). }
      rewrite match_uuid by done. by rewrite hex_decode_bytes.
    - apply Hne. rewrite E. by destruct Hp as [-> | ->]. }
  unfold uuid_forms, uuid_Hex in Hs. rewrite !lists_of_string, hex_groups_join, Hplain in Hs.
  repeat (apply elem_of_cons in Hs as [-> | Hs]); [| | |by apply not_elem_of_nil in Hs].
  - specialize (Hform [] [] []). cbn [app] in Hform. rewrite app_nil_r in Hform. auto.
  - specialize (Hform [false; false; false; false] [] []). cbn [app] in Hform. rewrite app_nil_r in Hform. auto.
  - apply (Hform [] ["{"%char] ["}"%char]); auto.
Qed.

(** ** Properties *)

(** C37. What the encodings write they read back: base 62 every non-negative [int64],
    [ParseID] and the JSON form every 64-bit id, and [FromStr] every UUID in each of its
    three documented forms: with dashes, plain, and in braces. *)
Theorem encodings_roundtrip (pow_overflow : nat -> Z) (json_marshal : string -> bytes)
  (json_string : bytes -> result string string) (json_uint64 : bytes -> result string Z) (n id : Z) (x : bytes)
  (Hj : forall s, json_string (json_marshal s) = Ok s)
  (Hn : 0 <= n < 2 ^ 63) (Hid : 0 <= id < 2 ^ 64) (Hx : length x = 16%nat) :
  Base62ToInt pow_overflow (IntToBase62 n) = n /\
  ParseID (ID_String id) = Ok id /\
  UnmarshalJSON json_string json_uint64 (MarshalJSON json_marshal id) = Ok id /\
  Forall (fun s => FromStr s = Ok x) (uuid_forms x).
Proof.
  split; [by apply Base62_roundtrip|]. split; [by apply ParseID_String|]. split.
  - unfold UnmarshalJSON, parseJSONString, MarshalJSON. by rewrite Hj, ParseID_String.
  - apply Forall_forall. intros s Hs. by apply FromStr_forms.
Qed.

Definition demo_quote (s : string) : bytes := "034"%byte :: str_bytes s ++ ["034"%byte].
Definition demo_unquote (b : bytes) : result string string := Ok (bytes_str (drop 1 (take (length b - 1) b))).

Lemma demo_unquote_quote s : demo_unquote (demo_quote s) = Ok s.
Proof.
  unfold demo_unquote, demo_quote. f_equal. cbn [length take drop]. rewrite length_app. cbn [length].
  replace (S (length (str_bytes s) + 1) - 1)%nat with (S (length (str_bytes s))) by lia. cbn [take drop].
  rewrite take_app_exact by done. apply String.string_of_list_byte_of_string.
Qed.

Lemma encodings_roundtrip_witness :
  Base62ToInt (fun _ => 0) (IntToBase62 9223372036854775807) = 9223372036854775807 /\
  ParseID (ID_String 10018820) = Ok 10018820 /\
  UnmarshalJSON demo_unquote (fun _ => Err "") (MarshalJSON demo_quote 10018820) = Ok 10018820 /\
  Forall (fun s => FromStr s = Ok (uuid_Rand (replicate 16 x0a))) (uuid_forms (uuid_Rand (replicate 16 x0a))).
Proof.
  apply (encodings_roundtrip (fun _ => 0) demo_quote demo_unquote (fun _ => Err "") 9223372036854775807 10018820
           (uuid_Rand (replicate 16 x0a)) demo_unquote_quote); [lia | lia | reflexivity].
Defined.

(** The generator's ids, two to a block, are the encryptions of a counter that
    starts at the seed and goes up by one modulo 2^128.  As the cipher is injective on
    blocks, no pair of ids comes again within 2^128 blocks. *)
Lemma generator_does_not_repeat (Encrypt : bytes -> bytes) (seed : bytes) (k i j : nat)
  (Hseed : length seed = 16%nat) (Hlen : forall b, length b = 16%nat -> length (Encrypt b) = 16%nat)
  (Hinj : forall b c, length b = 16%nat -> length c = 16%nat -> Encrypt b = Encrypt c -> b = c)
  (Hij : (i < j < k)%nat) (Hk : Z.of_nat k <= 2 ^ 128) :
  let ids := (generate Encrypt (2 * k) (init_generator seed)).2 in
  ids = seq 0 k ≫= (fun i => id_pair (Encrypt (counter i seed))) /\
  be_value (counter i seed) = (be_value seed + Z.of_nat i) mod 2 ^ 128 /\
  id_pair (Encrypt (counter i seed)) <> id_pair (Encrypt (counter j seed)).
Proof.
  intros ids. split; [by apply generate_pairs|].
  assert (Hbe : forall m, be_value (counter m seed) = (be_value seed + Z.of_nat m) mod 2 ^ 128)
    by (intros m; rewrite be_value_counter, Hseed; done).
  split; [apply Hbe|]. intros Heq. set (ci := counter i seed) in *. set (cj := counter j seed) in *.
  assert (length ci = 16%nat /\ length cj = 16%nat) as [Hci Hcj] by (unfold ci, cj; by rewrite !length_counter).
  assert (HE : Encrypt ci = Encrypt cj).
  { pose proof (Hlen _ Hci). pose proof (Hlen _ Hcj). injection Heq as H1 H2.
    apply le_value_inj in H1; [|rewrite !length_take; lia]. apply le_value_inj in H2; [|rewrite !length_take, !length_drop; lia].
    rewrite (take_ge (drop 8 (Encrypt ci))), (take_ge (drop 8 (Encrypt cj))) in H2 by (rewrite length_drop; lia).
    by rewrite <- (take_drop 8 (Encrypt ci)), <- (take_drop 8 (Encrypt cj)), H1, H2. }
  apply Hinj in HE; [|done|done]. pose proof (Hbe i) as Ei. pose proof (Hbe j) as Ej. fold ci in Ei. fold cj in Ej.
  rewrite HE in Ei. rewrite Ei in Ej. clear -Ej Hij Hk.
  apply Z.cong_iff_0 in Ej. replace (be_value seed + Z.of_nat i - (be_value seed + Z.of_nat j)) with (- (Z.of_nat (j - i))) in Ej by lia.
  apply Z.mod_opp_l_z in Ej; [|done]. rewrite Z.opp_involutive, Z.mod_small in Ej; lia.
Qed.

Lemma generator_does_not_repeat_witness :
  let ids := (generate reverse 4 (init_generator (replicate 16 xff))).2 in
  ids = seq 0 2 ≫= (fun i => id_pair (reverse (counter i (replicate 16 xff)))) /\
  be_value (counter 0 (replicate 16 xff)) = (be_value (replicate 16 xff) + 0) mod 2 ^ 128 /\
  id_pair (reverse (counter 0 (replicate 16 xff))) <> id_pair (reverse (counter 1 (replicate 16 xff))).
Proof.
  apply (generator_does_not_repeat reverse (replicate 16 xff) 2 0 1); [reflexivity | | | lia | vm_compute; discriminate].
  - intros b Hb. by rewrite length_reverse.
  - intros b c _ _ H. by apply (inj reverse).
Defined.

(** With a key of at least 16 bytes [Decrypt] gives back what [Encrypt] was given,
    byte for byte and for any length.  A shorter key is refused by [NewAesEncrypt]; on
    a value made without it both panic, [Decrypt] in the very function that was to
    recover. *)
Lemma aes_roundtrip (cipher : bytes -> bytes -> bytes) (StrKey msg : bytes)
  (Hc : forall key b, length b = BlockSize -> length (cipher key b) = BlockSize) :
  match NewAesEncrypt StrKey with
  | Ok k => exists c, aes_Encrypt cipher k msg = Ret c /\ length c = length msg /\ aes_Decrypt cipher k c = Ret msg
  | Err _ => is_panic (aes_Encrypt cipher StrKey msg) = true /\ is_panic (aes_Decrypt cipher StrKey msg) = true
  end.
Proof.
  unfold NewAesEncrypt, aes_Encrypt, aes_Decrypt. destruct (length StrKey <? 16)%nat eqn:El.
  - unfold getKey. by rewrite El.
  - assert (exists key, getKey StrKey = Ret key /\ (16 <= length key)%nat) as (key & Ek & Hk).
    { unfold getKey. rewrite El. apply Nat.ltb_ge in El.
      repeat case_match; eexists; (split; [reflexivity|]); rewrite length_take; repeat rewrite Nat.leb_le in *; lia. }
    rewrite Ek. cbn [outcome_bind]. eexists. split; [reflexivity|].
    destruct (cfb_inverse cipher key (length msg) (Hc key) (take BlockSize key) msg) as [Hl Hinv];
      [rewrite length_take; unfold BlockSize; lia | done|]. split; [done|]. by rewrite Hl, Hinv.
Qed.

Lemma aes_roundtrip_witness : exists c,
  aes_Encrypt (fun key b => reverse b) (replicate 20 x41) (str_bytes "seventeen letters") = Ret c /\
  length c = 17%nat /\ aes_Decrypt (fun key b => reverse b) (replicate 20 x41) c = Ret (str_bytes "seventeen letters").
Proof.
  apply (aes_roundtrip (fun key b => reverse b) (replicate 20 x41) (str_bytes "seventeen letters")).
  intros key b Hb. by rewrite length_reverse.
Defined.

(** [RandInt64] stays between its bounds where their difference is an [int64]. *)
Lemma RandInt64_bounds Int63n min max (Hr : forall n, 0 < n -> 0 <= Int63n n < n) :
  - 2 ^ 63 <= min -> max < 2 ^ 63 ->
  (max <= min -> RandInt64 Int63n min max = Ret max) /\
  (min < max -> max - min < 2 ^ 63 -> exists r, RandInt64 Int63n min max = Ret r /\ min <= r < max) /\
  (2 ^ 63 <= max - min -> is_panic (RandInt64 Int63n min max) = true).
Proof.
  intros Hmin Hmax. unfold RandInt64. split_and!.
  - intros H. by rewrite (proj2 (Z.leb_le _ _)).
  - intros H1 H2. rewrite (proj2 (Z.leb_gt _ _)) by done.
    assert (E : int64 (max - min) = max - min) by (apply wrap_s_small; lia). rewrite E, (proj2 (Z.leb_gt _ _)) by lia.
    specialize (Hr (max - min) ltac:(lia)). exists (Int63n (max - min) + min).
    split; [|lia]. f_equal. apply wrap_s_small; lia.
  - intros H. rewrite (proj2 (Z.leb_gt _ _)) by lia.
    assert (E : int64 (max - min) = max - min - 2 ^ 64).
    { unfold int64, wrap_s. rewrite <- (Z.mod_unique (max - min + 2 ^ (64 - 1)) (2 ^ 64) 1 (max - min + 2 ^ 63 - 2 ^ 64)); lia. }
    rewrite E. by rewrite (proj2 (Z.leb_le _ _)) by lia.
Qed.

(** [randBytes] fills the id whatever the system's source does, and [Rand] marks its version
    and its variant. *)
Lemma randBytes_length n read Int31n : length (randBytes n read Int31n) = n.
Proof.
  unfold randBytes. case_bool_decide as H; cbn [andb]; [destruct read.2; [done|]|]; generalize 0%nat; clear H;
    induction n as [|n IH]; intros d; try done; cbn [math_bytes]; rewrite length_app, IH; cbn; lia.
Qed.

Lemma uuid_Rand_marks x a b c d e f g h i r : x = a :: b :: c :: d :: e :: f :: g :: h :: i :: r ->
  length (uuid_Rand x) = length x /\
  exists v w, uuid_Rand x !! 6%nat = Some v /\ bz v = Z.lor (Z.land (bz g) 15) 64 /\ uuid_Rand x !! 8%nat = Some w /\ bz w = Z.lor (Z.land (bz i) 63) 128.
Proof.
  intros ->. split; [unfold uuid_Rand; by rewrite !length_alter|]. eexists _, _. split_and!; [reflexivity| |reflexivity|]; clear; [by destruct g|by destruct i].
Qed.
