(* ===== verification/IpTool.v ===== *)
(** * Client addresses

    [utils/ip/iptool.go], the address a WebSocket connection reports
    ([network/ws_conn_x.go]) and the handshake that uses it
    ([network/ws_server_x.go]).

    Outside the model: which texts with a colon [net.ParseIP] takes for an IPv6 address
    ([ipv6]), the URL parser, and net/http's reading of the request. *)
From Stdlib Require Import Strings.Ascii.
From S2P Require Import Prelude Registry Server IdUtils IdUtilsTheorems.
#[local] Open Scope mq_scope.
#[local] Open Scope string_scope.
#[local] Open Scope list_scope.
#[local] Open Scope Z_scope.

Definition dot : ascii := "."%char.
Definition comma : ascii := ","%char.

(** ** [net.ParseIP] *)

(** A decimal field of an IPv4 address: up to 255, without leading zeros. *)
Definition is_digit (c : ascii) : bool := let n := N_of_ascii c in (48 <=? n)%N && (n <=? 57)%N.

Definition ipv4_field (s : string) : bool :=
  match s with
  | "" => false
  | String "0"%char (String _ _) => false
  | _ => forallb is_digit (String.list_ascii_of_string s) && (String.length s <=? 3)%nat && (Atoi s <=? 255)
  end.

Definition is_ipv4 (s : string) : bool :=
  match split_on dot s "" with
  | [a; b; c; d] => forallb ipv4_field [a; b; c; d]
  | _ => false
  end.

(** The first dot or colon tells which form is tried. *)
Fixpoint first_mark (s : string) : option bool :=
  match s with
  | EmptyString => None
  | String c s => if decide (c = dot) then Some true else if decide (c = colon) then Some false else first_mark s
  end.

Section IpTool.
Context (ipv6 : string -> bool).

Definition CheckIp (ipStr : string) : bool :=
  match first_mark ipStr with
  | Some true => is_ipv4 ipStr
  | Some false => ipv6 ipStr
  | None => false
  end.

(** ** [InetAton] and [IsInnerIp] *)

Definition out_of_range : string := "runtime error: index out of range".

(** The errors of [Atoi] are dropped; fewer than four parts panic. *)
Definition InetAton (ipStr : string) : outcome Z :=
  match split_on dot ipStr "" with
  | b0 :: b1 :: b2 :: b3 :: _ =>
      Ret (int64 (int64 (int64 (int64 (Z.shiftl (Atoi b0) 24) + int64 (Z.shiftl (Atoi b1) 16)) + int64 (Z.shiftl (Atoi b2) 8)) + Atoi b3))
  | _ => Panic out_of_range
  end.

(** The bytes of [net.IPv4(b3, b2, b1, b0)]. *)
Definition InetNtoa (ipnr : Z) : Z * Z * Z * Z :=
  (Z.land (Z.shiftr ipnr 24) 255, Z.land (Z.shiftr ipnr 16) 255, Z.land (Z.shiftr ipnr 8) 255, Z.land ipnr 255).

Definition IsInnerIp (ipStr : string) : outcome bool :=
  if CheckIp ipStr then
    n <- InetAton ipStr;
    a <- InetAton "10.255.255.255";
    b <- InetAton "172.16.255.255";
    c <- InetAton "192.168.255.255";
    d <- InetAton "100.64.255.255";
    f <- InetAton "127.255.255.255";
    Ret ((Z.shiftr n 24 =? Z.shiftr a 24) || (Z.shiftr n 20 =? Z.shiftr b 20) || (Z.shiftr n 16 =? Z.shiftr c 16)
         || (Z.shiftr n 22 =? Z.shiftr d 22) || (Z.shiftr n 24 =? Z.shiftr f 24))
  else Ret false.

(** ** [RealIP] *)

Fixpoint first_global (ips : list string) : outcome string :=
  match ips with
  | [] => Ret ""
  | ip :: ips =>
      let ip := TrimSpace ip in
      inner <- IsInnerIp ip;
      if (inner : bool) then first_global ips else Ret ip
  end.

Definition GetGlobalIPFromXforwardedFor (xforwardedFor : string) : outcome string :=
  first_global (split_on comma xforwardedFor "").

(** The header is asked for under two spellings, which [Get] takes for one:
    [forwarded] is its first value, or empty. *)
Definition from_header (forwarded : string) (otherwise : outcome string) : outcome string :=
  if decide (forwarded = "") then otherwise
  else ip <- GetGlobalIPFromXforwardedFor forwarded; if decide (ip = "") then otherwise else Ret ip.

Definition host_part (RemoteAddr : string) : string := default "" (head (split_on colon RemoteAddr "")).

Definition RealIP (RemoteAddr forwarded : string) : outcome string :=
  let remote := host_part RemoteAddr in
  inner <- IsInnerIp remote;
  if (negb inner) then Ret remote
  else from_header forwarded (from_header forwarded (Ret remote)).

(** ** The WebSocket's use of it *)

(** [RemoteAddr] of a [WSConn]: [Network] and [String]. *)
Definition ws_RemoteAddr (RemoteAddr forwarded : string) : outcome (string * string) :=
  ip <- RealIP RemoteAddr forwarded; Ret ("websocket", ip).

(** The [Handshake]: the origin's text and the protocols answered. *)
Definition ws_Handshake (tls : bool) (RemoteAddr forwarded RequestURI offeredProtocol : string) : outcome (string * list string) :=
  let scheme := if tls then "wss" else "ws" in
  real_ip <- RealIP RemoteAddr forwarded;
  Ret ((scheme ++ "://" ++ real_ip ++ RequestURI)%string,
       match split_on comma offeredProtocol "" with p :: _ => [p] | [] => ["mqtt"] end).
End IpTool.

(** ** What holds

    The two implementations of "private address" agree, and which address [RealIP]
    reports for a client. *)

(** ** Dotted addresses *)

Definition octet (z : Z) : Prop := 0 <= z < 256.

Definition field_char (c : ascii) : bool :=
  solid c && negb (Ascii.eqb c dot) && negb (Ascii.eqb c colon) && negb (Ascii.eqb c comma).

(** What is known of a field's text, by enumeration. *)
Definition field_ok (z : Z) : bool :=
  let s := FormatInt z in
  forallb field_char (String.list_ascii_of_string s) && ipv4_field s && (Atoi s =? z) && negb (bool_decide (s = "")).

Lemma octet_ok z : octet z -> field_ok z = true.
Proof. apply (Zrange_forallb field_ok 256). vm_compute. reflexivity. Qed.

Lemma chars_no_char sep s : forallb (fun c => negb (Ascii.eqb c sep)) (String.list_ascii_of_string s) = true -> no_char sep s.
Proof.
  induction s as [|c s IH]; [done|]. cbn. intros [H1 H2]%andb_true_iff. split; [|by apply IH].
  apply negb_true_iff, Ascii.eqb_neq in H1. done.
Qed.

Lemma forallb_weaken {A} (p q : A -> bool) l : (forall x, p x = true -> q x = true) -> forallb p l = true -> forallb q l = true.
Proof. intros H. rewrite !forallb_forall. auto. Qed.

Lemma octet_facts z : octet z ->
  let s := FormatInt z in
  forallb field_char (String.list_ascii_of_string s) = true /\ no_char dot s /\ no_char colon s /\ no_char comma s /\
  ipv4_field s = true /\ Atoi s = z /\ s <> "".
Proof.
  intros Hz%octet_ok. unfold field_ok in Hz. bool_prop. cbv zeta.
  match goal with H : forallb field_char _ = true |- _ => pose proof H as Hf end.
  split; [done|]. split; [|split; [|split; [|split; [done|split; [done|by eapply bool_decide_eq_false_1]]]]];
    apply chars_no_char; revert Hf; apply forallb_weaken; unfold field_char; intros c Hc; bool_prop;
    apply negb_true_iff; assumption.
Qed.

Ltac octets :=
  repeat match goal with H : octet ?z |- _ =>
    let H1 := fresh "Hf" in pose proof (octet_facts z H) as H1; cbv zeta in H1; destruct H1 as (? & ? & ? & ? & ? & ? & ?);
    let H2 := fresh "Hr" in assert (H2 := H); unfold octet in H2; revert H end; intros.

Lemma split_ip a b c d : octet a -> octet b -> octet c -> octet d ->
  split_on dot (ip_string a b c d) "" = [FormatInt a; FormatInt b; FormatInt c; FormatInt d].
Proof. intros. octets. apply (split_on_concat dot [_; _; _] _ ""). repeat constructor; assumption. Qed.

Lemma first_mark_app s t : no_char dot s -> no_char colon s -> first_mark (s ++ t)%string = first_mark t.
Proof.
  induction s as [|c s IH]; [done|]. intros [H1 H2] [H3 H4]. rewrite str_app_cons. cbn [first_mark].
  rewrite !decide_False by done. by apply IH.
Qed.

Lemma CheckIp_ip ipv6 a b c d : octet a -> octet b -> octet c -> octet d -> CheckIp ipv6 (ip_string a b c d) = true.
Proof.
  intros. unfold CheckIp, is_ipv4. rewrite split_ip by done. octets.
  assert (first_mark (ip_string a b c d) = Some true) as ->.
  { unfold ip_string. cbn [fmap list_fmap String.concat]. by rewrite first_mark_app. }
  cbn [forallb]. repeat match goal with H : ipv4_field _ = true |- _ => rewrite H; clear H end. done.
Qed.

(** The sum of the shifted fields is the number of [addr.go]. *)
Definition ip_sum (a b c d : Z) : Z := a * 2 ^ 24 + b * 2 ^ 16 + c * 2 ^ 8 + d.

Lemma lor_low x y n : 0 <= n -> 0 <= y < 2 ^ n -> Z.lor (Z.shiftl x n) y = x * 2 ^ n + y.
Proof.
  intros Hn Hy. rewrite <- Z.shiftl_mul_pow2 by done.
  rewrite Z.add_nocarry_lxor, Z.lxor_lor; try done.
  all: apply Z.bits_inj'; intros m Hm; rewrite Z.land_spec, Z.bits_0; destruct (Z.lt_ge_cases m n);
    [rewrite Z.shiftl_spec_low by done; done
    |rewrite <- (Z.mod_small y (2 ^ n)), Z.mod_pow2_bits_high by lia; apply andb_false_r].
Qed.

Lemma ip_num_sum a b c d : octet a -> octet b -> octet c -> octet d -> ip_num a b c d = ip_sum a b c d.
Proof.
  unfold octet. intros. unfold ip_num, ip_sum. rewrite (lor_low c d 8) by lia. rewrite (lor_low b) by lia. rewrite (lor_low a) by lia. lia.
Qed.

Lemma InetAton_ip a b c d : octet a -> octet b -> octet c -> octet d -> InetAton (ip_string a b c d) = Ret (ip_sum a b c d).
Proof.
  intros. unfold InetAton. rewrite split_ip by done. octets.
  repeat match goal with H : Atoi _ = _ |- _ => rewrite H; clear H end.
  rewrite !Z.shiftl_mul_pow2 by done.
  assert (W : forall z, 0 <= z < 2 ^ 40 -> int64 z = z) by (intros z Hz; apply wrap_s_small; lia).
  rewrite (W (a * 2 ^ 24)), (W (b * 2 ^ 16)), (W (c * 2 ^ 8)) by lia. rewrite (W (a * 2 ^ 24 + b * 2 ^ 16)) by lia.
  rewrite (W (_ + c * 2 ^ 8)) by lia. rewrite W by lia. done.
Qed.

Lemma InetNtoa_Aton a b c d : octet a -> octet b -> octet c -> octet d -> InetNtoa (ip_sum a b c d) = (a, b, c, d).
Proof.
  unfold octet. intros. unfold InetNtoa, ip_sum. rewrite !Z.shiftr_div_pow2 by done.
  change 255 with (Z.ones 8). rewrite !Z.land_ones by done.
  assert (forall x y k, 0 <= y < 2 ^ k -> 0 < 2 ^ k -> (x * 2 ^ k + y) / 2 ^ k = x) as Hdiv
    by (intros x y k Hy Hk; rewrite Z.div_add_l, (Z.div_small y) by lia; lia).
  f_equal; [f_equal; [f_equal|]|].
  - replace (a * 2 ^ 24 + b * 2 ^ 16 + c * 2 ^ 8 + d) with (a * 2 ^ 24 + (b * 2 ^ 16 + c * 2 ^ 8 + d)) by lia.
    rewrite Hdiv by lia. apply Z.mod_small. lia.
  - replace (a * 2 ^ 24 + b * 2 ^ 16 + c * 2 ^ 8 + d) with ((a * 2 ^ 8 + b) * 2 ^ 16 + (c * 2 ^ 8 + d)) by lia.
    rewrite Hdiv by lia. rewrite Z.add_comm, Z.mod_add by lia. apply Z.mod_small. lia.
  - replace (a * 2 ^ 24 + b * 2 ^ 16 + c * 2 ^ 8 + d) with ((a * 2 ^ 16 + b * 2 ^ 8 + c) * 2 ^ 8 + d) by lia.
    rewrite Hdiv by lia. replace (a * 2 ^ 16 + b * 2 ^ 8 + c) with (c + (a * 2 ^ 8 + b) * 2 ^ 8) by lia.
    rewrite Z.mod_add by lia. apply Z.mod_small. lia.
  - replace (a * 2 ^ 24 + b * 2 ^ 16 + c * 2 ^ 8 + d) with (d + (a * 2 ^ 16 + b * 2 ^ 8 + c) * 2 ^ 8) by lia.
    rewrite Z.mod_add by lia. apply Z.mod_small. lia.
Qed.

(** Private, as [addr.go] sees it, or loopback. *)
Definition inner_ip (a b c d : Z) : bool := isPrivateIP a b c d || (a =? 127).

Lemma IsInnerIp_ip ipv6 a b c d : octet a -> octet b -> octet c -> octet d ->
  IsInnerIp ipv6 (ip_string a b c d) = Ret (inner_ip a b c d).
Proof.
  intros Ha Hb Hc Hd. unfold IsInnerIp. rewrite CheckIp_ip, InetAton_ip by done. cbn [outcome_bind].
  assert (E : forall x y z w, InetAton (String.concat "." (FormatInt <$> [x; y; z; w])) = InetAton (ip_string x y z w)) by done.
  change "10.255.255.255" with (ip_string 10 255 255 255). change "172.16.255.255" with (ip_string 172 16 255 255).
  change "192.168.255.255" with (ip_string 192 168 255 255). change "100.64.255.255" with (ip_string 100 64 255 255).
  change "127.255.255.255" with (ip_string 127 255 255 255).
  rewrite !InetAton_ip by (unfold octet; lia). cbn [outcome_bind]. f_equal.
  unfold inner_ip, isPrivateIP, privateBlocks, existsb, in_block. cbn [fst snd].
  rewrite !ip_num_sum by (try done; unfold octet; lia).
  assert (E24 : Z.shiftr (ip_sum a b c d) 24 = a).
  { unfold ip_sum, octet in *. rewrite Z.shiftr_div_pow2 by done.
    replace (a * 2 ^ 24 + b * 2 ^ 16 + c * 2 ^ 8 + d) with (a * 2 ^ 24 + (b * 2 ^ 16 + c * 2 ^ 8 + d)) by lia.
    rewrite Z.div_add_l, Z.div_small by lia. lia. }
  cbn [Z.sub]. change (32 - 8) with 24. change (32 - 12) with 20. change (32 - 16) with 16. change (32 - 10) with 22.
  rewrite !E24.
  change (Z.shiftr (ip_sum 10 255 255 255) 24) with 10. change (Z.shiftr (ip_sum 10 0 0 0) 24) with 10.
  change (Z.shiftr (ip_sum 127 255 255 255) 24) with 127.
  change (Z.shiftr (ip_sum 172 16 255 255) 20) with (Z.shiftr (ip_sum 172 16 0 0) 20).
  change (Z.shiftr (ip_sum 192 168 255 255) 16) with (Z.shiftr (ip_sum 192 168 0 0) 16).
  change (Z.shiftr (ip_sum 100 64 255 255) 22) with (Z.shiftr (ip_sum 100 64 0 0) 22).
  rewrite orb_false_r. by rewrite <- !orb_assoc.
Qed.

(** ** [RealIP] *)

Lemma host_part_ip a b c d port : octet a -> octet b -> octet c -> octet d ->
  host_part (ip_string a b c d ++ String colon port)%string = ip_string a b c d.
Proof.
  intros. octets. unfold host_part. rewrite split_on_piece.
  - cbn [split_on]. by rewrite decide_True, str_app_nil.
  - unfold ip_string. cbn [fmap list_fmap String.concat]. rewrite !no_char_app. cbn. by intuition.
Qed.

Section RealIP.
Context (ipv6 : string -> bool).

(** An entry of the header, with the spaces around it, that is the address. *)
Definition entry_is (e : string) (a b c d : Z) : Prop :=
  octet a /\ octet b /\ octet c /\ octet d /\ TrimSpace e = ip_string a b c d.

Definition inner_entry (e : string) : Prop := exists a b c d, entry_is e a b c d /\ inner_ip a b c d = true.

Lemma first_global_skip pre rest : Forall inner_entry pre -> first_global ipv6 (pre ++ rest) = first_global ipv6 rest.
Proof.
  induction 1 as [|e pre (a & b & c & d & (Ha & Hb & Hc & Hd & He) & Hi) _ IH]; [done|]. cbn [app first_global].
  rewrite He, IsInnerIp_ip by done. cbn [outcome_bind]. by rewrite Hi.
Qed.

Lemma first_global_stop e rest a b c d : entry_is e a b c d -> inner_ip a b c d = false ->
  first_global ipv6 (e :: rest) = Ret (ip_string a b c d).
Proof.
  intros (Ha & Hb & Hc & Hd & He) Hi. cbn [first_global]. rewrite He, IsInnerIp_ip by done. cbn [outcome_bind]. by rewrite Hi.
Qed.

(** An IPv6 address has too few dots for [InetAton]. *)
Lemma first_global_ipv6 e rest : CheckIp ipv6 (TrimSpace e) = true -> no_char dot (TrimSpace e) ->
  first_global ipv6 (e :: rest) = Panic out_of_range.
Proof.
  intros Hc Hd. cbn [first_global]. unfold IsInnerIp. rewrite Hc. unfold InetAton.
  rewrite <- (str_app_nil_r (TrimSpace e)), split_on_piece by done. done.
Qed.
End RealIP.

Lemma ip_string_nonempty a b c d : octet a -> ip_string a b c d <> "".
Proof. intros Ha. octets. unfold ip_string. cbn [fmap list_fmap String.concat]. by destruct (FormatInt a). Qed.

(** ** Properties *)

(** [IsInnerIp] of the gate and [isPrivateIP] of the address a server advertises
    draw the same line on IPv4, loopback apart, which only the first counts; and
    [InetNtoa] undoes [InetAton]. *)
Lemma private_addresses_agree (ipv6 : string -> bool) (a b c d : Z)
  (Ha : octet a) (Hb : octet b) (Hc : octet c) (Hd : octet d) :
  IsInnerIp ipv6 (ip_string a b c d) = Ret (isPrivateIP a b c d || (a =? 127)) /\
  exists n, InetAton (ip_string a b c d) = Ret n /\ InetNtoa n = (a, b, c, d).
Proof.
  split; [by apply IsInnerIp_ip|]. exists (ip_sum a b c d). split; [by apply InetAton_ip | by apply InetNtoa_Aton].
Qed.

Lemma private_addresses_agree_witness :
  IsInnerIp (fun _ => false) (ip_string 172 31 0 1) = Ret (isPrivateIP 172 31 0 1 || (172 =? 127)) /\
  exists n, InetAton (ip_string 172 31 0 1) = Ret n /\ InetNtoa n = (172, 31, 0, 1).
Proof. apply (private_addresses_agree (fun _ => false) 172 31 0 1); unfold octet; lia. Defined.

(** The address reported for a client that connects over IPv4: its own when it is
    public, whatever the header says; behind a private address, the first entry of
    X-Forwarded-For that is not private, or its own if there is no header or only
    private entries.  An IPv6 entry before that ends the request in a panic. *)
Lemma real_ip_of_client (ipv6 : string -> bool) (a b c d : Z) (port : string) (pre rest : list string) (e : string)
  (Ha : octet a) (Hb : octet b) (Hc : octet c) (Hd : octet d)
  (Hpre : Forall inner_entry pre) (Hcomma : Forall (no_char comma) (pre ++ e :: rest)) :
  let remote := (ip_string a b c d ++ String colon port)%string in
  let header := String.concat "," (pre ++ e :: rest) in
  (inner_ip a b c d = false -> forall h, RealIP ipv6 remote h = Ret (ip_string a b c d)) /\
  (inner_ip a b c d = true ->
     RealIP ipv6 remote "" = Ret (ip_string a b c d) /\
     (pre <> [] -> RealIP ipv6 remote (String.concat "," pre) = Ret (ip_string a b c d)) /\
     (forall p q r s, entry_is e p q r s -> inner_ip p q r s = false -> RealIP ipv6 remote header = Ret (ip_string p q r s)) /\
     (e <> "" -> CheckIp ipv6 (TrimSpace e) = true -> no_char dot (TrimSpace e) -> is_panic (RealIP ipv6 remote header) = true)).
Proof.
  intros remote header. unfold RealIP, remote. clear remote. rewrite host_part_ip, IsInnerIp_ip by done. cbn [outcome_bind].
  assert (Hsplit : forall l, l <> [] -> Forall (no_char comma) l -> split_on comma (String.concat "," l) "" = l).
  { intros [|x l] Hne Hl; [done|]. apply (split_on_concat comma l x "" Hl). }
  assert (Hhead : forall l, (exists x, x ∈ l /\ x <> "") -> String.concat "," l <> "").
  { intros l (x & Hx & Hne). destruct l as [|y l]; [by apply not_elem_of_nil in Hx|]. destruct l as [|z l].
    - apply list_elem_of_singleton in Hx as ->. done.
    - rewrite str_concat_cons by done. by destruct y. }
  assert (Hraw : forall x, inner_entry x -> x <> "").
  { intros x (p & q & r & s & (Hp & _ & _ & _ & Hx) & _) ->. symmetry in Hx. by apply (ip_string_nonempty p q r s) in Hx. }
  assert (Hcp : Forall (no_char comma) pre) by (by apply Forall_app in Hcomma as [? _]).
  assert (Hnil : pre ++ e :: rest <> []) by (intros E%app_nil; by destruct E).
  split; [by intros -> h|]. intros Hi. rewrite Hi. cbn [negb]. split; [done|]. split; [|split].
  - intros Hne. assert (Hg : GetGlobalIPFromXforwardedFor ipv6 (String.concat "," pre) = Ret "").
    { unfold GetGlobalIPFromXforwardedFor. rewrite Hsplit by done. rewrite <- (app_nil_r pre).
      by rewrite first_global_skip. }
    assert (Hn : String.concat "," pre <> "").
    { apply Hhead. destruct pre as [|x pre]; [done|]. exists x. split; [left|]. apply Hraw. by apply Forall_cons in Hpre as [? _]. }
    unfold from_header. rewrite !decide_False, Hg by done. cbn [outcome_bind]. by rewrite !decide_True.
  - intros p q r s He Hni. pose proof He as (Hp & _ & _ & _ & Ht).
    assert (Hn : header <> "").
    { apply Hhead. exists e. split; [apply elem_of_app; right; left|]. intros ->. symmetry in Ht. by apply (ip_string_nonempty p q r s) in Ht. }
    unfold from_header. rewrite decide_False by done. unfold GetGlobalIPFromXforwardedFor, header.
    rewrite Hsplit, first_global_skip, (first_global_stop ipv6 e rest p q r s) by done.
    cbn [outcome_bind]. rewrite decide_False by (by apply ip_string_nonempty). done.
  - intros Hne Hc6 Hd6. assert (Hn : header <> "") by (apply Hhead; exists e; split; [apply elem_of_app; right; left | done]).
    unfold from_header. rewrite decide_False by done. unfold GetGlobalIPFromXforwardedFor, header.
    rewrite Hsplit, first_global_skip, first_global_ipv6 by done. done.
Qed.

Lemma real_ip_of_client_witness :
  (inner_ip 10 0 0 1 = true ->
     RealIP (fun _ => true) (ip_string 10 0 0 1 ++ ":80")%string "" = Ret (ip_string 10 0 0 1) /\
     ([" 192.168.1.1"] <> [] -> RealIP (fun _ => true) (ip_string 10 0 0 1 ++ ":80")%string " 192.168.1.1" = Ret (ip_string 10 0 0 1)) /\
     (forall p q r s, entry_is "8.8.8.8 " p q r s -> inner_ip p q r s = false ->
        RealIP (fun _ => true) (ip_string 10 0 0 1 ++ ":80")%string " 192.168.1.1,8.8.8.8 ,::1" = Ret (ip_string p q r s)) /\
     ("8.8.8.8 " <> "" -> CheckIp (fun _ => true) (TrimSpace "8.8.8.8 ") = true -> no_char dot (TrimSpace "8.8.8.8 ") ->
        is_panic (RealIP (fun _ => true) (ip_string 10 0 0 1 ++ ":80")%string " 192.168.1.1,8.8.8.8 ,::1") = true)) /\
  entry_is "8.8.8.8 " 8 8 8 8.
Proof.
  split.
  - apply (real_ip_of_client (fun _ => true) 10 0 0 1 "80" [" 192.168.1.1"] ["::1"] "8.8.8.8 "); try (unfold octet; lia).
    + constructor; [|constructor]. exists 192, 168, 1, 1. unfold entry_is, octet. split; [|reflexivity].
      split_and!; try lia. vm_compute; reflexivity.
    + repeat constructor; discriminate.
  - unfold entry_is, octet. split_and!; try lia. vm_compute; reflexivity.
Defined.

(** A client that reaches the server over IPv6 is reported as a bracket. *)
Lemma ipv6_client_is_bracket ipv6 rest h : RealIP ipv6 (String "["%char (String colon rest)) h = Ret "[".
Proof. reflexivity. Qed.

(** With only an IPv6 entry behind a private address the handshake panics. *)
Lemma ipv6_forwarded_panics ipv6 : ipv6 "2001:db8::1" = true ->
  is_panic (ws_Handshake ipv6 false "10.0.0.1:80" "2001:db8::1" "/" "mqtt") = true.
Proof.
  intros H. unfold ws_Handshake, RealIP, from_header, GetGlobalIPFromXforwardedFor, first_global, IsInnerIp, CheckIp.
  change (TrimSpace (hd "" (split_on comma "2001:db8::1" ""))) with "2001:db8::1".
  vm_compute in H |- *. rewrite H. reflexivity.
Qed.
