(* ===== verification/RegistryContract.v ===== *)
(** * The contract of a registry

    [registry.Registry] ([registry/registry.go]) as services see it: a directory of
    instances.  [RegistryContract] says what an implementation promises of [Register]
    and [Deregister] when the directory also changes by itself; consul
    ([registry/consul_registry.go]) and etcd ([registry/etcdv3/etcdv3.go]) are its two
    implementations, over agents that keep documented laws.  [etcd_registry] makes a
    [RegistryOps] of the etcd registry; consul's is in [Server].

    [life_step] is what happens to a running service: a tick of its loop, or a change of
    the directory that is not its doing. *)
From S2P Require Import Prelude Registry Consul Etcd Server.
#[local] Open Scope mq_scope.
#[local] Open Scope string_scope.
#[local] Open Scope list_scope.
#[local] Open Scope Z_scope.

(** [inplay]: the services that are registered at all, each of one node; [ok]: the
    registry's own state agrees with the directory; [known]: the directory lists an
    instance of a service; [env]: the directory changes by itself. *)
Class RegistryContract (W : Type) `{RegistryOps W} (inplay : Service -> Prop) (ok : W -> Prop)
    (known : W -> string -> string -> Prop) (env : W -> W -> Prop) : Prop := {
  rc_env w w' : ok w -> env w w' -> ok w';
  rc_register ttl s node w w' err : inplay s -> Nodes s = [node] -> ok w -> reg_Register ttl s w = (w', err) ->
    ok w' /\ (err = None -> known w' (Name s) (InstanceID node)) /\
    forall s2 node2, inplay s2 -> Nodes s2 = [node2] -> InstanceID node2 <> InstanceID node ->
      known w' (Name s2) (InstanceID node2) <-> known w (Name s2) (InstanceID node2);
  rc_deregister s s' node node' w w' err : inplay s -> Nodes s = [node] -> Name s' = Name s -> Version s' = Version s ->
    Nodes s' = [node'] -> InstanceID node' = InstanceID node -> ok w -> reg_Deregister s' w = (w', err) ->
    ok w' /\ (err = None -> ~ known w' (Name s) (InstanceID node)) /\
    forall s2 node2, inplay s2 -> Nodes s2 = [node2] -> InstanceID node2 <> InstanceID node ->
      known w' (Name s2) (InstanceID node2) <-> known w (Name s2) (InstanceID node2) }.

(** ** The life of a service *)

Section Life.
Context {W : Type} `{RegistryOps W} (ifaces : result string (list ip_addr)) (env : W -> W -> Prop).

Inductive life_step : service W * W -> service W * W -> Prop :=
| life_tick v w : life_step (v, w) (tick ifaces v w)
| life_env v w w' : env w w' -> life_step (v, w) (v, w').
End Life.

(** ** Consul *)

(** The services of consul's agent, by id: a call that succeeds does what it says, one
    that fails may still have done it; a service's check can only be passed while the
    service is registered. *)
Class ConsulLaws (A : Type) (agent : consul_call -> A -> A * option string) := {
  cs_services : A -> gset string;
  law_ServiceRegister r a :
    cs_services (agent (Consul.ServiceRegister r) a).1 = {[ as_ID (asr_service r) ]} ∪ cs_services a \/
    ((agent (Consul.ServiceRegister r) a).2 <> None /\ cs_services (agent (Consul.ServiceRegister r) a).1 = cs_services a);
  law_ServiceDeregister i a :
    cs_services (agent (Consul.ServiceDeregister i) a).1 = cs_services a ∖ {[ i ]} \/
    ((agent (Consul.ServiceDeregister i) a).2 <> None /\ cs_services (agent (Consul.ServiceDeregister i) a).1 = cs_services a);
  law_PassTTL c a : cs_services (agent (PassTTL c) a).1 = cs_services a;
  law_PassTTL_ok i a : (agent (PassTTL (service_check i)) a).2 = None -> i ∈ cs_services a }.

Definition consul_known {A : Type} {agent : consul_call -> A -> A * option string} `{!ConsulLaws A agent}
    (w : consul_world A) (name i : string) : Prop := i ∈ cs_services (cw_agent w).

(** Consul may change its services at any time: other agents register, failing
    checks remove. *)
Definition consul_env {A : Type} (w w' : consul_world A) : Prop := cw_registry w' = cw_registry w.

(** ** Etcd *)

Record etcd_world (W : Type) := mkEtcdWorld { ew_registry : etcdv3Registry; ew_client : W }.
Arguments mkEtcdWorld {W}.
Arguments ew_registry {W}.
Arguments ew_client {W}.

Definition etcd_registry {W : Type} `{EtcdOps W} (json_marshal : Service -> string) (hash : Service -> result string Z) :
    RegistryOps (etcd_world W) := {|
  reg_Register ttl s w :=
    let '(e, a, err) := Register json_marshal hash ttl s (ew_registry w) (ew_client w) in (mkEtcdWorld e a, err);
  reg_Deregister s w :=
    let '(e, a, err) := Deregister s (ew_registry w) (ew_client w) in (mkEtcdWorld e a, err);
  reg_String := "etcdv3" |}.

(** Leases: a key is attached to the lease it was put with, if any; a lease's id is not
    granted twice, and a lease that has ended stays so; [KeepAliveOnce] finds a lease
    exactly while it is alive. *)
Class EtcdLeases (W : Type) := {
  et_attached : W -> string -> option Z;
  et_granted : W -> Z -> Prop;
  et_alive : W -> Z -> Prop }.

Definition leases_go_on {W : Type} `{EtcdLeases W} (w w' : W) : Prop :=
  forall i, et_granted w i -> et_granted w' i /\ (et_alive w' i -> et_alive w i).

Class EtcdLeaseLaws (W : Type) `{EtcdLaws W} `{EtcdLeases W} := {
  law_Put_ok k v l w : (et_Put k v l w).2 = None -> et_attached (et_Put k v l w).1 k = l;
  law_Put_other k v l w k' : k' <> k -> et_attached (et_Put k v l w).1 k' = et_attached w k';
  law_Put_leases k v l w : leases_go_on w (et_Put k v l w).1;
  law_Delete_other k w k' : k' <> k -> et_attached (et_Delete k w).1 k' = et_attached w k';
  law_Delete_leases k w : leases_go_on w (et_Delete k w).1;
  law_Grant_attached t w k : et_attached (et_Grant t w).1 k = et_attached w k;
  law_Grant_leases t w : leases_go_on w (et_Grant t w).1;
  law_Grant_ok t w i : (et_Grant t w).2 = Ok i -> et_granted (et_Grant t w).1 i;
  law_KeepAlive_attached i w k : et_attached (et_KeepAliveOnce i w).1 k = et_attached w k;
  law_KeepAlive_leases i w : leases_go_on w (et_KeepAliveOnce i w).1;
  law_KeepAlive_found i w : (et_KeepAliveOnce i w).2 = None -> et_alive w i;
  law_KeepAlive_lost i w : (et_KeepAliveOnce i w).2 = Some ErrLeaseNotFound -> ~ et_alive (et_KeepAliveOnce i w).1 i }.

Definition etcd_known {W : Type} `{EtcdLaws W} (w : etcd_world W) (name i : string) : Prop :=
  is_Some (et_kv (ew_client w) !! nodePath name i).

(** By itself a key only goes when the lease it is attached to ends, and it stays
    attached until then. *)
Definition etcd_env {W : Type} `{EtcdLaws W} `{EtcdLeases W} (w w' : etcd_world W) : Prop :=
  ew_registry w' = ew_registry w /\ leases_go_on (ew_client w) (ew_client w') /\
  forall k, is_Some (et_kv (ew_client w) !! k) ->
    is_Some (et_kv (ew_client w') !! k) /\ et_attached (ew_client w') k = et_attached (ew_client w) k \/
    exists i, et_attached (ew_client w) k = Some i /\ ~ et_alive (ew_client w') i.

(** The claim behind an entry of the registry: the service is stored, under no lease or
    the one that is renewed, or that lease is over. *)
Definition stored_or_over {W : Type} `{EtcdLaws W} `{EtcdLeases W} (k : string) (lease : option Z) (w : W) : Prop :=
  is_Some (et_kv w !! k) /\ (et_attached w k = None \/ et_attached w k = lease) \/
  exists i, lease = Some i /\ ~ et_alive w i.

Definition key_of (s : Service) (node : Node) : string := nodePath (Name s) (InstanceID node).

Definition etcd_ok {W : Type} `{EtcdLaws W} `{EtcdLeases W} (hash : Service -> result string Z) (inplay : Service -> Prop)
    (w : etcd_world W) : Prop :=
  (forall name i, e_leases (ew_registry w) !! name = Some i -> et_granted (ew_client w) i) /\
  forall s node h, inplay s -> Nodes s = [node] -> hash s = Ok h -> e_register (ew_registry w) !! Name s = Some h ->
    stored_or_over (key_of s node) (e_leases (ew_registry w) !! Name s) (ew_client w).
