(* ===== verification/RegistryContractTheorems.v ===== *)
(** * Theorems on the contract of a registry

    Consul and etcd keep it, and what a service announced through any registry that
    keeps it can rely on, from [Start] to [Stop]. *)
From S2P Require Import Prelude Registry Consul Etcd EtcdTheorems Server Modules ServerTheorems RegistryContract.
#[local] Open Scope mq_scope.
#[local] Open Scope string_scope.
#[local] Open Scope list_scope.
#[local] Open Scope Z_scope.

(** ** Consul *)

Section Consul.
Context {A : Type} (agent : consul_call -> A -> A * option string) `{!ConsulLaws A agent}
        (zlib_deflate : bytes -> bytes) (marshal_endpoint : Endpoint -> option bytes) (marshal_kv : string -> string -> option bytes)
        (hash : Service -> result string Z) (range_map : option (gmap string string) -> list (string * string)).

(** What a call did to an instance, and that it did nothing to others. *)
Definition lists_after (i : string) (a a' : A) (err : option string) : Prop :=
  (err = None -> i ∈ cs_services a') /\ forall j, j <> i -> j ∈ cs_services a' <-> j ∈ cs_services a.

Lemma full_register_lists ttl h s node c a :
  let r := full_register zlib_deflate marshal_endpoint marshal_kv agent range_map ttl h s node c a in
  lists_after (InstanceID node) a r.1.2 r.2.
Proof.
  unfold full_register, lists_after. set (reg := registration _ _ _ _ _ _ _ _).
  pose proof (law_ServiceRegister reg a) as Hr. change (as_ID (asr_service reg)) with (InstanceID node) in Hr.
  destruct (agent (Consul.ServiceRegister reg) a) as [a1 [e|]]; cbn [fst snd] in *.
  - split; [done|]. intros j Hj. destruct Hr as [->|[_ ->]]; [set_solver | done].
  - assert (Hin : cs_services a1 = {[InstanceID node]} ∪ cs_services a) by (by destruct Hr as [?|[? _]]). clear Hr.
    destruct (ttl =? 0); cbn [fst snd]; [rewrite Hin; set_solver|].
    pose proof (law_PassTTL (service_check (InstanceID node)) a1) as Hp. destruct (agent (PassTTL _) a1) as [a2 err]. cbn [fst snd] in *.
    rewrite Hp, Hin. set_solver.
Qed.

Lemma Register_lists ttl s node nodes c a : Nodes s = node :: nodes ->
  let r := Consul.Register zlib_deflate marshal_endpoint marshal_kv agent hash range_map ttl s c a in
  lists_after (InstanceID node) a r.1.2 r.2.
Proof.
  intros Hn. unfold Consul.Register. rewrite Hn. destruct (hash s) as [h|e]; [|by split].
  destruct (bool_decide _); [|apply full_register_lists].
  pose proof (law_PassTTL (service_check (InstanceID node)) a) as Hp.
  pose proof (law_PassTTL_ok (InstanceID node) a) as Hok. destruct (agent (PassTTL _) a) as [a1 [e|]]; cbn [fst snd] in *.
  - pose proof (full_register_lists ttl h s node c a1) as Hf. cbv zeta in Hf. unfold lists_after in *. by rewrite Hp in Hf.
  - unfold lists_after. rewrite Hp. auto.
Qed.

Lemma consul_contract :
  RegistryContract (consul_world A) (H := consul_registry zlib_deflate marshal_endpoint marshal_kv agent hash range_map)
    (fun _ => True) (fun _ => True) consul_known consul_env.
Proof.
  split; [done|..].
  - intros ttl s node w w' err _ Hn _ Hr. cbn [reg_Register consul_registry] in Hr.
    pose proof (Register_lists ttl s node [] (cw_registry w) (cw_agent w) Hn) as [Hk Hf].
    destruct (Consul.Register _ _ _ _ _ _ _ _ _ _) as [[c a] e]. injection Hr as <- <-. cbn [fst snd] in *.
    split; [done|]. split; [exact Hk|]. intros s2 node2 _ _ Hne. by apply Hf.
  - intros s s' node node' w w' err _ Hn _ _ Hn' Hi _ Hr. cbn [reg_Deregister consul_registry] in Hr.
    unfold Consul.Deregister in Hr. rewrite Hn' in Hr.
    pose proof (law_ServiceDeregister (InstanceID node') (cw_agent w)) as Hd. rewrite Hi in *.
    destruct (agent (Consul.ServiceDeregister (InstanceID node)) (cw_agent w)) as [a e]. cbn [fst snd] in *. injection Hr as <- <-.
    unfold consul_known. cbn [cw_agent]. split; [done|]. split; [intros ->; destruct Hd as [->|[? _]]; [set_solver | done]|].
    intros s2 node2 _ _ Hne. destruct Hd as [->|[_ ->]]; [set_solver | done].
Qed.
End Consul.

(** ** Etcd *)

Lemma dashed_id s : no_char slash_char s -> dashed s = s.
Proof. induction s as [|c s IH]; [done|]. intros [Hc Hs]. cbn. by rewrite decide_False, IH. Qed.

(** Keys of instances whose ids have no slash differ when the ids do. *)
Lemma nodePath_inj s s' i i' : EtcdTheorems.plain s -> EtcdTheorems.plain i -> EtcdTheorems.plain s' -> EtcdTheorems.plain i' -> no_char slash_char i -> no_char slash_char i' ->
  nodePath s i = nodePath s' i' -> i = i'.
Proof.
  intros Hs Hi Hs' Hi' Hn Hn'. unfold nodePath. change [prefix; dashed s; dashed i] with (prefix :: (dashed <$> [s; i])).
  change [prefix; dashed s'; dashed i'] with (prefix :: (dashed <$> [s'; i'])). rewrite !path_Join_plain by auto.
  assert (Hsp : forall a b, split_on slash_char (String.concat "/" (prefix :: (dashed <$> [a; b]))) "" = [""; "mqant-registry"; dashed a; dashed b]).
  { intros a b. change (String.concat "/" (prefix :: (dashed <$> [a; b]))) with (String.concat "/" (["" ; "mqant-registry"] ++ (dashed <$> [a; b]))).
    apply (split_on_concat slash_char ["mqant-registry"; dashed a; dashed b] "" ""). repeat constructor; try done; apply dashed_no_slash. }
  intros E. apply (f_equal (fun x => split_on slash_char x "")) in E. rewrite !Hsp in E. injection E as _ E.
  by rewrite !dashed_id in E.
Qed.

Lemma leases_refl {W} `{EtcdLeases W} (w : W) : leases_go_on w w.
Proof. by intros i. Qed.

Lemma leases_trans {W} `{EtcdLeases W} (w w' w'' : W) : leases_go_on w w' -> leases_go_on w' w'' -> leases_go_on w w''.
Proof. intros H1 H2 i Hi. destruct (H1 i Hi) as [Hi' Ha]. destruct (H2 i Hi') as [Hi'' Ha']. auto. Qed.

Section Etcd.
Context {W : Type} `{EtcdLeaseLaws W} (json_marshal : Service -> string) (hash : Service -> result string Z) (inplay : Service -> Prop).

Context (Hnames : forall s node, inplay s -> Nodes s = [node] -> EtcdTheorems.plain (Name s) /\ EtcdTheorems.plain (InstanceID node) /\ no_char slash_char (InstanceID node))
        (Hinst : forall s1 s2 n1 n2, inplay s1 -> inplay s2 -> Nodes s1 = [n1] -> Nodes s2 = [n2] -> InstanceID n1 = InstanceID n2 -> s1 = s2)
        (Hhash : forall s1 s2 h, inplay s1 -> inplay s2 -> hash s1 = Ok h -> hash s2 = Ok h -> s1 = s2).

Abbreviation ok := (fun e w => etcd_ok hash inplay (mkEtcdWorld e w)).

(** Another state of the client in which a key, and the leases, are as good. *)
Definition as_good (k : string) (w w' : W) : Prop :=
  leases_go_on w w' /\ et_kv w' !! k = et_kv w !! k /\ et_attached w' k = et_attached w k.

Lemma as_good_claim k lease w w' : as_good k w w' -> (forall i, lease = Some i -> et_granted w i) ->
  stored_or_over k lease w -> stored_or_over k lease w'.
Proof.
  intros (Hl & Hk & Ha) Hg [[Hs Hat]|(i & -> & Hd)].
  - left. by rewrite Hk, Ha.
  - right. exists i. split; [done|]. intros Hal. apply Hd. by apply (Hl i); [apply Hg|].
Qed.

Lemma as_good_ok e w w' : ok e w -> (forall k, as_good k w w') -> ok e w'.
Proof.
  intros [Hg Hc] Hgood. split; cbn in *.
  - intros name i Hi. destruct (Hgood "") as [Hl _]. by apply (Hl i), (Hg name).
  - intros s node h Hp Hn Hh Hr. eapply as_good_claim; [apply Hgood | by apply Hg | by eapply Hc].
Qed.

Lemma KeepAlive_good l w k : as_good k w (et_KeepAliveOnce l w).1.
Proof. split; [apply law_KeepAlive_leases|]. by rewrite law_KeepAlive, law_KeepAlive_attached. Qed.

Lemma Grant_good t w k : as_good k w (et_Grant t w).1.
Proof. split; [apply law_Grant_leases|]. by rewrite law_Grant, law_Grant_attached. Qed.

Lemma Put_good k' v l w k : k <> k' -> as_good k w (et_Put k' v l w).1.
Proof.
  intros Hk. split; [apply law_Put_leases|]. split; [|by apply law_Put_other].
  destruct (law_Put k' v l w) as [->|[_ ->]]; [by rewrite lookup_insert_ne | done].
Qed.

Lemma Delete_good k' w k : k <> k' -> as_good k w (et_Delete k' w).1.
Proof.
  intros Hk. split; [apply law_Delete_leases|]. split; [|by apply law_Delete_other].
  destruct (law_Delete k' w) as [->|[_ ->]]; [by rewrite lookup_delete_ne | done].
Qed.

Lemma key_ne s1 s2 n1 n2 : inplay s1 -> inplay s2 -> Nodes s1 = [n1] -> Nodes s2 = [n2] ->
  InstanceID n1 <> InstanceID n2 -> key_of s1 n1 <> key_of s2 n2.
Proof.
  intros Q1 Q2 Hn1 Hn2 Hne E. apply Hne. destruct (Hnames _ _ Q1 Hn1) as (?&?&?), (Hnames _ _ Q2 Hn2) as (?&?&?).
  by eapply nodePath_inj; [..|exact E].
Qed.

Lemma other_instance s1 s2 n1 n2 : inplay s1 -> inplay s2 -> Nodes s1 = [n1] -> Nodes s2 = [n2] ->
  s1 <> s2 -> key_of s1 n1 <> key_of s2 n2.
Proof. intros Q1 Q2 Hn1 Hn2 Hne. apply key_ne; try done. intros E. apply Hne. by eapply Hinst. Qed.

(** The state after the put of a service's node: its own claim is void or the lease it
    was under is over, or the put succeeded and is recorded. *)
Lemma put_failed s node h e v l w : inplay s -> Nodes s = [node] -> hash s = Ok h -> ok e w ->
  (e_register e !! Name s = Some h -> exists i, e_leases e !! Name s = Some i /\ ~ et_alive w i) ->
  ok e (et_Put (key_of s node) v l w).1.
Proof.
  intros Hp Hn Hh [Hg Hc] Hown. pose proof (law_Put_leases (key_of s node) v l w) as Hl. split; cbn in *.
  - intros name i Hi. by apply (Hl i), (Hg name).
  - intros s3 n3 h3 Hp3 Hn3 Hh3 Hr3. destruct (decide (InstanceID n3 = InstanceID node)) as [E|E].
    + assert (s3 = s) as -> by (by eapply Hinst). rewrite Hh in Hh3. injection Hh3 as <-.
      destruct (Hown Hr3) as (i & Hi & Hd). right. exists i. split; [done|]. intros Ha. apply Hd. by apply (Hl i); [eapply Hg|].
    + eapply as_good_claim; [apply Put_good; by apply key_ne | by apply Hg | by eapply Hc].
Qed.

Lemma put_recorded s node h e v l w w' : inplay s -> Nodes s = [node] -> hash s = Ok h -> ok e w ->
  (forall i, l = Some i -> et_granted w i) -> et_Put (key_of s node) v l w = (w', None) ->
  ok (e <| e_register := <[Name s := h]> (e_register e) |>
        <| e_leases := match l with Some id => <[Name s := id]> (e_leases e) | None => e_leases e end |>) w'
  /\ is_Some (et_kv w' !! key_of s node).
Proof.
  intros Hp Hn Hh [Hg Hc] Hgl Hput.
  pose proof (law_Put_leases (key_of s node) v l w) as Hl. pose proof (law_Put_ok (key_of s node) v l w) as Hat.
  pose proof (law_Put (key_of s node) v l w) as Hkv. assert (Hgood : forall k, k <> key_of s node -> as_good k w w')
    by (intros k Hk; pose proof (Put_good (key_of s node) v l w k Hk) as Hx; by rewrite Hput in Hx).
  rewrite Hput in Hl, Hat, Hkv. cbn [fst snd] in *. specialize (Hat eq_refl). destruct Hkv as [Hkv|[? _]]; [|done].
  assert (Hpres : is_Some (et_kv w' !! key_of s node)) by (rewrite Hkv, lookup_insert_eq; done). split; [|done]. split; cbn in *.
  - intros name i Hi. assert (et_granted w i) as Hgi; [|by apply (Hl i)].
    destruct l as [id|]; [|by apply (Hg name)]. destruct (decide (name = Name s)) as [->|Hne].
    + rewrite lookup_insert_eq in Hi. injection Hi as ->. by apply Hgl.
    + rewrite lookup_insert_ne in Hi by done. by apply (Hg name).
  - intros s3 n3 h3 Hp3 Hn3 Hh3 Hr3. destruct (decide (Name s3 = Name s)) as [E|E].
    + rewrite E, lookup_insert_eq in Hr3. injection Hr3 as ->. assert (s3 = s) as -> by (by eapply Hhash).
      rewrite Hn in Hn3. injection Hn3 as <-. left. split; [done|]. destruct l as [id|]; [right | by left].
      by rewrite lookup_insert_eq.
    + rewrite lookup_insert_ne in Hr3 by done. assert (s3 <> s) by (intros ->; done).
      assert (match l with Some id => <[Name s:=id]> (e_leases e) | None => e_leases e end !! Name s3 = e_leases e !! Name s3) as ->
        by (destruct l; [by rewrite lookup_insert_ne | done]).
      eapply as_good_claim; [apply Hgood; by apply other_instance | by apply Hg | by eapply Hc].
Qed.

(** The part of [Register] after the lease was refreshed: [lost] says that it was not
    found. *)
Lemma register_nodes_contract ttl lost s node e w : inplay s -> Nodes s = [node] -> ok e w ->
  (if (lost : bool) then exists i, e_leases e !! Name s = Some i /\ ~ et_alive w i
   else forall h, hash s = Ok h -> e_register e !! Name s = Some h -> is_Some (et_kv w !! key_of s node)) ->
  let r := register_nodes json_marshal hash ttl lost s e w in
  ok r.1.1 r.1.2 /\ (r.2 = None -> is_Some (et_kv r.1.2 !! key_of s node)) /\
  forall k, k <> key_of s node -> et_kv r.1.2 !! k = et_kv w !! k.
Proof.
  intros Hp Hn Hok Hlost. unfold register_nodes. destruct (hash s) as [h|er] eqn:Eh; [|done].
  destruct (bool_decide _ && _) eqn:Eb.
  { apply andb_true_iff in Eb as [Eb%bool_decide_eq_true Ef]. destruct lost; [done|]. cbn. by eauto. }
  assert (Hclaim : e_register e !! Name s = Some h -> exists i, e_leases e !! Name s = Some i /\ ~ et_alive w i).
  { intros Hr. destruct lost; [done|]. rewrite bool_decide_eq_true_2 in Eb by done. done. }
  assert (Hgrant : exists w1 res, grant ttl w = (w1, res) /\ ok e w1 /\ et_kv w1 = et_kv w /\
    (e_register e !! Name s = Some h -> exists i, e_leases e !! Name s = Some i /\ ~ et_alive w1 i) /\
    match res with Ok (Some i) => et_granted w1 i | _ => True end).
  { unfold grant. destruct (0 <? ttl); [|by eexists _, _].
    set (t := Z.quot ttl nanoseconds). pose proof (as_good_ok e w _ Hok (Grant_good t w)) as Hok1.
    pose proof (law_Grant t w) as Hkv. pose proof (law_Grant_ok t w) as Hgi. pose proof (law_Grant_leases t w) as Hl.
    destruct (et_Grant t w) as [w1 res]. cbn [fst snd] in *.
    assert (Hc1 : e_register e !! Name s = Some h -> exists i, e_leases e !! Name s = Some i /\ ~ et_alive w1 i).
    { intros Hr. destruct (Hclaim Hr) as (i & Hi & Hd). exists i. split; [done|]. intros Ha. apply Hd. apply (Hl i); [|done].
      by apply (proj1 Hok (Name s)). }
    destruct res as [i|er]; [exists w1, (Ok (Some i)) | exists w1, (Err er)]; auto 10. }
  destruct Hgrant as (w1 & res & -> & Hok1 & Hkv1 & Hc1 & Hg1). destruct res as [lease|er]; [|cbn; by rewrite Hkv1].
  rewrite Hn. cbn [put_nodes]. fold (key_of s node).
  pose proof (put_failed s node h e (encode json_marshal (single s node)) lease w1 Hp Hn Eh Hok1 Hc1) as Hfail.
  pose proof (fun k Hk => proj1 (proj2 (Put_good (key_of s node) (encode json_marshal (single s node)) lease w1 k Hk))) as Hframe.
  pose proof (put_recorded s node h e (encode json_marshal (single s node)) lease w1) as Hrec.
  destruct (et_Put (key_of s node) _ lease w1) as [w2 [er|]]; cbn [fst snd] in *.
  - split; [done|]. split; [done|]. intros k Hk. by rewrite Hframe, Hkv1.
  - destruct (Hrec w2 Hp Hn Eh Hok1) as [Hok2 Hin]; [by intros i -> | done|].
    split; [exact Hok2|]. split; [done|]. intros k Hk. by rewrite Hframe, Hkv1.
Qed.

Lemma Register_contract ttl s node e w : inplay s -> Nodes s = [node] -> ok e w ->
  let r := Etcd.Register json_marshal hash ttl s e w in
  ok r.1.1 r.1.2 /\ (r.2 = None -> is_Some (et_kv r.1.2 !! key_of s node)) /\
  forall k, k <> key_of s node -> et_kv r.1.2 !! k = et_kv w !! k.
Proof.
  intros Hp Hn Hok. unfold Etcd.Register. rewrite Hn. destruct (e_leases e !! Name s) as [lid|] eqn:El.
  - pose proof (as_good_ok e w _ Hok (KeepAlive_good lid w)) as Hok1.
    pose proof (law_KeepAlive lid w) as Hkv. pose proof (law_KeepAlive_found lid w) as Hf. pose proof (law_KeepAlive_lost lid w) as Hd.
    destruct (et_KeepAliveOnce lid w) as [w1 [[|er]|]]; cbn [fst snd] in *.
    + destruct (register_nodes_contract ttl true s node e w1 Hp Hn Hok1) as (H1' & H2' & H3'); [by eauto|].
      split; [done|]. split; [done|]. intros k Hk. by rewrite H3', Hkv.
    + split; [done|]. split; [done|]. intros k _. by rewrite Hkv.
    + destruct (register_nodes_contract ttl false s node e w1 Hp Hn Hok1) as (H1' & H2' & H3').
      * intros h Hh Hr. rewrite Hkv. destruct (proj2 Hok s node h Hp Hn Hh Hr) as [[Hs _]|(i & Hi & Hda)]; [done|].
        cbn in Hi. rewrite El in Hi. injection Hi as ->. by destruct (Hda (Hf eq_refl)).
      * split; [done|]. split; [done|]. intros k Hk. by rewrite H3', Hkv.
  - apply register_nodes_contract; [done..|]. intros h Hh Hr.
    destruct (proj2 Hok s node h Hp Hn Hh Hr) as [[Hs _]|(i & Hi & _)]; [done|]. cbn in Hi. congruence.
Qed.

Lemma etcd_contract :
  RegistryContract (etcd_world W) (H := etcd_registry json_marshal hash) inplay (etcd_ok hash inplay) etcd_known etcd_env.
Proof using All.
  split.
  - intros [e w] [e' w'] [Hg Hc] (He & Hl & Hk). cbn in *. subst e'. split; cbn.
    + intros name i Hi. by apply (Hl i), (Hg name).
    + intros s node h Hp Hn Hh Hr. destruct (Hc s node h Hp Hn Hh Hr) as [[Hs Ha]|(i & Hi & Hd)].
      * destruct (Hk _ Hs) as [[Hs' Ha']|(i & Hi & Hd)]; [left; split; [done|]; by rewrite Ha'|].
        right. exists i. split; [|done]. destruct Ha as [Ha|Ha]; congruence.
      * right. exists i. split; [done|]. intros Hal. apply Hd. apply (Hl i); [by apply (Hg (Name s)) | done].
  - intros ttl s node [e w] w' err Hp Hn Hok Hr. cbn [reg_Register etcd_registry ew_registry ew_client] in Hr.
    pose proof (Register_contract ttl s node e w Hp Hn Hok) as (H1' & H2' & H3').
    destruct (Etcd.Register _ _ _ _ _ _) as [[e1 w1] er]. injection Hr as <- <-. cbn [fst snd] in *.
    split; [done|]. split; [exact H2'|]. intros s2 node2 Hp2 Hn2 Hne. unfold etcd_known. cbn.
    change (nodePath (Name s2) (InstanceID node2)) with (key_of s2 node2). by rewrite H3' by (by apply key_ne).
  - intros s s' node node' [e w] w' err Hp Hn HN _ Hn' Hi [Hg Hc] Hr.
    cbn [reg_Deregister etcd_registry ew_registry ew_client] in *. unfold Etcd.Deregister in Hr. rewrite Hn' in Hr. cbn [delete_nodes] in Hr.
    rewrite HN, Hi in Hr. change (nodePath (Name s) (InstanceID node)) with (key_of s node) in Hr.
    pose proof (fun k Hk => Delete_good (key_of s node) w k Hk) as Hgood. pose proof (law_Delete (key_of s node) w) as Hd.
    pose proof (law_Delete_leases (key_of s node) w) as Hl.
    assert (Hall : forall w1 er, et_Delete (key_of s node) w = (w1, er) ->
      etcd_ok hash inplay (mkEtcdWorld (e <| e_register := delete (Name s) (e_register e) |> <| e_leases := delete (Name s) (e_leases e) |>) w1) /\
      (er = None -> ~ etcd_known (mkEtcdWorld e w1) (Name s) (InstanceID node)) /\
      forall s2 node2, inplay s2 -> Nodes s2 = [node2] -> InstanceID node2 <> InstanceID node ->
        etcd_known (mkEtcdWorld e w1) (Name s2) (InstanceID node2) <-> etcd_known (mkEtcdWorld e w) (Name s2) (InstanceID node2)).
    { intros w1 er Ed. rewrite Ed in Hgood, Hd, Hl. cbn [fst snd] in *. split; [split; cbn|split].
      - intros name i Hlk. apply lookup_delete_Some in Hlk as [_ Hlk]. by apply (Hl i), (Hg name).
      - intros s3 n3 h3 Hp3 Hn3 Hh3 Hr3. apply lookup_delete_Some in Hr3 as [Hne Hr3]. rewrite lookup_delete_ne by done.
        eapply as_good_claim; [apply Hgood; apply other_instance; try done; by intros -> | by apply Hg | by eapply Hc].
      - intros ->. unfold etcd_known. cbn. destruct Hd as [->|[? _]]; [|done]. unfold key_of. rewrite lookup_delete_eq. by intros [? ?].
      - intros s2 node2 Hp2 Hn2 Hne. unfold etcd_known. cbn. change (nodePath (Name s2) (InstanceID node2)) with (key_of s2 node2).
        destruct (Hgood (key_of s2 node2)) as (_ & -> & _); [by apply key_ne | done]. }
    destruct (et_Delete (key_of s node) w) as [w1 [er|]]; injection Hr as <- <-; destruct (Hall w1 _ eq_refl) as (Ha & Hb & Hc'); done.
Qed.
End Etcd.

(** ** A service over any registry *)

Section Life.
Context {W : Type} `{HC : RegistryContract W inplay ok known env} (ifaces : result string (list ip_addr)).

(** What a call has done for the instance [i] of service [name], and not to others. *)
Definition others_kept (i : string) (w w' : W) : Prop :=
  forall s2 node2, inplay s2 -> Nodes s2 = [node2] -> InstanceID node2 <> i ->
    known w' (Name s2) (InstanceID node2) <-> known w (Name s2) (InstanceID node2).

Lemma others_refl i w : others_kept i w w.
Proof. by intros s2 node2 _ _ _. Qed.

(** The server announces, from the address it has, a service that is in play. *)
Definition announcer (s : rpcServer) : Prop :=
  exists addr port, announces ifaces s addr port /\ inplay (announced s addr port).

Lemma same_announcer s s' : same_server s s' -> announcer s -> announcer s'.
Proof.
  intros Hs (addr & port & Ha & Hp). exists addr, port. split; [by eapply same_announces|].
  destruct Hs as (Ho & Hi & Hst). unfold announced in *. by rewrite Ho, Hi, Hst.
Qed.

Lemma announced_node s addr port :
  exists node, Nodes (announced s addr port) = [node] /\ InstanceID node = instanceID s.
Proof. eexists. split; reflexivity. Qed.

Lemma ServiceRegister_contract s w s' w' err : announcer s -> ok w -> ServiceRegister ifaces s w = (s', w', err) ->
  ok w' /\ same_server s s' /\ (err = None -> known w' (so_Name (opts s)) (instanceID s)) /\ others_kept (instanceID s) w w'.
Proof.
  intros (addr & port & Ha & Hp) Hok. revert Ha. unfold announces, ServiceRegister.
  destruct (advertised _ _) as [host p]. intros [-> ->] Hr.
  destruct (reg_Register (so_RegisterTTL (opts s)) (announced s addr p) w) as [w1 e] eqn:Er.
  destruct (announced_node s addr p) as (node & Hn & Hi).
  destruct (rc_register _ _ _ _ _ _ Hp Hn Hok Er) as (Hok1 & Hk & Ho). rewrite Hi in *.
  destruct e as [e|]; injection Hr as <- <- <-; split_and!; try done; by apply Hk.
Qed.

Lemma ServiceDeregister_contract s w s' w' err : announcer s -> ok w -> ServiceDeregister ifaces s w = (s', w', err) ->
  ok w' /\ (err = None -> ~ known w' (so_Name (opts s)) (instanceID s)) /\ others_kept (instanceID s) w w'.
Proof.
  intros (addr & port & Ha & Hp) Hok. revert Ha. unfold announces, ServiceDeregister.
  destruct (advertised _ _) as [host p]. intros [-> ->] Hr.
  destruct (reg_Deregister (withdrawn s addr p) w) as [w1 e] eqn:Er.
  destruct (announced_node s addr p) as (node & Hn & Hi).
  destruct (rc_deregister _ (withdrawn s addr p) _ (mkNode 0 "" (instanceID s) addr p None) _ _ _ Hp Hn eq_refl eq_refl eq_refl (eq_sym Hi) Hok Er)
    as (Hok1 & Hk & Ho). rewrite Hi in *.
  destruct e as [e|]; injection Hr as <- <- <-; split_and!; try done; by apply Hk.
Qed.

(** A hook may do what it likes, and fail, but leaves what the directory lists alone. *)
Definition same_listing (w w' : W) : Prop := forall name i, known w' name i <-> known w name i.
Definition harmless (h : hook) : Prop := forall w, ok w -> ok (h w).1 /\ same_listing w (h w).1.
Definition harmless_hooks (v : service W) : Prop :=
  Forall harmless (BeforeStart v) /\ Forall harmless (AfterStart v) /\ Forall harmless (BeforeStop v) /\ Forall harmless (AfterStop v).

Lemma run_hooks_harmless hs : Forall harmless hs -> forall w, ok w -> ok (run_hooks hs w).1 /\ same_listing w (run_hooks hs w).1.
Proof.
  induction 1 as [|h hs Hh _ IH]; intros w Hok; [done|]. cbn. destruct (Hh w Hok) as [Hok1 Hl]. destruct (h w) as [w1 [e|]]; [done|].
  destruct (IH w1 Hok1) as [Hok2 Hl2]. split; [done|]. intros name i. by rewrite (Hl2 name i), (Hl name i).
Qed.

Lemma run_all_hooks_harmless hs : Forall harmless hs ->
  forall w gerr, ok w -> ok (run_all_hooks hs w gerr).1 /\ same_listing w (run_all_hooks hs w gerr).1.
Proof.
  induction 1 as [|h hs Hh _ IH]; intros w gerr Hok; [done|]. cbn. destruct (Hh w Hok) as [Hok1 Hl]. destruct (h w) as [w1 e].
  destruct (IH w1 (match e with Some e => Some e | None => gerr end) Hok1) as [Hok2 Hl2].
  assert (same_listing w (run_all_hooks hs w1 (match e with Some e => Some e | None => gerr end)).1)
    by (intros name i; by rewrite (Hl2 name i), (Hl name i)).
  by destruct e.
Qed.

(** What holds of a running service, whatever has happened since it started. *)
Definition running (s : rpcServer) (vw : service W * W) : Prop :=
  ok vw.2 /\ same_server s (server vw.1) /\ harmless_hooks vw.1.

Lemma life_step_running s vw vw' : announcer s -> running s vw -> life_step ifaces env vw vw' -> running s vw'.
Proof.
  intros Ha (Hok & Hs & Hh) Hst. inversion Hst as [v w E1 E2|v w w' He E1 E2]; subst; cbn in *.
  - unfold tick. destruct (ServiceRegister ifaces (server v) w) as [[s1 w1] err] eqn:Er.
    destruct (ServiceRegister_contract _ _ _ _ _ (same_announcer _ _ Hs Ha) Hok Er) as (Hok1 & Hs1 & _).
    split; [done|]. split; [|done]. destruct Hs as (? & ? & ?), Hs1 as (? & ? & ?). cbn. split_and!; congruence.
  - split; [by eapply rc_env|]. done.
Qed.

Lemma life_running s vw vw' : announcer s -> running s vw -> rtc (life_step ifaces env) vw vw' -> running s vw'.
Proof. intros Ha Hr. induction 1 as [vw|vw vw1 vw' Hst _ IH]; [done|]. apply IH. by eapply life_step_running. Qed.

Lemma Stop_contract s v w v' w' err : announcer s -> running s (v, w) -> service_Stop ifaces v w = (v', w', err) ->
  (err = None -> ~ known w' (so_Name (opts s)) (instanceID s)) /\ others_kept (instanceID s) w w'.
Proof.
  intros Ha (Hok & Hs & (_ & _ & Hb & Haf)) Hst. cbn in *. unfold service_Stop in Hst.
  destruct (run_all_hooks_harmless _ Hb w None Hok) as [Hok0 Hl0]. destruct (run_all_hooks (BeforeStop v) w None) as [w0 gerr]. cbn in Hok0, Hl0.
  destruct (ServiceDeregister ifaces (server v) w0) as [[s1 w1] e] eqn:Ed.
  destruct (ServiceDeregister_contract _ _ _ _ _ (same_announcer _ _ Hs Ha) Hok0 Ed) as (Hok1 & Hk & Ho).
  destruct Hs as (Hos & His & _). rewrite Hos, His in *.
  assert (Ho' : others_kept (instanceID s) w w1) by (intros s2 n2 Hp Hn Hne; by rewrite (Ho s2 n2 Hp Hn Hne), (Hl0 _ _)).
  destruct e as [e|].
  - by injection Hst as <- <- <-.
  - change (AfterStop (with_server (server_Stop (server (with_server s1 v))) (with_server s1 v))) with (AfterStop v) in Hst.
    destruct (run_all_hooks_harmless _ Haf w1 gerr Hok1) as [_ Hl]. destruct (run_all_hooks (AfterStop v) w1 gerr) as [w2 gerr2]. cbn in Hl.
    injection Hst as <- <- <-. split; [intros _; rewrite (Hl _ _); by apply Hk|].
    intros s2 n2 Hp Hn Hne. by rewrite (Hl _ _), (Ho' s2 n2 Hp Hn Hne).
Qed.

(** [Start]: the hooks around a registration. *)
Lemma Start_contract v w v' w' : announcer (server v) -> harmless_hooks v -> ok w -> Start ifaces v w = (v', w', None) ->
  running (server v) (v', w') /\ known w' (so_Name (opts (server v))) (instanceID (server v)).
Proof.
  intros Ha Hh Hok Hst. pose proof Hh as (Hb & Haf & _). unfold Start in Hst.
  destruct (run_hooks_harmless _ Hb w Hok) as [Hok0 _]. destruct (run_hooks (BeforeStart v) w) as [w0 [e|]]; [done|]. cbn in Hok0.
  destruct (ServiceRegister ifaces (server v) w0) as [[s1 w1] e] eqn:Er.
  destruct (ServiceRegister_contract _ _ _ _ _ Ha Hok0 Er) as (Hok1 & Hs1 & Hk1 & _). destruct e as [e|]; [done|].
  change (AfterStart (with_server s1 v)) with (AfterStart v) in Hst.
  destruct (run_hooks_harmless _ Haf w1 Hok1) as [Hok2 Hl]. destruct (run_hooks (AfterStart v) w1) as [w2 e2]. cbn in Hok2, Hl.
  injection Hst as <- <- ->. split; [done|]. rewrite (Hl _ _). by apply Hk1.
Qed.
End Life.

(** ** Properties *)

(** C31. Consul and etcd both keep the contract of a registry: after a successful
    [Register] the instance is listed, also when the directory had lost it; after a
    successful [Deregister] it is not; no call touches another instance.  For etcd this
    needs instance ids that make distinct keys and services whose hashes do not
    collide, and it is where the lease matters: an unchanged service is not stored
    again as long as its lease is found. *)
Theorem registries_keep_contract {A W : Type} (agent : consul_call -> A -> A * option string) `{!ConsulLaws A agent} `{EtcdLeaseLaws W}
  (zlib_deflate : bytes -> bytes) (marshal_endpoint : Endpoint -> option bytes) (marshal_kv : string -> string -> option bytes)
  (range_map : option (gmap string string) -> list (string * string)) (json_marshal : Service -> string)
  (hash : Service -> result string Z) (inplay : Service -> Prop)
  (Hnames : forall s node, inplay s -> Nodes s = [node] -> EtcdTheorems.plain (Name s) /\ EtcdTheorems.plain (InstanceID node) /\ no_char slash_char (InstanceID node))
  (Hinst : forall s1 s2 n1 n2, inplay s1 -> inplay s2 -> Nodes s1 = [n1] -> Nodes s2 = [n2] -> InstanceID n1 = InstanceID n2 -> s1 = s2)
  (Hhash : forall s1 s2 h, inplay s1 -> inplay s2 -> hash s1 = Ok h -> hash s2 = Ok h -> s1 = s2) :
  RegistryContract (consul_world A) (H := consul_registry zlib_deflate marshal_endpoint marshal_kv agent hash range_map)
    (fun _ => True) (fun _ => True) consul_known consul_env /\
  RegistryContract (etcd_world W) (H := etcd_registry json_marshal hash) inplay (etcd_ok hash inplay) etcd_known etcd_env.
Proof. split; [by apply consul_contract | by apply etcd_contract]. Qed.

(** C33. A service with an address to announce, over any registry that keeps the contract, from [Start] on, whatever
    ticks and changes of the directory follow, and whatever its hooks around [Start] and
    [Stop] do or return as long as they leave what the directory lists alone: it is listed
    once [Start] has
    succeeded, and again after every registration of its loop that succeeds; when
    [Stop] succeeds it is not listed any more, and no other instance was affected. *)
Theorem service_listed_through_life {W : Type} `{RegistryContract W inplay ok known env} (ifaces : result string (list ip_addr))
  (v v1 v2 : service W) (w w1 w2 : W)
  (Hh : harmless_hooks (ok := ok) (known := known) v) (Ha : announcer (inplay := inplay) ifaces (server v)) (Hok : ok w)
  (Hst : Start ifaces v w = (v1, w1, None))
  (Hlife : rtc (life_step ifaces env) (v1, w1) (v2, w2)) :
  let name := so_Name (opts (server v)) in
  let i := instanceID (server v) in
  known w1 name i /\
  (forall s3 w3, ServiceRegister ifaces (server v2) w2 = (s3, w3, None) -> known w3 name i) /\
  (forall v3 w3 err, service_Stop ifaces v2 w2 = (v3, w3, err) ->
     (err = None -> ~ known w3 name i) /\ others_kept (inplay := inplay) (known := known) i w2 w3).
Proof.
  intros name i. destruct (Start_contract ifaces _ _ _ _ Ha Hh Hok Hst) as [Hr1 Hk1].
  pose proof (life_running ifaces (server v) (v1, w1) (v2, w2) Ha Hr1 Hlife) as Hrun.
  split; [exact Hk1|]. split.
  - intros s3 w3 Hr. destruct Hrun as (Hok2 & Hs2 & _). cbn in *.
    destruct (ServiceRegister_contract ifaces _ _ _ _ _ (same_announcer ifaces _ _ Hs2 Ha) Hok2 Hr) as (_ & _ & Hk & _).
    destruct Hs2 as (Ho & Hi & _). rewrite Ho, Hi in Hk. by apply Hk.
  - intros v3 w3 err Hs. by eapply Stop_contract.
Qed.

(** ** An etcd in memory, with leases, and a consul *)

Record etcd_memory := mkEtcdMemory { em_kv : gmap string string; em_attached : gmap string Z; em_alive : gset Z; em_next : Z }.

#[export] Instance etcd_memory_ops : EtcdOps etcd_memory := {|
  et_Delete k w := (mkEtcdMemory (delete k (em_kv w)) (delete k (em_attached w)) (em_alive w) (em_next w), None);
  et_Grant t w := (mkEtcdMemory (em_kv w) (em_attached w) ({[ em_next w ]} ∪ em_alive w) (em_next w + 1), Ok (em_next w));
  et_KeepAliveOnce l w := (w, if decide (l ∈ em_alive w) then None else Some ErrLeaseNotFound);
  et_Put k v l w := (mkEtcdMemory (<[k := v]> (em_kv w)) (match l with Some i => <[k := i]> (em_attached w) | None => delete k (em_attached w) end)
                       (em_alive w) (em_next w), None);
  et_Get p w := (w, Ok (filter (fun kv => String.prefix p kv.1 = true) (map_to_list (em_kv w)))) |}.

#[export] Instance etcd_memory_laws : EtcdLaws etcd_memory.
Proof.
  refine {| et_kv := em_kv |}; try done; try (intros; by left).
  intros p w kvs k v [= <-]. rewrite list_elem_of_filter. rewrite (elem_of_map_to_list (em_kv w)). cbn. tauto.
Defined.

#[export] Instance etcd_memory_leases : EtcdLeases etcd_memory := {|
  et_attached w k := em_attached w !! k; et_granted w i := i < em_next w; et_alive w i := i ∈ em_alive w |}.

Lemma etcd_memory_lease_laws : EtcdLeaseLaws etcd_memory.
Proof.
  split; try (intros; done).
  - intros k v l w _. destruct l; cbn; [apply lookup_insert_eq | apply lookup_delete_eq].
  - intros k v l w k' Hk. destruct l; cbn; [by rewrite lookup_insert_ne | by rewrite lookup_delete_ne].
  - intros k w k' Hk. cbn. by rewrite lookup_delete_ne.
  - intros t w i Hi. cbn in *. split; [lia|]. intros [Ha|Ha]%elem_of_union; [|done]. apply elem_of_singleton in Ha. lia.
  - intros t w i [= <-]. cbn. lia.
  - intros i w Hi. cbn in Hi. by destruct (decide (i ∈ em_alive w)).
  - intros i w Hi. cbn in *. by destruct (decide (i ∈ em_alive w)).
Qed.

Definition memory_agent (c : consul_call) (a : gset string) : gset string * option string :=
  match c with
  | Consul.ServiceRegister r => ({[ as_ID (asr_service r) ]} ∪ a, None)
  | Consul.ServiceDeregister i => (a ∖ {[ i ]}, None)
  | PassTTL c => (a, if decide (set_Exists (fun i => service_check i = c) a) then None else Some "unknown check")
  end.

#[export] Instance memory_agent_laws : ConsulLaws (gset string) memory_agent.
Proof.
  refine {| cs_services a := a |}; try (intros; by left); try done.
  intros i a H. cbn in H. destruct (decide _) as [(j & Hj & E)|]; [|done]. unfold service_check in E. apply (inj (String.append "service:")) in E. by subst.
Defined.

Definition life_server : rpcServer :=
  mkRpcServer (mkServerOptions "chat" "1" "1.0" "10.0.0.1:7" "" ∅ 0 (20 * second)) false true "chat@1" "chat@1#u" 5.
(** A hook that notes the start, one that fails at the stop. *)
Definition noting : hook := fun w : etcd_world etcd_memory => (w, None).
Definition failing : hook := fun w : etcd_world etcd_memory => (w, Some "not flushed").
Definition life_service : service (etcd_world etcd_memory) := mkService_ [noting] [noting] [failing] [] 0 life_server.
Definition life_service_announced : Service :=
  announced (H := etcd_registry demo_marshal demo_hash) (W := etcd_world etcd_memory) life_server "10.0.0.1" 7.
Definition life_inplay (s : Service) : Prop := s = life_service_announced.
Definition empty_etcd : etcd_world etcd_memory := mkEtcdWorld no_registry (mkEtcdMemory ∅ ∅ ∅ 1).
Definition life_started := Start (H := etcd_registry demo_marshal demo_hash) (Err "none") life_service empty_etcd.

(** The lease ends and the key goes: the directory's own change. *)
Definition life_lost : etcd_world etcd_memory := mkEtcdWorld (ew_registry life_started.1.2) (mkEtcdMemory ∅ ∅ ∅ 2).

Lemma registries_keep_contract_witness :
  RegistryContract (consul_world (gset string)) (H := consul_registry (fun b => b) (fun _ => None) (fun _ _ => None) memory_agent demo_hash (fun _ => []))
    (fun _ => True) (fun _ => True) consul_known consul_env /\
  RegistryContract (etcd_world etcd_memory) (H := etcd_registry demo_marshal demo_hash) life_inplay (etcd_ok demo_hash life_inplay) etcd_known etcd_env.
Proof.
  apply (registries_keep_contract (H2 := etcd_memory_lease_laws) memory_agent (fun b => b) (fun _ => None) (fun _ _ => None) (fun _ => []) demo_marshal demo_hash life_inplay).
  - intros s node -> [= <-]. split_and!; try done; cbn; split_and!; discriminate.
  - intros s1 s2 n1 n2 -> -> _ _ _. reflexivity.
  - intros s1 s2 h -> -> _ _. reflexivity.
Defined.

Lemma life_contract : RegistryContract (etcd_world etcd_memory) (H := etcd_registry demo_marshal demo_hash) life_inplay
  (etcd_ok demo_hash life_inplay) etcd_known etcd_env.
Proof.
  apply (etcd_contract (H2 := etcd_memory_lease_laws)).
  - intros s node -> [= <-]. split_and!; try done; cbn; split_and!; discriminate.
  - intros s1 s2 n1 n2 -> -> _ _ _. reflexivity.
  - intros s1 s2 h -> -> _ _. reflexivity.
Qed.

Lemma service_listed_through_life_witness :
  etcd_known life_started.1.2 "chat" "chat@1#u" /\ ~ etcd_known life_lost "chat" "chat@1#u" /\
  (forall s3 w3, ServiceRegister (H := etcd_registry demo_marshal demo_hash) (Err "none") (server life_started.1.1) life_lost = (s3, w3, None) ->
     etcd_known w3 "chat" "chat@1#u").
Proof.
  assert (Hl : rtc (life_step (H := etcd_registry demo_marshal demo_hash) (Err "none") etcd_env) (life_started.1.1, life_started.1.2) (life_started.1.1, life_lost)).
  { apply rtc_once, life_env. split; [reflexivity|]. split.
    - intros i Hi. split; [change (i < 2); change (i < 1 + 1) in Hi; lia|]. change (i ∈ (∅ : gset Z) -> et_alive (ew_client life_started.1.2) i). intros Ha. by apply elem_of_empty in Ha.
    - intros k Hk. right. destruct (decide (k = nodePath "chat" "chat@1#u")) as [->|Hne].
      + exists 1. split; [vm_compute; reflexivity|]. change (1 ∉ (∅ : gset Z)). apply not_elem_of_empty.
      + exfalso. revert Hk. change (et_kv (ew_client life_started.1.2)) with ({[ nodePath "chat" "chat@1#u" := "{}" ]} : gmap string string).
        rewrite lookup_singleton_ne by done. by intros [? ?]. }
  destruct (service_listed_through_life (H0 := life_contract) (Err "none") life_service life_started.1.1 life_started.1.1 empty_etcd life_started.1.2 life_lost) as (H1 & H2 & _).
  - unfold harmless_hooks, harmless, same_listing. split_and!; repeat apply Forall_cons_2; try apply Forall_nil_2; done.
  - exists "10.0.0.1", 7. repeat split.
  - split; [intros name i Hi; change ((∅ : gmap string Z) !! name = Some i) in Hi; by rewrite lookup_empty in Hi
    | intros s node h _ _ _ Hr; change ((∅ : gmap string Z) !! Name s = Some h) in Hr; by rewrite lookup_empty in Hr].
  - vm_compute. reflexivity.
  - exact Hl.
  - split; [exact H1|]. split; [|exact H2]. intros [? Hx]. change (et_kv (ew_client life_lost)) with (∅ : gmap string string) in Hx. by rewrite lookup_empty in Hx.
Defined.
