(* ===== verification/MockRegistry.v ===== *)
(** * The registry in memory

    [mockRegistry] of [registry/mock/mock.go] with the helpers of [helper.go], and its
    watcher of [mock_watcher.go].

    Services are references: the registry keeps the object it is given, changes its
    nodes, and hands it out again.  All registries made by [NewRegistry] are one, for each
    takes the global [mockData] as its map.  Nodes are not changed after they are made
    and are values; an array of nodes that two services share is only changed at a place
    that keeps its instance. *)
From S2P Require Import Prelude Registry Server.
#[local] Open Scope mq_scope.
#[local] Open Scope string_scope.
#[local] Open Scope list_scope.
#[local] Open Scope Z_scope.

Abbreviation service_ref := positive.

Record mock_world := mkMock { mk_heap : gmap service_ref Service; mk_Services : gmap string (list service_ref) }.

#[export] Instance eta_mock_world : Eta mock_world := fun r => mkMock (mk_heap r) (mk_Services r).

Definition nil_service : Service := mkService "" "" ∅ [] [].

(** The object behind a reference, and a change of its nodes. *)
Definition deref (h : gmap service_ref Service) (r : service_ref) : Service := default nil_service (h !! r).

Definition set_nodes (r : service_ref) (ns : list Node) (h : gmap service_ref Service) : gmap service_ref Service :=
  alter (fun s => mkService (Name s) (Version s) (s_Metadata s) (Endpoints s) ns) r h.

(** ** Helpers *)

Definition same_instance (o n : Node) : bool := bool_decide (InstanceID o = InstanceID n).

(** [old[i] = n] at the first node of the instance, or at the end. *)
Fixpoint put_node (old : list Node) (n : Node) : list Node :=
  match old with
  | [] => [n]
  | o :: old => if same_instance o n then n :: old else o :: put_node old n
  end.

Definition addNodes (old neu : list Node) : list Node := foldl put_node old neu.

(** [addServices]: [s] takes the place, and the nodes, of the first of its version. *)
Fixpoint put_service (h : gmap service_ref Service) (old : list service_ref) (s : service_ref) : gmap service_ref Service * list service_ref :=
  match old with
  | [] => (h, [s])
  | o :: old =>
      if bool_decide (Version (deref h o) = Version (deref h s)) then
        (set_nodes s (addNodes (Nodes (deref h o)) (Nodes (deref h s))) h, s :: old)
      else let '(h, old) := put_service h old s in (h, o :: old)
  end.

Definition addServices (h : gmap service_ref Service) (old neu : list service_ref) : gmap service_ref Service * list service_ref :=
  foldl (fun '(h, old) s => put_service h old s) (h, old) neu.

Definition delNodes (old del : list Node) : list Node := filter (fun o => ~ existsb (same_instance o) del) old.

(** The loop over [del] for one service: the nodes are taken out of the object. *)
Fixpoint del_from (h : gmap service_ref Service) (o : service_ref) (del : list service_ref) (rem : bool) : gmap service_ref Service * bool :=
  match del with
  | [] => (h, rem)
  | s :: del =>
      if bool_decide (Version (deref h o) = Version (deref h s)) then
        let ns := delNodes (Nodes (deref h o)) (Nodes (deref h s)) in
        del_from (set_nodes o ns h) o del (rem || bool_decide (ns = []))
      else del_from h o del rem
  end.

Fixpoint delServices (h : gmap service_ref Service) (old del : list service_ref) : gmap service_ref Service * list service_ref :=
  match old with
  | [] => (h, [])
  | o :: old =>
      let '(h, rem) := del_from h o del false in
      let '(h, services) := delServices h old del in
      (h, if rem then services else o :: services)
  end.

(** ** The registry *)

Definition services_of (w : mock_world) (name : string) : list service_ref := default [] (mk_Services w !! name).

Definition GetService (service : string) (w : mock_world) : result string (list service_ref) :=
  match mk_Services w !! service with
  | Some (s :: l) => Ok (s :: l)
  | _ => Err "not found"
  end.

(** [range]: the order the map is ranged over. *)
Definition ListServices (range : gmap string (list service_ref) -> list string) (w : mock_world) : list service_ref :=
  range (mk_Services w) ≫= services_of w.

Definition Register (s : service_ref) (w : mock_world) : mock_world :=
  let name := Name (deref (mk_heap w) s) in
  let '(h, services) := addServices (mk_heap w) (services_of w name) [s] in
  mkMock h (<[name := services]> (mk_Services w)).

Definition Deregister (s : service_ref) (w : mock_world) : mock_world :=
  let name := Name (deref (mk_heap w) s) in
  let '(h, services) := delServices (mk_heap w) (services_of w name) [s] in
  mkMock h (<[name := services]> (mk_Services w)).

(** [mockData] *)
Definition mock_node (i : string) (port : Z) : Node := mkNode 0 "" i "localhost" port None.

Definition NewRegistry : mock_world :=
  mkMock {[ 1%positive := mkService "foo" "1.0.0" ∅ [] [mock_node "foo-1.0.0-123" 9999; mock_node "foo-1.0.0-321" 9999];
            2%positive := mkService "foo" "1.0.1" ∅ [] [mock_node "foo-1.0.1-321" 6666];
            3%positive := mkService "foo" "1.0.3" ∅ [] [mock_node "foo-1.0.3-345" 8888] ]}
         {[ "foo" := [1; 2; 3]%positive ]}.

(** A service made for one call, as servers make theirs. *)
Definition new_service (s : Service) (w : mock_world) : service_ref * mock_world :=
  let h := mk_heap w in
  let r := fresh (dom h) in
  (r, w <| mk_heap := <[r := s]> h |>).

Definition mock_registry : RegistryOps mock_world := {|
  reg_Register ttl s w := let '(r, w) := new_service s w in (Register r w, None);
  reg_Deregister s w := let '(r, w) := new_service s w in (Deregister r w, None);
  reg_String := "mock" |}.
#[export] Existing Instance mock_registry.

(** ** The watcher *)

(** The [exit] channel: [true] is closed. *)
Record mockWatcher := mkMockWatcher { mw_exit : bool }.

Definition Watch : mockWatcher := mkMockWatcher false.

(** [None]: it blocks. *)
Definition mock_Next (m : mockWatcher) : option (result string unit) := if mw_exit m then Some (Err "watcher stopped") else None.

Definition mock_Stop (m : mockWatcher) : mockWatcher := mkMockWatcher true.

Example mock_NewRegistry : (fun r => Version (deref (mk_heap NewRegistry) r)) <$> services_of NewRegistry "foo" = ["1.0.0"; "1.0.1"; "1.0.3"].
Proof. vm_compute. reflexivity. Qed.
