(* ===== verification/MockRegistryTheorems.v ===== *)
(** * Correctness of the registry in memory

    Under calls that bring an object of their own, as servers make them, the registry is a
    list of versions and their nodes ([view]), and keeps the contract of a registry.
    Under calls that share an object, it is not. *)
From S2P Require Import Prelude Registry Server RegistryContract MockRegistry.
#[local] Open Scope mq_scope.
#[local] Open Scope string_scope.
#[local] Open Scope list_scope.
#[local] Open Scope Z_scope.

(** ** Objects *)

Abbreviation heap := (gmap service_ref Service).

Lemma deref_set_same r ns (h : heap) : r ∈ dom h ->
  deref (set_nodes r ns h) r = mkService (Name (deref h r)) (Version (deref h r)) (s_Metadata (deref h r)) (Endpoints (deref h r)) ns.
Proof. intros [s Hs]%elem_of_dom. unfold deref, set_nodes. by rewrite lookup_alter_eq, Hs. Qed.

Lemma deref_set_ne r r' ns (h : heap) : r' <> r -> deref (set_nodes r ns h) r' = deref h r'.
Proof. intros. unfold deref, set_nodes. by rewrite lookup_alter_ne. Qed.

Lemma deref_insert_ne r r' s (h : heap) : r' <> r -> deref (<[r := s]> h) r' = deref h r'.
Proof. intros. unfold deref. by rewrite lookup_insert_ne. Qed.

(** What a call leaves of a set of objects: their identity, and all of those outside [P]. *)
Record same_objects (P : service_ref -> Prop) (h h' : heap) : Prop := {
  so_dom : dom h' = dom h;
  so_named r : Name (deref h' r) = Name (deref h r) /\ Version (deref h' r) = Version (deref h r);
  so_kept r : ~ P r -> deref h' r = deref h r }.

Lemma same_objects_refl P h : same_objects P h h.
Proof. by split. Qed.

Lemma same_objects_trans P h h1 h2 : same_objects P h h1 -> same_objects P h1 h2 -> same_objects P h h2.
Proof.
  intros [D1 N1 K1] [D2 N2 K2]. split; [congruence| |].
  - intros r. destruct (N1 r), (N2 r). split; congruence.
  - intros r Hr. by rewrite K2, K1.
Qed.

Lemma set_nodes_same (P : service_ref -> Prop) r ns h : P r -> same_objects P h (set_nodes r ns h).
Proof.
  intros Hp. split.
  - apply dom_alter_L.
  - intros r'. destruct (decide (r' = r)) as [->|]; [|by rewrite deref_set_ne].
    unfold deref, set_nodes. rewrite lookup_alter_eq. by destruct (h !! r).
  - intros r' Hr'. apply deref_set_ne. by intros ->.
Qed.

Lemma same_objects_weaken (P Q : service_ref -> Prop) h h' : (forall r, P r -> Q r) -> same_objects P h h' -> same_objects Q h h'.
Proof. intros Hpq [D N K]. split; [done..|]. intros r Hr. apply K. auto. Qed.

(** ** The list of versions *)

Abbreviation versions := (list (string * list Node)).

Definition entry (h : heap) (r : service_ref) : string * list Node := (Version (deref h r), Nodes (deref h r)).
Definition view (h : heap) (l : list service_ref) : versions := entry h <$> l.

Fixpoint put_view (v : string) (ns : list Node) (vw : versions) : versions :=
  match vw with
  | [] => [(v, ns)]
  | (v', ns') :: vw => if bool_decide (v' = v) then (v, addNodes ns' ns) :: vw else (v', ns') :: put_view v ns vw
  end.

Definition del_entry (v : string) (ns : list Node) (e : string * list Node) : option (string * list Node) :=
  if bool_decide (e.1 = v) then let m := delNodes e.2 ns in if bool_decide (m = []) then None else Some (e.1, m) else Some e.

Lemma view_same P h h' l : same_objects P h h' -> (forall r, r ∈ l -> ~ P r) -> view h' l = view h l.
Proof.
  intros [_ _ K] Hl. apply list_fmap_ext. intros i r Hr%list_elem_of_lookup_2. unfold entry. rewrite K; [done|]. by apply Hl.
Qed.

Lemma put_service_view h r : forall l, r ∉ l -> r ∈ dom h ->
  let '(h', l') := put_service h l r in
  view h' l' = put_view (Version (deref h r)) (Nodes (deref h r)) (view h l) /\
  same_objects (eq r) h h' /\ (forall x, x ∈ l' -> x = r \/ x ∈ l) /\ (NoDup l -> NoDup l').
Proof.
  induction l as [|o l IH]; intros Hr Hd; cbn [put_service].
  - split_and!; [done | apply same_objects_refl | intros x Hx; left; by apply list_elem_of_singleton in Hx|].
    intros _. apply NoDup_singleton.
  - apply not_elem_of_cons in Hr as [Ho Hr]. cbn [view fmap list_fmap put_view entry]. unfold entry at 2. cbn [fst snd].
    case_bool_decide as Ev.
    + set (ns := addNodes _ _). split_and!.
      * assert (Hs : same_objects (eq r) h (set_nodes r ns h)) by (by apply set_nodes_same).
        change (entry (set_nodes r ns h) r :: view (set_nodes r ns h) l = (Version (deref h r), ns) :: view h l).
        rewrite (view_same _ _ _ _ Hs) by (by intros x Hx <-). unfold entry. by rewrite deref_set_same.
      * by apply set_nodes_same.
      * intros x [->|Hx]%elem_of_cons; [by left | right; by apply list_elem_of_further].
      * intros [_ Hnd]%NoDup_cons. by apply NoDup_cons.
    + specialize (IH Hr Hd). destruct (put_service h l r) as [h' l']. destruct IH as (Hv & Hs & Hin & Hnd). split_and!.
      * change (entry h' o :: view h' l' = entry h o :: put_view (Version (deref h r)) (Nodes (deref h r)) (view h l)).
        rewrite Hv. unfold entry. by rewrite (so_kept _ _ _ Hs).
      * done.
      * intros x [->|Hx]%elem_of_cons; [right; apply list_elem_of_here|]. destruct (Hin x Hx); [by left | right; by apply list_elem_of_further].
      * intros [Hni Hl]%NoDup_cons. apply NoDup_cons. split; [|by apply Hnd]. intros Hx. by destruct (Hin o Hx).
Qed.

Lemma delServices_view r : forall l h, r ∉ l -> NoDup l -> Forall (.∈ dom h) l ->
  let '(h', l') := delServices h l [r] in
  view h' l' = omap (del_entry (Version (deref h r)) (Nodes (deref h r))) (view h l) /\
  same_objects (.∈ l) h h' /\ (forall x, x ∈ l' -> x ∈ l) /\ NoDup l'.
Proof.
  induction l as [|o l IH]; intros h Hr Hnd Hd; cbn [delServices].
  - split_and!; [done | apply same_objects_refl | done | constructor].
  - apply not_elem_of_cons in Hr as [Ho Hr]. apply NoDup_cons in Hnd as [Hni Hnd]. apply Forall_cons in Hd as [Hdo Hd]. cbn [del_from].
    set (e := entry h o). set (del := del_entry _ _).
    assert (H1 : exists h1 rem, (if bool_decide (Version (deref h o) = Version (deref h r))
        then (set_nodes o (delNodes (Nodes (deref h o)) (Nodes (deref h r))) h, false || bool_decide (delNodes (Nodes (deref h o)) (Nodes (deref h r)) = []))
        else (h, false)) = (h1, rem) /\ same_objects (eq o) h h1 /\ del e = if rem then None else Some (entry h1 o)).
    { unfold del, del_entry, e, entry. cbn [fst snd orb]. case_bool_decide; [|by eexists _, _; split_and!; [done | apply same_objects_refl|]].
      eexists _, _. split; [done|]. split; [by apply set_nodes_same|]. case_bool_decide; [done|]. by rewrite deref_set_same. }
    destruct H1 as (h1 & rem & -> & Hs1 & He).
    assert (Hr1 : deref h1 r = deref h r) by (by apply (so_kept _ _ _ Hs1); intros ->).
    assert (Hd1 : Forall (.∈ dom h1) l) by (by rewrite (so_dom _ _ _ Hs1)).
    specialize (IH h1 Hr Hnd Hd1). rewrite Hr1 in IH. destruct (delServices h1 l [r]) as [h2 l2]. destruct IH as (Hv & Hs2 & Hin & Hnd2).
    rewrite (view_same _ _ _ _ Hs1) in Hv by (by intros x Hx ->). split_and!.
    + change (omap del (view h (o :: l))) with (match del e with Some y => y :: omap del (view h l) | None => omap del (view h l) end).
      fold del in Hv. rewrite He, <- Hv.
      destruct rem; [done|]. change (view h2 (o :: l2)) with (entry h2 o :: view h2 l2). f_equal. unfold entry. by rewrite (so_kept _ _ _ Hs2).
    + eapply same_objects_trans; (eapply same_objects_weaken; [|done]).
      * intros x <-. apply list_elem_of_here.
      * intros x Hx. by apply list_elem_of_further.
    + intros x Hx. destruct rem; [apply list_elem_of_further; auto|]. apply elem_of_cons in Hx as [->|Hx]; [apply list_elem_of_here | apply list_elem_of_further; auto].
    + destruct rem; [done|]. apply NoDup_cons. split; [|done]. auto.
Qed.

(** ** Instances *)

Definition listed (vw : versions) (i : string) : Prop := exists v ns n, (v, ns) ∈ vw /\ n ∈ ns /\ InstanceID n = i.

Lemma addNodes_listed ns : forall old i,
  (exists n, n ∈ addNodes old ns /\ InstanceID n = i) <-> (exists n, n ∈ old /\ InstanceID n = i) \/ (exists n, n ∈ ns /\ InstanceID n = i).
Proof.
  assert (Hp : forall n old i, (exists m, m ∈ put_node old n /\ InstanceID m = i) <-> (exists m, m ∈ old /\ InstanceID m = i) \/ InstanceID n = i).
  { intros n old i. induction old as [|o old IH]; cbn [put_node]; [set_solver|]. unfold same_instance. case_bool_decide as E; set_solver. }
  induction ns as [|n ns IH]; intros old i; [set_solver|]. cbn [addNodes foldl]. fold (addNodes (put_node old n) ns). rewrite IH, Hp. set_solver.
Qed.

Lemma delNodes_listed old ns i :
  (exists n, n ∈ delNodes old ns /\ InstanceID n = i) <-> (exists n, n ∈ old /\ InstanceID n = i) /\ ~ (exists n, n ∈ ns /\ InstanceID n = i).
Proof.
  unfold delNodes. assert (He : forall o, existsb (same_instance o) ns = true <-> exists n, n ∈ ns /\ InstanceID n = InstanceID o).
  { intros o. rewrite existsb_exists. unfold same_instance. setoid_rewrite bool_decide_eq_true. setoid_rewrite <- list_elem_of_In. naive_solver. }
  split.
  - intros (n & Hn & <-). apply list_elem_of_filter in Hn as [Hn Hin]. split; [by eauto|]. intros Hex. apply Hn. apply Is_true_true. by apply He.
  - intros [(n & Hn & <-) Hno]. exists n. split; [|done]. apply list_elem_of_filter. split; [|done]. intros Hex%Is_true_true. apply Hno. by apply He.
Qed.

Lemma put_view_listed v ns vw i : listed (put_view v ns vw) i <-> listed vw i \/ exists n, n ∈ ns /\ InstanceID n = i.
Proof.
  unfold listed. induction vw as [|[v' ns'] vw IH]; cbn [put_view].
  - split; [set_solver|]. intros [(v0 & ? & ? & []%elem_of_nil & _)|(n & Hn & Hi)]. exists v, ns, n. set_solver.
  - case_bool_decide as E.
    + pose proof (addNodes_listed ns ns' i) as Ha. split.
      * intros (v0 & ns0 & n & [[= -> ->]|Hin]%elem_of_cons & Hn & Hi); [|set_solver].
        destruct (proj1 Ha) as [(m & Hm & Hj)|Hm]; [by eauto | | by right]. left. exists v', ns', m. set_solver.
      * intros [(v0 & ns0 & n & [[= -> ->]|Hin]%elem_of_cons & Hn & Hi)|Hn].
        -- destruct (proj2 Ha) as (m & Hm & Hj); [left; by eauto|]. exists v, (addNodes ns' ns), m. set_solver.
        -- exists v0, ns0, n. set_solver.
        -- destruct (proj2 Ha) as (m & Hm & Hj); [by right|]. exists v, (addNodes ns' ns), m. set_solver.
    + set_solver.
Qed.

Lemma put_view_in v ns vw v0 ns0 : (v0, ns0) ∈ put_view v ns vw -> v0 = v \/ (v0, ns0) ∈ vw.
Proof. induction vw as [|[v' ns'] vw IH]; cbn [put_view]; [set_solver|]. case_bool_decide; set_solver. Qed.

Lemma del_view_in v ns (vw : versions) e : e ∈ omap (del_entry v ns) vw <->
  (e ∈ vw /\ e.1 <> v) \/ exists old, (v, old) ∈ vw /\ e = (v, delNodes old ns) /\ delNodes old ns <> [].
Proof.
  rewrite list_elem_of_omap. split.
  - intros ([v' old] & Hin & He). unfold del_entry in He. cbn [fst snd] in He. repeat case_bool_decide; simplify_eq; [|by left]. right. eauto.
  - intros [[Hin Hne]|(old & Hin & -> & Hne)].
    + exists e. split; [done|]. unfold del_entry. by rewrite bool_decide_eq_false_2.
    + exists (v, old). split; [done|]. unfold del_entry. cbn [fst snd]. by rewrite bool_decide_eq_true_2, bool_decide_eq_false_2.
Qed.

Lemma del_view_listed v ns (vw : versions) i : ~ (exists n, n ∈ ns /\ InstanceID n = i) -> listed (omap (del_entry v ns) vw) i <-> listed vw i.
Proof.
  intros Hno. unfold listed. split.
  - intros (v0 & ns0 & n & [[Hin _]|(old & Hin & [= -> ->] & _)]%del_view_in & Hn & Hi); [by eauto 6|].
    destruct (proj1 (delNodes_listed old ns i)) as [(m & Hm & Hj) _]; [by eauto|]. by eauto 6.
  - intros (v0 & ns0 & n & Hin & Hn & Hi). destruct (decide (v0 = v)) as [->|Hne].
    + destruct (proj2 (delNodes_listed ns0 ns i)) as (m & Hm & Hj); [by eauto|]. exists v, (delNodes ns0 ns), m. split; [|done].
      apply del_view_in. right. exists ns0. split_and!; [done..|]. intros E. rewrite E in Hm. by apply elem_of_nil in Hm.
    + exists v0, ns0, n. split; [|done]. apply del_view_in. by left.
Qed.

(** ** The contract *)

Definition view_of (w : mock_world) (name : string) : versions := view (mk_heap w) (services_of w name).

Definition mock_known (w : mock_world) (name i : string) : Prop := listed (view_of w name) i.

Definition mock_env (w w' : mock_world) : Prop := w' = w.

(** Every object of a list is there once and has the list's name; an instance of a
    service in play is only listed under that service's version. *)
Record mock_ok (inplay : Service -> Prop) (w : mock_world) : Prop := {
  mo_objects name r : r ∈ services_of w name -> r ∈ dom (mk_heap w) /\ Name (deref (mk_heap w) r) = name;
  mo_distinct name : NoDup (services_of w name);
  mo_version s node v ns n : inplay s -> Nodes s = [node] -> (v, ns) ∈ view_of w (Name s) -> n ∈ ns -> InstanceID n = InstanceID node -> v = Version s }.

(** A call that brings the object of a service. *)
Record brings (s : Service) (r : service_ref) (w w1 : mock_world) : Prop := {
  br_new : forall name, r ∉ services_of w1 name;
  br_deref : deref (mk_heap w1) r = s;
  br_dom : r ∈ dom (mk_heap w1);
  br_services : mk_Services w1 = mk_Services w;
  br_objects : forall name r', r' ∈ services_of w name -> r' ∈ dom (mk_heap w1) /\ Name (deref (mk_heap w1) r') = name;
  br_view : forall name, view_of w1 name = view_of w name }.

Lemma new_service_brings inplay s w : mock_ok inplay w -> let '(r, w1) := new_service s w in brings s r w w1.
Proof.
  intros [Ho _ _]. unfold new_service. cbn. set (r := fresh (dom (mk_heap w))). assert (Hr : r ∉ dom (mk_heap w)) by apply is_fresh.
  assert (Hne : forall name r', r' ∈ services_of w name -> r' <> r) by (intros name r' Hin ->; by apply Hr, (Ho name)).
  split; cbn.
  - intros name Hin. by apply (Hne name r).
  - unfold deref. by rewrite lookup_insert_eq.
  - set_solver.
  - done.
  - intros name r' Hin. destruct (Ho _ _ Hin). rewrite deref_insert_ne by (by eapply Hne). set_solver.
  - intros name. unfold view_of, view. cbn. apply list_fmap_ext. intros i r' Hin%list_elem_of_lookup_2. unfold entry.
    by rewrite deref_insert_ne by (by eapply Hne).
Qed.

(** The lists of a world after a call under [name]. *)
Lemma services_after w h name l name' :
  services_of (mkMock h (<[name := l]> (mk_Services w))) name' = if decide (name' = name) then l else services_of w name'.
Proof. unfold services_of. cbn. destruct (decide _) as [->|]; [by rewrite lookup_insert_eq | by rewrite lookup_insert_ne]. Qed.

Section Contract.
Context (inplay : Service -> Prop)
        (Hversion : forall s1 s2 n1 n2, inplay s1 -> inplay s2 -> Nodes s1 = [n1] -> Nodes s2 = [n2] -> Name s1 = Name s2 ->
           InstanceID n1 = InstanceID n2 -> Version s1 = Version s2).

(** What a call on one name's list does to the world, given what it does to the list. *)
Lemma call_after s r w w1 h l (P : service_ref -> Prop) : mock_ok inplay w -> brings s r w w1 ->
  same_objects P (mk_heap w1) h -> (forall x, P x -> x = r \/ x ∈ services_of w (Name s)) ->
  (forall x, x ∈ l -> x = r \/ x ∈ services_of w (Name s)) -> NoDup l ->
  (forall s0 n0 v ns n, inplay s0 -> Nodes s0 = [n0] -> Name s0 = Name s -> (v, ns) ∈ view h l -> n ∈ ns -> InstanceID n = InstanceID n0 -> v = Version s0) ->
  let w' := mkMock h (<[Name s := l]> (mk_Services w1)) in
  mock_ok inplay w' /\ view_of w' (Name s) = view h l /\ forall name, name <> Name s -> view_of w' name = view_of w name.
Proof.
  intros Hok Hb Hs HP Hin Hnd Hv w'. assert (Hsv : forall name, services_of w1 name = services_of w name) by (intros; unfold services_of; by rewrite (br_services _ _ _ _ Hb)).
  assert (Hl : forall name, services_of w' name = if decide (name = Name s) then l else services_of w name)
    by (intros; unfold w'; rewrite services_after; by rewrite Hsv).
  assert (Hmine : view_of w' (Name s) = view h l) by (unfold view_of; by rewrite Hl, decide_True).
  assert (Hother : forall name, name <> Name s -> view_of w' name = view_of w name).
  { intros name Hne. rewrite <- (br_view _ _ _ _ Hb). unfold view_of. rewrite Hl, decide_False, Hsv by done. apply (view_same P); [done|].
    intros x Hx Hp. destruct (HP x Hp) as [->|Hx2]; [by apply (br_new _ _ _ _ Hb name); rewrite Hsv|].
    destruct (br_objects _ _ _ _ Hb _ _ Hx) as [_ Hn1], (br_objects _ _ _ _ Hb _ _ Hx2) as [_ Hn2]. congruence. }
  split; [|done]. split.
  - intros name x. rewrite Hl. change (mk_heap w') with h. rewrite (so_dom _ _ _ Hs). destruct (so_named _ _ _ Hs x) as [-> _].
    destruct (decide _) as [->|]; [|apply (br_objects _ _ _ _ Hb)]. intros [->|Hx]%Hin; [|by apply (br_objects _ _ _ _ Hb)].
    split; [apply (br_dom _ _ _ _ Hb) | by rewrite (br_deref _ _ _ _ Hb)].
  - intros name. rewrite Hl. destruct (decide _); [done|]. apply (mo_distinct _ _ Hok).
  - intros s0 n0 v ns n Hp Hn. destruct (decide (Name s0 = Name s)) as [E|E].
    + rewrite E, Hmine. by eapply Hv.
    + rewrite Hother by done. by eapply (mo_version _ _ Hok).
Qed.

Lemma Register_mock s node r w w1 : inplay s -> Nodes s = [node] -> mock_ok inplay w -> brings s r w w1 ->
  mock_ok inplay (Register r w1) /\ view_of (Register r w1) (Name s) = put_view (Version s) [node] (view_of w (Name s)) /\
  forall name, name <> Name s -> view_of (Register r w1) name = view_of w name.
Proof.
  intros Hp Hn Hok Hb. unfold Register. rewrite (br_deref _ _ _ _ Hb). cbn [addServices foldl].
  pose proof (put_service_view (mk_heap w1) r (services_of w1 (Name s)) (br_new _ _ _ _ Hb _) (br_dom _ _ _ _ Hb)) as H.
  destruct (put_service _ _ _) as [h l]. destruct H as (Hv & Hs & Hin & Hnd). rewrite (br_deref _ _ _ _ Hb), Hn in Hv.
  change (view (mk_heap w1) (services_of w1 (Name s))) with (view_of w1 (Name s)) in Hv. rewrite (br_view _ _ _ _ Hb) in Hv. rewrite <- Hv.
  assert (Hsv : services_of w1 (Name s) = services_of w (Name s)) by (unfold services_of; by rewrite (br_services _ _ _ _ Hb)).
  rewrite Hsv in *. apply (call_after s r w w1 h l (eq r)); try done.
  - intros x <-. by left.
  - apply Hnd, (mo_distinct _ _ Hok).
  - intros s0 n0 v ns n Hp0 Hn0 HN Hin0 Hns Hi. rewrite Hv in Hin0. clear Hv.
    assert (Hcase : v = Version s /\ InstanceID n0 = InstanceID node \/ exists ns', (v, ns') ∈ view_of w (Name s) /\ exists m, m ∈ ns' /\ InstanceID m = InstanceID n0).
    { revert Hin0. generalize (view_of w (Name s)). intros vw. induction vw as [|[v' ns'] vw IH]; cbn [put_view].
      - intros [= -> ->]%list_elem_of_singleton. apply list_elem_of_singleton in Hns as ->. by left.
      - case_bool_decide as E; intros [[= -> ->]|Hx]%elem_of_cons.
        + destruct (proj1 (addNodes_listed [node] ns' (InstanceID n0))) as [(m & Hm & Hj)|(m & ->%list_elem_of_singleton & Hj)]; [by eauto| |by left].
          right. exists ns'. split; [subst; apply list_elem_of_here|by eauto].
        + right. exists ns. split; [by apply list_elem_of_further|by eauto].
        + right. exists ns'. split; [apply list_elem_of_here|by eauto].
        + destruct (IH Hx) as [?|(ns2 & Hin2 & Hm)]; [by left|]. right. exists ns2. split; [by apply list_elem_of_further|done]. }
    destruct Hcase as [[-> Hj]|(ns' & Hin' & m & Hm & Hj)].
    + symmetry. by eapply (Hversion s0 s).
    + rewrite <- HN in Hin'. by eapply (mo_version _ _ Hok).
Qed.

Lemma Deregister_mock s node r w w1 : Nodes s = [node] -> mock_ok inplay w -> brings s r w w1 ->
  mock_ok inplay (Deregister r w1) /\ view_of (Deregister r w1) (Name s) = omap (del_entry (Version s) [node]) (view_of w (Name s)) /\
  forall name, name <> Name s -> view_of (Deregister r w1) name = view_of w name.
Proof.
  intros Hn Hok Hb. unfold Deregister. rewrite (br_deref _ _ _ _ Hb).
  assert (Hsv : services_of w1 (Name s) = services_of w (Name s)) by (unfold services_of; by rewrite (br_services _ _ _ _ Hb)).
  pose proof (delServices_view r (services_of w1 (Name s)) (mk_heap w1) (br_new _ _ _ _ Hb _)) as H.
  rewrite Hsv in H at 1 2. specialize (H (mo_distinct _ _ Hok _)). rewrite Forall_forall in H.
  specialize (H (fun x Hx => proj1 (br_objects _ _ _ _ Hb _ _ Hx))).
  destruct (delServices _ _ _) as [h l]. destruct H as (Hv & Hs & Hin & Hnd). rewrite (br_deref _ _ _ _ Hb), Hn in Hv.
  change (view (mk_heap w1) (services_of w1 (Name s))) with (view_of w1 (Name s)) in Hv. rewrite (br_view _ _ _ _ Hb) in Hv. rewrite <- Hv.
  rewrite Hsv in *. apply (call_after s r w w1 h l (.∈ services_of w (Name s))); try done; [auto..|].
  intros s0 n0 v ns n Hp0 Hn0 HN Hin0 Hns Hi. rewrite Hv in Hin0. rewrite <- HN in Hin0.
  apply del_view_in in Hin0 as [[Hin0 _]|(old & Hin0 & [= -> ->] & _)]; [by eapply (mo_version _ _ Hok)|].
  destruct (proj1 (delNodes_listed old [node] (InstanceID n0))) as [(m & Hm & Hj) _]; [by eauto|]. by eapply (mo_version _ _ Hok).
Qed.
End Contract.

(** ** Properties *)

(** C32. The registry in memory keeps the contract of a registry, for callers that bring
    an object of their own to every call and use one version per instance.  It starts
    in a good state, and its lists are what the contract sees. *)
Theorem mock_registry_keeps_contract (inplay : Service -> Prop)
  (Hversion : forall s1 s2 n1 n2, inplay s1 -> inplay s2 -> Nodes s1 = [n1] -> Nodes s2 = [n2] -> Name s1 = Name s2 ->
     InstanceID n1 = InstanceID n2 -> Version s1 = Version s2) :
  RegistryContract mock_world inplay (mock_ok inplay) mock_known mock_env /\
  ((forall s, inplay s -> Name s <> "foo") -> mock_ok inplay NewRegistry) /\
  (forall w name i, mock_known w name i ->
     exists r l, GetService name w = Ok l /\ r ∈ l /\ exists n, n ∈ Nodes (deref (mk_heap w) r) /\ InstanceID n = i).
Proof.
  split; [|split].
  - split.
    + by intros w w' Hok ->.
    + intros ttl s node w w' err Hp Hn Hok Hr. cbn in Hr. pose proof (new_service_brings inplay s w Hok) as Hb.
      unfold new_service in *. injection Hr as <- <-.
      destruct (Register_mock inplay Hversion s node _ w _ Hp Hn Hok Hb) as (Hok' & Hmine & Hother).
      split; [done|]. unfold mock_known. split.
      * intros _. rewrite Hmine. apply put_view_listed. right. exists node. split; [apply list_elem_of_here|done].
      * intros s2 node2 Hp2 Hn2 Hne. destruct (decide (Name s2 = Name s)) as [->|E]; [|by rewrite Hother].
        rewrite Hmine, put_view_listed. split; [|by left]. intros [?|(m & ->%list_elem_of_singleton & ?)]; done.
    + intros s s' node node' w w' err Hp Hn HN HV Hn' Hi Hok Hr. cbn in Hr. pose proof (new_service_brings inplay s' w Hok) as Hb.
      unfold new_service in *. injection Hr as <- <-.
      destruct (Deregister_mock inplay s' node' _ w _ Hn' Hok Hb) as (Hok' & Hmine & Hother). rewrite HN in *.
      split; [done|]. unfold mock_known. split.
      * intros _. rewrite Hmine. intros (v & ns & n & Hin & Hns & Hj). rewrite HV in Hin.
        apply del_view_in in Hin as [[Hin Hne]|(old & Hin & [= -> ->] & _)].
        -- apply Hne. cbn. by eapply (mo_version _ _ Hok).
        -- destruct (proj1 (delNodes_listed old [node'] (InstanceID node))) as [_ Hno]; [by eauto|]. apply Hno.
           exists node'. split; [apply list_elem_of_here|done].
      * intros s2 node2 Hp2 Hn2 Hne. destruct (decide (Name s2 = Name s)) as [->|E]; [|by rewrite Hother].
        rewrite Hmine. apply del_view_listed. intros (m & ->%list_elem_of_singleton & ?). congruence.
  - intros Hfoo. split.
    + intros name r. unfold services_of. cbn. destruct (decide (name = "foo")) as [->|Hne]; [|rewrite lookup_singleton_ne by done; by intros ?%elem_of_nil].
      rewrite lookup_singleton_eq. cbn. intros Hr. repeat (apply elem_of_cons in Hr as [->|Hr]; [split; [set_solver | reflexivity]|]). by apply elem_of_nil in Hr.
    + intros name. unfold services_of. cbn. destruct (decide (name = "foo")) as [->|Hne]; [|rewrite lookup_singleton_ne by done; constructor].
      rewrite lookup_singleton_eq. cbn. apply (bool_decide_unpack _). vm_compute. done.
    + intros s node v ns n Hp _ Hin. unfold view_of, services_of in Hin. cbn in Hin.
      rewrite lookup_singleton_ne in Hin by (by intros ?; apply (Hfoo s)). by apply elem_of_nil in Hin.
  - intros w name i (v & ns & n & Hin & Hn & Hi). apply list_elem_of_fmap in Hin as (r & [= -> ->] & Hr).
    unfold services_of in Hr. unfold GetService. destruct (mk_Services w !! name) as [[|s0 l]|]; [by apply elem_of_nil in Hr| |by apply elem_of_nil in Hr].
    by exists r, (s0 :: l); eauto 10.
Qed.

(** A server's service over it. *)
Definition memory_server : rpcServer :=
  mkRpcServer (mkServerOptions "chat" "1" "1.0" "10.0.0.1:7" "" ∅ 0 20) false true "chat@1" "chat@1#u" 5.
Definition memory_inplay (s : Service) : Prop := s = announced memory_server "10.0.0.1" 7.

Lemma mock_registry_keeps_contract_witness :
  RegistryContract mock_world memory_inplay (mock_ok memory_inplay) mock_known mock_env /\ mock_ok memory_inplay NewRegistry.
Proof.
  destruct (mock_registry_keeps_contract memory_inplay) as (Hc & Hok & _).
  - intros s1 s2 n1 n2 -> -> _ _ _ _. reflexivity.
  - split; [exact Hc|]. apply Hok. intros s ->. discriminate.
Defined.

(** ** Shared objects *)

(** Deregistering the object a list holds takes every instance of its version, whoever
    registered them: its nodes are taken out of themselves. *)
Lemma shared_object_takes_all r : forall l h, r ∈ l -> NoDup l -> r ∈ dom h -> r ∉ (delServices h l [r]).2.
Proof.
  induction l as [|o l IH]; intros h Hr Hnd Hd; [by apply elem_of_nil in Hr|]. apply NoDup_cons in Hnd as [Hni Hnd]. cbn [delServices del_from].
  assert (Hin : forall h1, r ∉ l -> r ∉ (delServices h1 l [r]).2).
  { clear. induction l as [|x l IH]; intros h1 Hx; [by intros ?%elem_of_nil|]. apply not_elem_of_cons in Hx as [Hx Hl]. cbn [delServices].
    destruct (del_from h1 x [r] false) as [h2 rem]. specialize (IH h2 Hl). destruct (delServices h2 l [r]) as [h3 l3]. cbn in *.
    destruct rem; [done|]. by apply not_elem_of_cons. }
  destruct (decide (o = r)) as [->|Hne].
  - rewrite bool_decide_eq_true_2 by done.
    assert (delNodes (Nodes (deref h r)) (Nodes (deref h r)) = []) as ->.
    { apply elem_of_nil_inv. intros n Hn. destruct (proj1 (delNodes_listed _ _ (InstanceID n)) (ex_intro _ n (conj Hn eq_refl))) as [? Hno]. done. }
    rewrite bool_decide_eq_true_2 by done. cbn [orb]. specialize (Hin (set_nodes r [] h) Hni). by destruct (delServices _ l [r]).
  - apply elem_of_cons in Hr as [->|Hr]; [done|].
    set (h1 := if bool_decide _ then _ else (h, false)).
    assert (Hd1 : r ∈ dom h1.1) by (unfold h1; case_bool_decide; [|done]; cbn; unfold set_nodes; by rewrite dom_alter_L).
    destruct h1 as [h1 rem]. specialize (IH h1 Hr Hnd Hd1). destruct (delServices h1 l [r]) as [h2 l2]. cbn in *.
    destruct rem; [done|]. by apply not_elem_of_cons.
Qed.

(** Two servers share the process; the second takes its service back with the object it
    registered. *)
Definition first_chat : Service := mkService "chat" "1.0" ∅ [] [mock_node "chat-a" 1].
Definition second_chat : Service := mkService "chat" "1.0" ∅ [] [mock_node "chat-b" 2].

Example shared_object_takes_the_first :
  let w := mkMock {[ 1%positive := first_chat; 2%positive := second_chat ]} ∅ in
  let w := Register 2%positive (Register 1%positive w) in
  fmap InstanceID (Nodes (deref (mk_heap w) 2%positive)) = ["chat-a"; "chat-b"] /\
  GetService "chat" (Deregister 2%positive w) = Err "not found".
Proof. vm_compute. done. Qed.
