(* ===== verification/AppLife.v ===== *)
(** * The application's options and its run

    [newOptions], [parseFlag], [NewApp] and [Run] of [app/app.go], its callbacks and
    data wrapper, the options of [module/options.go], and the configuration file of
    [conf/loader.go].  Routing is in [App], the modules that [Run] starts and stops in
    [Modules].

    Selectors are references, for the option [Registry] changes the selector that is
    installed at that moment.  Outside the model: the process environment
    ([startup_env]), NATS, the parsers of configuration files, JSON, and logging. *)
From Stdlib Require Import Strings.Ascii.
From S2P Require Import Prelude Registry Consul Server Modules.
#[local] Open Scope mq_scope.
#[local] Open Scope string_scope.
#[local] Open Scope list_scope.
#[local] Open Scope Z_scope.

Abbreviation selref := positive.

(** ** Options *)

(** [N] stands for NATS connections, [R] for registries, [H] for handlers. *)
Record AppOptions (N R H : Type) := mkAppOptions {
  a_Nats : option N; a_Version : string; a_Debug : bool; a_Parse : bool; a_WorkDir : string; a_ConfPath : string;
  a_LogDir : string; a_ProcessID : string; a_KillWaitTTL : Z; a_Registry : R; a_Selector : selref;
  a_RegisterInterval : Z; a_RegisterTTL : Z; a_ClientRPChandler : option H; a_ServerRPCHandler : option H;
  a_RpcCompleteHandler : option H; a_RPCExpired : Z; a_RPCMaxCoroutine : Z; a_LogFileName : option H }.
Arguments mkAppOptions {N R H}.
Arguments a_Nats {N R H}.
Arguments a_Version {N R H}.
Arguments a_Debug {N R H}.
Arguments a_Parse {N R H}.
Arguments a_WorkDir {N R H}.
Arguments a_ConfPath {N R H}.
Arguments a_LogDir {N R H}.
Arguments a_ProcessID {N R H}.
Arguments a_KillWaitTTL {N R H}.
Arguments a_Registry {N R H}.
Arguments a_Selector {N R H}.
Arguments a_RegisterInterval {N R H}.
Arguments a_RegisterTTL {N R H}.
Arguments a_ClientRPChandler {N R H}.
Arguments a_ServerRPCHandler {N R H}.
Arguments a_RpcCompleteHandler {N R H}.
Arguments a_RPCExpired {N R H}.
Arguments a_RPCMaxCoroutine {N R H}.
Arguments a_LogFileName {N R H}.

#[export] Instance eta_AppOptions N R H : Eta (AppOptions N R H) := fun r =>
  mkAppOptions (a_Nats r) (a_Version r) (a_Debug r) (a_Parse r) (a_WorkDir r) (a_ConfPath r) (a_LogDir r) (a_ProcessID r)
    (a_KillWaitTTL r) (a_Registry r) (a_Selector r) (a_RegisterInterval r) (a_RegisterTTL r) (a_ClientRPChandler r)
    (a_ServerRPCHandler r) (a_RpcCompleteHandler r) (a_RPCExpired r) (a_RPCMaxCoroutine r) (a_LogFileName r).

(** What [Init] sets of a selector: the registry, and whether the application's
    [Watcher] is told of removed nodes. *)
Record sel_state (R : Type) := mkSelState { s_Registry : R; s_Watcher : bool }.
Arguments mkSelState {R}.
Arguments s_Registry {R}.
Arguments s_Watcher {R}.

#[export] Instance eta_sel_state R : Eta (sel_state R) := fun r => mkSelState (s_Registry r) (s_Watcher r).

Section Options.
Context {N R H : Type}.

Abbreviation options := (AppOptions N R H).
Abbreviation selectors := (gmap selref (sel_state R)).

(** An option changes the options, and may change a selector. *)
Definition Option : Type := options * selectors -> options * selectors.

Definition opt (f : options -> options) : Option := fun '(o, sels) => (f o, sels).

Definition Version (v : string) : Option := opt (fun o => o <| a_Version := v |>).
Definition Debug (t : bool) : Option := opt (fun o => o <| a_Debug := t |>).
Definition WorkDir (v : string) : Option := opt (fun o => o <| a_WorkDir := v |>).
Definition Configure_ (v : string) : Option := opt (fun o => o <| a_ConfPath := v |>).
Definition LogDir (v : string) : Option := opt (fun o => o <| a_LogDir := v |>).
Definition ProcessID (v : string) : Option := opt (fun o => o <| a_ProcessID := v |>).
Definition Nats (nc : option N) : Option := opt (fun o => o <| a_Nats := nc |>).
Definition Selector (r : selref) : Option := opt (fun o => o <| a_Selector := r |>).
Definition RegisterTTL (t : Z) : Option := opt (fun o => o <| a_RegisterTTL := t |>).
Definition RegisterInterval (t : Z) : Option := opt (fun o => o <| a_RegisterInterval := t |>).
Definition KillWaitTTL (t : Z) : Option := opt (fun o => o <| a_KillWaitTTL := t |>).
Definition SetClientRPChandler (t : option H) : Option := opt (fun o => o <| a_ClientRPChandler := t |>).
Definition SetServerRPCHandler (t : option H) : Option := opt (fun o => o <| a_ServerRPCHandler := t |>).
Definition SetRpcCompleteHandler (t : option H) : Option := opt (fun o => o <| a_RpcCompleteHandler := t |>).
Definition Parse (t : bool) : Option := opt (fun o => o <| a_Parse := t |>).
Definition RPCExpired (t : Z) : Option := opt (fun o => o <| a_RPCExpired := t |>).
Definition RPCMaxCoroutine (t : Z) : Option := opt (fun o => o <| a_RPCMaxCoroutine := t |>).
Definition WithLogFile (name : option H) : Option := opt (fun o => o <| a_LogFileName := name |>).

Definition Registry_ (r : R) : Option := fun '(o, sels) =>
  (o <| a_Registry := r |>, alter (fun s => s <| s_Registry := r |>) (a_Selector o) sels).

Definition apply_opts (opts : list Option) (os : options * selectors) : options * selectors := foldl (fun os f => f os) os opts.

(** ** [newOptions] *)

(** The command line ([-pid] is ["development"] when it is not given) and what the
    system answers: the connection to NATS, whether a path opens, the working directory
    (after a change to it), the executable's. *)
Record startup_env := mkStartupEnv {
  f_wd : string; f_conf : string; f_pid : string; f_log : string;
  e_Connect : result string N; e_Open : string -> bool; e_Chdir_Getwd : string -> result string string;
  e_Getwd : result string string; e_exe_dir : string }.

Definition parseFlag (e : startup_env) (o : options) : options :=
  let o := if decide (f_wd e = "") then o else o <| a_WorkDir := f_wd e |> in
  let o := if decide (f_conf e = "") then o else o <| a_ConfPath := f_conf e |> in
  let o := if decide (f_pid e = "") then o else o <| a_ProcessID := f_pid e |> in
  if decide (f_log e = "") then o else o <| a_LogDir := f_log e |>.

Definition second : Z := 1000000000.

(** [DefaultRegistry] and the selector [cache.NewSelector] makes. *)
Definition default_app_options (DefaultRegistry : R) (sel : selref) (LogFileName : H) : options :=
  mkAppOptions None "" true true "" "" "" "" (second * 60) DefaultRegistry sel (second * 10) (second * 20)
    None None None (second * 10) 0 (Some LogFileName).

(** The work directory: the option's, once changed to, or the present one. *)
Definition app_dir (e : startup_env) (WorkDir : string) : outcome string :=
  if decide (WorkDir = "") then
    Ret (match e_Getwd e with Ok d => d | Err _ => e_exe_dir e end)
  else if negb (e_Open e WorkDir) then Panic "open"
  else match e_Chdir_Getwd e WorkDir with Ok d => Ret d | Err er => Panic er end.

(** What is left open after the command line. *)
Definition fill_options (e : startup_env) (o : options) : outcome options :=
  let o := match a_Nats o with Some _ => o | None => o <| a_Nats := match e_Connect e with Ok nc => Some nc | Err _ => None end |> end in
  let o := if decide (a_ProcessID o = "") then o <| a_ProcessID := "development" |> else o in
  appDir <- app_dir e (a_WorkDir o);
  let o := o <| a_WorkDir := appDir |> in
  let o := if decide (a_ConfPath o = "") then o <| a_ConfPath := (appDir ++ "/bin/conf/server.yaml")%string |> else o in
  let o := if decide (a_LogDir o = "") then o <| a_LogDir := (appDir ++ "/bin/logs")%string |> else o in
  if e_Open e (a_ConfPath o) then Ret o else Panic "config path error".

Definition finish_options (e : startup_env) (o : options) : outcome options :=
  fill_options e (if a_Parse o then parseFlag e o else o).

(** [NewApp]: the watcher is only installed outside debug mode. *)
Definition NewApp (e : startup_env) (DefaultRegistry : R) (sel : selref) (LogFileName : H) (opts : list Option) (sels : selectors) :
    outcome (options * selectors) :=
  let '(o, sels) := apply_opts opts (default_app_options DefaultRegistry sel LogFileName, sels) in
  o <- finish_options e o;
  Ret (o, if a_Debug o then sels else alter (fun s => s <| s_Watcher := true |>) (a_Selector o) sels).

(** [UpdateOptions] *)
Definition UpdateOptions (opts : list Option) (os : options * selectors) : options * selectors := apply_opts opts os.

(** ** Configuration *)

Record Config := mkConfig { c_RPCExpired : Z; c_MaxCoroutine : Z; c_Module : module_conf }.

Definition period : ascii := ".".
Definition slash : ascii := "/".

(** [path.Ext]: from the last period after the last slash. *)
Fixpoint rev_ext (rev : list ascii) (acc : list ascii) : list ascii :=
  match rev with
  | [] => []
  | c :: rev => if decide (c = slash) then [] else if decide (c = period) then c :: acc else rev_ext rev (c :: acc)
  end.

Definition path_Ext (path : string) : list ascii := rev_ext (reverse (String.list_ascii_of_string path)) [].

Inductive parser := JSON | YAML | TOML.

(** [readFromFile]'s choice of a parser; [Err] ends the process. *)
Definition parser_of (configFileUrl : string) : outcome (result string parser) :=
  match path_Ext configFileUrl with
  | [] => Panic "slice bounds out of range"
  | _ :: ext =>
      let ext := String.string_of_list_ascii ext in
      if decide (ext = "json") then Ret (Ok JSON)
      else if decide (ext = "yaml" \/ ext = "yml") then Ret (Ok YAML)
      else if decide (ext = "toml") then Ret (Ok TOML)
      else Ret (Err "invalid file exension")
  end.

(** [load] reads and unmarshals the file. *)
Definition LoadConfig (load : parser -> string -> result string Config) (configFileUrl : string) : outcome (result string Config) :=
  p <- parser_of configFileUrl;
  match p with
  | Err e => Ret (Err e)
  | Ok p => match load p configFileUrl with
            | Err e => Ret (Err e)
            | Ok c => Ret (Ok (if c_RPCExpired c =? 0 then mkConfig 10 (c_MaxCoroutine c) (c_Module c) else c))
            end
  end.

Definition hour : Z := 3600 * second.

Definition Configure (settings : Config) (o : options) : options :=
  let o := o <| a_RPCExpired := int64 (second * c_RPCExpired settings) |> <| a_RPCMaxCoroutine := c_MaxCoroutine settings |> in
  if a_Debug o then o <| a_RPCExpired := hour |> else o.

(** ** Serializers and the data wrapper *)

Definition AddRPCSerialize {S : Type} (name : string) (Interface : S) (rpcserializes : gmap string S) : gmap string S * option string :=
  match rpcserializes !! name with
  | Some _ => (rpcserializes, Some ("rpc serialize name(" ++ name ++ ") has been occupied")%string)
  | None => (<[name := Interface]> rpcserializes, None)
  end.

(** [resultInfo]; [json] marshals it. *)
Definition ProtocolMarshal {V : Type} (json : string -> string -> option V -> result string bytes)
    (custom : option (string -> option V -> option string -> result string (option bytes)))
    (trace : string) (result_ : option V) (err : option string) : result string (option bytes) :=
  match custom with
  | Some f => f trace result_ err
  | None => match json trace (default "" err) result_ with Ok b => Ok (Some b) | Err e => Err e end
  end.
End Options.
Arguments startup_env N : clear implicits.

(** ** [Run] *)

(** What the application does, in order: [E_Module] is what the manager does. *)
Inductive app_event :=
| E_LoadConfig | E_ConfigurationLoaded | E_LogInit | E_AppConfigurationLoaded (m : nat)
| E_Module (e : mod_event) | E_Startup | E_Signal | E_OnDestroy | E_CloseTimeout.

(** How [Run] ends; [Exits] is [log.Fatalf]. *)
Inductive app_end := Returns | RunPanics (why : string) | Exits (why : string).

Definition TimerModule : nat := 0.

Section Run.
Context (GetType : nat -> string) (inited_hook loaded_hook startup_hook : bool)
        (panics : list mod_event -> mod_event -> option string) (Run_end : nat -> run_end).

Definition manager_of (mods : list nat) : ModuleManager :=
  foldl (fun mer m => Modules.Register m mer) (RegisterRunMod TimerModule NewModuleManager) mods.

Definition before_init (mods : list nat) : list app_event :=
  [E_LoadConfig] ++ (if loaded_hook then [E_ConfigurationLoaded] else []) ++ [E_LogInit] ++ (E_AppConfigurationLoaded <$> mods).

(** The two ways out of the last [select].  [fires]: how many events of the shutdown the
    goroutine that destroys the manager has behind it when the timer fires, if it does
    before the end; [log.DPanic] panics in debug mode, as zap does in development. *)
Definition shutdown (Debug : bool) (fires : option nat) (done : bool) (destroyed : list app_event) : list app_event * app_end :=
  let down := destroyed ++ (if done then [E_OnDestroy] else []) in
  match fires, done with
  | None, true => (down, Returns)
  | _, _ => (take (default (length down) fires) down ++ [E_CloseTimeout], if Debug then RunPanics "mqant close timeout" else Returns)
  end.

(** [Run] from the configuration on. *)
Definition run_modules (conf : module_conf) (ProcessID : string) (Debug : bool) (mods : list nat) (fires : option nat) :
    list app_event * app_end :=
  match Init GetType inited_hook panics conf ProcessID (manager_of mods) [] with
  | (_, t, Some why) => (before_init mods ++ (E_Module <$> t), RunPanics why)
  | (mer, t, None) =>
      let up := before_init mods ++ (E_Module <$> t) ++ (if startup_hook then [E_Startup] else []) ++ [E_Signal] in
      let '(_, t', done) := Destroy panics Run_end mer [] in
      let '(down, r) := shutdown Debug fires done (E_Module <$> t') in
      (up ++ down, r)
  end.

Definition app_Run {N R H} (load : parser -> string -> result string Config) (o : AppOptions N R H) (mods : list nat) (fires : option nat) :
    AppOptions N R H * list app_event * app_end :=
  match LoadConfig load (a_ConfPath o) with
  | Panic why => (o, [], RunPanics why)
  | Ret (Err why) => (o, [], Exits why)
  | Ret (Ok c) =>
      let o := Configure c o in
      let '(t, r) := run_modules (c_Module c) (a_ProcessID o) (a_Debug o) mods fires in
      (o, t, r)
  end.
End Run.
