(* ===== verification/AppLifeTheorems.v ===== *)
(** * Correctness of the application's options and run

    Where each option of an application comes from, and the order of the calls on its
    modules from the start of the process to its end. *)
From S2P Require Import Prelude Registry Consul Server Modules ModulesTheorems AppLife.
#[local] Open Scope mq_scope.
#[local] Open Scope string_scope.
#[local] Open Scope list_scope.
#[local] Open Scope Z_scope.

(** The first string that is not empty. *)
Definition prefer (l : list string) : string := default "" (head (filter (fun s => s <> "") l)).

Lemma prefer_cons s l : prefer (s :: l) = if decide (s = "") then prefer l else s.
Proof. unfold prefer. rewrite filter_cons. case_decide as H1; case_decide as H2; (done || (by subst)). Qed.

Lemma prefer_snoc l d : prefer (l ++ [d]) = if decide (prefer l = "") then d else prefer l.
Proof.
  induction l as [|s l IH].
  - change (prefer ([] ++ [d])) with (prefer [d]). rewrite prefer_cons. by case_decide.
  - rewrite <- app_comm_cons, !prefer_cons, IH. by repeat case_decide.
Qed.

(** ** Options *)

Section Options.
Context {N R H : Type}.

(** The command line comes first, if it is parsed at all. *)
Definition flagged (o : AppOptions N R H) (flag : string) (rest : list string) : string :=
  prefer ((if a_Parse o then [flag] else []) ++ rest).

(** The options as a function of those the caller gave, and of the directory. *)
Definition resolved (e : startup_env N) (dir : string) (o : AppOptions N R H) : AppOptions N R H :=
  o <| a_Nats := match a_Nats o, e_Connect e with Some nc, _ => Some nc | None, Ok nc => Some nc | None, Err _ => None end |>
    <| a_ProcessID := flagged o (f_pid e) [a_ProcessID o; "development"] |>
    <| a_WorkDir := dir |>
    <| a_ConfPath := flagged o (f_conf e) [a_ConfPath o; (dir ++ "/bin/conf/server.yaml")%string] |>
    <| a_LogDir := flagged o (f_log e) [a_LogDir o; (dir ++ "/bin/logs")%string] |>.

Lemma flagged_last o flag s d :
  flagged o flag [s; d] = if decide (flagged o flag [s] = "") then d else flagged o flag [s].
Proof. unfold flagged. by rewrite <- prefer_snoc, <- app_assoc. Qed.

Lemma parse_flags e (o : AppOptions N R H) :
  (if a_Parse o then parseFlag e o else o) =
    o <| a_ProcessID := flagged o (f_pid e) [a_ProcessID o] |> <| a_WorkDir := flagged o (f_wd e) [a_WorkDir o] |>
      <| a_ConfPath := flagged o (f_conf e) [a_ConfPath o] |> <| a_LogDir := flagged o (f_log e) [a_LogDir o] |>.
Proof.
  destruct o as [nc v dbg parse wd cp ld pid kw reg sel ri rt cr sr rc rx rm lf]. unfold flagged, parseFlag.
  destruct parse; cbn; rewrite !prefer_cons; repeat (case_decide; cbn); by subst.
Qed.

Definition or_else (s d : string) : string := if decide (s = "") then d else s.

(** The options once their directory is known, [o] having the command line's. *)
Definition filled (e : startup_env N) (dir : string) (o : AppOptions N R H) : AppOptions N R H :=
  o <| a_Nats := match a_Nats o, e_Connect e with Some nc, _ => Some nc | None, Ok nc => Some nc | None, Err _ => None end |>
    <| a_ProcessID := or_else (a_ProcessID o) "development" |> <| a_WorkDir := dir |>
    <| a_ConfPath := or_else (a_ConfPath o) (dir ++ "/bin/conf/server.yaml")%string |>
    <| a_LogDir := or_else (a_LogDir o) (dir ++ "/bin/logs")%string |>.

Lemma set_empty (o : AppOptions N R H) d :
  ((if decide (a_ProcessID o = "") then o <| a_ProcessID := d |> else o) = o <| a_ProcessID := or_else (a_ProcessID o) d |>) /\
  ((if decide (a_ConfPath o = "") then o <| a_ConfPath := d |> else o) = o <| a_ConfPath := or_else (a_ConfPath o) d |>) /\
  ((if decide (a_LogDir o = "") then o <| a_LogDir := d |> else o) = o <| a_LogDir := or_else (a_LogDir o) d |>).
Proof. unfold or_else. split_and!; destruct o; cbn; by case_decide. Qed.

Lemma fill_options_filled (e : startup_env N) (o : AppOptions N R H) :
  fill_options e o = (dir <- app_dir e (a_WorkDir o); if e_Open e (a_ConfPath (filled e dir o)) then Ret (filled e dir o) else Panic "config path error").
Proof.
  unfold fill_options. set (o1 := match a_Nats o with Some _ => o | None => _ end). cbv zeta. rewrite (proj1 (set_empty _ _)).
  assert (E : o1 = o <| a_Nats := match a_Nats o, e_Connect e with Some nc, _ => Some nc | None, Ok nc => Some nc | None, Err _ => None end |>)
    by (subst o1; by destruct o as [[?|]]).
  rewrite E. clear E. change (a_WorkDir (_ <| a_ProcessID := _ |>)) with (a_WorkDir o). destruct (app_dir _ _) as [dir|]; [|done].
  cbn [outcome_bind]. rewrite (proj1 (proj2 (set_empty _ _))), (proj2 (proj2 (set_empty _ _))). reflexivity.
Qed.

Lemma finish_options_resolved e (o : AppOptions N R H) :
  finish_options e o =
    (dir <- app_dir e (flagged o (f_wd e) [a_WorkDir o]);
     if e_Open e (a_ConfPath (resolved e dir o)) then Ret (resolved e dir o) else Panic "config path error").
Proof.
  unfold finish_options. rewrite fill_options_filled, parse_flags.
  change (a_WorkDir (_ <| a_LogDir := _ |>)) with (flagged o (f_wd e) [a_WorkDir o]). destruct (app_dir e _) as [dir|]; [|done].
  cbn [outcome_bind]. unfold resolved. rewrite !flagged_last. reflexivity.
Qed.

Lemma Configure_sets c (o : AppOptions N R H) :
  Configure c o = o <| a_RPCMaxCoroutine := c_MaxCoroutine c |>
                    <| a_RPCExpired := if a_Debug o then hour else int64 (second * c_RPCExpired c) |>.
Proof. destruct o as [? ? [] ? ? ? ? ? ? ? ? ? ? ? ? ? ? ? ?]; reflexivity. Qed.

(** The options of the caller, over the defaults. *)
Definition asked (reg : R) (sel : selref) (lf : H) (opts : list (@Option N R H)) (sels : gmap selref (sel_state R)) :
    AppOptions N R H * gmap selref (sel_state R) :=
  apply_opts opts (default_app_options reg sel lf, sels).

(** Where an application's options come from.  [NewApp] fails exactly when its work
    directory cannot be entered or its configuration file does not open.  Otherwise a
    string of the command line, if it is parsed, comes before the caller's option, and
    that before the default, which for the two paths is below the work directory; the
    caller's NATS connection comes before a new one; and all other options are the
    caller's.  The selector the options name, with the registry they gave it, is told to
    report removed nodes if the application is not in debug mode, and no selector is
    changed otherwise.  [Configure] then replaces the caller's RPC limits by those of
    the configuration, and the timeout by an hour in debug mode. *)
Lemma app_options_resolved (e : startup_env N) (reg : R) (sel : selref) (lf : H) (opts : list Option) (sels : gmap selref (sel_state R)) :
  let '(o, sels1) := asked reg sel lf opts sels in
  let dir := app_dir e (flagged o (f_wd e) [a_WorkDir o]) in
  match NewApp e reg sel lf opts sels with
  | Ret (o', sels') =>
      dir = Ret (a_WorkDir o') /\ e_Open e (a_ConfPath o') = true /\ o' = resolved e (a_WorkDir o') o /\
      (forall r, sels' !! r = (fun s => mkSelState (s_Registry s) (s_Watcher s || (negb (a_Debug o) && bool_decide (r = a_Selector o)))) <$> sels1 !! r) /\
      (forall c, Configure c o' = o' <| a_RPCMaxCoroutine := c_MaxCoroutine c |>
                                     <| a_RPCExpired := if a_Debug o then hour else int64 (second * c_RPCExpired c) |>)
  | Panic _ => is_panic dir = true \/ exists d, dir = Ret d /\ e_Open e (a_ConfPath (resolved e d o)) = false
  end.
Proof.
  unfold NewApp. fold (asked reg sel lf opts sels). destruct (asked reg sel lf opts sels) as [o sels1]. cbn zeta.
  rewrite finish_options_resolved. destruct (app_dir e _) as [d|]; [|by left]. cbn [outcome_bind].
  destruct (e_Open e _) eqn:Ho; [|right; by exists d]. cbn [outcome_bind]. split_and!; [done..| |].
  - change (a_Debug (resolved e d o)) with (a_Debug o). change (a_Selector (resolved e d o)) with (a_Selector o). intros r.
    destruct (a_Debug o); [by destruct (sels1 !! r) as [[? []]|]|].
    destruct (decide (r = a_Selector o)) as [->|Hn].
    + rewrite lookup_alter_eq, bool_decide_eq_true_2 by done. by destruct (sels1 !! _) as [[? []]|].
    + rewrite lookup_alter_ne, bool_decide_eq_false_2 by done. by destruct (sels1 !! _) as [[? []]|].
  - intros c. by rewrite Configure_sets.
Qed.
End Options.

(** A process started without flags: the caller's process id gives way to the flag's default. *)
Definition plain_env : startup_env unit := mkStartupEnv "" "" "development" "" (Ok tt) (fun _ => true) Ok (Ok "/srv") "/opt/".
Definition demo_opts : list (@Option unit unit unit) := [ProcessID "gate-1"; LogDir "/var/log"; Debug false].
Definition demo_sels : gmap selref (sel_state unit) := {[1%positive := mkSelState tt false]}.

Lemma app_options_resolved_witness :
  exists o sels, NewApp plain_env tt 1%positive tt demo_opts demo_sels = Ret (o, sels) /\
    a_ProcessID o = "development" /\ a_LogDir o = "/var/log" /\ a_ConfPath o = "/srv/bin/conf/server.yaml" /\
    sels !! 1%positive = Some (mkSelState tt true).
Proof.
  pose proof (app_options_resolved plain_env tt 1%positive tt demo_opts demo_sels) as Hr.
  destruct (asked _ _ _ _ _) as [o sels1] eqn:Ea. cbn zeta in Hr.
  destruct (NewApp _ _ _ _ _ _) as [[o' sels']|w] eqn:E; [|vm_compute in E; discriminate E].
  destruct Hr as (_ & _ & Ho & Hs & _). exists o', sels'. split; [done|]. rewrite Ho, Hs.
  assert (Hd : a_WorkDir o' = "/srv") by (vm_compute in E; injection E as <- _; reflexivity). rewrite Hd.
  vm_compute in Ea. injection Ea as <- <-. vm_compute. done.
Defined.

(** ** Run *)

Section Run.
Context {N R H : Type} (GetType : nat -> string) (inited_hook loaded_hook startup_hook : bool)
        (panics : list mod_event -> mod_event -> option string) (Run_end : nat -> run_end).

(** The modules that run in this process, with their settings: the timer first. *)
Definition timer : nat * option ModuleSettings := (TimerModule, None).

Definition chosen_modules (c : Config) (o : AppOptions N R H) (mods : list nat) : list (nat * option ModuleSettings) :=
  configured GetType (c_Module c) (a_ProcessID o) ((true, TimerModule) :: ((fun m => (false, m)) <$> mods)).

(** The calls that make them ready. *)
Definition readying (ms : list (nat * option ModuleSettings)) : list mod_event :=
  block inited_hook timer ++ [GoRun TimerModule] ++ (ms ≫= block inited_hook).

Definition stopping (ms : list (nat * option ModuleSettings)) : list app_event :=
  (E_Module <$> (reverse (timer :: ms) ≫= fun d => stop_block d.1)) ++ [E_OnDestroy].

Lemma manager_of_registers mods : manager_of mods = register_all ((true, TimerModule) :: ((fun m => (false, m)) <$> mods)).
Proof. unfold manager_of, register_all. cbn [foldl fst snd]. generalize (RegisterRunMod TimerModule NewModuleManager). by induction mods; intros; cbn. Qed.

Lemma timer_bootstraps mods : bootstrap ((true, TimerModule) :: ((fun m => (false, m)) <$> mods)) = [timer].
Proof. unfold bootstrap, registered_as. rewrite filter_cons_True by done. cbn. by induction mods. Qed.

Lemma readying_blocks ms :
  ([timer] ≫= fun d => block inited_hook d ++ [GoRun d.1]) ++ (ms ≫= block inited_hook) = readying ms.
Proof. unfold readying. rewrite bind_cons, <- !app_assoc. done. Qed.

(** C36. An application from start to end.  The configuration is loaded and its RPC limits
    set, the hook and the log follow, and every module is shown the configuration before any is
    initialised.  Two modules of one ID, or of one process in a type, end the process there.
    Otherwise the timer, and then the modules configured for this process id, in the
    order of the call, are initialised and made ready; one that panics is the last to be called.
    When all are ready they run, the startup hook is called and a signal is awaited.
    If every [Run] ends, the modules then stop, each once, in reverse order, though
    [OnDestroy] of some panics, [OnDestroy] of the application is last, and [Run]
    returns, unless the timer of [KillWaitTTL] fires on the way: then it returns,
    or panics in debug mode, at that point.  If a [Run] does not end, the timer fires. *)
Theorem app_run_order (load : parser -> string -> result string Config) (o : AppOptions N R H) (mods : list nat) (fires : option nat) :
  let '(o', t, r) := app_Run GetType inited_hook loaded_hook startup_hook panics Run_end load o mods fires in
  match LoadConfig load (a_ConfPath o) with
  | Panic e => t = [] /\ r = RunPanics e
  | Ret (Err e) => t = [] /\ r = Exits e
  | Ret (Ok c) =>
      let ms := chosen_modules c o mods in
      o' = Configure c o /\
      exists rest, t = before_init loaded_hook mods ++ rest /\
      (~ settings_unique (c_Module c) -> rest = [] /\ exists e, r = RunPanics e) /\
      (settings_unique (c_Module c) ->
        (exists pre ev post e, readying ms = pre ++ ev :: post /\ rest = E_Module <$> (pre ++ [ev]) /\
           panics pre ev = Some e /\ r = RunPanics e) \/
        exists down,
          rest = (E_Module <$> (readying ms ++ (GoRun ∘ fst <$> ms))) ++ (if startup_hook then [E_Startup] else []) ++ [E_Signal] ++ down /\
          (Forall (fun d => Run_end d.1 <> Never) (timer :: ms) ->
            match fires with
            | None => down = stopping ms /\ r = Returns
            | Some n => down = take n (stopping ms) ++ [E_CloseTimeout] /\ r = if a_Debug o then RunPanics "mqant close timeout" else Returns
            end) /\
          (Exists (fun d => Run_end d.1 = Never) (timer :: ms) -> last down = Some E_CloseTimeout))
  end.
Proof.
  unfold app_Run. destruct (LoadConfig load (a_ConfPath o)) as [[c|]|]; [|done..].
  assert (HP : a_ProcessID (Configure c o) = a_ProcessID o /\ a_Debug (Configure c o) = a_Debug o) by (unfold Configure; by case_match).
  destruct HP as [-> ->]. unfold run_modules. rewrite manager_of_registers.
  pose proof (modules_start_and_stop_in_order GetType inited_hook panics Run_end (c_Module c) (a_ProcessID o)
    ((true, TimerModule) :: ((fun m => (false, m)) <$> mods))) as Hm. cbn zeta in Hm. rewrite timer_bootstraps in Hm.
  fold (chosen_modules c o mods) in Hm. set (ms := chosen_modules c o mods) in *. rewrite readying_blocks in Hm.
  destruct (Init _ _ _ _ _ _ _) as [[mer t] [e|]]; destruct Hm as [Hdup Hm]; cbn zeta.
  - split; [done|]. eexists. split; [done|]. split.
    + intros Hn. destruct (Hdup Hn) as [_ ->]. by eauto.
    + intros Hu. left. destruct (Hm Hu) as [(pre & ev & post & E & -> & Hp) _]. by exists pre, ev, post, e.
  - destruct (Destroy _ _ _ _) as [[mer' t'] done] eqn:Ed.
    destruct (shutdown _ _ _ _) as [down r] eqn:Es. split; [done|]. rewrite <- (app_assoc (before_init _ _)). eexists. split; [done|].
    split; [intros Hn; by destruct (Hdup Hn) as [[] _]|]. intros Hu. right. destruct (Hm Hu) as [[-> Hend] Hnever]. exists down. split; [by rewrite <- !app_assoc|]. split.
    + intros Hall. destruct (Hend [] Hall) as [mer2 Ed2]. rewrite Ed in Ed2. injection Ed2 as _ -> ->.
      unfold shutdown in Es. cbn [app] in Es. fold (stopping ms) in Es. destruct fires; by injection Es as <- <-.
    + intros Hex. destruct (Hnever eq_refl [] Hex) as (mer2 & t2 & Ed2). rewrite Ed in Ed2. injection Ed2 as _ -> ->.
      unfold shutdown in Es. destruct fires; injection Es as <- <-; by rewrite last_snoc.
Qed.
End Run.

(** Three modules in a process of debug mode; the timer fires when two calls are left. *)
Definition demo_load (_ : parser) (_ : string) : result string Config := Ok (mkConfig 0 0 demo_conf).
Definition demo_options : AppOptions unit unit unit := default_app_options tt 1%positive tt <| a_ConfPath := "server.yaml" |> <| a_ProcessID := "p1" |>.
Abbreviation demo_run := (app_Run demo_types false true false (fun _ _ => None) (fun _ => OnSignal) demo_load demo_options [1; 2; 3]%nat).

Lemma app_run_order_witness :
  (exists o t, demo_run (Some 5%nat) = (o, t, RunPanics "mqant close timeout") /\ last t = Some E_CloseTimeout) /\
  (exists o t, demo_run None = (o, t, Returns) /\ last t = Some E_OnDestroy).
Proof.
  pose proof (app_run_order demo_types false true false (fun _ _ => None) (fun _ => OnSignal) demo_load demo_options [1; 2; 3]%nat) as H.
  assert (Hl : LoadConfig demo_load (a_ConfPath demo_options) = Ret (Ok (mkConfig 10 0 demo_conf))) by (vm_compute; reflexivity).
  assert (Hends : Forall (fun d : nat * option ModuleSettings => OnSignal <> Never) (timer :: chosen_modules demo_types (mkConfig 10 0 demo_conf) demo_options [1; 2; 3]%nat))
    by (apply Forall_forall; done).
  split.
  - specialize (H (Some 5%nat)). destruct (demo_run (Some 5%nat)) as [[o t] r]. rewrite Hl in H.
    destruct H as (_ & rest & -> & _ & H). destruct (H demo_conf_unique) as [(? & ? & ? & ? & _ & _ & Hp & _)|(down & -> & Hd & _)]; [discriminate Hp|].
    destruct (Hd Hends) as [-> Hr]. exists o. eexists. split; [by rewrite Hr|]. by rewrite !app_assoc, last_snoc.
  - specialize (H None). destruct (demo_run None) as [[o t] r]. rewrite Hl in H.
    destruct H as (_ & rest & -> & _ & H). destruct (H demo_conf_unique) as [(? & ? & ? & ? & _ & _ & Hp & _)|(down & -> & Hd & _)]; [discriminate Hp|].
    destruct (Hd Hends) as [-> ->]. exists o. eexists. split; [done|]. unfold stopping. by rewrite !app_assoc, last_snoc.
Defined.
