(* ===== verification/HttpGateway.v ===== *)
(** * The http gateway

    [httpgateway/api/util.go], which turns an http request into a message,
    [httpgateway/options.go], the default route, [httpgateway/errors/errors.go], errors with
    a status, and [ServeHTTP] of [httpgateway/api.go], which calls the service and writes
    its answer.

    Of net/http the writer of a response is modelled: headers under canonical keys, one
    final status, and the panic on a status that is none.  Outside: the parsers of
    net/http, mime and net, JSON, protobuf, [fmt.Sprintf], and the call itself. *)
From Stdlib Require Import Strings.Ascii.
From S2P Require Import Prelude Registry RpcArgs.
#[local] Open Scope mq_scope.
#[local] Open Scope string_scope.
#[local] Open Scope list_scope.
#[local] Open Scope Z_scope.

(** ** Requests *)

(** [http.Header] and [url.Values]. *)
Abbreviation values := (gmap string (list string)).

(** [r_ParseForm] is what [ParseForm] fails with; it fills [r_PostForm]. *)
Record http_request := mkHttpRequest {
  r_Method : string; r_Path : string; r_URL : string; r_Query : values; r_ParseForm : option string; r_PostForm : values;
  r_Header : values; r_Body : option string; r_Host : string; r_RemoteAddr : string }.

(** [Header.Get] of a canonical key. *)
Definition header_get (h : values) (key : string) : string := match h !! key with Some (v :: _) => v | _ => "" end.

Record Pair := mkPair { p_Key : string; p_Values : list string }.
Abbreviation pairs := (gmap string Pair).

Record Request := mkRequest {
  q_Method : string; q_Path : string; q_Header : pairs; q_Get : pairs; q_Post : pairs; q_Body : string; q_Url : string }.

(** The body of the three loops. *)
Definition put_values (m : pairs) (kv : string * list string) : pairs :=
  let '(key, vals) := kv in
  let header := default (mkPair key []) (m !! key) in
  <[key := mkPair (p_Key header) vals]> m.

Definition text_plain : string := "text/plain; charset=UTF-8".
Definition urlencoded : string := "application/x-www-form-urlencoded".

Section Request.
Context (ParseMediaType SplitHostPort : string -> result string string) (range : values -> list (string * list string)).

Definition RequestToProto (r : http_request) : result string Request :=
  match r_ParseForm r with
  | Some err => Err ("Error parsing form: " ++ err)%string
  | None =>
      let '(ct, h) :=
        match ParseMediaType (header_get (r_Header r) "Content-Type") with
        | Ok ct => (ct, r_Header r)
        | Err _ => (text_plain, <["Content-Type" := [text_plain]]> (r_Header r))
        end in
      let body := match r_Body r with Some data => if decide (ct = urlencoded) then "" else data | None => "" end in
      let header :=
        match SplitHostPort (r_RemoteAddr r) with
        | Ok ip =>
            let ip := match h !! "X-Forwarded-For" with Some prior => (String.concat ", " prior ++ ", " ++ ip)%string | None => ip end in
            {[ "X-Forwarded-For" := mkPair "X-Forwarded-For" [ip] ]}
        | Err _ => ∅
        end in
      let header := <["Host" := mkPair "Host" [r_Host r]]> header in
      Ok (mkRequest (r_Method r) (r_Path r) (foldl put_values header (range h)) (foldl put_values ∅ (range (r_Query r)))
            (foldl put_values ∅ (range (r_PostForm r))) body (r_URL r))
  end.
End Request.

(** ** The default route *)

Definition slash : Ascii.ascii := "/".

(** The server of a path, before it is looked up. *)
Definition path_server (Path : string) : result string string :=
  if decide (Path = "") then Err "path is nil"
  else match split_on slash Path "" with
       | _ :: server :: _ => if decide (server = "") then Err "server is nil" else Ok server
       | _ => Err "path is not /[server]/path"
       end.

(** The strategy it asks for; [Intn] is [rand.Intn]. *)
Definition route_strategy (Intn : nat -> nat) (services : list Service) : result string Node :=
  let nodes := services ≫= Nodes in
  match nodes !! Intn (length nodes) with
  | Some n => if decide (nodes = []) then Err "no node" else Ok n
  | None => Err "no node"
  end.

(** [GetRouteServer] looks the server up with that strategy; the handler is the path. *)
Definition DefaultRoute {S : Type} (GetRouteServer : string -> (list Service -> result string Node) -> result string S) (Intn : nat -> nat)
    (r : http_request) : result string (string * S) :=
  match path_server (r_Path r) with
  | Err e => Err e
  | Ok server => match GetRouteServer server (route_strategy Intn) with Ok s => Ok (r_Path r, s) | Err e => Err e end
  end.

(** ** Options *)

Record Options (R : Type) := mkOptions { g_TimeOut : Z; g_Route : R }.
Arguments mkOptions {R}.
Arguments g_TimeOut {R}.
Arguments g_Route {R}.

#[export] Instance eta_Options R : Eta (Options R) := fun o => mkOptions (g_TimeOut o) (g_Route o).

Definition SetRoute {R} (s : R) (o : Options R) : Options R := o <| g_Route := s |>.
Definition TimeOut {R} (s : Z) (o : Options R) : Options R := o <| g_TimeOut := s |>.

Definition NewOptions {R} (DefaultRoute : R) (RPCExpired : Z) (opts : list (Options R -> Options R)) : Options R :=
  foldl (fun o f => f o) (mkOptions RPCExpired DefaultRoute) opts.

(** ** Errors *)

Record Error := mkError { e_Id : string; e_Code : Z; e_Detail : string; e_Status : string }.

#[export] Instance eta_Error : Eta Error := fun e => mkError (e_Id e) (e_Code e) (e_Detail e) (e_Status e).

Section Errors.
Context (json_Marshal : Error -> string) (json_Unmarshal : string -> Error * bool) (StatusText : Z -> string) (Sprintf : string -> string).

Definition Error_ (e : Error) : string := json_Marshal e.

Definition New (id detail : string) (code : Z) : Error := mkError id code detail (StatusText code).

(** [json_Unmarshal] may have set fields before it fails. *)
Definition Parse (err : string) : Error :=
  let '(e, ok) := json_Unmarshal err in if (ok : bool) then e else e <| e_Detail := err |>.

(** [fmt.Sprintf(format, a...)] without arguments. *)
Definition status_error (code : Z) (id format : string) : Error := mkError id code (Sprintf format) (StatusText code).

Definition BadRequest : string -> string -> Error := status_error 400.
Definition Unauthorized : string -> string -> Error := status_error 401.
Definition Forbidden : string -> string -> Error := status_error 403.
Definition NotFound : string -> string -> Error := status_error 404.
Definition MethodNotAllowed : string -> string -> Error := status_error 405.
Definition Timeout_ : string -> string -> Error := status_error 408.
Definition Conflict : string -> string -> Error := status_error 409.
Definition InternalServerError : string -> string -> Error := status_error 500.

(** ** The response writer *)

Record writer := mkWriter { w_Header : values; w_informed : list Z; w_status : option Z; w_body : string }.

#[local] Instance eta_writer : Eta writer := fun w => mkWriter (w_Header w) (w_informed w) (w_status w) (w_body w).

Definition new_writer : writer := mkWriter ∅ [] None "".

(** [CanonicalHeaderKey] *)
Context (canon : string -> string).

Definition Header_Set (key value : string) (w : writer) : writer := let h := w_Header w in w <| w_Header := <[canon key := [value]]> h |>.
Definition Header_Add (key value : string) (w : writer) : writer :=
  let h := w_Header w in w <| w_Header := <[canon key := default [] (h !! canon key) ++ [value]]> h |>.

(** A status of 1xx other than 101 is sent at once and is not the last. *)
Definition WriteHeader (code : Z) (w : writer) : outcome writer :=
  match w_status w with
  | Some _ => Ret w
  | None =>
      if (code <? 100) || (999 <? code) then Panic "invalid WriteHeader code"
      else if (code <=? 199) && negb (code =? 101) then let l := w_informed w in Ret (w <| w_informed := l ++ [code] |>)
      else Ret (w <| w_status := Some code |>)
  end.

Definition body_allowed (status : Z) : bool := negb ((100 <=? status) && (status <=? 199)) && negb (status =? 204) && negb (status =? 304).

Definition Write (data : string) (w : writer) : writer :=
  let status := default 200 (w_status w) in
  let b := w_body w in
  w <| w_status := Some status |> <| w_body := if body_allowed status then (b ++ data)%string else b |>.

(** ** [ServeHTTP] *)

(** [api.Response]; its headers in the order the map is ranged over. *)
Record Response := mkResponse { a_StatusCode : Z; a_Header : list Pair; a_Body : string }.

(** [err.Error()] of what [mqrpc.Proto] returns; [unexpected] is a type error's text. *)
Definition reply_text (unexpected : string -> string) (e : reply_err) : string :=
  match e with
  | RErr e => e
  | RErrorf format => Sprintf format
  | RErrNil => "mqrpc: nil returned"
  | RErrRange => "mqrpc: value out of range"
  | RType want => unexpected want
  end.

Definition json_type : string := "application/json".

Definition answer (code : Z) (body : string) (w : writer) : outcome writer :=
  w <- WriteHeader code w; Ret (Write body w).

Definition fail (code : Z) (e : Error) (w : writer) : outcome writer :=
  answer code (Error_ e) (Header_Set "Content-Type" json_type w).

Definition add_pair (w : writer) (p : Pair) : writer := foldl (fun w v => Header_Add (p_Key p) v w) w (p_Values p).

Definition succeed (rsp : Response) (w : writer) : outcome writer :=
  let code := if a_StatusCode rsp =? 0 then 200 else a_StatusCode rsp in
  let w := foldl add_pair w (a_Header rsp) in
  let w := if decide (header_get (w_Header w) (canon "Content-Type") = "") then Header_Set "Content-Type" json_type w else w in
  answer code (a_Body rsp) w.

(** [to_proto] is [RequestToProto], [Call] the session's call under the gateway's
    timeout, [unmarshal] protobuf's. *)
Definition ServeHTTP {S J Sp : Type} (unexpected : string -> string) (to_proto : http_request -> result string Request)
    (Route : http_request -> result string (string * S)) (Call : S -> string -> Request -> gval J Sp * gerr)
    (unmarshal : bytes -> result string Response) (r : http_request) : outcome writer :=
  match to_proto r with
  | Err e => fail 500 (InternalServerError "httpgateway" e) new_writer
  | Ok request =>
      match Route r with
      | Err e => fail 500 (InternalServerError "httpgateway" e) new_writer
      | Ok (Hander, SrvSession) =>
          let '(reply, errstr) := Call SrvSession Hander request in
          match Proto true (Some unmarshal) reply errstr with
          | Err e =>
              let ce := Parse (reply_text unexpected e) in
              fail (if e_Code ce =? 0 then 500 else e_Code ce) ce new_writer
          | Ok rsp => succeed rsp new_writer
          end
      end
  end.
End Errors.
