(* ===== verification/HttpGatewayTheorems.v ===== *)
(** * Correctness of the http gateway

    What of an http request reaches the service, and what of the service's answer reaches
    the client. *)
From S2P Require Import Prelude Registry RpcArgs HttpGateway.
#[local] Open Scope mq_scope.
#[local] Open Scope string_scope.
#[local] Open Scope list_scope.
#[local] Open Scope Z_scope.

(** ** Pairs *)

Definition as_pairs (m : values) : pairs := map_imap (fun k v => Some (mkPair k v)) m.

Lemma lookup_as_pairs m k : as_pairs m !! k = mkPair k <$> m !! k.
Proof. unfold as_pairs. rewrite map_lookup_imap. by destruct (m !! k). Qed.

(** Every pair is stored under its own key. *)
Definition keyed (m : pairs) : Prop := forall k p, m !! k = Some p -> p_Key p = k.

Lemma keyed_as_pairs m : keyed (as_pairs m).
Proof. intros k p. rewrite lookup_as_pairs. destruct (m !! k); [by intros [= <-] | done]. Qed.

Lemma put_values_keyed m k vals : keyed m -> put_values m (k, vals) = <[k := mkPair k vals]> m.
Proof. intros Hm. unfold put_values. destruct (m !! k) as [p|] eqn:E; [|done]. cbn. by rewrite (Hm k p E). Qed.

Lemma keyed_insert m k vals : keyed m -> keyed (<[k := mkPair k vals]> m).
Proof. intros Hm k' p. destruct (decide (k' = k)) as [->|Hn]; [rewrite lookup_insert_eq; by intros [= <-] | rewrite lookup_insert_ne by done; apply Hm]. Qed.

Lemma put_all l : forall m, keyed m -> NoDup l.*1 ->
  foldl put_values m l = as_pairs (list_to_map l) ∪ m.
Proof.
  induction l as [|[k vals] l IH]; intros m Hm Hnd; cbn [foldl].
  - apply map_eq. intros k. rewrite lookup_union, lookup_as_pairs. cbn. by destruct (m !! k).
  - apply NoDup_cons in Hnd as [Hk Hnd]. rewrite put_values_keyed, IH by (done || by apply keyed_insert). apply map_eq. intros k'.
    rewrite !lookup_union, !lookup_as_pairs. cbn [list_to_map foldr uncurry fst snd]. destruct (decide (k' = k)) as [->|Hn].
    + rewrite !lookup_insert_eq. rewrite (proj1 (not_elem_of_list_to_map _ _) Hk). cbn. by destruct (m !! k).
    + by rewrite !lookup_insert_ne.
Qed.

Section Range.
Context (range : values -> list (string * list string)) (Hrange : forall m, range m ≡ₚ map_to_list m).

Lemma put_range h m : keyed m -> foldl put_values m (range h) = as_pairs h ∪ m.
Proof.
  intros Hm. rewrite put_all; [|done|rewrite Hrange; apply NoDup_fst_map_to_list].
  f_equal. f_equal. rewrite (list_to_map_proper (range h) (map_to_list h)); [apply list_to_map_to_list| |apply Hrange].
  rewrite Hrange. apply NoDup_fst_map_to_list.
Qed.

Lemma put_range_empty h : foldl put_values ∅ (range h) = as_pairs h.
Proof. rewrite put_range by done. apply map_union_empty. Qed.
End Range.

(** ** Answers *)

Section Answers.
Context (json_Marshal : Error -> string) (json_Unmarshal : string -> Error * bool) (StatusText : Z -> string) (Sprintf : string -> string)
        (canon : string -> string).

(** What is sent first, and the final status. *)
Definition final_status (code : Z) : outcome (list Z * Z) :=
  if (code <? 100) || (999 <? code) then Panic "invalid WriteHeader code"
  else if (code <=? 199) && negb (code =? 101) then Ret ([code], 200) else Ret ([], code).

Definition answered (code : Z) (h : values) (body : string) : outcome writer :=
  s <- final_status code; Ret (mkWriter h s.1 (Some s.2) (if body_allowed s.2 then body else "")).

Lemma answer_fresh code body h : answer code body (mkWriter h [] None "") = answered code h body.
Proof. unfold answer, answered, final_status, WriteHeader. cbn. repeat case_match; done. Qed.

(** The values that the pairs of an answer give to a canonical key. *)
Definition header_values (ps : list Pair) (k : string) : list string :=
  ps ≫= fun p => if decide (canon (p_Key p) = k) then p_Values p else [].

Definition fresh_with (h : values) : writer := mkWriter h [] None "".

Lemma add_pair_header p h : exists h', add_pair canon (fresh_with h) p = fresh_with h' /\
  forall k, default [] (h' !! k) = default [] (h !! k) ++ (if decide (canon (p_Key p) = k) then p_Values p else []).
Proof.
  destruct p as [key vs]. unfold add_pair. cbn [p_Key p_Values]. revert h. induction vs as [|v vs IH]; intros h; cbn [foldl].
  - exists h. split; [done|]. intros k. case_decide; by rewrite app_nil_r.
  - destruct (IH (<[canon key := default [] (h !! canon key) ++ [v]]> h)) as (h' & E & Hh). exists h'. split; [exact E|].
    intros k. rewrite Hh. destruct (decide (canon key = k)) as [<-|Hn]; [rewrite lookup_insert_eq; cbn; by rewrite <- app_assoc | by rewrite lookup_insert_ne].
Qed.

Lemma add_pairs_header ps : forall h, exists h', foldl (add_pair canon) (fresh_with h) ps = fresh_with h' /\
  forall k, default [] (h' !! k) = default [] (h !! k) ++ header_values ps k.
Proof.
  induction ps as [|p ps IH]; intros h; cbn [foldl].
  - exists h. split; [done|]. intros k. by rewrite app_nil_r.
  - destruct (add_pair_header p h) as (h1 & -> & H1). destruct (IH h1) as (h2 & -> & H2). exists h2. split; [done|].
    intros k. rewrite H2, H1. unfold header_values at 2. rewrite bind_cons. by rewrite <- app_assoc.
Qed.

(** The header of an answer: what its pairs give, and JSON for a type they do not. *)
Definition answer_header (ps : list Pair) (h : values) : Prop := forall k,
  default [] (h !! k) =
    if decide (k = "Content-Type" /\ head (header_values ps k) ∈ [None; Some ""]) then [json_type] else header_values ps k.

Lemma succeed_answers rsp : canon "Content-Type" = "Content-Type" ->
  exists h, answer_header (a_Header rsp) h /\
    succeed canon rsp new_writer = answered (if a_StatusCode rsp =? 0 then 200 else a_StatusCode rsp) h (a_Body rsp).
Proof.
  intros Hc. unfold succeed. destruct (add_pairs_header (a_Header rsp) ∅) as (h & E & Hh). change new_writer with (fresh_with ∅). rewrite E.
  setoid_rewrite lookup_empty in Hh. cbn [default from_option app] in Hh. rewrite Hc. change (w_Header (fresh_with h)) with h.
  assert (Hget : header_get h "Content-Type" = default "" (head (header_values (a_Header rsp) "Content-Type"))).
  { rewrite <- Hh. unfold header_get. by destruct (h !! "Content-Type") as [[|v l]|]. }
  rewrite Hget. case_decide as Hd.
  - exists (<["Content-Type" := [json_type]]> h). split.
    + intros k. destruct (decide (k = "Content-Type")) as [->|Hn].
      * rewrite lookup_insert_eq, decide_True; [done|]. split; [done|]. destruct (head _) as [s|]; cbn in Hd; subst; set_solver.
      * rewrite lookup_insert_ne, decide_False by (done || by intros [? _]). apply Hh.
    + unfold Header_Set. rewrite Hc. apply answer_fresh.
  - exists h. split; [|apply answer_fresh]. intros k. rewrite decide_False; [apply Hh|]. intros [-> Hin]. apply Hd.
    destruct (head _) as [s|]; [|done]. set_solver.
Qed.
End Answers.

(** ** Properties *)

(** The headers a request is left with: a type that does not parse is replaced. *)
Definition typed_headers (ParseMediaType : string -> result string string) (h : values) : values :=
  match ParseMediaType (header_get h "Content-Type") with Ok _ => h | Err _ => <["Content-Type" := [text_plain]]> h end.

(** What the service is sent of an http request: its method, path and address; every
    query value, form value and header under its own key, with all its values; the host
    and the client's address as headers, unless the request has these headers itself,
    in which case it is theirs that are sent, without the address of the client; a
    content type in any case; and the body, but for a form.  The order in which the maps are
    ranged over does not matter.  Only a form that does not parse is refused. *)
Lemma request_reaches_service (ParseMediaType SplitHostPort : string -> result string string)
  (range : values -> list (string * list string)) (Hrange : forall m, range m ≡ₚ map_to_list m) (r : http_request) :
  let h := typed_headers ParseMediaType (r_Header r) in
  let own := <["Host" := [r_Host r]]> (match SplitHostPort (r_RemoteAddr r) with Ok ip => {["X-Forwarded-For" := [ip]]} | Err _ => ∅ end) in
  RequestToProto ParseMediaType SplitHostPort range r =
    match r_ParseForm r with
    | Some e => Err ("Error parsing form: " ++ e)%string
    | None => Ok (mkRequest (r_Method r) (r_Path r) (as_pairs (h ∪ own)) (as_pairs (r_Query r)) (as_pairs (r_PostForm r))
                    (match ParseMediaType (header_get (r_Header r) "Content-Type") with
                     | Ok ct => if decide (ct = urlencoded) then "" else default "" (r_Body r) | Err _ => default "" (r_Body r) end)
                    (r_URL r))
    end.
Proof.
  intros h own. unfold RequestToProto. destruct (r_ParseForm r); [done|]. rewrite !put_range_empty by done.
  assert (Hct : (match ParseMediaType (header_get (r_Header r) "Content-Type") with
    | Ok ct => (ct, r_Header r) | Err _ => (text_plain, <["Content-Type" := [text_plain]]> (r_Header r)) end)
    = (match ParseMediaType (header_get (r_Header r) "Content-Type") with Ok ct => ct | Err _ => text_plain end, h))
    by (unfold h, typed_headers; by destruct (ParseMediaType _)).
  rewrite Hct. do 2 f_equal.
  - rewrite put_range; [|done|].
    + apply map_eq. intros k. rewrite lookup_union, !lookup_as_pairs, lookup_union. destruct (h !! k) as [v|] eqn:Eh.
      * match goal with |- _ ∪ ?X = _ <$> (_ ∪ ?Y) => by destruct X, Y end.
      * unfold own. destruct (decide (k = "Host")) as [->|Hn]; [by rewrite !lookup_insert_eq|]. rewrite !lookup_insert_ne by done.
        destruct (SplitHostPort _); [|by rewrite !lookup_empty].
        destruct (decide (k = "X-Forwarded-For")) as [->|Hx]; [by rewrite !lookup_singleton_eq, Eh | by rewrite !lookup_singleton_ne].
    + apply keyed_insert. destruct (SplitHostPort _); [|done]. intros k p. destruct (decide (k = "X-Forwarded-For")) as [->|Hx];
        [rewrite lookup_singleton_eq; by intros [= <-] | by rewrite lookup_singleton_ne].
  - destruct (ParseMediaType _) as [ct|]; destruct (r_Body r); cbn; repeat case_decide; congruence || done.
Qed.

Definition demo_request : http_request :=
  mkHttpRequest "GET" "/chat/hello" "/chat/hello?a=1" {["a" := ["1"]]} None ∅ {["X-Forwarded-For" := ["10.0.0.9"]]} (Some "hi") "example.org" "10.0.0.1:80".

(** The proxy's address is lost though the code computes it. *)
Lemma request_reaches_service_witness :
  exists q, RequestToProto (fun _ => Err "mime: no media type") (fun _ => Ok "10.0.0.1") map_to_list demo_request = Ok q /\
    q_Header q !! "X-Forwarded-For" = Some (mkPair "X-Forwarded-For" ["10.0.0.9"]) /\
    q_Get q !! "a" = Some (mkPair "a" ["1"]) /\ q_Body q = "hi".
Proof.
  eexists. split; [exact (request_reaches_service (fun _ => Err "mime: no media type") (fun _ => Ok "10.0.0.1") map_to_list (fun m => reflexivity _) demo_request)|].
  vm_compute. done.
Defined.


(** An encoding of errors that reads back. *)
Definition demo_marshal (e : Error) : string := FormatInt (Zpos (encode (e_Id e, e_Code e, e_Detail e, e_Status e))).
Definition demo_unmarshal (s : string) : Error * bool :=
  match parse_signed s with
  | Some (Zpos p) =>
      match decode (A := string * Z * string * string) p with
      | Some (i, c, d, st) => (mkError i c d st, true)
      | None => (mkError "" 0 "" "", false)
      end
  | _ => (mkError "" 0 "" "", false)
  end.

Lemma demo_unmarshal_marshal e : demo_unmarshal (demo_marshal e) = (e, true).
Proof. unfold demo_unmarshal, demo_marshal. rewrite parse_signed_FormatInt, decode_encode. by destruct e. Qed.

Definition not_found : Error := mkError "chat" 404 "no room" "Not Found".
Definition demo_answer : Response := mkResponse 0 [mkPair "x-room" ["1"]; mkPair "x-room" ["2"]] "hello".
Definition demo_serve (reply : gval unit unit * gerr) : outcome writer :=
  ServeHTTP (S := unit) demo_marshal demo_unmarshal (fun _ => "") (fun s => s) (fun s => s) (fun s => s)
    (fun _ => Ok (mkRequest "GET" "/chat" ∅ ∅ ∅ "" "")) (fun _ => Ok ("/chat", tt)) (fun _ _ _ => reply) (fun _ => Ok demo_answer) demo_request.


(** ** The default route *)

(** The server of [/server/...] is looked up, and only such paths are. *)
Lemma path_server_of server rest : no_char slash server -> server <> "" ->
  path_server (String slash (String.append server (String slash rest))) = Ok server.
Proof.
  intros Hs Hne. unfold path_server. rewrite decide_False by done.
  change (split_on slash (String slash (String.append server (String slash rest))) "") with ("" :: split_on slash (String.append server (String slash rest)) "").
  rewrite split_on_piece by done. cbn [split_on]. rewrite decide_True by done. by rewrite decide_False.
Qed.

(** The strategy takes one of the nodes of the services, if there are any. *)
Lemma route_strategy_listed Intn services n : route_strategy Intn services = Ok n -> exists s, s ∈ services /\ n ∈ Nodes s.
Proof.
  unfold route_strategy. destruct (_ !! _) as [m|] eqn:E; [|done]. case_decide; [done|]. intros [= <-].
  apply list_elem_of_lookup_2, list_elem_of_bind in E. naive_solver.
Qed.

Lemma route_strategy_total Intn services : (forall k, (0 < k)%nat -> (Intn k < k)%nat) -> services ≫= Nodes <> [] ->
  exists n, route_strategy Intn services = Ok n.
Proof.
  intros Hi Hne. unfold route_strategy. destruct (lookup_lt_is_Some_2 (services ≫= Nodes) (Intn (length (services ≫= Nodes)))) as [n ->].
  - apply Hi. destruct (services ≫= Nodes); [done|]. cbn. lia.
  - rewrite decide_False by done. by exists n.
Qed.
