(* ===== verification/RemoteCall.v ===== *)
(** * A remote call from end to end

    [RPCClient.Call] and [CallNR] ([rpc/base/rpc_client.go]) over the client's table ([NatsClient]), the
    messages on their way, and the server ([RpcServer]), as one machine: a caller encodes
    its arguments and publishes, the server runs any request that is there (as one step), a reply reaches
    the client's receiving goroutine, and both may be lost.  Every step of the client that is
    not a call or a message is a step of this machine too.

    Values of the reflection package are the rpc values themselves; what an application
    installs is as in [RpcServer]. *)
From S2P Require Import Prelude RpcArgs NatsClient RpcServer.
#[local] Open Scope mq_scope.
#[local] Open Scope string_scope.
#[local] Open Scope list_scope.
#[local] Open Scope Z_scope.

(** [y_issued] remembers the calls that were published, by their ids. *)
Record system (J Sp : Type) := mkSystem {
  y_client : NatsClient; y_server : RPCServer (gval J Sp); y_requests : list RPCInfo; y_replies : list ResultInfo;
  y_issued : gmap string (string * list (gval J Sp)) }.
Arguments mkSystem {J Sp}.
Arguments y_client {J Sp}.
Arguments y_server {J Sp}.
Arguments y_requests {J Sp}.
Arguments y_replies {J Sp}.
Arguments y_issued {J Sp}.

#[export] Instance eta_system J Sp : Eta (system J Sp) := fun y =>
  mkSystem (y_client y) (y_server y) (y_requests y) (y_replies y) (y_issued y).

Inductive sys_event (J Sp : Type) :=
| YCall (fn : string) (params : list (gval J Sp)) (published : bool) (start : Z)   (** [Call] up to its [select] *)
| YCallNR (fn : string) (params : list (gval J Sp)) (published : bool) (cid : string) (start : Z)   (** [CallNR] *)
| YServe (i : nat)                                                               (** the server runs a request *)
| YReply (i : nat)                                                               (** the client receives a reply *)
| YLoseRequest (i : nat)
| YLoseReply (i : nat)
| YClient (e : event).                                                           (** another step of the client *)
Arguments YCall {J Sp}.
Arguments YCallNR {J Sp}.
Arguments YServe {J Sp}.
Arguments YReply {J Sp}.
Arguments YLoseRequest {J Sp}.
Arguments YLoseReply {J Sp}.
Arguments YClient {J Sp}.

Section System.
Context {J Sp : Type}.
Abbreviation V := (gval J Sp).
Context (json_map : J -> result string bytes) (unjson_map : bytes -> result string J)
        (json_mapstr : gmap string string -> result string bytes) (unjson_mapstr : bytes -> result string (gmap string string))
        (json_span : Sp -> result string bytes) (unjson_span : bytes -> result string Sp) (ExtractSpan : Sp -> Sp)
        (serializers : list (RPCSerialize J Sp)) (as_error : V -> out_err)
        (has_control has_listener : bool) (NoFoundFunction : string -> result string (FunctionInfo V))
        (BeforeHandle OnError OnComplete : RPCInfo -> option string) (ServerRPCHandler : RPCInfo -> ResultInfo -> option string)
        (RpcCompleteHandler : RPCInfo -> option string) (module_type stack : string)
        (gen_cid : nat -> string) (hostname : string) (ctx_caller : option string) (rpc_expired : Z).

Definition serve : RPCInfo -> ST (RPCServer V) unit :=
  runFunc (Bytes2Args unjson_map unjson_mapstr unjson_span ExtractSpan serializers) (fun v => v)
    (ArgsTypeAnd2Bytes json_map json_mapstr json_span serializers) as_error has_control has_listener NoFoundFunction BeforeHandle
    OnError OnComplete ServerRPCHandler RpcCompleteHandler module_type stack.

(** A parameter that cannot be encoded, or a refused or failed publish, ends the call at once. *)
Definition sys_call (fn : string) (params : list V) (published : bool) (start : Z) (y : system J Sp) : system J Sp :=
  match Call_args json_map json_mapstr json_span serializers params with
  | Err _ => y
  | Ok l =>
      let cid := gen_cid (calls (y_client y)) in
      match Call gen_cid published (y_client y) with
      | (c, Some _) => y <| y_client := c |>
      | (c, None) =>
          let qs := y_requests y in let issued := y_issued y in
          y <| y_client := c |> <| y_issued := <[cid := (fn, params)]> issued |>
            <| y_requests := qs ++ [call_info hostname cid ctx_caller start rpc_expired true fn l.*1 l.*2] |>
      end
  end.

(** A call without reply is not registered, and its caller is [hostname]. *)
Definition sys_callnr (fn : string) (params : list V) (published : bool) (cid : string) (start : Z) (y : system J Sp) : system J Sp :=
  match Call_args json_map json_mapstr json_span serializers params with
  | Err _ => y
  | Ok l =>
      if isClose (y_client y) || negb published then y
      else let qs := y_requests y in
           y <| y_requests := qs ++ [call_info hostname cid None start rpc_expired false fn l.*1 l.*2] |>
  end.

(** What the server published is on its way to the caller. *)
Definition sys_serve (i : nat) (y : system J Sp) : option (system J Sp) :=
  q ← y_requests y !! i;
  match serve q (y_server y) with
  | Done s _ =>
      let qs := y_requests y in let rs := y_replies y in
      Some (y <| y_requests := delete i qs |> <| y_replies := rs ++ drop (length (published (y_server y))) (published s) |>
              <| y_server := s |>)
  | _ => None
  end.

Definition sys_reply (i : nat) (y : system J Sp) : option (system J Sp) :=
  r ← y_replies y !! i;
  c ← step gen_cid (EvMessage r) (y_client y);
  let rs := y_replies y in Some (y <| y_replies := delete i rs |> <| y_client := c |>).

Definition client_event (e : event) : bool := match e with EvCall _ | EvMessage _ => false | _ => true end.

Definition sys_step (y : system J Sp) (e : sys_event J Sp) : option (system J Sp) :=
  match e with
  | YCall fn params published start => Some (sys_call fn params published start y)
  | YCallNR fn params published cid start => Some (sys_callnr fn params published cid start y)
  | YServe i => sys_serve i y
  | YReply i => sys_reply i y
  | YLoseRequest i => let qs := y_requests y in Some (y <| y_requests := delete i qs |>)
  | YLoseReply i => let rs := y_replies y in Some (y <| y_replies := delete i rs |>)
  | YClient e => if client_event e then c ← step gen_cid e (y_client y); Some (y <| y_client := c |>) else None
  end.

Definition sys_run : list (sys_event J Sp) -> system J Sp -> option (system J Sp) := run_steps sys_step.

Definition sys_init (s : RPCServer V) : system J Sp := mkSystem NewNatsClient s [] [] ∅.
End System.
