(* ===== verification/RemoteCallTheorems.v ===== *)
(** * Correctness of a remote call

    [reply_of] is the server as a function from a request to its one reply, [local_result]
    the call as if the function were run by its caller; a caller that is answered gets
    the latter, whatever else happened on the way. *)
From S2P Require Import Prelude RpcArgs RpcArgsTheorems NatsClient NatsClientTheorems RpcServer RpcServerTheorems RemoteCall.
#[local] Open Scope mq_scope.
#[local] Open Scope st_scope.
#[local] Open Scope string_scope.
#[local] Open Scope list_scope.
#[local] Open Scope Z_scope.

(** ** The server's reply *)

Section Reply.
Context {V J Sp : Type}
        (Bytes2Args : string -> bytes -> outcome (result string (gval J Sp))) (of_gval : gval J Sp -> V)
        (encode : V -> result string (string * bytes)) (as_error : V -> out_err) (has_control has_listener : bool)
        (NoFoundFunction : string -> result string (FunctionInfo V)) (BeforeHandle OnError OnComplete : RPCInfo -> option string)
        (ServerRPCHandler : RPCInfo -> ResultInfo -> option string) (RpcCompleteHandler : RPCInfo -> option string)
        (module_type stack : string).

Abbreviation run := (runFunc Bytes2Args of_gval encode as_error has_control has_listener NoFoundFunction BeforeHandle OnError OnComplete
                       ServerRPCHandler RpcCompleteHandler module_type stack).

Definition reply_of_outputs (q : RPCInfo) (outs : list V) : ResultInfo :=
  match outs with
  | [v; e] =>
      match RpcCompleteHandler q with
      | Some why => error_result (Cid q) (panic_report module_type stack q why)
      | None => match result_of encode as_error module_type q v e with Ok r => r | Err e => error_result (Cid q) e end
      end
  | _ => error_result (Cid q) (bad_return module_type q)
  end.

Definition reply_of_function (q : RPCInfo) (f : FunctionInfo V) : ResultInfo :=
  if negb (length (Args q) =? NumIn f)%nat then error_result (Cid q) "The number of params is not adapted."
  else match decode_args Bytes2Args of_gval (InType f) (ArgsType q) (Args q) with
       | Panic why => error_result (Cid q) (panic_report module_type stack q why)
       | Ret (Err e) => error_result (Cid q) e
       | Ret (Ok vs) =>
           match (if has_listener then BeforeHandle q else None) with
           | Some e => error_result (Cid q) e
           | None =>
               if negb (length vs =? NumIn f)%nat then
                 error_result (Cid q) (panic_report module_type stack q "reflect: Call with too few input arguments")
               else match body f vs with
                    | Panics why => error_result (Cid q) (panic_report module_type stack q why)
                    | Returns outs => reply_of_outputs q outs
                    end
           end
       end.

Definition no_function (q : RPCInfo) : string :=
  if has_listener then match NoFoundFunction (Fn q) with Err e => e | Ok _ => "" end
  else "invalid memory address or nil pointer dereference".

Definition reply_of (q : RPCInfo) (s : RPCServer V) : ResultInfo :=
  match target has_listener NoFoundFunction q s with
  | Some f => reply_of_function q f
  | None => error_result (Cid q) (no_function q)
  end.

Context (Hcalm : calm OnError ServerRPCHandler) (Hcomplete : forall q, OnComplete q = None).

(** A run of the server's code that publishes [r], and no more, and returns, or that panics
    before it has published anything. *)
Definition publishes (q : RPCInfo) (r : ResultInfo) (s : RPCServer V) (m : exec (RPCServer V) unit) : Prop :=
  exists s', m = Done s' tt /\ published s' = (if Reply q then published s ++ [r] else published s) /\ functions s' = functions s.

Definition fails (why : string) (s : RPCServer V) (m : exec (RPCServer V) unit) : Prop := m = Panicked s why.

Abbreviation onError := (errorCallback has_listener OnError ServerRPCHandler).

Lemma errorCallback_publishes q e s : publishes q (error_result (Cid q) e) s (onError q e s).
Proof.
  destruct (errorCallback_calm has_listener OnError ServerRPCHandler Hcalm q e s) as (s' & H & [A1 _ A3]). by exists s'.
Qed.

Lemma answer_publishes q r s : publishes q r s (answer has_listener OnComplete ServerRPCHandler q r s).
Proof.
  unfold answer. destruct (doCallback_calm OnError ServerRPCHandler Hcalm q r s) as (s1 & H & [A1 _ A3] & _). step H.
  destruct has_listener; [|by exists s1]. eexists. split; [unfold st_bind; cbn; rewrite Hcomplete; reflexivity|]. done.
Qed.

Lemma execute_replies q f s : length (Args q) = NumIn f ->
  let m := execute Bytes2Args of_gval encode as_error has_listener BeforeHandle OnError OnComplete ServerRPCHandler RpcCompleteHandler module_type f q s in
  publishes q (reply_of_function q f) s m \/ exists why, fails why s m /\ reply_of_function q f = error_result (Cid q) (panic_report module_type stack q why).
Proof.
  intros Hlen. unfold execute, reply_of_function. rewrite Hlen, Nat.eqb_refl. cbn [negb].
  destruct (decode_args _ _ _ _ _) as [[vs|e]|why]; [|left; apply errorCallback_publishes|right; by exists why].
  destruct (if has_listener then BeforeHandle q else None); [left; apply errorCallback_publishes|].
  destruct (negb _); [right; by eexists|]. destruct (body f vs) as [outs|why]; [|right; by exists why].
  unfold answer_outputs, reply_of_outputs. destruct outs as [|v [|e [|]]]; try (left; apply errorCallback_publishes).
  unfold st_bind, application. destruct (RpcCompleteHandler q) as [why|]; cbn; [right; by exists why|]. left.
  destruct (result_of _ _ _ _ _ _); [apply answer_publishes | apply errorCallback_publishes].
Qed.

Lemma runFunc__replies q f s : publishes q (reply_of_function q f) s
  (runFunc_ Bytes2Args of_gval encode as_error has_control has_listener BeforeHandle OnError OnComplete ServerRPCHandler RpcCompleteHandler module_type stack f q s).
Proof.
  unfold runFunc_. destruct (length (Args q) =? NumIn f)%nat eqn:E; cbn [negb].
  2: { unfold reply_of_function. rewrite E. apply errorCallback_publishes. }
  apply Nat.eqb_eq in E. destruct (execute_replies q f (enter s) E) as [(s' & -> & Hp & Hf)|(why & -> & ->)].
  - by exists (leave has_control s').
  - destruct (errorCallback_publishes q (panic_report module_type stack q why) (leave has_control (enter s))) as (s' & H & Hp & Hf). by exists s'.
Qed.

(** One reply to every request, and which. *)
Lemma run_replies q s : publishes q (reply_of q s) s (run q s).
Proof.
  unfold reply_of. destruct (target has_listener NoFoundFunction q s) as [f|] eqn:Ht.
  - rewrite (run_target Bytes2Args of_gval encode as_error has_control has_listener NoFoundFunction BeforeHandle OnError OnComplete
      ServerRPCHandler RpcCompleteHandler module_type stack q s f Ht).
    destruct (runFunc__replies q f (slot has_control s)) as (s' & H & Hp & Hf). exists s'. split; [|done].
    destruct (Goroutine f); [done|]. by apply recovering_done.
  - unfold target in Ht. unfold runFunc, no_function. fold (slot has_control s). change (functions (slot has_control s)) with (functions s).
    destruct (functions s !! Fn q); [done|]. destruct has_listener eqn:El.
    + destruct (NoFoundFunction (Fn q)) as [?|e]; [done|].
      pose proof (errorCallback_publishes q e (slot has_control s)) as (s' & H & Hp & Hf). rewrite El in H. exists s'.
      split; [by apply recovering_done | done].
    + pose proof (errorCallback_publishes q "invalid memory address or nil pointer dereference" (slot has_control s)) as (s' & H & Hp & Hf).
      rewrite El in H. by exists s'.
Qed.
End Reply.

(** ** The client keeps what it was sent *)

(** Every result the client holds has the property. *)
Definition holds (P : ResultInfo -> Prop) (c : NatsClient) : Prop :=
  (forall ch r, loop c = Delivering ch r -> P r) /\ (forall ch x, chans c !! ch = Some x -> Forall P (sent x)).

Lemma holds_impl (P Q : ResultInfo -> Prop) c : (forall r, P r -> Q r) -> holds P c -> holds Q c.
Proof. intros H [H1 H2]. split; [by eauto|]. intros ch x Hx. eapply Forall_impl; [by eapply H2|done]. Qed.

(** Channels that are the old ones, as far as what was sent on them goes. *)
Definition sends_from (c c' : NatsClient) : Prop :=
  forall ch x', chans c' !! ch = Some x' -> exists x, chans c !! ch = Some x /\ sent x' = sent x.

Lemma sends_close ch c c' : sends_from c c' -> sends_from c (close_chan ch c').
Proof.
  intros H ch' x'. cbn. intros [(<- & x & Hx & ->)|[_ Hx]]%lookup_alter_Some; [|by apply H]. by destruct (H _ _ Hx) as (y & Hy & E); exists y.
Qed.

Lemma sends_finish c : sends_from c (finish c) /\ calls (finish c) = calls c.
Proof.
  assert (Hc : chans (stop c) = chans c /\ calls (stop c) = calls c) by (unfold stop; by case_match). unfold finish. cbn.
  assert (H : sends_from c (map_fold (fun _ ch c => close_chan ch c) (stop c) (callinfos (stop c))) /\
    calls (map_fold (fun _ ch c => close_chan ch c) (stop c) (callinfos (stop c))) = calls c); [|done].
  apply (map_fold_weak_ind (fun (c' : NatsClient) (_ : gmap string cref) => sends_from c c' /\ calls c' = calls c)).
  - split; [|by apply Hc]. intros ch x. rewrite (proj1 Hc). by exists x.
  - intros _ ch _ c' _ [H1 H2]. split; [by apply sends_close|done].
Qed.

Lemma holds_sends P c c' : sends_from c c' -> (forall ch r, loop c' = Delivering ch r -> P r) -> holds P c -> holds P c'.
Proof. intros Hs Hl [_ H2]. split; [done|]. intros ch x' Hx. destruct (Hs ch x' Hx) as (x & Hx' & ->). by eapply H2. Qed.

Lemma sends_refl c c' : chans c' = chans c -> sends_from c c'.
Proof. intros E ch x. rewrite E. by exists x. Qed.

(** A step of the client only adds the result it is sent. *)
Lemma step_holds gen_cid P e c c' : holds P c -> (forall r, e = EvMessage r -> P r) -> step gen_cid e c = Some c' ->
  holds P c' /\ (calls c <= calls c')%nat.
Proof.
  intros Hh Hr Hs. destruct e as [published|cid| |r| | | |closed resub| | |ch]; cbn in Hs.
  - injection Hs as <-. unfold Call.
    assert (Hnew : forall c1, chans c1 = <[fresh (dom (chans c)) := mkChan (gen_cid (calls c)) [] 0 0]> (chans c) -> loop c1 = loop c -> holds P c1).
    { intros c1 E1 E2. destruct Hh as [H1 H2]. split; [by rewrite E2|]. intros ch x. rewrite E1. intros [[<- <-]|[_ Hx]]%lookup_insert_Some; [constructor|by eapply H2]. }
    cbn. repeat case_match; cbn; split; (try by apply Hnew); lia.
  - injection Hs as <-. unfold Delete. case_match; split; done || lia.
  - injection Hs as <-. unfold stop. case_match; split; done || lia.
  - destruct (loop c) eqn:El; try done. injection Hs as <-. unfold take_call. case_match; [|by split]. split; [|done].
    split; [|apply Hh]. intros ch r' [= <- <-]. by apply Hr.
  - destruct (loop c) as [|ch r| |] eqn:El; try done. destruct (chans c !! ch) as [x|] eqn:Ex; [|done]. destruct (has_room x); [|done].
    injection Hs as <-. split; [|done]. destruct Hh as [H1 H2]. split; [done|]. cbn. intros ch' x'.
    intros [[<- <-]|[_ Hx]]%lookup_insert_Some; [|by eapply H2]. cbn. apply Forall_app. split; [by eapply H2|]. constructor; [by eapply H1|constructor].
  - destruct (loop c) eqn:El; try done. destruct (isClose c); [|done]. injection Hs as <-. split; [|done]. split; [done|apply Hh].
  - destruct (loop c) eqn:El; try done. injection Hs as <-. split; [|done]. eapply holds_sends; [|done|exact Hh].
    intros ch' x' Hx. by apply (sends_close ch c c (sends_refl c c eq_refl)) in Hx.
  - destruct (loop c) eqn:El; try done. injection Hs as <-. unfold receive_failed. destruct (sends_finish c) as [Hf Hc].
    destruct (isClose c || closed); [split; [by eapply holds_sends|lia]|]. repeat case_match; by split.
  - injection Hs as <-. by split.
  - destruct (loop c) eqn:El; try done. destruct (isClose c); [|done]. injection Hs as <-. destruct (sends_finish c) as [Hf Hc].
    split; [by eapply holds_sends|lia].
  - destruct (chans c !! ch) as [x|] eqn:Ex; [|by destruct (loop c)].
    assert (Hs' : (if (taken x <? length (sent x))%nat then Some (c <| chans := <[ch := x <| taken := S (taken x) |>]> (chans c) |>) else None) = Some c')
      by (by destruct (loop c)).
    case_match; [|done]. injection Hs' as <-. split; [|done]. split; [apply Hh|]. cbn. intros ch' x'.
    intros [[<- <-]|[_ Hx]]%lookup_insert_Some; [exact (proj2 Hh ch x Ex) | by eapply (proj2 Hh)].
Qed.

(** ** A call and its result *)

Section System.
Context {J Sp : Type}.
Abbreviation V := (gval J Sp).
Context (json_map : J -> result string bytes) (unjson_map : bytes -> result string J)
        (json_mapstr : gmap string string -> result string bytes) (unjson_mapstr : bytes -> result string (gmap string string))
        (json_span : Sp -> result string bytes) (unjson_span : bytes -> result string Sp) (ExtractSpan : Sp -> Sp)
        (serializers : list (RPCSerialize J Sp)) (as_error : V -> out_err)
        (has_control has_listener : bool) (NoFoundFunction : string -> result string (FunctionInfo V))
        (BeforeHandle OnError OnComplete : RPCInfo -> option string) (ServerRPCHandler : RPCInfo -> ResultInfo -> option string)
        (RpcCompleteHandler : RPCInfo -> option string) (module_type stack : string)
        (gen_cid : nat -> string) (hostname : string) (ctx_caller : option string) (rpc_expired : Z).

Abbreviation encode := (ArgsTypeAnd2Bytes json_map json_mapstr json_span serializers).
Abbreviation decode := (Bytes2Args unjson_map unjson_mapstr unjson_span ExtractSpan serializers).
Abbreviation encode_all := (Call_args json_map json_mapstr json_span serializers).
Abbreviation arrives := (received unjson_map unjson_mapstr unjson_span ExtractSpan).
Abbreviation request cid start fn l := (call_info hostname cid ctx_caller start rpc_expired true fn l.*1 l.*2).

(** Values of their types that no serializer takes. *)
Definition good (v : V) : Prop := in_range v /\ unclaimed serializers v.

(** What a parameter of a type is given for a value that arrived, in bytes and as decoded. *)
Definition passed (ty : in_type V) (r : result string V) (b : bytes) : result string V :=
  match ty with
  | InMessage unmarshal => unmarshal b
  | InPlain zero takes_bytes unjson =>
      match r with
      | Err e => Err e
      | Ok GNil => Ok zero
      | Ok (GBytes l) => if takes_bytes then Ok (GBytes l) else match unjson l with Ok v => Ok v | Err _ => Ok (GBytes l) end
      | Ok v => Ok v
      end
  end.

Fixpoint passed_all (ins : list (in_type V)) (params : list V) (l : list (string * bytes)) : result string (list V) :=
  match ins, params, l with
  | ty :: ins, p :: params, a :: l =>
      match passed ty (arrives p a.2) a.2 with
      | Err e => Err e
      | Ok v => match passed_all ins params l with Ok vs => Ok (v :: vs) | Err e => Err e end
      end
  | _, _, _ => Ok []
  end.

(** An error is told from a result by its text. *)
Definition as_caller (e : string) (r : result string V) : result string V := if decide (e = "") then r else Err e.

(** The outputs of a function as its caller sees them. *)
Definition local_outputs (q : RPCInfo) (outs : list V) : result string V :=
  match outs with
  | [v; e] =>
      match RpcCompleteHandler q with
      | Some why => as_caller (panic_report module_type stack q why) (Ok GNil)
      | None =>
          match as_error e, encode v with
          | OOther, _ => as_caller (bad_return module_type q) (Ok GNil)
          | _, Err er => as_caller er (Ok GNil)
          | ONil, Ok (_, b) => arrives v b
          | OString t, Ok (_, b) | OError t, Ok (_, b) => as_caller t (arrives v b)
          end
      end
  | _ => as_caller (bad_return module_type q) (Ok GNil)
  end.

(** The function called where the caller is: on the values as they arrive, with the
    listener's word before and the panic caught. *)
Definition local_result (q : RPCInfo) (params : list V) (l : list (string * bytes)) (s : RPCServer V) : result string V :=
  match target has_listener NoFoundFunction q s with
  | None => as_caller (no_function has_listener NoFoundFunction q) (Ok GNil)
  | Some f =>
      if negb (length params =? NumIn f)%nat then as_caller "The number of params is not adapted." (Ok GNil)
      else match passed_all (InType f) params l with
           | Err e => as_caller e (Ok GNil)
           | Ok vs =>
               match (if has_listener then BeforeHandle q else None) with
               | Some e => as_caller e (Ok GNil)
               | None =>
                   match body f vs with
                   | Panics why => as_caller (panic_report module_type stack q why) (Ok GNil)
                   | Returns outs => local_outputs q outs
                   end
               end
           end
  end.

Lemma args_from_Ok : forall params k l, args_from json_map json_mapstr json_span serializers k params = Ok l ->
  Forall2 (fun p a => encode p = Ok a) params l.
Proof.
  induction params as [|p params IH]; intros k l; cbn [args_from]; [by intros [= <-]|].
  destruct (encode p) as [a|e] eqn:E; [|done]. destruct (args_from _ _ _ _ (S k) params) as [l'|] eqn:El; [|done].
  intros [= <-]. constructor; [done|by eapply IH].
Qed.

Lemma decode_received v a : good v -> encode v = Ok a -> decode a.1 a.2 = Ret (arrives v a.2).
Proof. intros [Hr Hu] He. destruct a as [ty b]. by eapply args_roundtrip. Qed.

Lemma decode_arg_passed ty v a : good v -> encode v = Ok a ->
  decode_arg decode (fun v => v) ty a.1 a.2 = Ret (passed ty (arrives v a.2) a.2).
Proof.
  intros Hg He. destruct ty as [u|zero tb unjson]; [done|]. cbn [decode_arg]. rewrite (decode_received v a Hg He). cbn [outcome_bind passed].
  by destruct (arrives v a.2) as [[]|].
Qed.

Lemma decode_args_passed : forall params ins l, length params = length ins -> Forall good params ->
  Forall2 (fun p a => encode p = Ok a) params l ->
  decode_args decode (fun v => v) ins l.*1 l.*2 = Ret (passed_all ins params l) /\
  forall vs, passed_all ins params l = Ok vs -> length vs = length ins.
Proof.
  induction params as [|p params IH]; intros [|ty ins] l Hlen Hg H2; try done; inversion H2; subst.
  { split; [done|]. by intros vs [= <-]. }
  apply Forall_cons in Hg as [Hp Hg]. cbn [fmap list_fmap decode_args passed_all]. rewrite (decode_arg_passed ty p) by done.
  destruct (passed ty _ _) as [v|e]; [|done]. destruct (IH ins l' ltac:(by injection Hlen) Hg ltac:(done)) as [-> Hl].
  destruct (passed_all ins params l') as [vs|e]; [|done]. split; [done|]. intros vs' [= <-]. cbn. by rewrite (Hl vs eq_refl).
Qed.

(** What the caller makes of a result it is sent. *)
Definition caller_gets (r : ResultInfo) : outcome (result string V) :=
  if decide (r_Error r = "") then decode (r_ResultType r) (r_Result r) else Ret (Err (r_Error r)).

Lemma caller_gets_error cid e : caller_gets (error_result cid e) = Ret (as_caller e (Ok GNil)).
Proof. unfold caller_gets, as_caller. cbn. by case_decide. Qed.

Lemma caller_gets_value cid t v ty b : good v -> encode v = Ok (ty, b) ->
  caller_gets (mkResultInfo cid t ty b) = Ret (as_caller t (arrives v b)).
Proof. intros Hg He. unfold caller_gets, as_caller. cbn. case_decide; [|done]. by apply (decode_received v (ty, b)). Qed.

Lemma caller_gets_outputs q outs : (forall v e, outs = [v; e] -> good v) ->
  caller_gets (reply_of_outputs encode as_error RpcCompleteHandler module_type stack q outs) = Ret (local_outputs q outs).
Proof.
  intros Hg. unfold reply_of_outputs, local_outputs. destruct outs as [|v [|e [|]]]; try apply caller_gets_error.
  destruct (RpcCompleteHandler q); [apply caller_gets_error|]. unfold result_of.
  destruct (encode v) as [[ty b]|er] eqn:E; destruct (as_error e) as [|t|t|]; try apply caller_gets_error;
    rewrite (caller_gets_value (Cid q) _ v ty b) by eauto; done.
Qed.

(** The reply to a request means the local result. *)
Lemma caller_gets_reply cid start fn params l s :
  let q := request cid start fn l in
  Forall good params -> encode_all params = Ok l ->
  (forall f vs v e, target has_listener NoFoundFunction q s = Some f -> body f vs = Returns [v; e] -> good v) ->
  caller_gets (reply_of decode (fun v => v) encode as_error has_listener NoFoundFunction BeforeHandle RpcCompleteHandler module_type stack q s)
    = Ret (local_result q params l s).
Proof.
  intros q Hp He%args_from_Ok Ho. unfold reply_of, local_result.
  destruct (target has_listener NoFoundFunction q s) as [f|] eqn:Et; [|apply caller_gets_error]. unfold reply_of_function.
  assert (length (Args q) = length params) as -> by (cbn; rewrite length_fmap; symmetry; by eapply Forall2_length).
  destruct (length params =? NumIn f)%nat eqn:El; cbn [negb]; [|apply caller_gets_error]. apply Nat.eqb_eq in El.
  destruct (decode_args_passed params (InType f) l El Hp He) as [Hd Hlen]. change (ArgsType q) with l.*1. change (Args q) with l.*2.
  rewrite Hd. destruct (passed_all (InType f) params l) as [vs|e]; [|apply caller_gets_error].
  destruct (if has_listener then BeforeHandle q else None); [apply caller_gets_error|]. unfold NumIn. rewrite (Hlen vs eq_refl), Nat.eqb_refl. cbn [negb].
  destruct (body f vs) as [outs|why] eqn:Eb; [|apply caller_gets_error]. apply caller_gets_outputs. intros v e ->. by eapply Ho.
Qed.

(** *** The machine *)

Section Machine.
Context (Hgen : Inj (=) (=) gen_cid) (Hcalm : calm OnError ServerRPCHandler) (Hcomplete : forall q, OnComplete q = None) (s0 : RPCServer V).

Abbreviation reply := (reply_of decode (fun v => v) encode as_error has_listener NoFoundFunction BeforeHandle RpcCompleteHandler module_type stack).
Abbreviation the_step := (sys_step json_map unjson_map json_mapstr unjson_mapstr json_span unjson_span ExtractSpan serializers as_error has_control
  has_listener NoFoundFunction BeforeHandle OnError OnComplete ServerRPCHandler RpcCompleteHandler module_type stack gen_cid hostname ctx_caller rpc_expired).
Abbreviation issues := (gmap string (string * list V)).

(** A request for a call that was made, and the server's reply to one. *)
Definition issued_request (issued : issues) (q : RPCInfo) : Prop :=
  exists start fn params l, issued !! Cid q = Some (fn, params) /\ Forall good params /\ encode_all params = Ok l /\ q = request (Cid q) start fn l.

Definition genuine (issued : issues) (r : ResultInfo) : Prop :=
  exists q, issued_request issued q /\ r_Cid r = Cid q /\ r = reply q s0.

Record sys_ok (y : system J Sp) : Prop := {
  ok_client : inv gen_cid (y_client y);
  ok_functions : functions (y_server y) = functions s0;
  ok_issued : forall cid p, y_issued y !! cid = Some p -> exists k, (k < calls (y_client y))%nat /\ cid = gen_cid k;
  ok_requests : Forall (fun q => Reply q = false \/ issued_request (y_issued y) q) (y_requests y);
  ok_replies : Forall (genuine (y_issued y)) (y_replies y);
  ok_results : holds (genuine (y_issued y)) (y_client y) }.

Lemma issued_grows issued cid p q : issued !! cid = None -> issued_request issued q -> issued_request (<[cid := p]> issued) q.
Proof.
  intros Hn (start & fn & params & l & Hi & H). exists start, fn, params, l. split; [|done]. rewrite lookup_insert_ne; [done|]. intros ->. congruence.
Qed.

Lemma genuine_grows issued cid p r : issued !! cid = None -> genuine issued r -> genuine (<[cid := p]> issued) r.
Proof. intros Hn (q & Hq & H). exists q. split; [by apply issued_grows|done]. Qed.

Lemma reply_functions q s : functions s = functions s0 -> reply q s = reply q s0.
Proof. intros Hf. unfold reply_of, target. by rewrite Hf. Qed.

Lemma reply_Cid q s : r_Cid (reply q s) = Cid q.
Proof.
  unfold reply_of. destruct (target _ _ _ _) as [f|]; [|done]. unfold reply_of_function. repeat (case_match; try done).
  all: unfold reply_of_outputs; repeat (case_match; try done); by eapply result_of_cid.
Qed.

Lemma sys_init_ok : sys_ok (sys_init s0).
Proof.
  by split.
Qed.

(** A step of the client alone. *)
Lemma client_step_ok e c y : sys_ok y -> step gen_cid e (y_client y) = Some c -> (forall r, e = EvMessage r -> genuine (y_issued y) r) ->
  sys_ok (y <| y_client := c |>).
Proof.
  intros [H1 H2 H3 H4 H5 H6] Hs Hr. destruct (step_holds gen_cid _ e _ _ H6 Hr Hs) as [Hh Hc]. split; cbn; try done.
  - by eapply inv_step.
  - intros cid p Hi. destruct (H3 cid p Hi) as (k & Hk & ->). exists k. split; [lia|done].
Qed.

Lemma sys_call_ok fn params published start y : sys_ok y -> Forall good params ->
  sys_ok (sys_call json_map json_mapstr json_span serializers gen_cid hostname ctx_caller rpc_expired fn params published start y).
Proof.
  intros Hy Hg. unfold sys_call. destruct (encode_all params) as [l|] eqn:El; [|done].
  set (cid := gen_cid (calls (y_client y))).
  pose proof (fun c => client_step_ok (EvCall published) c y Hy) as Hc. cbn [step] in Hc. specialize (Hc _ eq_refl ltac:(done)).
  assert (Hnew : y_issued y !! cid = None).
  { destruct (y_issued y !! cid) as [p|] eqn:E; [|done]. destruct (ok_issued y Hy cid p E) as (k & Hk & Ek). apply Hgen in Ek. lia. }
  assert (Hn : calls (Call gen_cid published (y_client y)).1 = S (calls (y_client y))) by (unfold Call; cbn; by repeat case_match).
  destruct (Call gen_cid published (y_client y)) as [c [e|]]; cbn [fst] in *; [done|].
  destruct Hc as [H1 H2 H3 H4 H5 H6]. cbn in *. split; cbn; try done.
  - intros i p [[<- <-]|[_ Hi]]%lookup_insert_Some; [|by eapply H3]. exists (calls (y_client y)). split; [lia|done].
  - apply Forall_app. split.
    + eapply Forall_impl; [exact H4|]. intros q [?|?]; [by left | right; by apply issued_grows].
    + constructor; [|constructor]. right. exists start, fn, params, l. cbn. by rewrite lookup_insert_eq.
  - eapply Forall_impl; [exact H5|]. intros r. by apply genuine_grows.
  - eapply holds_impl; [|exact H6]. intros r. by apply genuine_grows.
Qed.

Definition typed_event (e : sys_event J Sp) : Prop := match e with YCall _ params _ _ => Forall good params | _ => True end.

Lemma sys_step_ok y e y' : typed_event e -> sys_ok y -> the_step y e = Some y' -> sys_ok y'.
Proof.
  intros Ht Hy Hs. destruct e as [fn params published start|fn params published cid start|i|i|i|i|e]; cbn in Hs, Ht.
  - injection Hs as <-. by apply sys_call_ok.
  - injection Hs as <-. unfold sys_callnr. destruct (encode_all params) as [l|]; [|done]. destruct (_ || _); [done|].
    destruct Hy as [H1 H2 H3 H4 H5 H6]. split; cbn; try done. apply Forall_app. split; [done|]. constructor; [by left|constructor].
  - unfold sys_serve in Hs. destruct (y_requests y !! i) as [q|] eqn:Eq; [|done]. cbn in Hs.
    assert (Hq : Reply q = false \/ issued_request (y_issued y) q) by exact (Forall_lookup_1 _ _ _ _ (ok_requests y Hy) Eq).
    destruct (run_replies decode (fun v => v) encode as_error has_control has_listener NoFoundFunction BeforeHandle OnError OnComplete
      ServerRPCHandler RpcCompleteHandler module_type stack Hcalm Hcomplete q (y_server y)) as (s & Hrun & Hp & Hf).
    unfold serve in Hs. rewrite Hrun in Hs. injection Hs as <-. destruct Hy as [H1 H2 H3 H4 H5 H6]. split; cbn; try done; [congruence|by apply Forall_delete|].
    apply Forall_app. split; [done|]. rewrite Hp. destruct Hq as [->|Hq]; [rewrite drop_all; constructor|].
    assert (Reply q = true) as -> by (destruct Hq as (? & ? & ? & ? & _ & _ & _ & ->); done).
    rewrite drop_app_length. constructor; [|constructor]. exists q. split; [done|]. split; [apply reply_Cid | by apply reply_functions].
  - unfold sys_reply in Hs. apply bind_Some in Hs as (r & Er & Hs). apply bind_Some in Hs as (c & Ec & Hs). injection Hs as <-.
    assert (Hr : genuine (y_issued y) r) by (eapply Forall_lookup_1; [apply (ok_replies y Hy)|exact Er]).
    destruct (client_step_ok (EvMessage r) c y Hy Ec) as [H1 H2 H3 H4 H5 H6]; [by intros r' [= <-]|].
    split; cbn in *; try done. by apply Forall_delete.
  - injection Hs as <-. destruct Hy. split; cbn; try done. by apply Forall_delete.
  - injection Hs as <-. destruct Hy. split; cbn; try done. by apply Forall_delete.
  - destruct (client_event e) eqn:Ee; [|done]. destruct (step gen_cid e (y_client y)) as [c|] eqn:Ec; [|done]. injection Hs as <-.
    apply (client_step_ok e); [done..|]. by intros r ->.
Qed.

(** A caller that can wake up with a result gets the local result of its call. *)
Lemma sys_ok_result
  (y : system J Sp) (ch : cref) (x : chan) (r : ResultInfo)
  (Hout : forall q f vs v e, target has_listener NoFoundFunction q s0 = Some f -> body f vs = Returns [v; e] -> good v) :
  sys_ok y -> chans (y_client y) !! ch = Some x -> can_wake x (WResult r) ->
  exists start fn params l,
    y_issued y !! ch_cid x = Some (fn, params) /\ encode_all params = Ok l /\
    (CallArgs_end decode (ch_cid x) ch (WResult r)).2 = Ret (local_result (request (ch_cid x) start fn l) params l s0).
Proof.
  intros Hok Hx Hw. cbn in Hw. apply list_elem_of_lookup_2 in Hw.
  destruct (i_sound _ _ (ok_client y Hok) ch x Hx) as (_ & _ & _ & Hcid). rewrite Forall_forall in Hcid.
  pose proof (proj2 (ok_results y Hok) ch x Hx) as Hg. rewrite Forall_forall in Hg.
  destruct (Hg r Hw) as (q & (start & fn & params & l & Hi & Hp & He & Hq) & Hrq & Hr).
  rewrite <- Hrq, (Hcid r Hw) in Hi, Hq. exists start, fn, params, l. split; [done|]. split; [done|].
  change ((CallArgs_end decode (ch_cid x) ch (WResult r)).2) with (caller_gets r). rewrite Hr, Hq.
  apply (caller_gets_reply _ _ fn); try done. intros f vs v e. apply Hout.
Qed.

Lemma sys_ok_server y s : functions s = functions s0 -> sys_ok y -> sys_ok (y <| y_server := s |>).
Proof. intros Hs [H1 H2 H3 H4 H5 H6]. by split. Qed.
End Machine.
End System.
