(* ===== verification/ModuleCalls.v ===== *)
(** * What a module calls, and what calls it

    The rest of [BaseModule] ([module/base/base_module.go]): the calls it makes through
    the application's routing ([App]), and the listener it installs in its own server,
    which passes every callback on to the module's listener ([mqrpc.RPCListener],
    [rpc/rpc.go]).

    A module's listener may be the module's own subclass, which embeds the [BaseModule]: a
    method it does not override is the [BaseModule]'s, which asks the listener again. *)
From S2P Require Import Prelude Registry Selector App RpcArgs NatsClient RpcServer.
#[local] Open Scope mq_scope.
#[local] Open Scope st_scope.
#[local] Open Scope string_scope.
#[local] Open Scope list_scope.
#[local] Open Scope Z_scope.

(** ** The listener *)

(** [mqrpc.RPCListener] with the methods the server calls: the text of an error, or of the panic of a callback
    that returns nothing. *)
Record RPCListener (V : Type) := mkRPCListener {
  rl_NoFoundFunction : string -> result string (FunctionInfo V);
  rl_BeforeHandle : string -> RPCInfo -> option string;
  rl_OnTimeOut : string -> Z -> option string;
  rl_OnError : string -> RPCInfo -> option string;
  rl_OnComplete : string -> RPCInfo -> option string }.
Arguments mkRPCListener {V}.
Arguments rl_NoFoundFunction {V}.
Arguments rl_BeforeHandle {V}.
Arguments rl_OnTimeOut {V}.
Arguments rl_OnError {V}.
Arguments rl_OnComplete {V}.

(** The methods a subclass has of its own. *)
Record overrides (V : Type) := mkOverrides {
  ov_NoFoundFunction : option (string -> result string (FunctionInfo V));
  ov_BeforeHandle : option (string -> RPCInfo -> option string);
  ov_OnTimeOut : option (string -> Z -> option string);
  ov_OnError : option (string -> RPCInfo -> option string);
  ov_OnComplete : option (string -> RPCInfo -> option string) }.
Arguments mkOverrides {V}.
Arguments ov_NoFoundFunction {V}.
Arguments ov_BeforeHandle {V}.
Arguments ov_OnTimeOut {V}.
Arguments ov_OnError {V}.
Arguments ov_OnComplete {V}.

(** The value of [m.listener]. *)
Inductive listener (V : Type) :=
| NoListener
| Foreign (l : RPCListener V)          (** an object of its own *)
| Subclass (o : overrides V).          (** the module's subclass, which embeds it *)
Arguments NoListener {V}.
Arguments Foreign {V}.
Arguments Subclass {V}.

Section Listener.
Context {V : Type}.

(** A method of [BaseModule] that passes on to the listener; [None] when the stack of
    [fuel] frames is used up. *)
Fixpoint pass_on {A} (fuel : nat) (foreign : RPCListener V -> A) (own : overrides V -> option A) (none : A) (l : listener V) : option A :=
  match fuel with
  | O => None
  | S fuel =>
      match l with
      | NoListener => Some none
      | Foreign l => Some (foreign l)
      | Subclass o =>
          match own o with
          | Some a => Some a
          | None => pass_on fuel foreign own none l
          end
      end
  end.

Definition NoFoundFunction (fuel : nat) (l : listener V) (fn : string) : option (result string (FunctionInfo V)) :=
  pass_on fuel (fun r => rl_NoFoundFunction r fn) (fun o => (fun f => f fn) <$> ov_NoFoundFunction o)
    (Err ("Remote function(" ++ fn ++ ") not found")%string) l.

Definition BeforeHandle (fuel : nat) (l : listener V) (fn : string) (call : RPCInfo) : option (option string) :=
  pass_on fuel (fun r => rl_BeforeHandle r fn call) (fun o => (fun f => f fn call) <$> ov_BeforeHandle o) None l.

Definition OnTimeOut (fuel : nat) (l : listener V) (fn : string) (Expired : Z) : option (option string) :=
  pass_on fuel (fun r => rl_OnTimeOut r fn Expired) (fun o => (fun f => f fn Expired) <$> ov_OnTimeOut o) None l.

Definition OnError (fuel : nat) (l : listener V) (fn : string) (call : RPCInfo) : option (option string) :=
  pass_on fuel (fun r => rl_OnError r fn call) (fun o => (fun f => f fn call) <$> ov_OnError o) None l.

Definition OnComplete (fuel : nat) (l : listener V) (fn : string) (call : RPCInfo) : option (option string) :=
  pass_on fuel (fun r => rl_OnComplete r fn call) (fun o => (fun f => f fn call) <$> ov_OnComplete o) None l.

End Listener.

(** ** Calls *)

(** The remote calls of a [serverSession], which are its rpc client's. *)
Record session_calls (Sel P A R : Type) := mkSessionCalls {
  sc_Call : string -> P -> pref -> ST (DefaultApp Sel) (result app_err R);
  sc_CallNR : string -> P -> pref -> ST (DefaultApp Sel) (result app_err unit);
  sc_CallArgs : string -> A -> pref -> ST (DefaultApp Sel) (result app_err R);
  sc_CallNRArgs : string -> A -> pref -> ST (DefaultApp Sel) (result app_err unit) }.
Arguments sc_Call {Sel P A R}.
Arguments sc_CallNR {Sel P A R}.
Arguments sc_CallArgs {Sel P A R}.
Arguments sc_CallNRArgs {Sel P A R}.

Section Calls.
Context {Sel P A R : Type} `{ServiceSelector Sel} (subscribe_error : Node -> option string) (mapRoute : option (string -> string))
        (session : session_calls Sel P A R).
Abbreviation AM := (ST (DefaultApp Sel)).
Abbreviation route_to := (routed_call subscribe_error mapRoute).

Definition Invoke (moduleType fn : string) (params : P) : AM (result app_err R) := route_to moduleType [] (sc_Call session fn params).
Definition InvokeNR (moduleType fn : string) (params : P) : AM (result app_err unit) := route_to moduleType [] (sc_CallNR session fn params).
Definition InvokeArgs (moduleType fn : string) (args : A) : AM (result app_err R) := route_to moduleType [] (sc_CallArgs session fn args).
Definition InvokeNRArgs (moduleType fn : string) (args : A) : AM (result app_err unit) := route_to moduleType [] (sc_CallNRArgs session fn args).
Definition Call (moduleType fn : string) (param : unit -> P) (filters : list Filter) : AM (result app_err R) :=
  route_to moduleType filters (fun p => sc_Call session fn (param tt) p).
End Calls.
