(* ===== verification/Cluster.v ===== *)
(** * A cluster of modules

    An application that routes its invocations ([App]), the rpc client of every session it
    has made, the messages between them and the servers of the instances ([RemoteCall]), as
    one machine: [Invoke] of [app/app.go] is a routing step followed by a call on the
    session it found; between the two, and at every point where the application holds no
    lock, anything else may happen.

    The sessions' clients, requests and replies are kept by the session ([link]); a
    server is found at the address of the session's node, and shared by all sessions
    to that address. *)
From S2P Require Import Prelude Registry Selector App RpcArgs NatsClient RpcServer RemoteCall ModuleCalls.
#[local] Open Scope mq_scope.
#[local] Open Scope string_scope.
#[local] Open Scope list_scope.
#[local] Open Scope Z_scope.

(** The rpc side of a session. *)
Record link (J Sp : Type) := mkLink {
  ln_client : NatsClient; ln_requests : list RPCInfo; ln_replies : list ResultInfo;
  ln_issued : gmap string (string * list (gval J Sp)) }.
Arguments mkLink {J Sp}.
Arguments ln_client {J Sp}.
Arguments ln_requests {J Sp}.
Arguments ln_replies {J Sp}.
Arguments ln_issued {J Sp}.

(** What a process installs in the server of an instance, and the server as it starts. *)
Record host (J Sp : Type) := mkHost {
  h_control : bool; h_listener : option (RPCListener (gval J Sp)); h_ServerRPCHandler : RPCInfo -> ResultInfo -> option string;
  h_RpcCompleteHandler : RPCInfo -> option string; h_type : string; h_stack : string; h_server : RPCServer (gval J Sp) }.
Arguments mkHost {J Sp}.
Arguments h_control {J Sp}.
Arguments h_listener {J Sp}.
Arguments h_ServerRPCHandler {J Sp}.
Arguments h_RpcCompleteHandler {J Sp}.
Arguments h_type {J Sp}.
Arguments h_stack {J Sp}.
Arguments h_server {J Sp}.

(** The listener as the server calls it. *)
Section Host.
Context {J Sp : Type} (h : host J Sp).

Definition h_has_listener : bool := bool_decide (is_Some (h_listener h)).

Definition h_NoFoundFunction (fn : string) : result string (FunctionInfo (gval J Sp)) :=
  match h_listener h with Some l => rl_NoFoundFunction l fn | None => Err "" end.

Definition h_BeforeHandle (q : RPCInfo) : option string :=
  match h_listener h with Some l => rl_BeforeHandle l (Fn q) q | None => None end.

Definition h_OnError (q : RPCInfo) : option string :=
  match h_listener h with Some l => rl_OnError l (Fn q) q | None => None end.

Definition h_OnComplete (q : RPCInfo) : option string :=
  match h_listener h with Some l => rl_OnComplete l (Fn q) q | None => None end.
End Host.

(** [k_servers] holds the servers that have changed since they started, by address;
    [k_routed] every routing that found a session. *)
Record cluster (Sel J Sp : Type) := mkCluster {
  k_app : DefaultApp Sel; k_links : gmap pref (link J Sp); k_servers : gmap string (RPCServer (gval J Sp));
  k_routed : list (string * pref) }.
Arguments mkCluster {Sel J Sp}.
Arguments k_app {Sel J Sp}.
Arguments k_links {Sel J Sp}.
Arguments k_servers {Sel J Sp}.
Arguments k_routed {Sel J Sp}.

Inductive cluster_event (J Sp : Type) :=
| KRoute (schedule : list (list action)) (filter : string) (filters : list Filter)
    (** [GetRouteServer], with what other goroutines do meanwhile *)
| KCall (i : nat) (fn : string) (params : list (gval J Sp)) (published : bool) (start : Z)
    (** [Call] on the session of the [i]-th routing *)
| KCallNR (i : nat) (fn : string) (params : list (gval J Sp)) (published : bool) (cid : string) (start : Z)
| KLink (p : pref) (e : sys_event J Sp)
    (** another step of a session's client, its messages or its server *)
| KWatch (node : Node).
    (** the watcher drops an instance *)
Arguments KRoute {J Sp}.
Arguments KCall {J Sp}.
Arguments KCallNR {J Sp}.
Arguments KLink {J Sp}.
Arguments KWatch {J Sp}.

Section Cluster.
Context {Sel J Sp : Type} `{ServiceSelector Sel} (subscribe_error : Node -> option string) (mapRoute : option (string -> string)).
Abbreviation V := (gval J Sp).
Context (json_map : J -> result string bytes) (unjson_map : bytes -> result string J)
        (json_mapstr : gmap string string -> result string bytes) (unjson_mapstr : bytes -> result string (gmap string string))
        (json_span : Sp -> result string bytes) (unjson_span : bytes -> result string Sp) (ExtractSpan : Sp -> Sp)
        (serializers : list (RPCSerialize J Sp)) (as_error : V -> out_err)
        (hosts : string -> host J Sp) (gen_cid : pref -> nat -> string) (hostname : string) (rpc_expired : Z).

Definition new_link : link J Sp := mkLink NewNatsClient [] [] ∅.

Definition server_at (addr : string) (k : cluster Sel J Sp) : RPCServer V :=
  match k_servers k !! addr with Some s => s | None => h_server (hosts addr) end.

(** A step of a session and of the server at its address. *)
Definition host_step (p : pref) (addr : string) : system J Sp -> sys_event J Sp -> option (system J Sp) :=
  let h := hosts addr in
  sys_step json_map unjson_map json_mapstr unjson_mapstr json_span unjson_span ExtractSpan serializers as_error (h_control h)
    (h_has_listener h) (h_NoFoundFunction h) (h_BeforeHandle h) (h_OnError h) (h_OnComplete h) (h_ServerRPCHandler h)
    (h_RpcCompleteHandler h) (h_type h) (h_stack h) (gen_cid p) hostname None rpc_expired.

Definition link_step (p : pref) (e : sys_event J Sp) (k : cluster Sel J Sp) : option (cluster Sel J Sp) :=
  x ← proxies (k_app k) !! p; l ← k_links k !! p;
  let addr := Address (px_node x) in
  y ← host_step p addr (mkSystem (ln_client l) (server_at addr k) (ln_requests l) (ln_replies l) (ln_issued l)) e;
  Some (mkCluster (k_app k) (<[p := mkLink (y_client y) (y_requests y) (y_replies y) (y_issued y)]> (k_links k))
          (<[addr := y_server y]> (k_servers k)) (k_routed k)).

(** Every proxy has a client from the moment it is made ([NewServerSession]). *)
Definition with_app (a : DefaultApp Sel) (routed : list (string * pref)) (k : cluster Sel J Sp) : cluster Sel J Sp :=
  mkCluster a (k_links k ∪ ((fun _ => new_link) <$> proxies a)) (k_servers k) (k_routed k ++ routed).

(** A client is told to stop only by whoever closes its proxy. *)
Definition link_event (p : pref) (e : sys_event J Sp) (k : cluster Sel J Sp) : bool :=
  match e with
  | YCall _ _ _ _ | YCallNR _ _ _ _ _ => false
  | YClient EvStop => match proxies (k_app k) !! p with Some x => (0 <? px_done x)%nat | None => false end
  | _ => true
  end.

Definition cluster_step (k : cluster Sel J Sp) (e : cluster_event J Sp) : option (cluster Sel J Sp) :=
  match e with
  | KRoute schedule filter filters =>
      match GetRouteServer subscribe_error mapRoute filter filters (k_app k <| others := schedule |>) with
      | Done a (Ok p) => Some (with_app a [(filter, p)] k)
      | Done a (Err _) => Some (with_app a [] k)
      | _ => None
      end
  | KCall i fn params published start => c ← k_routed k !! i; link_step c.2 (YCall fn params published start) k
  | KCallNR i fn params published cid start => c ← k_routed k !! i; link_step c.2 (YCallNR fn params published cid start) k
  | KLink p e => if link_event p e k then link_step p e k else None
  | KWatch node =>
      match Watcher node (k_app k) with Done a _ => Some (with_app a [] k) | _ => None end
  end.

Definition cluster_run : list (cluster_event J Sp) -> cluster Sel J Sp -> option (cluster Sel J Sp) := run_steps cluster_step.

Definition cluster_init (s : Sel) : cluster Sel J Sp := mkCluster (mkApp ∅ ∅ ∅ s []) ∅ ∅ [].
End Cluster.
