(* ===== verification/ClusterTheorems.v ===== *)
(** * Correctness of a cluster

    An invocation that is answered was answered by an instance of what it asked for, with
    what a local call of the function there would have given; and a module's listener
    answers, or recurs for ever. *)
From stdpp Require Import pretty.
From S2P Require Import Prelude Registry Selector App AppTheorems RpcArgs RpcArgsTheorems NatsClient NatsClientTheorems RpcServer RpcServerTheorems RemoteCall RemoteCallTheorems ModuleCalls Cluster.
#[local] Open Scope mq_scope.
#[local] Open Scope st_scope.
#[local] Open Scope string_scope.
#[local] Open Scope list_scope.
#[local] Open Scope Z_scope.

(** ** What a session was routed for *)

(** The server of the id asked for, or one of the type asked for. *)
Definition type_of (n : Node) : string := default "" (head (split_on at_sign (ServerID n) "")).

Definition serves (filter : string) (n : Node) : Prop :=
  match split_on at_sign filter "" with
  | [t; i] => if decide (i = "") then type_of n = t else ServerID n = filter
  | t :: _ => type_of n = t
  | [] => False
  end.

Section Cluster.
Context {Sel J Sp : Type} `{!ServiceSelector Sel, !SelectorLaws Sel} (server_of : string -> string) (sel_ok : Sel -> Prop)
        (subscribe_error : Node -> option string) (mapRoute : option (string -> string)).
Abbreviation V := (gval J Sp).
Context (json_map : J -> result string bytes) (unjson_map : bytes -> result string J)
        (json_mapstr : gmap string string -> result string bytes) (unjson_mapstr : bytes -> result string (gmap string string))
        (json_span : Sp -> result string bytes) (unjson_span : bytes -> result string Sp) (ExtractSpan : Sp -> Sp)
        (serializers : list (RPCSerialize J Sp)) (as_error : V -> out_err)
        (hosts : string -> host J Sp) (gen_cid : pref -> nat -> string) (hostname : string) (rpc_expired : Z).

(** The selector lists consistent nodes, and for a name only nodes of that type. *)
Context (Hsel : lists_consistent server_of sel_ok)
        (Hnamed : forall s name services n, sel_ok s -> (sel_GetService name s).1 = Ok services -> n ∈ all_nodes services -> type_of n = name).

Abbreviation mapped filter := (match mapRoute with Some f => f filter | None => filter end).

Lemma run_route_serves filter filters a : AppTheorems.good server_of sel_ok a -> Forall narrowing filters ->
  run_ok server_of sel_ok a (GetRouteServer subscribe_error mapRoute filter filters)
    (fun r a' => forall p, r = Ok p -> exists x, proxies a' !! p = Some x /\ serves (mapped filter) (px_node x)).
Proof.
  intros Hg Hf. unfold GetRouteServer, serves. set (f := mapped filter).
  assert (forall name, run_ok server_of sel_ok a (GetServerBySelector subscribe_error name filters)
            (fun r a' => forall p, r = Ok p -> exists x, proxies a' !! p = Some x /\ type_of (px_node x) = name)) as Hsl.
  { intros name. eapply run_mono; [by apply run_GetServerBySelector|]. intros r a' Hg' _ Hr p Hp.
    destruct (Hr p Hp) as (n & Hn & x & Hx & Hi). exists x. split; [done|].
    destruct (select_listed name filters (app_selector a) n Hf Hn) as (services & Hs & Hin).
    pose proof (good_selector _ _ a Hg) as Ho. rewrite <- (Hnamed _ _ _ _ Ho Hs Hin). unfold type_of.
    pose proof (inv_consistent _ _ (AppTheorems.good_inv _ _ a' Hg') p x Hx) as Hc. unfold consistent in Hc. rewrite Hc, Hi.
    destruct (Hsel _ Ho) as [Hl _]. destruct (Hl name) as [_ Hl']. specialize (Hl' _ Hs).
    rewrite Forall_forall in Hl'. by rewrite (Hl' n Hin). }
  destruct (split_on_cons at_sign f "") as (t & l & ->). destruct l as [|i [|]]; [done| |done].
  destruct (decide (i = "")); [done|].
  eapply run_mono; [by apply run_GetServerByID|]. intros r a' _ _ (Hr & _) p Hp. by apply Hr.
Qed.
(** ** The invariant *)

Abbreviation the_step := (cluster_step subscribe_error mapRoute json_map unjson_map json_mapstr unjson_mapstr json_span unjson_span
  ExtractSpan serializers as_error hosts gen_cid hostname rpc_expired).
Abbreviation step_at := (link_step json_map unjson_map json_mapstr unjson_mapstr json_span unjson_span ExtractSpan serializers as_error
  hosts gen_cid hostname rpc_expired).
Abbreviation sys_ok_at p addr := (
  let h := hosts addr in
  RemoteCallTheorems.sys_ok json_map unjson_map json_mapstr unjson_mapstr json_span unjson_span ExtractSpan serializers as_error
    (h_has_listener h) (h_NoFoundFunction h) (h_BeforeHandle h) (h_RpcCompleteHandler h) (h_type h) (h_stack h) (gen_cid p) hostname None
    rpc_expired (h_server h)).

Context (Hgen : forall p, Inj (=) (=) (gen_cid p))
        (Hcalm : forall addr, calm (h_OnError (hosts addr)) (h_ServerRPCHandler (hosts addr)))
        (Hcomplete : forall addr q, h_OnComplete (hosts addr) q = None).

Definition system_of (l : link J Sp) (s : RPCServer V) : system J Sp :=
  mkSystem (ln_client l) s (ln_requests l) (ln_replies l) (ln_issued l).

(** A session's proxy exists, its client, messages and server are sound, and it was routed
    to before it was used. *)
Record link_ok (k : cluster Sel J Sp) (p : pref) (l : link J Sp) (x : proxy) : Prop := {
  lk_proxy : proxies (k_app k) !! p = Some x;
  lk_system : sys_ok_at p (Address (px_node x)) (system_of l (h_server (hosts (Address (px_node x)))));
  lk_routed : forall cid c, ln_issued l !! cid = Some c -> exists f, (f, p) ∈ k_routed k }.

Definition routed_ok (k : cluster Sel J Sp) (c : string * pref) : Prop :=
  exists x, proxies (k_app k) !! c.2 = Some x /\ serves (mapped c.1) (px_node x).

Record cluster_ok (k : cluster Sel J Sp) : Prop := {
  ck_app : AppTheorems.good server_of sel_ok (k_app k);
  ck_links : forall p l, k_links k !! p = Some l -> exists x, link_ok k p l x;
  ck_servers : forall addr, functions (server_at hosts addr k) = functions (h_server (hosts addr));
  ck_routed : Forall (routed_ok k) (k_routed k) }.

Definition typed (e : cluster_event J Sp) : Prop :=
  match e with
  | KRoute schedule _ filters => Forall (Forall (ok_action server_of)) schedule /\ Forall narrowing filters
  | KCall _ _ params _ _ => Forall (RemoteCallTheorems.good serializers) params
  | _ => True
  end.

(** A step of the application: the proxies stay what they are. *)
Lemma with_app_ok k a routed : cluster_ok k -> AppTheorems.good server_of sel_ok a -> later (k_app k) a ->
  Forall (fun c : string * pref => exists x, proxies a !! c.2 = Some x /\ serves (mapped c.1) (px_node x)) routed ->
  cluster_ok (with_app a routed k).
Proof.
  intros [H1 H2 H3 H4] Hg Hl Hr. split; cbn; [done| |done|].
  - intros p l [Hp|(_ & Hp)]%lookup_union_Some_raw.
    + destruct (H2 p l Hp) as (x & [Hx Hs Hi]). destruct (Hl p x Hx) as (x' & Hx' & E & _). exists x'. split; cbn; [done|by rewrite E|].
      intros cid c Hc. destruct (Hi cid c Hc) as (f & Hf). exists f. apply elem_of_app. by left.
    + rewrite lookup_fmap in Hp. apply fmap_Some in Hp as (x & Hx & ->). exists x. split; cbn; [done|by apply sys_init_ok|done].
  - apply Forall_app. split; [|done]. eapply Forall_impl; [exact H4|]. intros c (x & Hx & Hs).
    destruct (Hl _ x Hx) as (x' & Hx' & E & _). exists x'. by rewrite E.
Qed.

Definition is_call (e : sys_event J Sp) : bool := match e with YCall _ _ _ _ => true | _ => false end.

Abbreviation step_of p addr := (host_step json_map unjson_map json_mapstr unjson_mapstr json_span unjson_span ExtractSpan serializers
  as_error hosts gen_cid hostname rpc_expired p addr).

(** Only a call is issued. *)
Lemma host_step_issued p addr y e y' : step_of p addr y e = Some y' -> is_call e = false -> y_issued y' = y_issued y.
Proof.
  unfold host_step. destruct e as [fn params published start|fn params published cid start|i|i|i|i|e]; cbn; intros Hs Hc; try done.
  - injection Hs as <-. unfold sys_callnr. by repeat case_match.
  - unfold sys_serve in Hs. apply bind_Some in Hs as (q & _ & Hs). destruct (serve _ _ _ _ _ _ _ _ _ _ _ _ _ _ _ _ _ _ _ _ _); try done. by injection Hs as <-.
  - unfold sys_reply in Hs. apply bind_Some in Hs as (r & _ & Hs). apply bind_Some in Hs as (c & _ & Hs). by injection Hs as <-.
  - by injection Hs as <-.
  - by injection Hs as <-.
  - destruct (client_event e); [|done]. apply bind_Some in Hs as (c & _ & Hs). by injection Hs as <-.
Qed.

(** A step of a session. *)
Lemma link_step_ok k k' p e : cluster_ok k -> RemoteCallTheorems.typed_event serializers e ->
  (is_call e = true -> exists f, (f, p) ∈ k_routed k) -> step_at p e k = Some k' -> cluster_ok k'.
Proof.
  intros [H1 H2 H3 H4] Ht Hr Hs. unfold link_step in Hs. apply bind_Some in Hs as (x & Hx & Hs). apply bind_Some in Hs as (l & Hl & Hs).
  apply bind_Some in Hs as (y & Hy & Hs). injection Hs as <-. set (addr := Address (px_node x)) in *.
  destruct (H2 p l Hl) as (x' & [Hx' Hsys Hi]). assert (x' = x) as -> by congruence. fold addr in Hsys.
  apply (sys_ok_server _ _ _ _ _ _ _ _ _ _ _ _ _ _ _ _ _ _ _ _ _ (server_at hosts addr k) (H3 addr)) in Hsys.
  assert (Hsys' : sys_ok_at p addr y) by (eapply (sys_step_ok _ _ _ _ _ _ _ _ _ (h_control (hosts addr)));
    [apply Hgen|apply Hcalm|apply Hcomplete|exact Ht|exact Hsys|exact Hy]).
  split; cbn; [done| | |done].
  - intros p' l' [[<- <-]|[_ Hl']]%lookup_insert_Some.
    + exists x. split; cbn; [done| |].
      * fold addr. eapply sys_ok_server with (s := h_server (hosts addr)) in Hsys'; [exact Hsys'|done].
      * intros cid c Hc. destruct (is_call e) eqn:Ec; [by apply Hr|]. rewrite (host_step_issued _ _ _ _ _ Hy Ec) in Hc. by eapply Hi.
    + destruct (H2 p' l' Hl') as (z & [Hz1 Hz2 Hz3]). exists z. by split.
  - intros addr'. unfold server_at. cbn. destruct (decide (addr' = addr)) as [->|Hne].
    + rewrite lookup_insert_eq. eapply ok_functions, Hsys'.
    + rewrite lookup_insert_ne by done. apply H3.
Qed.

Lemma cluster_step_ok k e k' : typed e -> cluster_ok k -> the_step k e = Some k' -> cluster_ok k'.
Proof.
  intros Ht Hk Hs. pose proof (ck_app k Hk) as Hg. destruct e as [schedule filter filters|i fn params published start|i fn params published cid start|p e|node]; cbn in Hs.
  - destruct Ht as [Hsch Hf]. set (a0 := k_app k <| others := schedule |>) in *.
    assert (Hg0 : AppTheorems.good server_of sel_ok a0) by (destruct Hg as [[] ? ?]; by split).
    pose proof (run_route_serves filter filters a0 Hg0 Hf) as Hrun. unfold run_ok in Hrun.
    destruct (GetRouteServer _ _ _ _ a0) as [a r|a why|]; [|done|done]. destruct Hrun as (Ha & He & Hp).
    assert (Hl : later (k_app k) a) by exact (ev_proxies _ _ He).
    destruct r as [p|e]; injection Hs as <-; apply with_app_ok; try done.
    constructor; [by apply Hp|done].
  - apply bind_Some in Hs as ([f p] & Hc & Hs). eapply link_step_ok; [done| | |exact Hs]; [exact Ht|]. intros _. exists f. by eapply list_elem_of_lookup_2.
  - apply bind_Some in Hs as ([f p] & Hc & Hs). eapply link_step_ok; [done| | |exact Hs]; done.
  - destruct (link_event p e k) eqn:El; [|done]. eapply link_step_ok; [done| | |exact Hs]; by destruct e.
  - injection Hs as <-. destruct (watch_good server_of sel_ok node (k_app k) Hg) as [Hw Hl]. by apply with_app_ok.
Qed.

Lemma cluster_init_ok s : sel_ok s -> cluster_ok (cluster_init s).
Proof.
  intros Hs. split; cbn.
  - split; [|constructor|done]. by split; cbn; intros ? ?; rewrite lookup_empty.
  - by intros p l; rewrite lookup_empty.
  - done.
  - constructor.
Qed.
(** C1. An invocation returns what a local call would.  For rpc values the framework
    encodes itself (none that a registered serializer takes) and servers whose OnError,
    OnComplete and ServerRPCHandler callbacks return rather than panic, with call ids that do
    not repeat, a selector that lists an instance under its one type and server id, and
    filters that only narrow: in every run of an application's
    routing, the clients of its sessions, the messages and the servers, with other
    goroutines discovering, routing and dropping instances meanwhile, messages lost,
    delayed and reordered, connections failing and proxies closed under their callers, a
    caller of [Invoke] that wakes up with a result used a session that routing found for
    what it asked, its node is the server of that id or one of that type, and it gets
    exactly the [local_result] of its own call at that node's address: the function's
    value, or the text of its error, of its panic, of the parameter that did not decode or of
    the listener's refusal.  Parameters and results pass bit for bit, except that maps and
    spans are what JSON reads from their encoding and that messages arrive encoded
    ([received]). *)
Theorem invocation_returns_local_result
  (Hout : forall addr q f vs v e, target (h_has_listener (hosts addr)) (h_NoFoundFunction (hosts addr)) q (h_server (hosts addr)) = Some f ->
     body f vs = Returns [v; e] -> RemoteCallTheorems.good serializers v)
  (s : Sel) (evs : list (cluster_event J Sp)) (k : cluster Sel J Sp) (p : pref) (l : link J Sp) (ch : cref) (x : chan) (r : ResultInfo)
  (Hs : sel_ok s) (Hevs : Forall typed evs)
  (Hrun : cluster_run subscribe_error mapRoute json_map unjson_map json_mapstr unjson_mapstr json_span unjson_span ExtractSpan serializers
     as_error hosts gen_cid hostname rpc_expired evs (cluster_init s) = Some k)
  (Hl : k_links k !! p = Some l) (Hx : chans (ln_client l) !! ch = Some x) (Hw : can_wake x (WResult r)) :
  exists filter y start fn params args,
    (filter, p) ∈ k_routed k /\ proxies (k_app k) !! p = Some y /\ serves (mapped filter) (px_node y) /\
    ln_issued l !! ch_cid x = Some (fn, params) /\ Call_args json_map json_mapstr json_span serializers params = Ok args /\
    (CallArgs_end (Bytes2Args unjson_map unjson_mapstr unjson_span ExtractSpan serializers) (ch_cid x) ch (WResult r)).2 =
      Ret (let h := hosts (Address (px_node y)) in
           local_result json_map unjson_map json_mapstr unjson_mapstr json_span unjson_span ExtractSpan serializers as_error (h_has_listener h) (h_NoFoundFunction h)
             (h_BeforeHandle h) (h_RpcCompleteHandler h) (h_type h) (h_stack h)
             (call_info hostname (ch_cid x) None start rpc_expired true fn args.*1 args.*2) params args (h_server h)).
Proof.
  assert (Hok : cluster_ok k).
  { eapply (run_steps_inv the_step typed cluster_ok); [|exact Hevs|by apply cluster_init_ok|exact Hrun]. intros k1 e k2. apply cluster_step_ok. }
  destruct (ck_links k Hok p l Hl) as (y & [Hy Hsys Hi]).
  destruct (sys_ok_result _ _ _ _ _ _ _ _ _ _ _ _ _ _ _ _ _ _ _ _ _ ch x r (Hout _) Hsys Hx Hw) as (start & fn & params & args & H1 & H2 & H3).
  destruct (Hi _ _ H1) as (filter & Hf). pose proof (ck_routed k Hok) as Hr. rewrite Forall_forall in Hr.
  destruct (Hr _ Hf) as (y' & Hy' & Hserve). assert (y' = y) as -> by (cbn in Hy'; congruence).
  by exists filter, y, start, fn, params, args.
Qed.
End Cluster.

(** ** A module's listener *)

(** The listener that answers for the module, if every method has an owner. *)
Definition answers {V} (l : listener V) : option (RPCListener V) :=
  match l with
  | NoListener => Some (mkRPCListener (fun fn => Err ("Remote function(" ++ fn ++ ") not found")%string) (fun _ _ => None)
                          (fun _ _ => None) (fun _ _ => None) (fun _ _ => None))
  | Foreign l => Some l
  | Subclass (mkOverrides (Some a) (Some b) (Some c) (Some d) (Some e)) => Some (mkRPCListener a b c d e)
  | Subclass _ => None
  end.

Lemma pass_on_recurs {V A} foreign own (none : A) (o : overrides V) : own o = None -> forall fuel, pass_on fuel foreign own none (Subclass o) = None.
Proof. intros Ho fuel. induction fuel as [|fuel IH]; [done|]. cbn. by rewrite Ho. Qed.

(** The server's callbacks reach the listener in one frame when every method has an owner;
    otherwise one of them never returns, however large the stack: a module that is its own
    listener must override all five. *)
Lemma listener_answers {V} (l : listener V) :
  match answers l with
  | Some r => forall fuel fn call Expired,
      ModuleCalls.NoFoundFunction (S fuel) l fn = Some (rl_NoFoundFunction r fn) /\
      ModuleCalls.BeforeHandle (S fuel) l fn call = Some (rl_BeforeHandle r fn call) /\
      ModuleCalls.OnTimeOut (S fuel) l fn Expired = Some (rl_OnTimeOut r fn Expired) /\
      ModuleCalls.OnError (S fuel) l fn call = Some (rl_OnError r fn call) /\
      ModuleCalls.OnComplete (S fuel) l fn call = Some (rl_OnComplete r fn call)
  | None =>
      (forall fuel fn, ModuleCalls.NoFoundFunction fuel l fn = None) \/ (forall fuel fn call, ModuleCalls.BeforeHandle fuel l fn call = None) \/
      (forall fuel fn Expired, ModuleCalls.OnTimeOut fuel l fn Expired = None) \/
      (forall fuel fn call, ModuleCalls.OnError fuel l fn call = None) \/ (forall fuel fn call, ModuleCalls.OnComplete fuel l fn call = None)
  end.
Proof.
  destruct l as [|r|[a b c d e]]; [done..|]. cbn.
  destruct a; [|left; intros; by apply pass_on_recurs]. destruct b; [|right; left; intros; by apply pass_on_recurs].
  destruct c; [|right; right; left; intros; by apply pass_on_recurs]. destruct d; [|do 3 right; left; intros; by apply pass_on_recurs].
  destruct e; [done|]. do 4 right. intros. by apply pass_on_recurs.
Qed.

(** A module without a listener refuses what it has not registered, and says so. *)
Lemma module_refuses_unknown {J Sp} json_map unjson_map json_mapstr unjson_mapstr json_span unjson_span ExtractSpan serializers as_error (h : host J Sp) q params args :
  h_listener h = answers NoListener -> functions (h_server h) !! Fn q = None ->
  local_result json_map unjson_map json_mapstr unjson_mapstr json_span unjson_span ExtractSpan serializers as_error (h_has_listener h) (h_NoFoundFunction h) (h_BeforeHandle h)
    (h_RpcCompleteHandler h) (h_type h) (h_stack h) q params args (h_server h) = Err ("Remote function(" ++ Fn q ++ ") not found")%string.
Proof.
  intros Hl Hf. assert (h_has_listener h = true) as E by (unfold h_has_listener; by rewrite Hl).
  assert (h_NoFoundFunction h (Fn q) = Err ("Remote function(" ++ Fn q ++ ") not found")%string) as E' by (unfold h_NoFoundFunction; by rewrite Hl).
  unfold local_result, target, no_function. rewrite Hf, E, E'. unfold as_caller. by rewrite decide_False.
Qed.

(** ** A run *)

(** A [map[string]interface{}] with one entry "n", a number; JSON reads the integer it was
    as a float.  Numbers of one digit have an encoding here. *)
Inductive number := NInt (z : Z) | NFloat (z : Z).
Definition digit_json (z : Z) : result string bytes :=
  if (0 <=? z) && (z <? 10) then Ok [x7b; x22; x6e; x22; x3a; zb (48 + z); x7d] else Err "too large".
Definition json_number (n : number) : result string bytes := match n with NInt z | NFloat z => digit_json z end.
Definition unjson_number (b : bytes) : result string number :=
  match b with
  | [x7b; x22; x6e; x22; x3a; d; x7d] => if (48 <=? bz d) && (bz d <? 58) then Ok (NFloat (bz d - 48)) else Err "invalid character"
  | _ => Err "invalid character"
  end.

(** The function insists on the float it is to be given, and answers an integer. *)
Definition double : FunctionInfo (gval number unit) :=
  mkFunctionInfo [InPlain GNil false (fun _ => Err "not JSON")] false
    (fun vs => match vs with [GMap (NFloat n)] => Returns [GMap (NInt (n * 2)); GNil] | _ => Panics "not a float64" end).
Definition chat_host (addr : string) : host number unit :=
  mkHost false (answers NoListener) (fun _ _ => None) (fun _ => None) "chat" "" (mkRPCServer {["double" := double]} 0 0 0 [] [] []).
Definition gval_error (v : gval number unit) : out_err := match v with GNil => ONil | GString s => OString s | _ => OOther end.
Definition no_json {X : Type} (_ : X) : result string bytes := Err "no JSON".
Definition no_unjson {X : Type} (_ : bytes) : result string X := Err "no JSON".

Definition chat_services (name : string) : result sel_err (list Service) := if decide (name = "chat") then Ok demo_services else Err ErrNotFound.
Definition chat_selector : ServiceSelector unit := default_selector chat_services 0.

(** The server of an id and one of a type are asked; the first call is lost, and the
    instance is withdrawn before the second is answered. *)
Definition demo_events : list (cluster_event number unit) :=
  [KRoute [] "chat@1" []; KCall 0 "double" [GMap (NInt 1)] true 0; KLink 1 (YLoseRequest 0); KRoute [[AWatch (demo_node "chat@1#a" 10)]] "chat" [];
   KCall 1 "double" [GMap (NInt 4)] true 0; KWatch (demo_node "chat@1#b" 20); KLink 1 (YServe 0); KLink 1 (YReply 0); KLink 1 (YClient EvSend)].
Definition demo_result : ResultInfo := mkResultInfo (pretty 1%nat) "" "map" [x7b; x22; x6e; x22; x3a; x38; x7d].

Definition demo_run : option (cluster unit number unit) :=
  cluster_run (H := chat_selector) (fun _ => None) None json_number unjson_number no_json no_unjson no_json no_unjson (fun s => s) [] gval_error chat_host
    (fun _ => pretty) "host" 1000000 demo_events (cluster_init tt).

Lemma chat_lists : @lists_consistent unit AppTheorems.demo_server chat_selector (fun _ => True).
Proof.
  intros [] _. split.
  - intros name. split; [done|]. cbn. unfold chat_services. case_decide; [|done]. intros services [= <-]. by repeat constructor.
  - intros name filters. split; [done|]. cbn. unfold default_Select, chat_services. case_decide; [|done].
    destruct (candidates filters demo_services) as [l|e]; [|done].
    unfold Random_next. destruct (zlen (all_nodes l) =? 0) eqn:E; [done|].
    destruct (all_nodes l) as [|n ns]; [by cbn in E|]. rewrite Z.rem_0_l by (apply Z.eqb_neq; exact E). done.
Qed.

Lemma chat_named (s : unit) name services n : True -> (@sel_GetService _ chat_selector name s).1 = Ok services -> n ∈ all_nodes services ->
  type_of n = name.
Proof.
  intros _. cbn. unfold chat_services. case_decide as Hn; [|done]. intros [= <-] Hin. subst name.
  cbn in Hin. apply elem_of_cons in Hin as [->|[->|[]%not_elem_of_nil]%elem_of_cons]; reflexivity.
Qed.

Lemma chat_outputs addr q f vs v e :
  target (h_has_listener (chat_host addr)) (h_NoFoundFunction (chat_host addr)) q (h_server (chat_host addr)) = Some f ->
  body f vs = Returns [v; e] -> RemoteCallTheorems.good [] v.
Proof.
  unfold target. cbn [chat_host h_server functions h_has_listener]. destruct (_ !! Fn q) as [g|] eqn:Eg; [|done].
  intros [= ->] Hb. apply lookup_singleton_Some in Eg as [_ <-].
  destruct vs as [|[| | | | | | | |[]| | |] [|]]; try discriminate Hb. by injection Hb as <- _.
Qed.

Lemma chat_calm addr : calm (h_OnError (chat_host addr)) (h_ServerRPCHandler (chat_host addr)).
Proof. by split. Qed.

Lemma chat_completes addr q : h_OnComplete (chat_host addr) q = None.
Proof. done. Qed.

Lemma invocation_returns_local_result_witness :
  exists k l x, demo_run = Some k /\ k_links k !! 1%positive = Some l /\ chans (ln_client l) !! 2%positive = Some x /\
    can_wake x (WResult demo_result) /\
    (CallArgs_end (Bytes2Args unjson_number no_unjson no_unjson (fun s => s) []) (ch_cid x) 2 (WResult demo_result)).2 = Ret (Ok (GMap (NFloat 8) : gval number unit)).
Proof.
  set (x := mkChan (pretty 1%nat) [demo_result] 0 0).
  assert (Hv : (k ← demo_run; l ← k_links k !! 1%positive; y ← proxies (k_app k) !! 1%positive;
      x ← chans (ln_client l) !! 2%positive; c ← ln_issued l !! pretty 1%nat; Some (Address (px_node y), x, c))
    = Some ("inbox", x, ("double", [GMap (NInt 4)]))) by (vm_compute; reflexivity).
  apply bind_Some in Hv as (k & Ek & Hv). apply bind_Some in Hv as (l & El & Hv). apply bind_Some in Hv as (y & Ey & Hv).
  apply bind_Some in Hv as (x' & Ex & Hv). apply bind_Some in Hv as (c & Ec & Hv). injection Hv as Ha -> ->.
  exists k, l, x. do 4 (split; [done|]).
  assert (Hevs : Forall (typed AppTheorems.demo_server []) demo_events) by (repeat constructor; done).
  pose proof (@invocation_returns_local_result unit number unit chat_selector (default_laws chat_services 0) AppTheorems.demo_server (fun _ => True)
    (fun _ => None) None json_number unjson_number no_json no_unjson no_json no_unjson (fun s => s) [] gval_error chat_host (fun _ => pretty) "host" 1000000
    chat_lists chat_named (fun _ => _) chat_calm chat_completes chat_outputs tt demo_events k 1%positive l 2%positive x demo_result
    I Hevs) as H.
  unfold demo_run in Ek. specialize (H Ek El Ex eq_refl). destruct H as (filter & y' & start & fn & params & args & _ & Hy & _ & Hi & He & Hr).
  rewrite Hr. assert (y' = y) as -> by congruence. cbn zeta. rewrite Ha. cbn [ch_cid x] in Hi. rewrite Ec in Hi. injection Hi as <- <-.
  vm_compute in He. injection He as <-. vm_compute. reflexivity.
Defined.
