(* ===== verification/RegistryConfig.v ===== *)
(** * The configuration of the registries

    [registry/options.go], [registry/consul/options.go] and [registry/etcdv3/options.go]:
    the options; [configure], [newConsulRegistry], [Init] and [ListServices] of
    [registry/consul_registry.go]; [configure], [NewRegistry] and [Init] of
    [registry/etcdv3/etcdv3.go], and the watcher it makes ([etcdv3/watcher.go]).

    A consul configuration is an object the application may hand in and share, and
    [configure] writes into it: it lives in a store.  Outside the model: the clients and
    the TLS configurations themselves ([C], [T]), what consul's default configuration
    is, and whether a client can be made of a configuration. *)
From Stdlib Require Import Strings.Ascii.
From S2P Require Import Prelude Registry Consul Etcd.
#[local] Open Scope mq_scope.
#[local] Open Scope string_scope.
#[local] Open Scope list_scope.
#[local] Open Scope Z_scope.

(** ** [net.SplitHostPort] *)

Fixpoint index_byte (c : ascii) (s : list ascii) : option nat :=
  match s with
  | [] => None
  | x :: s => if decide (x = c) then Some O else S <$> index_byte c s
  end.

Definition last_index_byte (c : ascii) (s : list ascii) : option nat :=
  i ← index_byte c (reverse s); Some (length s - S i)%nat.

Inductive addr_err := MissingPort | TooManyColons | MissingBracket | UnexpectedOpen | UnexpectedClose.

(** The rest, once the host is known: no bracket from [j] or [k] on. *)
Definition no_brackets (s host : list ascii) (i j k : nat) : result addr_err (list ascii * list ascii) :=
  match index_byte "["%char (drop j s), index_byte "]"%char (drop k s) with
  | Some _, _ => Err UnexpectedOpen
  | None, Some _ => Err UnexpectedClose
  | None, None => Ok (host, drop (S i) s)
  end.

Definition SplitHostPort (s : list ascii) : result addr_err (list ascii * list ascii) :=
  match last_index_byte ":"%char s with
  | None => Err MissingPort
  | Some i =>
      match s with
      | "["%char :: _ =>
          match index_byte "]"%char s with
          | None => Err MissingBracket
          | Some e =>
              if (S e =? length s)%nat then Err MissingPort
              else if (S e =? i)%nat then no_brackets s (drop 1 (take e s)) i 1 (S e)
              else match s !! S e with
                   | Some ":"%char => Err TooManyColons
                   | _ => Err MissingPort
                   end
          end
      | _ =>
          let host := take i s in
          match index_byte ":"%char host with
          | Some _ => Err TooManyColons
          | None => no_brackets s host i 0 0
          end
      end
  end.

(** ** Options *)

Inductive ctx_key := KeyString (s : string) | KeyAuth.

#[export] Instance ctx_key_eq_dec : EqDecision ctx_key.
Proof. solve_decision. Defined.

(** The values the options put into a context. *)
Inductive ctx_value := CtxBool (b : bool) | CtxDuration (t : Z) | CtxConfig (c : positive) | CtxAuth (Username Password : string).

(** A context is the values put into it, the newest first. *)
Abbreviation context := (list (ctx_key * ctx_value)).

Definition Value (k : ctx_key) (c : context) : option ctx_value := snd <$> (snd <$> list_find (fun e => e.1 = k) c).

Definition nanosecond_default : Z := 5 * second.

Record Options (T : Type) := mkOptions {
  o_Addrs : list string; o_Timeout : Z; o_Secure : bool; o_TLSConfig : option T; o_Context : option context }.
Arguments mkOptions {T}.
Arguments o_Addrs {T}.
Arguments o_Timeout {T}.
Arguments o_Secure {T}.
Arguments o_TLSConfig {T}.
Arguments o_Context {T}.

#[export] Instance eta_Options T : Eta (Options T) := fun o =>
  mkOptions (o_Addrs o) (o_Timeout o) (o_Secure o) (o_TLSConfig o) (o_Context o).

Section Options.
Context {T : Type}.
Abbreviation Option := (Options T -> Options T).

Definition no_options : Options T := mkOptions [] 0 false None None.

Definition Addrs (addrs : list string) : Option := fun o => o <| o_Addrs := addrs |>.
Definition Timeout (t : Z) : Option := fun o => o <| o_Timeout := t |>.
Definition Secure (b : bool) : Option := fun o => o <| o_Secure := b |>.
Definition TLSConfig (t : option T) : Option := fun o => o <| o_TLSConfig := t |>.

(** [context.WithValue] on the options' context, which is made if there is none. *)
Definition with_value (k : ctx_key) (v : ctx_value) : Option := fun o =>
  let c := default [] (o_Context o) in o <| o_Context := Some ((k, v) :: c) |>.

Definition consul_connect_key : ctx_key := KeyString "consul_connect".
Definition consul_config_key : ctx_key := KeyString "consul_config".
Definition consul_tcp_check_key : ctx_key := KeyString "consul_tcp_check".

Definition Connect : Option := with_value consul_connect_key (CtxBool true).
Definition Config (c : positive) : Option := with_value consul_config_key (CtxConfig c).
Definition TCPCheck (t : Z) : Option := fun o => if t <=? 0 then o else with_value consul_tcp_check_key (CtxDuration t) o.
Definition Auth (username password : string) : Option := with_value KeyAuth (CtxAuth username password).

Definition context_value (k : ctx_key) (o : Options T) : option ctx_value := c ← o_Context o; Value k c.
End Options.

(** ** Consul *)

(** [consul.Config] as far as it is written: the http client with its timeout and, once a
    secure connection is asked for, its TLS configuration. *)
Record HttpClient (T : Type) := mkHttpClient { hc_tls : option T; hc_Timeout : Z }.
Arguments mkHttpClient {T}.
Arguments hc_tls {T}.
Arguments hc_Timeout {T}.

Record ConsulConfig (T : Type) := mkConsulConfig { cf_Address : string; cf_Scheme : string; cf_HttpClient : option (HttpClient T) }.
Arguments mkConsulConfig {T}.
Arguments cf_Address {T}.
Arguments cf_Scheme {T}.
Arguments cf_HttpClient {T}.

#[export] Instance eta_ConsulConfig T : Eta (ConsulConfig T) := fun c => mkConsulConfig (cf_Address c) (cf_Scheme c) (cf_HttpClient c).

(** The part of [consulRegistry] that [configure] sets; [k_Client] is nil after an error. *)
Record consul_client (T C : Type) := mkConsulClient {
  k_Address : string; k_Client : option C; k_opts : Options T; k_connect : bool }.
Arguments mkConsulClient {T C}.
Arguments k_Address {T C}.
Arguments k_Client {T C}.
Arguments k_opts {T C}.
Arguments k_connect {T C}.

Section Consul.
Context {T C : Type} (DefaultConfig : ConsulConfig T) (insecure : T) (NewClient : ConsulConfig T -> result string C).
Abbreviation store := (gmap positive (ConsulConfig T)).

(** The address asked for, when the first one can be read. *)
Definition consul_address (addrs : list string) : option string :=
  match addrs with
  | [] => None
  | a :: _ =>
      match SplitHostPort (String.list_ascii_of_string a) with
      | Ok (host, port) => Some (String.string_of_list_ascii host ++ ":" ++ String.string_of_list_ascii port)%string
      | Err MissingPort => Some (a ++ ":8500")%string
      | Err _ => None
      end
  end.

(** [newTransport]: without a TLS configuration, one that does not verify. *)
Definition newTransport (t : option T) : T := match t with Some t => t | None => insecure end.

Definition secure (o : Options T) (c : ConsulConfig T) : ConsulConfig T :=
  if o_Secure o || bool_decide (is_Some (o_TLSConfig o)) then
    let timeout := match cf_HttpClient c with Some h => hc_Timeout h | None => 0 end in
    mkConsulConfig (cf_Address c) "https" (Some (mkHttpClient (Some (newTransport (o_TLSConfig o))) timeout))
  else c.

Definition set_timeout (t : Z) (c : ConsulConfig T) : outcome (ConsulConfig T) :=
  if 0 <? t then
    match cf_HttpClient c with
    | Some h => Ret (c <| cf_HttpClient := Some (mkHttpClient (hc_tls h) t) |>)
    | None => Panic "nil pointer dereference"
    end
  else Ret c.

(** The configuration that is used: the one passed in, or a new default one. *)
Definition chosen_config (o : Options T) (s : store) : positive * store :=
  match context_value consul_config_key o with
  | Some (CtxConfig r) => (r, s)
  | _ => let r := fresh (dom s) in (r, <[r := DefaultConfig]> s)
  end.

Definition consul_configure (os : list (Options T -> Options T)) (k : consul_client T C) (s : store) : outcome (consul_client T C * store) :=
  let o := foldl (fun o f => f o) (k_opts k) os in
  let connect := match context_value consul_connect_key o with Some (CtxBool b) => b | _ => k_connect k end in
  let '(r, s) := chosen_config o s in
  match s !! r with
  | None => Panic "nil pointer dereference"
  | Some config =>
      let config := match consul_address (o_Addrs o) with Some a => config <| cf_Address := a |> | None => config end in
      config <- set_timeout (o_Timeout o) (secure o config);
      let client := match NewClient config with Ok c => Some c | Err _ => None end in
      Ret (mkConsulClient (cf_Address config) client o connect, <[r := config]> s)
  end.

Definition newConsulRegistry (os : list (Options T -> Options T)) : store -> outcome (consul_client T C * store) :=
  consul_configure os (mkConsulClient "" None no_options false).

(** The check of a registry's registrations ([Register]). *)
Definition tcp_check_of (k : consul_client T C) : option Z :=
  match context_value consul_tcp_check_key (k_opts k) with Some (CtxDuration t) => Some t | _ => None end.

(** The registry of [Consul] that this configuration makes. *)
Definition configured (k : consul_client T C) : consulRegistry := mkConsulRegistry (tcp_check_of k) (k_connect k) ∅.
End Consul.

(** [ListServices]: the names in consul's catalog, in the order of the map. *)
Definition consul_ListServices (rsp : result string (list string)) : result string (list Service) :=
  match rsp with
  | Err e => Err e
  | Ok names => Ok ((fun name => mkService name "" ∅ [] []) <$> names)
  end.

(** ** Etcd *)

Record EtcdConfig (T : Type) := mkEtcdConfig { ec_Endpoints : list string; ec_TLS : option T; ec_auth : option (string * string) }.
Arguments mkEtcdConfig {T}.
Arguments ec_Endpoints {T}.
Arguments ec_TLS {T}.
Arguments ec_auth {T}.

Record etcd_client (T C : Type) := mkEtcdClient { ek_client : option C; ek_options : Options T }.
Arguments mkEtcdClient {T C}.
Arguments ek_client {T C}.
Arguments ek_options {T C}.

Section Etcd.
Context {T C : Type} (insecure : T) (New : EtcdConfig T -> result string C).

Definition etcd_config (o : Options T) : EtcdConfig T :=
  let addrs := filter (fun a => a <> "") (o_Addrs o) in
  mkEtcdConfig (match addrs with [] => ["127.0.0.1:2379"] | _ => addrs end)
    (if o_Secure o || bool_decide (is_Some (o_TLSConfig o)) then Some (match o_TLSConfig o with Some t => t | None => insecure end) else None)
    (match context_value KeyAuth o with Some (CtxAuth u p) => Some (u, p) | _ => None end).

(** A client that cannot be made leaves the old one. *)
Definition etcd_configure (os : list (Options T -> Options T)) (k : etcd_client T C) : etcd_client T C * option string :=
  let o := foldl (fun o f => f o) (ek_options k) os in
  let o := if o_Timeout o =? 0 then o <| o_Timeout := nanosecond_default |> else o in
  match New (etcd_config o) with
  | Err e => (mkEtcdClient (ek_client k) o, Some e)
  | Ok c => (mkEtcdClient (Some c) o, None)
  end.

(** [NewRegistry]: an error is dropped. *)
Definition etcd_NewRegistry (os : list (Options T -> Options T)) : etcd_client T C := (etcd_configure os (mkEtcdClient None no_options)).1.
End Etcd.

(** The keys a watcher follows: those of the service asked for, or all. *)
Definition watch_path (service : string) : string :=
  if decide (service = "") then prefix else (servicePath service ++ "/")%string.

(** The stop channel of a watcher, whether the goroutine that waits for it has cancelled the
    watch, and where the goroutines are that call [Stop]: before its [select], before its
    [close], or through, with a panic when the channel was closed in between. *)
Inductive stopper := AtSelect | AtClose | Stopped (panicked : bool).

Record watch_stop := mkWatchStop { ws_closed : bool; ws_cancelled : bool; ws_stoppers : list stopper }.

#[export] Instance eta_watch_stop : Eta watch_stop := fun w => mkWatchStop (ws_closed w) (ws_cancelled w) (ws_stoppers w).

Inductive stop_event := WStop (i : nat) | WCancel.

Definition set_stopper (i : nat) (x : stopper) (w : watch_stop) : watch_stop :=
  let l := ws_stoppers w in w <| ws_stoppers := <[i := x]> l |>.

Definition stop_step (w : watch_stop) (e : stop_event) : option watch_stop :=
  match e with
  | WStop i =>
      match ws_stoppers w !! i with
      | Some AtSelect => Some (set_stopper i (if ws_closed w then Stopped false else AtClose) w)
      | Some AtClose => Some (if ws_closed w then set_stopper i (Stopped true) w else set_stopper i (Stopped false) (w <| ws_closed := true |>))
      | _ => None
      end
  | WCancel => if ws_closed w then Some (w <| ws_cancelled := true |>) else None
  end.

Definition stop_run : list stop_event -> watch_stop -> option watch_stop := run_steps stop_step.

(** ** The options of one registration, or of one watch *)

Record RegisterOptions := mkRegisterOptions { ro_TTL : Z }.
Record WatchOptions := mkWatchOptions { wo_Service : string }.

Definition registry_RegisterTTL (t : Z) (o : RegisterOptions) : RegisterOptions := mkRegisterOptions t.
Definition WatchService (name : string) (o : WatchOptions) : WatchOptions := mkWatchOptions name.

(** What [Register] and a new watcher begin with. *)
Definition register_options (opts : list (RegisterOptions -> RegisterOptions)) : RegisterOptions := foldl (fun o f => f o) (mkRegisterOptions 0) opts.
Definition watch_options (opts : list (WatchOptions -> WatchOptions)) : WatchOptions := foldl (fun o f => f o) (mkWatchOptions "") opts.

(** ** What holds

    Which address a client is made for, when configuring panics, and that configuring
    again without new options changes nothing. *)

(** ** [SplitHostPort] *)

Lemma index_byte_None c s : index_byte c s = None <-> c ∉ s.
Proof.
  induction s as [|x s IH]; cbn; [split; [intros _; by apply not_elem_of_nil|done]|]. rewrite not_elem_of_cons.
  case_decide as Hx; [subst; naive_solver|].
  destruct (index_byte c s); cbn; [|naive_solver]. split; [done|]. intros [_ H]. by apply IH in H.
Qed.

Lemma index_byte_app c a b : c ∉ a -> index_byte c (a ++ c :: b) = Some (length a).
Proof.
  induction a as [|x a IH]; intros Ha; cbn; [by rewrite decide_True|]. rewrite decide_False by set_solver. rewrite IH by set_solver. done.
Qed.

Lemma last_index_byte_app c a b : c ∉ b -> last_index_byte c (a ++ c :: b) = Some (length a).
Proof.
  intros Hb. unfold last_index_byte. rewrite reverse_app, reverse_cons, <- app_assoc. cbn [app].
  rewrite index_byte_app by (by rewrite elem_of_reverse). cbn. f_equal. rewrite length_app, length_reverse. cbn. lia.
Qed.

Lemma last_index_byte_None c s : c ∉ s -> last_index_byte c s = None.
Proof.
  intros Hs. unfold last_index_byte. assert (index_byte c (reverse s) = None) as -> by (apply index_byte_None; by rewrite elem_of_reverse). done.
Qed.

Definition plain (s : list ascii) : Prop := ":"%char ∉ s /\ "["%char ∉ s /\ "]"%char ∉ s.

Lemma no_brackets_Ok s host i j k : "["%char ∉ drop j s -> "]"%char ∉ drop k s -> no_brackets s host i j k = Ok (host, drop (S i) s).
Proof. intros Hj%index_byte_None Hk%index_byte_None. unfold no_brackets. by rewrite Hj, Hk. Qed.

(** A host and its port. *)
Lemma SplitHostPort_plain h p : plain h -> plain p -> SplitHostPort (h ++ ":"%char :: p) = Ok (h, p).
Proof.
  intros (Hh1 & Hh2 & Hh3) (Hp1 & Hp2 & Hp3). unfold SplitHostPort. rewrite last_index_byte_app by done.
  assert (Hrest : no_brackets (h ++ ":"%char :: p) h (length h) 0 0 = Ok (h, p)).
  { rewrite no_brackets_Ok by (cbn; set_solver). change (h ++ ":"%char :: p) with (h ++ [":"%char] ++ p).
    rewrite app_assoc. rewrite drop_app_length' by (rewrite length_app; cbn; lia). done. }
  assert (Ht : take (length h) (h ++ ":"%char :: p) = h) by (by rewrite take_app_length).
  apply index_byte_None in Hh1.
  destruct h as [|c h]; [done|]. cbn [app]. cbn [app] in Ht, Hrest. destruct (decide (c = "["%char)) as [->|Hc]; [set_solver|].
  destruct c as [[] [] [] [] [] [] [] []]; try (by destruct Hc); rewrite Ht, Hh1; exact Hrest.
Qed.

(** A host in brackets, which may hold colons. *)
Lemma SplitHostPort_brackets h p : "["%char ∉ h -> "]"%char ∉ h -> plain p -> SplitHostPort ("["%char :: h ++ "]"%char :: ":"%char :: p) = Ok (h, p).
Proof.
  intros H1 H2 (Hp1 & Hp2 & Hp3). unfold SplitHostPort.
  assert (Hs : "["%char :: h ++ "]"%char :: ":"%char :: p = ("["%char :: h ++ ["]"%char]) ++ ":"%char :: p) by (by rewrite <- app_comm_cons, <- app_assoc).
  rewrite Hs, last_index_byte_app, <- Hs by done. change ("["%char :: h ++ "]"%char :: ":"%char :: p) with (("["%char :: h) ++ "]"%char :: ":"%char :: p).
  rewrite index_byte_app by (rewrite not_elem_of_cons; done). cbn [app length]. rewrite ?length_app. cbn [length].
  destruct (Nat.eqb_spec (S (S (length h))) (S (length h + S (S (length p))))); [lia|].
  destruct (Nat.eqb_spec (S (S (length h))) (S (length h + 1))); [|lia].
  rewrite no_brackets_Ok; cbn [drop].
  - f_equal. f_equal.
    + cbn [take]. by rewrite take_app_length.
    + change (h ++ "]"%char :: ":"%char :: p) with (h ++ ["]"%char] ++ [":"%char] ++ p). rewrite !app_assoc. by rewrite drop_app_length' by (rewrite !length_app; cbn; lia).
  - rewrite ?drop_0, elem_of_app, !elem_of_cons. naive_solver.
  - change (h ++ "]"%char :: ":"%char :: p) with (h ++ ["]"%char] ++ ":"%char :: p). rewrite app_assoc. rewrite drop_app_length' by (rewrite length_app; cbn; lia).
    rewrite elem_of_cons. naive_solver.
Qed.

Lemma SplitHostPort_no_colon h : ":"%char ∉ h -> SplitHostPort h = Err MissingPort.
Proof. intros H. unfold SplitHostPort. by rewrite last_index_byte_None. Qed.

(** Two colons outside brackets. *)
Lemma SplitHostPort_colons a b p : "["%char ∉ a -> ":"%char ∉ p -> SplitHostPort (a ++ ":"%char :: b ++ ":"%char :: p) = Err TooManyColons.
Proof.
  intros Ha Hp. unfold SplitHostPort. change (a ++ ":"%char :: b ++ ":"%char :: p) with (a ++ [":"%char] ++ b ++ ":"%char :: p).
  rewrite !app_assoc, last_index_byte_app by done. rewrite take_app_length, <- !app_assoc. cbn [app].
  assert (Hi : is_Some (index_byte ":"%char (a ++ ":"%char :: b))).
  { destruct (index_byte _ _) eqn:E; [done|]. apply index_byte_None in E. rewrite elem_of_app, elem_of_cons in E. naive_solver. }
  destruct Hi as (i & ->). destruct a as [|c a]; [done|]. cbn [app]. rewrite not_elem_of_cons in Ha.
  destruct c as [[] [] [] [] [] [] [] []]; try done. naive_solver.
Qed.

(** ** The address of the consul client *)

Abbreviation chars := String.list_ascii_of_string.

(** The four kinds of address: host and port are kept, a host gets consul's port, the
    brackets of an IPv6 address with a port are lost, and an IPv6 address without
    brackets is ignored. *)
Lemma consul_address_cases addrs :
  consul_address [] = None /\
  (forall h p, plain h -> plain p -> let a := (String.string_of_list_ascii h ++ ":" ++ String.string_of_list_ascii p)%string in
     consul_address (a :: addrs) = Some a) /\
  (forall h, ":"%char ∉ chars h -> consul_address (h :: addrs) = Some (h ++ ":8500")%string) /\
  (forall h p, "["%char ∉ h -> "]"%char ∉ h -> plain p ->
     consul_address (("[" ++ String.string_of_list_ascii h ++ "]:" ++ String.string_of_list_ascii p)%string :: addrs)
       = Some (String.string_of_list_ascii h ++ ":" ++ String.string_of_list_ascii p)%string) /\
  (forall a b p, "["%char ∉ a -> ":"%char ∉ p ->
     consul_address ((String.string_of_list_ascii a ++ ":" ++ String.string_of_list_ascii b ++ ":" ++ String.string_of_list_ascii p)%string :: addrs) = None).
Proof.
  assert (Happ : forall a b, chars (a ++ b)%string = chars a ++ chars b).
  { intros a b. induction a as [|c a IH]; [done|]. exact (f_equal (cons c) IH). }
  split_and!; [done| | | |].
  - intros h p Hh Hp a. unfold consul_address, a. rewrite !Happ, !String.list_ascii_of_string_of_list_ascii. cbn [chars app].
    by rewrite SplitHostPort_plain.
  - intros h Hh. unfold consul_address. by rewrite SplitHostPort_no_colon.
  - intros h p H1 H2 Hp. unfold consul_address. rewrite !Happ, !String.list_ascii_of_string_of_list_ascii. cbn [chars app].
    by rewrite SplitHostPort_brackets.
  - intros a b p Ha Hp. unfold consul_address. rewrite !Happ, !String.list_ascii_of_string_of_list_ascii. cbn [chars app].
    by rewrite SplitHostPort_colons.
Qed.

(** ** Configuring consul *)

Section Consul.
Context {T C : Type} (DefaultConfig : ConsulConfig T) (insecure : T) (NewClient : ConsulConfig T -> result string C).
Abbreviation configure := (consul_configure DefaultConfig insecure NewClient).
Abbreviation store := (gmap positive (ConsulConfig T)).

Definition is_secure (o : Options T) : bool := o_Secure o || bool_decide (is_Some (o_TLSConfig o)).

(** What a configuration becomes, and whether that panics. *)
Definition refined (o : Options T) (c : ConsulConfig T) : ConsulConfig T :=
  secure insecure o (match consul_address (o_Addrs o) with Some a => c <| cf_Address := a |> | None => c end).

Definition no_http_client (o : Options T) (c : ConsulConfig T) : Prop :=
  0 < o_Timeout o /\ is_secure o = false /\ cf_HttpClient c = None.

Lemma refined_address o c : cf_Address (refined o c) = default (cf_Address c) (consul_address (o_Addrs o)).
Proof. unfold refined, secure. destruct (consul_address _), (_ || _); done. Qed.

Lemma refined_client o c : cf_HttpClient (refined o c) = None <-> is_secure o = false /\ cf_HttpClient c = None.
Proof. unfold refined, secure, is_secure. destruct (consul_address _), (_ || _); cbn; naive_solver. Qed.

Lemma set_timeout_panics o c : set_timeout (o_Timeout o) (refined o c) = Panic "nil pointer dereference" <-> no_http_client o c.
Proof.
  unfold no_http_client. rewrite <- refined_client. unfold set_timeout. destruct (Z.ltb_spec 0 (o_Timeout o)); [|split; [done|lia]].
  destruct (cf_HttpClient _); naive_solver.
Qed.

(** The result of configuring, in one equation. *)
Lemma configure_eq os k (s : store) : let o := foldl (fun o f => f o) (k_opts k) os in
  configure os k s =
    match (chosen_config DefaultConfig o s).2 !! (chosen_config DefaultConfig o s).1 with
    | None => Panic "nil pointer dereference"
    | Some c =>
        c <- set_timeout (o_Timeout o) (refined o c);
        Ret (mkConsulClient (cf_Address c) (match NewClient c with Ok x => Some x | Err _ => None end) o
               (match context_value consul_connect_key o with Some (CtxBool b) => b | _ => k_connect k end),
             <[(chosen_config DefaultConfig o s).1 := c]> (chosen_config DefaultConfig o s).2)
    end.
Proof. intros o. unfold configure. fold o. by destruct (chosen_config _ _ _) as [r s']. Qed.

(** A timeout without a secure connection needs an http client in the configuration that was
    passed in; with one, or without a timeout, configuring returns, and the client's address
    is the one asked for or the configuration's own. *)
Lemma configure_spec os k (s : store) c (o := foldl (fun o f => f o) (k_opts k) os) :
  (chosen_config DefaultConfig o s).2 !! (chosen_config DefaultConfig o s).1 = Some c ->
  (no_http_client o c /\ configure os k s = Panic "nil pointer dereference") \/
  (~ no_http_client o c /\ exists k' s', configure os k s = Ret (k', s') /\ k_opts k' = o /\
     k_Address k' = default (cf_Address c) (consul_address (o_Addrs o))).
Proof.
  intros Hc. rewrite configure_eq. fold o. rewrite Hc. destruct (set_timeout (o_Timeout o) (refined o c)) as [c'|why] eqn:E.
  - right. split; [by rewrite <- set_timeout_panics, E|]. eexists _, _. split; [reflexivity|]. split; [done|]. cbn.
    rewrite <- refined_address. unfold set_timeout in E. destruct (0 <? _); [|by injection E as <-].
    destruct (cf_HttpClient (refined o c)); [|done]. by injection E as <-.
  - left. assert (why = "nil pointer dereference") as ->.
    { unfold set_timeout in E. destruct (0 <? _); [|done]. destruct (cf_HttpClient _); [done|]. by injection E as <-. }
    by split; [apply set_timeout_panics|].
Qed.

(** Configuring what is configured changes nothing. *)
Lemma set_timeout_stable o c c' : set_timeout (o_Timeout o) (refined o c) = Ret c' -> set_timeout (o_Timeout o) (refined o c') = Ret c'.
Proof.
  unfold set_timeout, refined, secure. destruct c as [a sch [[tls t]|]]; destruct (consul_address _), (_ || _); cbn; destruct (0 <? _); try done;
    by intros [= <-].
Qed.

Lemma configure_again os k (s : store) k' s' : configure os k s = Ret (k', s') -> exists s'', configure [] k' s' = Ret (k', s'').
Proof.
  rewrite !configure_eq. set (o := foldl _ _ os). destruct (_ !! _) as [c|] eqn:Ec; [|done].
  destruct (set_timeout _ _) as [c'|] eqn:Et; [|done]. intros [= <- <-]. cbn [k_opts foldl k_connect].
  unfold chosen_config in *. destruct (context_value consul_config_key o) as [[b|t|r|u p]|] eqn:Ev; cbn [fst snd] in *; rewrite lookup_insert_eq in *.
  3: { rewrite (set_timeout_stable o c c' Et). cbn. eexists. repeat case_match; done. }
  all: injection Ec as <-; rewrite Et; cbn; eexists; repeat case_match; done.
Qed.
End Consul.

(** An application's configuration that two registries are given: the address of the second
    is written into it, and the first moves there when it is configured again. *)
Example shared_config :
  let new := newConsulRegistry (mkConsulConfig "127.0.0.1:8500" "http" None) tt (fun c => Ok (cf_Address c)) in
  let again := consul_configure (mkConsulConfig "127.0.0.1:8500" "http" None) tt (fun c => Ok (cf_Address c)) in
  (r1 <- new [Config 1] {[ 1%positive := mkConsulConfig "10.0.0.1:8500" "http" None ]};
   r2 <- new [Config 1; Addrs ["10.0.0.2"]] r1.2;
   r3 <- again [] r1.1 r2.2;
   Ret (k_Address r1.1, k_Address r2.1, k_Address r3.1)) = Ret ("10.0.0.1:8500", "10.0.0.2:8500", "10.0.0.2:8500").
Proof. vm_compute. reflexivity. Qed.

(** ** Configuring etcd *)

Section Etcd.
Context {T C : Type} (insecure : T) (New : EtcdConfig T -> result string C).

(** The endpoints are the addresses that are not empty, or the local one; there is a
    timeout; without a client the old one stays, and a new registry has none. *)
Lemma etcd_configured os k : let o := foldl (fun o f => f o) (ek_options k) os in
  let '(k', err) := etcd_configure insecure New os k in
  o_Timeout (ek_options k') <> 0 /\
  ec_Endpoints (etcd_config insecure (ek_options k')) <> [] /\ Forall (fun a => a <> "") (ec_Endpoints (etcd_config insecure (ek_options k'))) /\
  (forall a, a ∈ o_Addrs o -> a <> "" -> a ∈ ec_Endpoints (etcd_config insecure (ek_options k'))) /\
  match err with
  | Some e => ek_client k' = ek_client k /\ New (etcd_config insecure (ek_options k')) = Err e
  | None => exists c, ek_client k' = Some c /\ New (etcd_config insecure (ek_options k')) = Ok c
  end.
Proof.
  intros o. unfold etcd_configure. fold o. set (o' := if o_Timeout o =? 0 then _ else o).
  assert (Ha : o_Addrs o' = o_Addrs o) by (unfold o'; by destruct (_ =? _)).
  assert (Hk : forall k' : etcd_client T C, ek_options k' = o' -> o_Timeout (ek_options k') <> 0 /\
    ec_Endpoints (etcd_config insecure (ek_options k')) <> [] /\ Forall (fun a => a <> "") (ec_Endpoints (etcd_config insecure (ek_options k'))) /\
    (forall a, a ∈ o_Addrs o -> a <> "" -> a ∈ ec_Endpoints (etcd_config insecure (ek_options k')))).
  { intros k' ->. cbn. rewrite Ha. pose proof (Forall_forall (fun a => a <> "") (filter (fun a => a <> "") (o_Addrs o))) as Hf.
    assert (Hall : Forall (fun a => a <> "") (filter (fun a => a <> "") (o_Addrs o))) by (apply Hf; intros a; rewrite list_elem_of_filter; tauto).
    split_and!; [unfold o'; destruct (Z.eqb_spec (o_Timeout o) 0); [cbn; done|done]| | |].
    - by destruct (filter _ _).
    - destruct (filter _ _); [by repeat constructor|done].
    - intros a Hin Hne. assert (Hin' : a ∈ filter (fun a => a <> "") (o_Addrs o)) by (by apply list_elem_of_filter).
      destruct (filter _ _); [by apply not_elem_of_nil in Hin'|done]. }
  destruct (New (etcd_config insecure o')) as [c|e] eqn:E; split_and!; try (by apply Hk); cbn; rewrite ?E; eauto.
Qed.
End Etcd.

(** ** Stopping an etcd watcher *)

Definition may_panic (w : watch_stop) : Prop := Stopped true ∈ ws_stoppers w.

(** A [Stop] with no other beside it closes the channel and returns. *)
Definition one_stopper (w : watch_stop) : Prop :=
  ws_stoppers w = [AtSelect] \/ (ws_stoppers w = [AtClose] /\ ws_closed w = false) \/ (ws_stoppers w = [Stopped false] /\ ws_closed w = true).

Lemma one_stop_never_panics evs w w' : one_stopper w -> stop_run evs w = Some w' -> ~ may_panic w'.
Proof.
  intros Hw Hr. assert (one_stopper w') as [H|[[H _]|[H _]]]; [|unfold may_panic; rewrite H; set_solver..].
  eapply (run_steps_keep stop_step one_stopper); [|exact Hw|exact Hr].
  intros [c x l] e y H Hs. unfold one_stopper in H |- *. cbn in H. destruct e as [[|i]|]; cbn in Hs.
  - destruct H as [->|[[-> Hc]|[-> Hc]]]; cbn in *; [| |done].
    + injection Hs as <-. destruct c; [by right; right|by right; left].
    + rewrite Hc in Hs. injection Hs as <-. by right; right.
  - by destruct H as [->|[[-> _]|[-> _]]].
  - destruct c; [|done]. injection Hs as <-. destruct H as [->|[[_ H]|[-> H]]]; [by left|done|by right; right].
Qed.

(** Two at once can both find the channel open, and the second closes it again. *)
Example two_stops_may_panic :
  exists w, stop_run [WStop 0; WStop 1; WStop 0; WStop 1] (mkWatchStop false false [AtSelect; AtSelect]) = Some w /\ may_panic w.
Proof. eexists. split; [reflexivity|]. unfold may_panic. cbn. by apply list_elem_of_further, list_elem_of_here. Qed.

(** A registry checks its services over TCP when that was asked for with a positive
    interval. *)
Lemma configured_check {T C} Default insecure (NewClient : ConsulConfig T -> result string C) t s k s' :
  newConsulRegistry Default insecure NewClient [TCPCheck t] s = Ret (k, s') -> tcp_check (configured k) = if t <=? 0 then None else Some t.
Proof.
  unfold newConsulRegistry. rewrite configure_eq. destruct (_ !! _) as [c|]; [|done]. destruct (set_timeout _ _) as [c'|]; [|done].
  intros [= <- _]. cbn. unfold tcp_check_of, TCPCheck. cbn. by destruct (t <=? 0).
Qed.

(** The last option of a registration or a watch is taken; without one there is no ttl, and
    every service is watched. *)
Lemma registration_options ts : ro_TTL (register_options (registry_RegisterTTL <$> ts)) = default 0 (last ts).
Proof. unfold register_options. induction ts as [|t ts _] using rev_ind; [done|]. by rewrite fmap_app, foldl_app, last_snoc. Qed.

Lemma watching_options ns : wo_Service (watch_options (WatchService <$> ns)) = default "" (last ns).
Proof. unfold watch_options. induction ns as [|t ns _] using rev_ind; [done|]. by rewrite fmap_app, foldl_app, last_snoc. Qed.
