(* ===== verification/ServiceOptions.v ===== *)
(** * The options of servers and services

    [server/options.go] and [service/options.go]: the options, [NewService] and [Init] of
    [service/service.go], and [Init], [Register] and [OnDestroy] of [server/rpc_server.go].

    A service's options that concern its server change the server itself, which they
    find in the options: they need [WithServer] ([Server] in the code) before them. *)
From S2P Require Import Prelude Registry Server.
#[local] Open Scope mq_scope.
#[local] Open Scope string_scope.
#[local] Open Scope list_scope.
#[local] Open Scope Z_scope.

(** ** Server options *)

Definition Name (n : string) : Option := fun o => o <| so_Name := n |>.
Definition ID (i : string) : Option := fun o => o <| so_ID := i |>.
Definition Version (v : string) : Option := fun o => o <| so_Version := v |>.
Definition Address (a : string) : Option := fun o => o <| so_Address := a |>.
Definition Advertise (a : string) : Option := fun o => o <| so_Advertise := a |>.
Definition Metadata (md : gmap string string) : Option := fun o => o <| so_Metadata := md |>.
Definition RegisterTTL (t : Z) : Option := fun o => o <| so_RegisterTTL := t |>.
Definition RegisterInterval (t : Z) : Option := fun o => o <| so_RegisterInterval := t |>.

(** [Init] of a server.  Its id and instance id stay those it was made with. *)
Definition server_Init (os : list Option) (s : rpcServer) : rpcServer :=
  let o := opts s in s <| opts := foldl (fun o f => f o) o os |>.

(** [Register] and [RegisterGO] need the rpc server of [OnInit]; [f] is their effect on it. *)
Definition server_Register {A} (f : outcome A) (s : rpcServer) : outcome A :=
  if transport s then f else Panic "invalid RPCServer".

Definition server_OnDestroy (s : rpcServer) : rpcServer := server_Stop s.

(** ** Service options *)

Section Service.
Context {W : Type}.

(** [service.Options]; the server is nil until it is given. *)
Record service_options := mkServiceOptions {
  sv_Server : option rpcServer; sv_RegisterInterval : Z;
  sv_BeforeStart : list (hook (W := W)); sv_BeforeStop : list (hook (W := W));
  sv_AfterStart : list (hook (W := W)); sv_AfterStop : list (hook (W := W)) }.

#[export] Instance eta_service_options : Eta service_options := fun o =>
  mkServiceOptions (sv_Server o) (sv_RegisterInterval o) (sv_BeforeStart o) (sv_BeforeStop o) (sv_AfterStart o) (sv_AfterStop o).

Definition service_option : Type := service_options -> outcome service_options.

(** [o.Server.Init(opt)] *)
Definition on_server (opt : Option) : service_option := fun o =>
  match sv_Server o with
  | None => Panic "nil pointer dereference"
  | Some s => Ret (o <| sv_Server := Some (server_Init [opt] s) |>)
  end.

Definition WithServer (s : rpcServer) : service_option := fun o => Ret (o <| sv_Server := Some s |>).
Definition service_Name (n : string) : service_option := on_server (Name n).
Definition service_Version (v : string) : service_option := on_server (Version v).
Definition service_Metadata (md : gmap string string) : service_option := on_server (Metadata md).
Definition service_RegisterTTL (t : Z) : service_option := on_server (RegisterTTL t).
Definition service_RegisterInterval (t : Z) : service_option := fun o => Ret (o <| sv_RegisterInterval := t |>).
Definition WithBeforeStart (h : hook) : service_option := fun o => let l := sv_BeforeStart o in Ret (o <| sv_BeforeStart := l ++ [h] |>).
Definition WithBeforeStop (h : hook) : service_option := fun o => let l := sv_BeforeStop o in Ret (o <| sv_BeforeStop := l ++ [h] |>).
Definition WithAfterStart (h : hook) : service_option := fun o => let l := sv_AfterStart o in Ret (o <| sv_AfterStart := l ++ [h] |>).
Definition WithAfterStop (h : hook) : service_option := fun o => let l := sv_AfterStop o in Ret (o <| sv_AfterStop := l ++ [h] |>).

Fixpoint apply_service_options (os : list service_option) (o : service_options) : outcome service_options :=
  match os with
  | [] => Ret o
  | f :: os => o <- f o; apply_service_options os o
  end.

(** [newOptions] and [newService]. *)
Definition newServiceOptions (os : list service_option) : outcome service_options :=
  apply_service_options os (mkServiceOptions None 0 [] [] [] []).

(** The service these options make, once they hold a server. *)
Definition service_of (o : service_options) : option (service W) :=
  s ← sv_Server o; Some (mkService_ (sv_BeforeStart o) (sv_AfterStart o) (sv_BeforeStop o) (sv_AfterStop o) (sv_RegisterInterval o) s).

Definition service_Init (os : list service_option) : service_options -> outcome service_options := apply_service_options os.
End Service.
Arguments service_options W : clear implicits.
Arguments service_option W : clear implicits.

(** ** What holds

    The service of a module is the one its options make; options that need the server
    panic before it; hooks keep their order; and what renaming a server leaves behind. *)

Section Options.
Context {W : Type}.

Lemma apply_app (os1 os2 : list (service_option W)) o :
  apply_service_options (os1 ++ os2) o = (o <- apply_service_options os1 o; apply_service_options os2 o).
Proof. revert o. induction os1 as [|f os1 IH]; intros o; [done|]. cbn. destruct (f o) as [o'|why]; [by apply IH|done]. Qed.

(** The options [BaseModule] passes ([OnInit]) make its service. *)
Lemma module_service s ttl interval :
  (o <- newServiceOptions [WithServer s; service_RegisterTTL ttl; service_RegisterInterval interval]; Ret (service_of o))
    = Ret (Some (NewService (W := W) s ttl interval)).
Proof. done. Qed.

(** An option that leaves the server as it is, once it is there or not. *)
Definition keeps_server (f : service_option W) : Prop :=
  forall o, sv_Server o = None -> exists o', f o = Ret o' /\ sv_Server o' = None.

Lemma hooks_keep_server h t : keeps_server (WithBeforeStart h) /\ keeps_server (WithBeforeStop h) /\ keeps_server (WithAfterStart h) /\
  keeps_server (WithAfterStop h) /\ keeps_server (service_RegisterInterval t).
Proof. split_and!; intros o Ho; eexists; done. Qed.

Lemma apply_keeps (os : list (service_option W)) : Forall keeps_server os ->
  forall o, sv_Server o = None -> exists o', apply_service_options os o = Ret o' /\ sv_Server o' = None.
Proof.
  induction 1 as [|f os Hf _ IH]; intros o Ho; [by exists o|]. cbn. destruct (Hf o Ho) as (o1 & -> & H1). by apply IH.
Qed.

(** Options for the server panic before the server is given, and work after it. *)
Lemma server_options_in_order (os1 os2 : list (service_option W)) opt s : Forall keeps_server os1 ->
  newServiceOptions (os1 ++ on_server opt :: os2) = Panic "nil pointer dereference" /\
  (o <- newServiceOptions (os1 ++ [WithServer s; on_server opt]); Ret (sv_Server o)) = Ret (Some (server_Init [opt] s)).
Proof.
  intros H. unfold newServiceOptions. rewrite !apply_app. destruct (apply_keeps os1 H (mkServiceOptions None 0 [] [] [] []) eq_refl) as (o & -> & Ho).
  cbn. unfold on_server. by rewrite Ho.
Qed.

(** Hooks run in the order of their options. *)
Lemma hooks_in_order (hs : list (hook (W := W))) o : apply_service_options (WithBeforeStart <$> hs) o = Ret (o <| sv_BeforeStart := sv_BeforeStart o ++ hs |>).
Proof.
  revert o. induction hs as [|h hs IH]; intros o; cbn; [by destruct o; cbn; rewrite app_nil_r|]. rewrite IH. cbn. by rewrite <- app_assoc.
Qed.
End Options.

Lemma append_assoc (a b c : string) : ((a ++ b) ++ c)%string = (a ++ b ++ c)%string.
Proof. induction a as [|x a IH]; [done|]. exact (f_equal (String x) IH). Qed.

(** A server renamed after it was made announces the new name and server id under an
    instance id that still has the old name. *)
Lemma renamed_server {W} `{RegistryOps W} o uuid now s n addr port : newRPCServer o uuid now = Ret s ->
  let v := announced (server_Init [Name n] s) addr port in
  Registry.Name v = n /\ Forall (fun x => ServerID x = (n ++ "@" ++ so_ID o)%string /\
    InstanceID x = (so_Name o ++ "@" ++ so_ID o ++ "#" ++ uuid)%string) (Nodes v).
Proof.
  unfold newRPCServer. destruct (decide (uuid = "")); [done|]. intros [= <-]. split; [done|]. constructor; [|done]. split; [done|].
  cbn. unfold server_id. by rewrite !append_assoc.
Qed.
