(* ===== verification/Listen.v ===== *)
(** * Starting a listener, and a WebSocket connection

    [init] of [network/tcp_server.go], [Start] and [Close] of [network/ws_server_x.go], and
    [WSConn] of [network/ws_conn_x.go], which gives a WebSocket the interface of a
    [TCPConn].

    What runs once a server has started is in [NetServer], the addresses a [WSConn] reports
    in [IpTool].  Outside the model: the network, certificates and net/http; a listener
    is a value of [L], [tls] makes a TLS listener of it. *)
From S2P Require Import Prelude MqttPack MqttRead MqttWrite BufIO.
#[local] Open Scope mq_scope.
#[local] Open Scope st_scope.
#[local] Open Scope string_scope.
#[local] Open Scope list_scope.
#[local] Open Scope Z_scope.

(** ** Servers *)

Section Servers.
Context {L : Type} (Listen : string -> result string L) (LoadX509KeyPair : string -> string -> result string (L -> L)).

(** The fields an application sets; [NewAgent] says whether it is not nil. *)
Record listen_options := mkListenOptions {
  Addr : string; TLS : bool; CertFile : string; KeyFile : string; NewAgent : bool }.

(** [opened] are the listeners that were opened. *)
Record starting (S : Type) := mkStarting { opened : list L; started : S }.
Arguments mkStarting {S}.
Arguments opened {S}.
Arguments started {S}.

Definition listen {S} (addr : string) : ST (starting S) L := fun s =>
  match Listen addr with
  | Err e => Panicked s "Tcp listen fail"
  | Ok ln => Done (mkStarting (opened s ++ [ln]) (started s)) ln
  end.

Definition set_started {S} (f : S -> S) : ST (starting S) unit := st_mod (fun s => mkStarting (opened s) (f (started s))).

(** The certificate, when one is asked for. *)
Definition with_tls {S} (o : listen_options) (failed : string) (ln : L) : ST (starting S) L :=
  if TLS o then
    match LoadX509KeyPair (CertFile o) (KeyFile o) with
    | Ok tls => st_ret (tls ln)
    | Err _ => st_panic failed
    end
  else st_ret ln.

(** [TCPServer.init]: [started] is [server.ln]. *)
Definition tcp_init (o : listen_options) : ST (starting (option L)) unit :=
  let* ln := listen (Addr o) in
  do* (if NewAgent o then st_ret tt else st_panic "NewAgent must not be nil") in
  let* ln := with_tls o "Load Tcp tls fail" ln in
  set_started (fun _ => Some ln).

(** [WSHandler]: what it was given, and the count of its wait group. *)
Record WSHandler := mkWSHandler { maxConnNum : Z; maxMsgLen : Z; wh_wg : Z }.

Record WSServer := mkWSServer {
  ws_options : listen_options; MaxConnNum : Z; MaxMsgLen : Z; HTTPTimeout : Z; ws_ln : option L; ws_handler : option WSHandler;
  ws_serving : option (L * Z) }.

#[local] Instance eta_WSServer : Eta WSServer := fun s =>
  mkWSServer (ws_options s) (MaxConnNum s) (MaxMsgLen s) (HTTPTimeout s) (ws_ln s) (ws_handler s) (ws_serving s).

Definition ten_seconds : Z := 10 * 1000000000.

(** [Start]; [ws_serving] is what the http server was started with: the listener, and the
    timeout for reading and for writing. *)
Definition ws_Start : ST (starting WSServer) unit :=
  let* s := st_get in
  let* ln := listen (Addr (ws_options (started s))) in
  do* set_started (fun v => if HTTPTimeout v <=? 0 then v <| HTTPTimeout := ten_seconds |> else v) in
  do* (if NewAgent (ws_options (started s)) then st_ret tt else st_panic "NewAgent must not be nil") in
  let* ln := with_tls (ws_options (started s)) "Load ws_server tls fail" ln in
  set_started (fun v => let n := MaxConnNum v in let m := MaxMsgLen v in let t := HTTPTimeout v in
    v <| ws_ln := Some ln |> <| ws_handler := Some (mkWSHandler n m 0) |> <| ws_serving := Some (ln, t) |>).

(** [Close] up to its [Wait]: it needs what [Start] made. *)
Definition ws_Close (s : WSServer) : outcome L :=
  match ws_ln s, ws_handler s with
  | Some ln, Some _ => Ret ln
  | _, _ => Panic "nil pointer dereference"
  end.
End Servers.

(** ** [WSConn] *)

Section WSConn.
Context {Sock : Type} `{Socket Sock}.

Record WSConn := mkWSConn { wc_conn : Sock; wc_closeFlag : bool }.

#[local] Instance eta_WSConn : Eta WSConn := fun c => mkWSConn (wc_conn c) (wc_closeFlag c).

Definition newWSConn (conn : Sock) : WSConn := mkWSConn conn false.

(** [doDestroy] and [Destroy], which closes whatever the flag says. *)
Definition ws_Destroy (c : WSConn) : WSConn :=
  let '(s, _) := net_Close (wc_conn c) in
  let c := c <| wc_conn := s |> in
  if wc_closeFlag c then c else c <| wc_closeFlag := true |>.

Definition WSConn_Close (c : WSConn) : WSConn * option ioerr :=
  if wc_closeFlag c then (c, None)
  else
    let c := c <| wc_closeFlag := true |> in
    let '(s, e) := net_Close (wc_conn c) in
    (c <| wc_conn := s |>, e).

(** The flag is not looked at. *)
Definition WSConn_Write (b : bytes) (c : WSConn) : WSConn * Z * option ioerr :=
  let '(s, n, e) := net_Write b (wc_conn c) in
  (c <| wc_conn := s |>, n, e).

(** [SetDeadline]: the deadline for writing is not set when that for reading fails. *)
Definition ws_SetDeadline (set_read set_write : Sock -> Sock * option ioerr) (c : WSConn) : WSConn * option ioerr :=
  let '(s, e) := set_read (wc_conn c) in
  let c := c <| wc_conn := s |> in
  match e with
  | Some e => (c, Some e)
  | None => let '(s, e) := set_write (wc_conn c) in (c <| wc_conn := s |>, e)
  end.
End WSConn.
Arguments WSConn Sock : clear implicits.
Arguments mkStarting {L S}.
Arguments opened {L S}.
Arguments started {L S}.

(** ** What holds

    What a start leaves behind when it panics, and how far a [WSConn] behaves as a
    [TCPConn]. *)

Section Servers.
Context {L : Type} (Listen : string -> result string L) (LoadX509KeyPair : string -> string -> result string (L -> L)).
Abbreviation Start := (ws_Start Listen LoadX509KeyPair).
Abbreviation init := (tcp_init Listen LoadX509KeyPair).

(** The listener a server runs on, or why there is none. *)
Definition listener_of (o : listen_options) (bad_cert : string) : result string L :=
  match Listen (Addr o) with
  | Err _ => Err "Tcp listen fail"
  | Ok ln =>
      if NewAgent o then
        if TLS o then match LoadX509KeyPair (CertFile o) (KeyFile o) with Ok tls => Ok (tls ln) | Err _ => Err bad_cert end else Ok ln
      else Err "NewAgent must not be nil"
  end.

Definition opens (o : listen_options) : list L := match Listen (Addr o) with Ok ln => [ln] | Err _ => [] end.

(** [init] of a TCP server sets the listener, or panics and leaves what it opened. *)
Lemma tcp_init_spec o l (x : option L) :
  init o (mkStarting l x) =
    match listener_of o "Load Tcp tls fail" with
    | Ok ln => Done (mkStarting (l ++ opens o) (Some ln)) tt
    | Err why => Panicked (mkStarting (l ++ opens o) x) why
    end.
Proof.
  unfold tcp_init, listen, listener_of, opens, with_tls, st_bind, exec_then. cbn. destruct (Listen (Addr o)); cbn; [|by rewrite app_nil_r].
  destruct (NewAgent o); cbn; [|done]. destruct (TLS o); cbn; [|done]. by destruct (LoadX509KeyPair _ _).
Qed.

(** [Start] of a WebSocket server: the timeout is positive, and the handler and the http server
    are made of the server's fields; or it panics, and has opened a listener that no
    [Close] can reach. *)
Lemma ws_Start_spec l (s : WSServer (L := L)) : ws_ln s = None -> ws_handler s = None ->
  match listener_of (ws_options s) "Load ws_server tls fail" with
  | Ok ln => exists s', Start (mkStarting l s) = Done (mkStarting (l ++ opens (ws_options s)) s') tt /\ ws_Close s' = Ret ln /\
      ws_serving s' = Some (ln, HTTPTimeout s') /\ 0 < HTTPTimeout s' /\ (0 < HTTPTimeout s -> HTTPTimeout s' = HTTPTimeout s) /\
      ws_handler s' = Some (mkWSHandler (MaxConnNum s) (MaxMsgLen s) 0)
  | Err why => exists s', Start (mkStarting l s) = Panicked (mkStarting (l ++ opens (ws_options s)) s') why /\
      ws_Close s' = Panic "nil pointer dereference"
  end.
Proof.
  intros Hl Hh. unfold ws_Start, listen, listener_of, opens, with_tls, st_bind, exec_then, st_get. cbn.
  destruct (Listen (Addr (ws_options s))); cbn; [|exists s; rewrite app_nil_r; unfold ws_Close; by rewrite Hl].
  assert (Hc : forall s' : WSServer (L := L), ws_ln s' = ws_ln s -> ws_Close s' = Panic "nil pointer dereference").
  { intros s' E. unfold ws_Close. by rewrite E, Hl. }
  destruct (NewAgent _); cbn; [|eexists; split; [done|]; apply Hc; by destruct (_ <=? _)].
  destruct (TLS _); cbn.
  - destruct (LoadX509KeyPair _ _); cbn; [|eexists; split; [done|]; apply Hc; by destruct (_ <=? _)].
    eexists. split; [done|]. destruct (Z.leb_spec (HTTPTimeout s) 0); cbn; split_and!; (done || lia).
  - eexists. split; [done|]. destruct (Z.leb_spec (HTTPTimeout s) 0); cbn; split_and!; (done || lia).
Qed.
End Servers.

(** ** The two kinds of connections *)

Section Conns.
Context {Sock : Type} `{Socket Sock}.

Definition same_conn (t : TCPConn Sock) (w : WSConn Sock) : Prop := tc_conn t = wc_conn w /\ closeFlag t = wc_closeFlag w.

(** [Close] and [Destroy] agree, a second [Close] does nothing, and writing agrees until the
    connection is closed; then a TCP connection claims to have written nothing, without an
    error, while a WebSocket asks its socket. *)
Lemma connections_agree (t : TCPConn Sock) (w : WSConn Sock) b : same_conn t w ->
  (same_conn (TCPConn_Close t).1 (WSConn_Close w).1 /\ (TCPConn_Close t).2 = (WSConn_Close w).2) /\
  same_conn (Destroy t) (ws_Destroy w) /\
  WSConn_Close (WSConn_Close w).1 = ((WSConn_Close w).1, None) /\
  (if wc_closeFlag w then TCPConn_Write b t = (t, 0, None) /\ (WSConn_Write b w).2 = (net_Write b (wc_conn w)).2
   else same_conn (TCPConn_Write b t).1.1 (WSConn_Write b w).1.1 /\ (TCPConn_Write b t).1.2 = (WSConn_Write b w).1.2 /\
        (TCPConn_Write b t).2 = (WSConn_Write b w).2).
Proof.
  destruct t as [s f], w as [s' f']. intros [Hs Hf]. cbn in Hs, Hf. subst.
  unfold same_conn, TCPConn_Close, WSConn_Close, Destroy, ws_Destroy, TCPConn_Write, WSConn_Write. cbn.
  destruct (net_Close s') as [s1 e1], (net_Write b s') as [[s2 n] e2], f'; cbn; by split_and!.
Qed.

(** The error of [SetDeadline] is the first of the two. *)
Lemma SetDeadline_first set_read set_write (c : WSConn Sock) s e : set_read (wc_conn c) = (s, Some e) ->
  ws_SetDeadline set_read set_write c = (mkWSConn s (wc_closeFlag c), Some e).
Proof. intros Hr. unfold ws_SetDeadline. by rewrite Hr. Qed.
End Conns.
