(* ===== verification/RpcLife.v ===== *)
(** * The end of an rpc server

    [Done] of [rpc/base/rpc_server.go] and the requests it is to wait for: the receive
    loop of [NatsServer] starts each request, in a goroutine of its own or not, [_runFunc]
    counts it in [wg] and in [executing], and [Done] waits for [wg] and then calls
    [Shutdown].  All of them run at once; every step of one of them is an event.

    [executing] is incremented without a lock: reading and writing it are steps of their own.
    What a request's function computes is in [RpcServer]; here it is its answer or a panic,
    or both: the listener and the application's handler are called after the answer is
    sent, and a panic of theirs is answered again by whatever recovers it. *)
From S2P Require Import Prelude RpcArgs NatsClient RpcServer NatsServer.
#[local] Open Scope mq_scope.
#[local] Open Scope string_scope.
#[local] Open Scope list_scope.
#[local] Open Scope Z_scope.

(** Where a request is: before [_runFunc], after [wg.Add(1)], after reading [executing], in
    the function and what answers for it, in the deferred function before [wg.Add(-1)],
    after it, after reading [executing] again, before the report of a panic, in the [recover] of
    [runFunc], done, or ended by a panic that left it. *)
Inductive task_at :=
| Spawned
| Entered
| Loaded (executing : Z)
| Running
| Leaving (panicked : bool)
| Uncounted (panicked : bool)
| Unloaded (panicked : bool) (executing : Z)
| Reporting (panicked : bool)
| Recovering
| Over
| Escaped.

(** [t_sync]: the receive loop runs it itself; [t_adapted]: the number of its arguments is the
    function's; [t_replies]: how often it was answered; [t_late]: how often a callback
    panicked after an answer. *)
Record task := mkTask { t_sync : bool; t_adapted : bool; t_at : task_at; t_replies : nat; t_late : nat }.

#[export] Instance eta_task : Eta task := fun t => mkTask (t_sync t) (t_adapted t) (t_at t) (t_replies t) (t_late t).

#[export] Instance task_at_eq_dec : EqDecision task_at.
Proof. solve_decision. Defined.

(** How code that answers ends: it returns, it panics in a callback after the answer, or
    before it has answered. *)
Inductive ending := Answers | AnswersAndPanics | PanicsFirst.

(** [lf_waited]: [Done] has been called and its [Wait] has returned; [lf_crashed]: a panic
    reached the end of a goroutine, and with it the process. *)
Record life := mkLife { lf_nats : NatsServer (list task); lf_wg : Z; lf_executing : Z; lf_waited : bool; lf_crashed : bool }.

#[export] Instance eta_life : Eta life := fun s => mkLife (lf_nats s) (lf_wg s) (lf_executing s) (lf_waited s) (lf_crashed s).

Inductive life_event :=
| LNats (e : ns_event)                  (** a step of the receive loop or of [Shutdown] *)
| LTask (i : nat) (o : ending)          (** a step of a request; only code that answers has an end *)
| LWait.                                (** [wg.Wait] returns *)

Section Life.
Context (unmarshal : bytes -> option RPCInfo) (goroutine adapted : RPCInfo -> bool).

(** The receive loop takes a request up.  One for a function that is not there, which
    [runFunc] answers itself, is one of the loop's own that is not adapted. *)
Definition spawn (q : RPCInfo) : ST (list task) unit := fun l =>
  Done (l ++ [mkTask (negb (goroutine q)) (adapted q) Spawned 0 0]) tt.

Definition tasks (s : life) : list task := ns_rpc (lf_nats s).

Definition ended (t : task) : bool := match t_at t with Over | Escaped => true | _ => false end.

(** The loop is in a request it runs itself. *)
Definition busy (s : life) : bool := existsb (fun t => t_sync t && negb (ended t)) (tasks s).

Definition set_task (i : nat) (t : task) (s : life) : life :=
  let n := lf_nats s in let l := tasks s in s <| lf_nats := n <| ns_rpc := <[i := t]> l |> |>.

Definition replied (at_ : task_at) (t : task) : task := let n := t_replies t in t <| t_at := at_ |> <| t_replies := S n |>.

Definition late (at_ : task_at) (t : task) : task := let n := t_late t in replied at_ t <| t_late := S n |>.

(** A panic that [_runFunc] does not recover: [runFunc] does for the receive loop; a
    goroutine's ends the process. *)
Definition raised (i : nat) (t : task) (s : life) : life :=
  if t_sync t then set_task i (t <| t_at := Recovering |>) s else set_task i (t <| t_at := Escaped |>) (s <| lf_crashed := true |>).

(** A step of [_runFunc] and of [runFunc]'s deferred function.  A report answers before
    anything in it can panic. *)
Definition task_step (i : nat) (o : ending) (t : task) (s : life) : option life :=
  let wg := lf_wg s in
  match t_at t with
  | Spawned =>
      if t_adapted t then Some (set_task i (t <| t_at := Entered |>) (s <| lf_wg := wg + 1 |>))
      else Some (match o with
                 | Answers => set_task i (replied Over t) s
                 | AnswersAndPanics => raised i (late Spawned t) s
                 | PanicsFirst => raised i t s
                 end)
  | Entered => Some (set_task i (t <| t_at := Loaded (lf_executing s) |>) s)
  | Loaded v => Some (set_task i (t <| t_at := Running |>) (s <| lf_executing := v + 1 |>))
  | Running =>
      Some (set_task i (match o with
                        | Answers => replied (Leaving false) t
                        | AnswersAndPanics => late (Leaving true) t
                        | PanicsFirst => t <| t_at := Leaving true |>
                        end) s)
  | Leaving p => Some (set_task i (t <| t_at := Uncounted p |>) (s <| lf_wg := wg - 1 |>))
  | Uncounted p => Some (set_task i (t <| t_at := Unloaded p (lf_executing s) |>) s)
  | Unloaded p v => Some (set_task i (t <| t_at := Reporting p |>) (s <| lf_executing := v - 1 |>))
  | Reporting false => Some (set_task i (t <| t_at := Over |>) s)
  | Reporting true =>
      match o with
      | Answers => Some (set_task i (replied Over t) s)
      | AnswersAndPanics => Some (raised i (late (Reporting true) t) s)
      | PanicsFirst => None
      end
  | Recovering =>
      match o with
      | Answers => Some (set_task i (replied Over t) s)
      | AnswersAndPanics => let n := lf_nats s in Some (set_task i (late Escaped t) (s <| lf_nats := leave_loop n |>))
      | PanicsFirst => None
      end
  | Over | Escaped => None
  end.

Definition life_step (s : life) (e : life_event) : option life :=
  if lf_crashed s then None else
  match e with
  | LNats e =>
      if (is_loop e && busy s) || (bool_decide (e = SafeClose) && negb (lf_waited s)) then None
      else n ← ns_step unmarshal spawn (lf_nats s) e; Some (s <| lf_nats := n |>)
  | LTask i o => t ← tasks s !! i; task_step i o t s
  | LWait => if negb (lf_waited s) && (lf_wg s =? 0) then Some (s <| lf_waited := true |>) else None
  end.

Definition life_run : list life_event -> life -> option life := run_steps life_step.

(** [NewRPCServer] *)
Definition life_init : life := mkLife (NewNatsServer []) 0 0 false false.
End Life.
