(* ===== verification/RpcLifeTheorems.v ===== *)
(** * Theorems about the end of an rpc server

    What [Done] waits for, and what it does not. *)
From S2P Require Import Prelude RpcArgs NatsClient RpcServer NatsServer NatsServerTheorems RpcLife.
#[local] Open Scope mq_scope.
#[local] Open Scope string_scope.
#[local] Open Scope list_scope.
#[local] Open Scope Z_scope.

(** Between [wg.Add(1)] and [wg.Add(-1)]. *)
Definition counted (t : task) : bool :=
  match t_at t with Entered | Loaded _ | Running | Leaving _ => true | _ => false end.

(** In the function, or before it. *)
Definition answered (t : task) : bool :=
  match t_at t with Over | Leaving false | Uncounted false | Unloaded false _ | Reporting false => true | _ => false end.

Definition count (l : list task) : Z := foldr (fun t n => Z.b2z (counted t) + n) 0 l.

Lemma count_app l l' : count (l ++ l') = count l + count l'.
Proof. induction l as [|t l IH]; [done|]. cbn. fold (count (l ++ l')) (count l). lia. Qed.

Lemma count_nonneg l : 0 <= count l.
Proof. induction l as [|t l IH]; [done|]. cbn. fold (count l). destruct (counted t); cbn; lia. Qed.

Lemma count_insert l i t t' : l !! i = Some t -> count (<[i := t']> l) = count l - Z.b2z (counted t) + Z.b2z (counted t').
Proof.
  intros H. pose proof (f_equal count (take_drop_middle l i t H)) as E. rewrite count_app in E. cbn in E.
  rewrite insert_take_drop by (by eapply lookup_lt_Some). rewrite count_app. cbn. unfold count in *. lia.
Qed.

Lemma count_zero l : count l = 0 -> Forall (fun t => counted t = false) l.
Proof.
  induction l as [|t l IH]; intros H; constructor; cbn in H; fold (count l) in H; pose proof (count_nonneg l);
    destruct (counted t); cbn in H; (done || lia || (apply IH; lia)).
Qed.

Section Life.
Context (unmarshal : bytes -> option RPCInfo) (goroutine adapted : RPCInfo -> bool).

Abbreviation step := (life_step unmarshal goroutine adapted).
Abbreviation run := (life_run unmarshal goroutine adapted).
Abbreviation nats_step := (ns_step unmarshal (spawn goroutine adapted)).
Abbreviation new_task q := (mkTask (negb (goroutine q)) (adapted q) Spawned 0 0).

(** The requests a step of the loop takes up. *)
Lemma nats_spawns n e n' : nats_step n e = Some n' -> ns_rpc n' = ns_rpc n ++ ((fun q => new_task q) <$> requests unmarshal [e]).
Proof.
  intros H. rewrite (step_serves _ _ _ _ _ H). clear H. generalize (ns_rpc n). induction (requests unmarshal [e]) as [|q qs IH]; intros l; cbn; [by rewrite app_nil_r|].
  rewrite IH. cbn. by rewrite <- app_assoc.
Qed.

(** How often callbacks can have panicked after an answer. *)
Definition allowed (t : task) : nat :=
  match t_at t with
  | Escaped => 3
  | Recovering | Over => 2
  | Leaving true | Uncounted true | Unloaded true _ | Reporting true => 1
  | _ => 0
  end.

(** Each late panic costs one more answer. *)
Record task_ok (t : task) : Prop := {
  to_replies : t_replies t = (t_late t + if answered t then 1 else 0)%nat;
  to_late : (t_late t <= allowed t)%nat;
  to_escaped : t_at t = Escaped -> (0 < t_late t)%nat \/ t_sync t = false;
  to_recovering : t_at t = Recovering -> t_sync t = true }.

(** The receive loop is in it. *)
Definition working (t : task) : bool := t_sync t && negb (ended t).

Record life_inv (s : life) : Prop := {
  li_nats : ns_inv (lf_nats s);
  li_wg : lf_wg s = count (tasks s);
  li_tasks : Forall task_ok (tasks s);
  li_one : forall i j t u, tasks s !! i = Some t -> tasks s !! j = Some u -> working t -> working u -> i = j;
  li_left : ns_loop (lf_nats s) = Left -> busy s = false;
  li_waited : ns_shutdown (lf_nats s) <> NotCalled -> lf_waited s = true }.

Lemma life_init_inv : life_inv life_init.
Proof. by split; try apply new_inv. Qed.

Lemma busy_false s : busy s = false <-> forall i t, tasks s !! i = Some t -> ~ working t.
Proof.
  unfold busy. split.
  - intros H i t Ht Hw. apply not_true_iff_false in H. apply H. apply existsb_exists. exists t. split; [|by apply Is_true_true].
    apply list_elem_of_In. by eapply list_elem_of_lookup_2.
  - intros H. apply not_true_iff_false. intros (t & Ht & Hb)%existsb_exists. apply list_elem_of_In, list_elem_of_lookup in Ht as (i & Hi).
    apply (H i t Hi). by apply Is_true_true.
Qed.

Lemma set_task_at i t s : (i < length (tasks s))%nat -> tasks (set_task i t s) = <[i := t]> (tasks s).
Proof. done. Qed.

(** What a step of a request does: to the request, and to the loop if a panic gets there. *)
Record stepped (i : nat) (t t' : task) (s s' : life) : Prop := {
  st_tasks : tasks s' = <[i := t']> (tasks s);
  st_ok : task_ok t';
  st_sync : t_sync t' = t_sync t;
  st_was : ended t = false;
  st_wg : lf_wg s' = lf_wg s - Z.b2z (counted t) + Z.b2z (counted t');
  st_waited : lf_waited s' = lf_waited s;
  st_loop : let n := lf_nats s <| ns_rpc := tasks s' |> in
    lf_nats s' = n \/ lf_nats s' = leave_loop n /\ t_sync t = true /\ t_at t' = Escaped;
  st_through : (t_at t <> Spawned -> counted t = false -> t_at t' <> Spawned /\ counted t' = false) }.

Lemma task_step_spec i o t s s' : task_ok t -> task_step i o t s = Some s' -> exists t', stepped i t t' s s'.
Proof.
  intros [Hr Hl He Hc] H. destruct t as [sy ad at_ n l], s as [[] wg ex wa cr]. unfold answered, allowed in Hr, Hl. cbn in *.
  destruct at_ as [| | | |[]|[]|[]|[]| | |], o; cbn in H; try done; unfold raised, late, replied in H; cbn in H; repeat case_match; simplify_eq/=;
    eexists; (split; [reflexivity|split| | | | | |]); cbn; try done; try lia; try (by auto); try (by right); try naive_solver lia.
Qed.

(** How the loop gets to its end, and [Shutdown] to its beginning. *)
Lemma left_stays n e n' : ns_loop n = Left -> nats_step n e = Some n' -> requests unmarshal [e] = [].
Proof. intros Hl H. unfold ns_step in H. rewrite Hl in H. destruct e as [|[]| |[]| | | | |]; done. Qed.

Lemma to_left n e n' : nats_step n e = Some n' -> ns_loop n <> Left -> ns_loop n' = Left -> is_loop e = true /\ requests unmarshal [e] = [].
Proof.
  intros H Hl Hl'. unfold ns_step, receive, spawn in H. destruct e as [|[]| |[]| | | | |]; repeat case_match; simplify_eq/=; try done;
    unfold leave_loop in *; cbn in *; congruence.
Qed.

Lemma to_closing n e n' : nats_step n e = Some n' -> ns_shutdown n = NotCalled -> ns_shutdown n' <> NotCalled -> e = SafeClose.
Proof.
  intros H Hd Hd'. unfold ns_step, receive, spawn, leave_loop in H. destruct e as [|[]| |[]| | | | |]; repeat case_match; simplify_eq/=; try done;
    cbn in *; congruence.
Qed.

(** A step of the loop takes up at most one request. *)
Lemma one_request_at_most e : (length (requests unmarshal [e]) <= 1)%nat /\ (requests unmarshal [e] <> [] -> is_loop e = true).
Proof. unfold requests. cbn. destruct e as [|[data| |]| | | | | | |]; cbn; try destruct (unmarshal data); cbn; split; try done; lia. Qed.

Lemma nats_step_inv s e n : life_inv s -> is_loop e && busy s = false -> nats_step (lf_nats s) e = Some n ->
  (bool_decide (e = SafeClose) && negb (lf_waited s) = false) -> life_inv (s <| lf_nats := n |>).
Proof.
  intros [H1 H2 H3 H4 H5 H6] Eb Hn Ec. pose proof (nats_spawns _ _ _ Hn) as Ht. destruct (one_request_at_most e) as [Hone Hloop].
  split; cbn.
  - by eapply step_inv.
  - change (lf_wg s = count (ns_rpc n)). rewrite Ht, count_app, H2. unfold tasks. enough (count ((fun q => new_task q) <$> requests unmarshal [e]) = 0) by lia.
    clear. induction (requests unmarshal [e]) as [|q qs IH]; [done|]. exact IH.
  - change (Forall task_ok (ns_rpc n)). rewrite Ht. apply Forall_app. split; [done|]. by apply Forall_fmap, Forall_true.
  - change (forall i j t u, ns_rpc n !! i = Some t -> ns_rpc n !! j = Some u -> working t -> working u -> i = j).
    rewrite Ht. destruct (requests unmarshal [e]) as [|q [|]]; [by rewrite app_nil_r| |cbn in Hone; lia]. cbn [fmap list_fmap].
    rewrite Hloop in Eb by done. pose proof (proj1 (busy_false s) Eb) as Hb. intros i j t u Hi Hj Hwt Hwu.
    apply lookup_app_Some in Hi as [Hi|[Hi0 Hi]]; [by destruct (Hb i t Hi)|].
    apply lookup_app_Some in Hj as [Hj|[Hj0 Hj]]; [by destruct (Hb j u Hj)|].
    apply list_lookup_singleton_Some in Hi as [Hi _], Hj as [Hj _]. lia.
  - intros Hl. unfold busy, tasks. cbn. destruct (decide (ns_loop (lf_nats s) = Left)) as [Hl0|Hl0].
    + rewrite (left_stays _ _ _ Hl0 Hn) in Ht. cbn in Ht. rewrite app_nil_r in Ht. rewrite Ht. by apply H5.
    + destruct (to_left _ _ _ Hn Hl0 Hl) as [He Hr]. rewrite He in Eb. rewrite Ht, Hr, app_nil_r. exact Eb.
  - intros Hd. destruct (decide (ns_shutdown (lf_nats s) = NotCalled)) as [Hd0|Hd0]; [|by apply H6].
    rewrite (to_closing _ _ _ Hn Hd0 Hd), bool_decide_true in Ec by done. by destruct (lf_waited s).
Qed.

Lemma stepped_inv i t t' s s' : life_inv s -> tasks s !! i = Some t -> stepped i t t' s s' -> life_inv s'.
Proof.
  intros [H1 H2 H3 H4 H5 H6] Ht [E1 Hok Hsync Hnot E2 E3 Hloop _]. assert (Hlt := lookup_lt_Some _ _ _ Ht).
  assert (Hw : working t' -> working t) by (unfold working; rewrite Hsync, Hnot; by destruct (t_sync t)).
  assert (Hone : forall j k u v, tasks s' !! j = Some u -> tasks s' !! k = Some v -> working u -> working v -> j = k).
  { rewrite E1. intros j k u v [(<- & <- & _)|[Hj Hu]]%list_lookup_insert_Some [(<- & <- & _)|[Hk Hv]]%list_lookup_insert_Some Hwu Hwv;
      eauto. }
  split.
  - destruct H1. destruct Hloop as [->|[-> _]]; split; cbn; tauto.
  - by rewrite E1, (count_insert _ _ _ _ Ht), E2, H2.
  - rewrite E1. by apply Forall_insert.
  - exact Hone.
  - intros Hl. apply busy_false. intros j u Hu Hwu. destruct Hloop as [E|(E & Hs & Hesc)].
    + rewrite E in Hl. specialize (H5 Hl). pose proof (proj1 (busy_false s) H5) as Hb. rewrite E1 in Hu.
      apply list_lookup_insert_Some in Hu as [(<- & <- & _)|[Hj Hu]]; [apply (Hb i t Ht); auto | by apply (Hb j u Hu)].
    + assert (Hwt : working t) by (unfold working; by rewrite Hs, Hnot). rewrite E1 in Hu.
      apply list_lookup_insert_Some in Hu as [(<- & <- & _)|[Hj Hu]].
      * revert Hwu. unfold working, ended. rewrite Hesc. cbn. by rewrite andb_false_r.
      * by apply Hj, (H4 i j t u).
  - rewrite E3. destruct Hloop as [->|[-> _]]; exact H6.
Qed.

Lemma life_step_inv s e s' : life_inv s -> step s e = Some s' -> life_inv s'.
Proof.
  intros Hi Hs. unfold life_step in Hs. destruct (lf_crashed s); [done|]. destruct e as [e|i o|].
  - destruct ((is_loop e && busy s) || _) eqn:Eb; [done|]. apply orb_false_iff in Eb as [Eb Ec]. apply bind_Some in Hs as (n & Hn & Hs). injection Hs as <-.
    by eapply nats_step_inv.
  - apply bind_Some in Hs as (t & Ht & Hs). assert (Ha : task_ok t) by (eapply Forall_lookup_1; [apply Hi|done]).
    destruct (task_step_spec i o t s s' Ha Hs) as (t' & H). by eapply stepped_inv.
  - destruct (negb (lf_waited s) && _) eqn:E; [|done]. injection Hs as <-. by destruct Hi; split.
Qed.

Lemma life_run_inv evs s s' : life_inv s -> run evs s = Some s' -> life_inv s'.
Proof. intros Hi H. eapply (run_steps_keep step life_inv); [|exact Hi|exact H]. intros x e y. apply life_step_inv. Qed.

(** A request whose function is through stays so. *)
Definition through (t : task) : Prop := t_at t <> Spawned /\ counted t = false.
Definition keeps (i : nat) (s : life) : Prop := exists t, tasks s !! i = Some t /\ through t.

Lemma life_step_keeps i s e s' : life_inv s -> keeps i s -> step s e = Some s' -> keeps i s'.
Proof.
  intros Hi (t & Ht & Hthr) Hs. unfold life_step in Hs. destruct (lf_crashed s); [done|]. destruct e as [e|j o|].
  - destruct (_ || _); [done|]. apply bind_Some in Hs as (n & Hn & Hs). injection Hs as <-. exists t. split; [|done].
    unfold tasks. cbn. rewrite (nats_spawns _ _ _ Hn). by apply lookup_app_l_Some.
  - apply bind_Some in Hs as (u & Hu & Hs). assert (Ha : task_ok u) by (eapply Forall_lookup_1; [apply Hi|done]).
    destruct (task_step_spec j o u s s' Ha Hs) as (t' & [E1 _ _ _ _ _ _ Hth]). destruct (decide (j = i)) as [->|Hne].
    + assert (u = t) as -> by congruence. exists t'. rewrite E1, list_lookup_insert_eq by (by eapply lookup_lt_Some).
      split; [done|]. by apply Hth; apply Hthr.
    + exists t. split; [|done]. by rewrite E1, list_lookup_insert_ne.
  - destruct (_ && _); [|done]. injection Hs as <-. by exists t.
Qed.
End Life.

(** The answers of a request: one if it is through and, for each callback that panicked
    after one, one more; three at most. *)
Definition answers_well (t : task) : Prop :=
  t_replies t = (t_late t + if answered t then 1 else 0)%nat /\ (t_replies t <= 3)%nat.

Lemma task_ok_answers t : task_ok t -> answers_well t.
Proof.
  intros [Hr Hl _ _]. split; [done|]. rewrite Hr. unfold allowed, answered in *. destruct (t_at t) as [| | | |[]|[]|[]|[]| | |]; lia.
Qed.

(** C27. [Done] waits for what has begun.  Whatever the receive loop, the requests' goroutines
    and [Shutdown] do at once, functions that panic and callbacks that panic after the
    answer is sent (OnError, OnComplete, ServerRPCHandler) included: [wg] counts exactly the
    functions between [Add(1)] and [Add(-1)]; a request that is over has been answered once,
    the panic of its function included, and once more for each callback that panicked
    after an answer, three times at most (in a goroutine, where nothing recovers the report of
    a panic, one in the report ends the process and the run).  [Wait] returns only when no function is counted, so that
    every request that had begun when it returned is through its function in the rest of the
    run; and when [Done] has returned, every request the receive loop runs itself has ended,
    answered at least once, and no further one is taken up. *)
Theorem done_waits_for_functions (unmarshal : bytes -> option RPCInfo) (goroutine adapted : RPCInfo -> bool)
  (before after : list life_event) (s s1 s2 : life)
  (Hs : life_run unmarshal goroutine adapted before life_init = Some s)
  (Hwait : life_step unmarshal goroutine adapted s LWait = Some s1)
  (Hafter : life_run unmarshal goroutine adapted after s1 = Some s2) :
  (lf_wg s2 = count (tasks s2) /\ Forall answers_well (tasks s2)) /\
  Forall (fun t => counted t = false) (tasks s) /\
  (forall i t, tasks s !! i = Some t -> t_at t <> Spawned -> exists t', tasks s2 !! i = Some t' /\ through t') /\
  (ns_shutdown (lf_nats s2) = Returned ->
    Forall (fun t => t_sync t = true -> ended t = true /\ (1 <= t_replies t)%nat) (tasks s2) /\
    (forall e s3, life_step unmarshal goroutine adapted s2 (LNats e) = Some s3 -> tasks s3 = tasks s2)).
Proof.
  assert (Hi : life_inv s) by (eapply life_run_inv; [apply life_init_inv|exact Hs]).
  assert (Hi1 : life_inv s1) by (by eapply life_step_inv). assert (Hi2 : life_inv s2) by (by eapply life_run_inv).
  assert (Hc : Forall (fun t => counted t = false) (tasks s) /\ tasks s1 = tasks s).
  { unfold life_step in Hwait. destruct (lf_crashed s); [done|]. destruct (negb (lf_waited s) && (lf_wg s =? 0)) eqn:E; [|done].
    injection Hwait as <-. apply andb_prop in E as [_ E%Z.eqb_eq].
    split; [|done]. apply count_zero. by rewrite <- (li_wg s Hi). }
  destruct Hc as [Hc Ht]. pose proof (li_tasks s2 Hi2) as Hok. split.
  { split; [apply Hi2|]. eapply Forall_impl; [exact Hok|]. apply task_ok_answers. }
  split; [done|]. split.
  - intros i t Hti Hn. assert (Hk : life_inv s2 /\ keeps i s2); [|apply Hk].
    eapply (run_steps_keep (life_step unmarshal goroutine adapted) (fun x => life_inv x /\ keeps i x)); [| |exact Hafter].
    + intros x e y [Hx Hkx] Hy. split; [by eapply life_step_inv | by eapply life_step_keeps].
    + split; [done|]. exists t. rewrite Ht. split; [done|]. split; [done|]. by eapply (Forall_lookup_1 (fun t => counted t = false)).
  - intros Hret. pose proof (li_nats s2 Hi2) as Hn. pose proof (proj1 (ni_stopeds _ Hn) (ni_returned _ Hn Hret)) as Hl. split.
    + pose proof (proj1 (busy_false s2) (li_left s2 Hi2 Hl)) as Hb. apply Forall_lookup. intros i t Hit Hsync. specialize (Hb i t Hit).
      assert (He : ended t = true) by (unfold working in Hb; rewrite Hsync in Hb; by destruct (ended t)). split; [done|].
      destruct (Forall_lookup_1 _ _ _ _ Hok Hit) as [Hr _ Hesc _]. rewrite Hr. unfold ended, answered in *.
      destruct (t_at t); try done; [lia|]. destruct (Hesc eq_refl); [lia|congruence].
    + intros e s3 H. unfold life_step in H. destruct (lf_crashed s2); [done|]. destruct (_ || _); [done|].
      apply bind_Some in H as (n & Hn' & H). injection H as <-.
      unfold tasks at 1. cbn. rewrite (nats_spawns _ _ _ _ _ _ Hn'), (left_stays _ _ _ _ _ _ Hl Hn'). apply app_nil_r.
Qed.

(** *** Runs *)

Definition demo_request : RPCInfo := mkRPCInfo "cid" "fn" "" 0 true [] [] "host" "host".
Abbreviation demo_run evs := (life_run (fun _ => Some demo_request) (fun _ => true) (fun _ => true) evs life_init).
Definition one_request : list life_event := [LNats LoopCheck; LNats (NextMsg (Msg []))].
Definition shut_down : list life_event :=
  [LNats SafeClose; LNats SetClose; LNats LoopCheck; LNats ShutdownReturns].

(** A callback panics after the answer; the panic is answered too. *)
Definition two_answers : list life_event := replicate 7 (LTask 0 AnswersAndPanics) ++ [LTask 0 Answers].

Lemma done_waits_for_functions_witness :
  exists s, demo_run (one_request ++ two_answers ++ LWait :: shut_down) = Some s /\
    ns_shutdown (lf_nats s) = Returned /\ Forall answers_well (tasks s) /\ t_replies <$> tasks s = [2%nat].
Proof.
  destruct (demo_run (one_request ++ two_answers)) as [s|] eqn:Hs; [|vm_compute in Hs; discriminate Hs].
  destruct (life_step (fun _ => Some demo_request) (fun _ => true) (fun _ => true) s LWait) as [s1|] eqn:Hw.
  2: { exfalso. revert Hw. vm_compute in Hs. injection Hs as <-. vm_compute. discriminate. }
  destruct (life_run (fun _ => Some demo_request) (fun _ => true) (fun _ => true) shut_down s1) as [s2|] eqn:Ha.
  2: { exfalso. revert Ha. vm_compute in Hs. injection Hs as <-. vm_compute in Hw. injection Hw as <-. vm_compute. discriminate. }
  destruct (done_waits_for_functions (fun _ => Some demo_request) (fun _ => true) (fun _ => true) _ _ s s1 s2 Hs Hw Ha) as ((_ & H) & _).
  exists s2. split; [|split; [|split; [exact H|]]].
  - rewrite app_assoc. unfold life_run in *. rewrite run_steps_app, Hs. cbn [mbind option_bind run_steps]. by rewrite Hw.
  - vm_compute in Hs. injection Hs as <-. vm_compute in Hw. injection Hw as <-. vm_compute in Ha. injection Ha as <-. vm_compute. reflexivity.
  - vm_compute in Hs. injection Hs as <-. vm_compute in Hw. injection Hw as <-. vm_compute in Ha. injection Ha as <-. vm_compute. reflexivity.
Defined.

(** Run by the loop itself, a request whose callbacks always panic is answered three times
    and ends the loop. *)
Example three_answers :
  exists s, life_run (fun _ => Some demo_request) (fun _ => false) (fun _ => true) (one_request ++ replicate 9 (LTask 0 AnswersAndPanics)) life_init = Some s /\
    (t_at <$> tasks s, t_replies <$> tasks s) = ([Escaped], [3%nat]) /\ ns_loop (lf_nats s) = Left.
Proof. eexists. split; [vm_compute; reflexivity|]. by vm_compute. Qed.

(** A request that was taken up but had not begun when [Wait] returned runs on after [Done]. *)
Example done_returns_while_running :
  exists s, demo_run (one_request ++ LWait :: LNats LoopCheck :: [LNats SafeClose; LNats SetClose; LNats (NextMsg Failed); LNats CheckValid; LNats LoopCheck;
      LNats ShutdownReturns] ++ replicate 3 (LTask 0 Answers)) = Some s /\
    ns_shutdown (lf_nats s) = Returned /\ t_at <$> tasks s = [Running].
Proof. eexists. split; [vm_compute; reflexivity|]. by vm_compute. Qed.

(** Two requests that read [executing] together leave it wrong for good. *)
Example executing_drifts :
  exists s, demo_run (one_request ++ one_request ++ [LTask 0 Answers; LTask 1 Answers; LTask 0 Answers; LTask 1 Answers; LTask 0 Answers; LTask 1 Answers] ++
      replicate 5 (LTask 0 Answers) ++ replicate 5 (LTask 1 Answers)) = Some s /\
    t_at <$> tasks s = [Over; Over] /\ lf_executing s = -1.
Proof. eexists. split; [vm_compute; reflexivity|]. by vm_compute. Qed.
