(* ===== verification/CacheCopy.v ===== *)
(** * What the caching selector hands out

    [cp] of [selector/cache/cache.go], which copies the services of the cache for every
    caller: services, nodes, endpoints and metadata maps are objects that pointers share,
    and a copy has objects of its own except for the maps and the endpoints' values.
    [Selector] takes the copies for values; here is why it may, and where it may not. *)
From S2P Require Import Prelude Registry.
#[local] Open Scope mq_scope.
#[local] Open Scope string_scope.
#[local] Open Scope list_scope.
#[local] Open Scope Z_scope.

Abbreviation ref := positive.

(** The objects: a pointer or a map is a reference. *)
Record node_obj := mkNodeObj {
  no_StartedAt : Z; no_ServerID : string; no_InstanceID : string; no_Address : string; no_Port : Z; no_Metadata : option ref }.

Record endpoint_obj := mkEndpointObj { eo_Name : string; eo_Request : option ref; eo_Response : option ref; eo_Metadata : option ref }.

Record service_obj := mkServiceObj {
  vo_Name : string; vo_Version : string; vo_Metadata : option ref; vo_Endpoints : list ref; vo_Nodes : list ref }.

Record heap := mkHeap {
  hp_services : gmap ref service_obj; hp_nodes : gmap ref node_obj; hp_endpoints : gmap ref endpoint_obj;
  hp_values : gmap ref Value; hp_maps : gmap ref (gmap string string) }.

#[export] Instance eta_heap : Eta heap := fun h => mkHeap (hp_services h) (hp_nodes h) (hp_endpoints h) (hp_values h) (hp_maps h).

Definition nil_deref {A} : outcome A := Panic "nil pointer dereference".

(** A new object with the contents of the one behind [r]. *)
Definition copy_in {A} (m : gmap ref A) (r : ref) : outcome (ref * gmap ref A) :=
  match m !! r with
  | None => nil_deref
  | Some x => let r' := fresh (dom m) in Ret (r', <[r' := x]> m)
  end.

(** The loops over a service's nodes and endpoints. *)
Fixpoint copy_all {A} (m : gmap ref A) (rs : list ref) : outcome (list ref * gmap ref A) :=
  match rs with
  | [] => Ret ([], m)
  | r :: rs =>
      c <- copy_in m r;
      cs <- copy_all c.2 rs;
      Ret (c.1 :: cs.1, cs.2)
  end.

(** One service. *)
Definition cp_service (h : heap) (r : ref) : outcome (ref * heap) :=
  match hp_services h !! r with
  | None => nil_deref
  | Some s =>
      ns <- copy_all (hp_nodes h) (vo_Nodes s);
      es <- copy_all (hp_endpoints h) (vo_Endpoints s);
      let r' := fresh (dom (hp_services h)) in
      Ret (r', mkHeap (<[r' := mkServiceObj (vo_Name s) (vo_Version s) (vo_Metadata s) es.1 ns.1]> (hp_services h)) ns.2 es.2
                 (hp_values h) (hp_maps h))
  end.

Fixpoint cp (h : heap) (current : list ref) : outcome (list ref * heap) :=
  match current with
  | [] => Ret ([], h)
  | r :: rs =>
      c <- cp_service h r;
      cs <- cp c.2 rs;
      Ret (c.1 :: cs.1, cs.2)
  end.

(** ** What holds

    The copies read as the originals did and are new objects, so that nothing a caller does to
    them changes what the cache holds; the metadata maps are the cache's own. *)

(** ** What a reference reads as *)

Definition opt_view {A} (m : gmap ref A) (r : option ref) : option (option A) :=
  match r with None => Some None | Some r => Some <$> m !! r end.

Definition node_view (h : heap) (r : ref) : option Node :=
  n ← hp_nodes h !! r; md ← opt_view (hp_maps h) (no_Metadata n);
  Some (mkNode (no_StartedAt n) (no_ServerID n) (no_InstanceID n) (no_Address n) (no_Port n) md).

Definition endpoint_view (h : heap) (r : ref) : option Endpoint :=
  e ← hp_endpoints h !! r; q ← opt_view (hp_values h) (eo_Request e); a ← opt_view (hp_values h) (eo_Response e);
  md ← opt_view (hp_maps h) (eo_Metadata e);
  Some (mkEndpoint (eo_Name e) q a (default ∅ md)).

Definition service_view (h : heap) (r : ref) : option Service :=
  s ← hp_services h !! r; md ← opt_view (hp_maps h) (vo_Metadata s);
  es ← mapM (endpoint_view h) (vo_Endpoints s); ns ← mapM (node_view h) (vo_Nodes s);
  Some (mkService (vo_Name s) (vo_Version s) (default ∅ md) es ns).

Definition view (h : heap) (rs : list ref) : option (list Service) := mapM (service_view h) rs.

(** [h'] has everything [h] has. *)
Record extends (h h' : heap) : Prop := {
  ext_services : hp_services h ⊆ hp_services h';
  ext_nodes : hp_nodes h ⊆ hp_nodes h';
  ext_endpoints : hp_endpoints h ⊆ hp_endpoints h';
  ext_values : hp_values h ⊆ hp_values h';
  ext_maps : hp_maps h ⊆ hp_maps h' }.

#[export] Instance extends_preorder : PreOrder extends.
Proof.
  split; [by split|]. intros a b c [A1 A2 A3 A4 A5] [B1 B2 B3 B4 B5]. split; by etransitivity.
Qed.

Lemma mapM_mono {A B} (f g : A -> option B) l x : (forall a b, f a = Some b -> g a = Some b) -> mapM f l = Some x -> mapM g l = Some x.
Proof. intros H Hf. apply mapM_Some. apply mapM_Some in Hf. eapply Forall2_impl; [exact Hf|]. auto. Qed.

Lemma opt_view_mono {A} (m m' : gmap ref A) r x : m ⊆ m' -> opt_view m r = Some x -> opt_view m' r = Some x.
Proof. intros Hm. destruct r as [r|]; [|done]. cbn. intros (y & Hy & ->)%fmap_Some. by rewrite (lookup_weaken _ _ _ _ Hy Hm). Qed.

Section Mono.
Context (h h' : heap) (Hext : extends h h').

Lemma node_view_mono r n : node_view h r = Some n -> node_view h' r = Some n.
Proof.
  unfold node_view. intros (o & Ho & (md & Hmd & H)%bind_Some)%bind_Some. rewrite (lookup_weaken _ _ _ _ Ho (ext_nodes _ _ Hext)). cbn.
  by rewrite (opt_view_mono _ _ _ _ (ext_maps _ _ Hext) Hmd).
Qed.

Lemma endpoint_view_mono r e : endpoint_view h r = Some e -> endpoint_view h' r = Some e.
Proof.
  unfold endpoint_view. intros (o & Ho & (q & Hq & (a & Ha & (md & Hmd & H)%bind_Some)%bind_Some)%bind_Some)%bind_Some.
  rewrite (lookup_weaken _ _ _ _ Ho (ext_endpoints _ _ Hext)). cbn.
  by rewrite (opt_view_mono _ _ _ _ (ext_values _ _ Hext) Hq), (opt_view_mono _ _ _ _ (ext_values _ _ Hext) Ha), (opt_view_mono _ _ _ _ (ext_maps _ _ Hext) Hmd).
Qed.

Lemma service_view_mono r s : service_view h r = Some s -> service_view h' r = Some s.
Proof.
  unfold service_view. intros (o & Ho & (md & Hmd & (es & Hes & (ns & Hns & H)%bind_Some)%bind_Some)%bind_Some)%bind_Some.
  rewrite (lookup_weaken _ _ _ _ Ho (ext_services _ _ Hext)). cbn. rewrite (opt_view_mono _ _ _ _ (ext_maps _ _ Hext) Hmd). cbn.
  by rewrite (mapM_mono _ _ _ _ endpoint_view_mono Hes), (mapM_mono _ _ _ _ node_view_mono Hns).
Qed.

Lemma view_mono rs l : view h rs = Some l -> view h' rs = Some l.
Proof. apply mapM_mono, service_view_mono. Qed.
End Mono.

(** ** Copying *)

(** The objects of a copy: new, each its own, and with the contents of the old ones. *)
Lemma copy_all_spec {A} (rs : list ref) : forall m : gmap ref A, Forall (fun r => is_Some (m !! r)) rs ->
  exists rs' m', copy_all m rs = Ret (rs', m') /\ m ⊆ m' /\ Forall2 (fun r r' => m' !! r' = m !! r) rs rs' /\
    NoDup rs' /\ Forall (fun r' => m !! r' = None) rs' /\ (forall r, r ∉ rs' -> m' !! r = m !! r).
Proof.
  induction rs as [|r rs IH]; intros m Hm; [exists [], m; split_and!; (done || constructor)|].
  apply Forall_cons in Hm as [(x & Hx) Hm]. cbn [copy_all]. unfold copy_in. rewrite Hx. cbn [outcome_bind fst snd].
  set (r' := fresh (dom m)). assert (Hr' : m !! r' = None) by (apply not_elem_of_dom, is_fresh).
  assert (Hsub : m ⊆ <[r' := x]> m) by by apply insert_subseteq.
  destruct (IH (<[r' := x]> m)) as (rs' & m' & -> & H1 & H2 & H3 & H4 & H5).
  { eapply Forall_impl; [exact Hm|]. intros q [y Hy]. exists y. by eapply lookup_weaken. }
  exists (r' :: rs'), m'. cbn. assert (Hr'' : m' !! r' = Some x) by (eapply lookup_weaken; [apply lookup_insert_eq|done]).
  assert (Hnot : r' ∉ rs').
  { intros Hin. rewrite Forall_forall in H4. specialize (H4 _ Hin). by rewrite lookup_insert_eq in H4. }
  split_and!; [done|by etransitivity| | | |].
  - constructor; [by rewrite Hr''|]. apply Forall2_same_length_lookup_2.
    + by eapply Forall2_length.
    + intros i a b Ha Hb. rewrite (Forall2_lookup_lr _ _ _ _ _ _ H2 Ha Hb). apply lookup_insert_ne. intros <-.
      rewrite Forall_forall in Hm. destruct (Hm r' ltac:(by eapply list_elem_of_lookup_2)). congruence.
  - by constructor.
  - constructor; [done|]. eapply Forall_impl; [exact H4|]. cbn. intros q Hq. apply lookup_insert_None in Hq. by destruct Hq.
  - intros q Hq. apply not_elem_of_cons in Hq as [Hq1 Hq2]. rewrite (H5 q Hq2). by apply lookup_insert_ne.
Qed.

(** The service behind [r], and its nodes and endpoints, are not objects of [h]. *)
Definition new_in (h h' : heap) (r : ref) : Prop :=
  hp_services h !! r = None /\
  exists s, hp_services h' !! r = Some s /\ Forall (fun n => hp_nodes h !! n = None) (vo_Nodes s) /\
    Forall (fun e => hp_endpoints h !! e = None) (vo_Endpoints s).

Lemma mapM_transport {A} (f g : ref -> option A) rs rs' l : Forall2 (fun r r' => forall x, f r = Some x -> g r' = Some x) rs rs' ->
  mapM f rs = Some l -> mapM g rs' = Some l.
Proof.
  intros H Hf. apply mapM_Some in Hf. apply mapM_Some. revert rs' H. induction Hf as [|r x rs l Hr _ IH]; intros rs' H; inversion H; subst; constructor; auto.
Qed.

Lemma cp_service_spec h r s : service_view h r = Some s ->
  exists r' h', cp_service h r = Ret (r', h') /\ extends h h' /\ service_view h' r' = Some s /\ new_in h h' r' /\ hp_maps h' = hp_maps h.
Proof.
  unfold service_view at 1. intros (o & Ho & (md & Hmd & (es & Hes & (ns & Hns & Hs)%bind_Some)%bind_Some)%bind_Some)%bind_Some. injection Hs as <-.
  unfold cp_service. rewrite Ho.
  destruct (copy_all_spec (vo_Nodes o) (hp_nodes h)) as (ns' & mn & -> & N1 & N2 & N3 & N4 & N5).
  { apply mapM_Some in Hns. apply Forall_forall. intros n Hn. apply list_elem_of_lookup in Hn as (i & Hi).
    destruct (Forall2_lookup_l _ _ _ _ _ Hns Hi) as (x & _ & Hx). unfold node_view in Hx. apply bind_Some in Hx as (y & Hy & _). by exists y. }
  cbn [outcome_bind fst snd].
  destruct (copy_all_spec (vo_Endpoints o) (hp_endpoints h)) as (es' & me & -> & E1 & E2 & E3 & E4 & E5).
  { apply mapM_Some in Hes. apply Forall_forall. intros n Hn. apply list_elem_of_lookup in Hn as (i & Hi).
    destruct (Forall2_lookup_l _ _ _ _ _ Hes Hi) as (x & _ & Hx). unfold endpoint_view in Hx. apply bind_Some in Hx as (y & Hy & _). by exists y. }
  cbn [outcome_bind fst snd]. set (r' := fresh (dom (hp_services h))). set (o' := mkServiceObj _ _ _ es' ns').
  set (h' := mkHeap _ mn me _ _). assert (Hr' : hp_services h !! r' = None) by (apply not_elem_of_dom, is_fresh).
  assert (Hext : extends h h') by (split; cbn; try done; by apply insert_subseteq).
  exists r', h'. split; [done|]. split; [done|]. assert (Ho' : hp_services h' !! r' = Some o') by apply lookup_insert_eq. split_and!.
  - unfold service_view. rewrite Ho'. cbn [mbind option_bind o' vo_Metadata vo_Endpoints vo_Nodes vo_Name vo_Version]. change (hp_maps h') with (hp_maps h). rewrite Hmd. cbn [mbind option_bind].
    rewrite (mapM_transport (endpoint_view h) (endpoint_view h') (vo_Endpoints o) es' es); [|eapply Forall2_impl; [exact E2|]|exact Hes].
    2: { intros a b Hab x Hx. unfold endpoint_view in *. change (hp_endpoints h' !! b) with (me !! b). rewrite Hab. exact Hx. }
    cbn [mbind option_bind]. rewrite (mapM_transport (node_view h) (node_view h') (vo_Nodes o) ns' ns); [done|eapply Forall2_impl; [exact N2|]|exact Hns].
    intros a b Hab x Hx. unfold node_view in *. change (hp_nodes h' !! b) with (mn !! b). rewrite Hab. exact Hx.
  - split; [done|]. exists o'. by split_and!.
  - done.
Qed.

Lemma new_in_extends h h1 h2 r : extends h h1 -> new_in h1 h2 r -> new_in h h2 r.
Proof.
  intros He (H1 & s & H2 & H3 & H4). split; [by eapply lookup_weaken_None, He|]. exists s. split; [done|].
  split; eapply Forall_impl; try eassumption; cbn; intros x Hx; by eapply lookup_weaken_None, He.
Qed.

Lemma new_in_later h h1 h2 r : extends h1 h2 -> new_in h h1 r -> new_in h h2 r.
Proof. intros He (H1 & s & H2 & H3). split; [done|]. exists s. split; [|done]. by eapply lookup_weaken, He. Qed.

(** A caller gets what the cache holds, in objects of its own.  Whatever it, or a later
    caller, does to objects that were not there before, the cache reads the same. *)
Lemma cp_isolates h rs l : view h rs = Some l ->
  exists rs' h', cp h rs = Ret (rs', h') /\ view h' rs' = Some l /\ Forall (new_in h h') rs' /\ hp_maps h' = hp_maps h /\
    forall h'', extends h h'' -> view h'' rs = Some l.
Proof.
  intros Hv. enough (exists rs' h', cp h rs = Ret (rs', h') /\ view h' rs' = Some l /\ Forall (new_in h h') rs' /\ hp_maps h' = hp_maps h /\ extends h h')
    as (rs' & h' & H1 & H2 & H3 & H4 & _) by (exists rs', h'; split_and!; try done; intros h'' He; by eapply view_mono).
  revert h l Hv. induction rs as [|r rs IH]; intros h l Hv; [injection Hv as <-; exists [], h; by split_and!|].
  unfold view in Hv. cbn in Hv. apply bind_Some in Hv as (s & Hs & Hv). apply bind_Some in Hv as (l' & Hl & Hv). injection Hv as <-.
  destruct (cp_service_spec h r s Hs) as (r' & h1 & Hc & He & Hr & Hn & Hm). cbn [cp]. rewrite Hc. cbn [outcome_bind fst snd].
  destruct (IH h1 l' (view_mono h h1 He rs l' Hl)) as (rs' & h2 & Hc2 & Hv2 & Hn2 & Hm2 & He2). rewrite Hc2. cbn [outcome_bind fst snd].
  exists (r' :: rs'), h2. split; [done|]. split_and!.
  - unfold view. cbn. rewrite (service_view_mono h1 h2 He2 r' s Hr). cbn. fold (view h2 rs'). by rewrite Hv2.
  - constructor; [by eapply new_in_later|]. eapply Forall_impl; [exact Hn2|]. intros q. by apply new_in_extends.
  - by rewrite Hm2.
  - by etransitivity.
Qed.

(** The metadata maps are shared: a caller that writes into a node's metadata writes into
    the cache. *)
Example metadata_is_shared :
  let n := mkNodeObj 0 "chat@1" "chat@1#a" "inbox" 0 (Some 3%positive) in
  let h := mkHeap {[ 1%positive := mkServiceObj "chat" "1" None [] [2%positive] ]} {[ 2%positive := n ]} ∅ ∅ {[ 3%positive := ∅ ]} in
  match cp h [1%positive] with
  | Ret (_, h') =>
      node_view (h' <| hp_maps := <[3%positive := <["k" := "v"]> ∅]> (hp_maps h') |>) 2
        = Some (mkNode 0 "chat@1" "chat@1#a" "inbox" 0 (Some (<["k" := "v"]> ∅)))
  | Panic _ => False
  end.
Proof. vm_compute. reflexivity. Qed.
