(* ===== verification/Log.v ===== *)
(** * The configuration of the log, and trace spans

    [log/options.go], [Init] of [log/init.go] and [log/span.go].  An option, applied, gives back
    the option that undoes it.  Outside the model: zap ([Build] makes a logger of a
    configuration), and the functions of [log/logger.go] and [log/field.go], which pass on to
    it. *)
From Stdlib Require Import Strings.Ascii.
From S2P Require Import Prelude.
#[local] Open Scope mq_scope.
#[local] Open Scope string_scope.
#[local] Open Scope list_scope.
#[local] Open Scope Z_scope.

(** ** Options *)

Section Options.
(** A setting of the configuration file, and a function that names the file. *)
Context {Setting FileName : Type}.

Record Options := mkOptions {
  Debug : bool; ProcessID : string; LogDir : string; LogFileName : option FileName; LogSetting : option (gmap string Setting) }.

#[export] Instance eta_Options : Eta Options := fun o => mkOptions (Debug o) (ProcessID o) (LogDir o) (LogFileName o) (LogSetting o).

(** The functions [With...] return. *)
Inductive Option :=
| WithDebug (v : bool)
| WithProcessID (v : string)
| WithLogDir (v : string)
| WithLogFileName (v : option FileName)
| WithLogSetting (v : option (gmap string Setting)).

Definition apply (o : Option) (cc : Options) : Options * Option :=
  match o with
  | WithDebug v => (cc <| Debug := v |>, WithDebug (Debug cc))
  | WithProcessID v => (cc <| ProcessID := v |>, WithProcessID (ProcessID cc))
  | WithLogDir v => (cc <| LogDir := v |>, WithLogDir (LogDir cc))
  | WithLogFileName v => (cc <| LogFileName := v |>, WithLogFileName (LogFileName cc))
  | WithLogSetting v => (cc <| LogSetting := v |>, WithLogSetting (LogSetting cc))
  end.

Definition NewOptions (opts : list Option) : Options :=
  foldl (fun cc o => (apply o cc).1) (mkOptions false "" "" None None) opts.
End Options.
Arguments Options : clear implicits.
Arguments Option : clear implicits.

(** ** [Init] *)

(** The width kept for the caller, so that messages line up. *)
Definition callerBlank : string := "                                    ".

Definition caller_column (path : string) : string :=
  let pathLen := String.length path in
  if (pathLen <? String.length callerBlank)%nat then (path ++ String.substring pathLen (String.length callerBlank - pathLen) callerBlank)%string
  else path.

(** The logger asked for: the kind of configuration, with the caller's column in
    development, and the fields of every message in production. *)
Inductive LogConfig := Development (encode_caller : string -> string) | Production (fields : list (string * string)).

Definition log_config {Setting FileName} (o : Options Setting FileName) : LogConfig :=
  if Debug o then Development caller_column else Production [("process", ProcessID o)].

(** The global logger, replaced when one can be built. *)
Definition log_Init {Setting FileName Logger} (Build : LogConfig -> result string Logger) (opts : list (Option Setting FileName)) : outcome Logger :=
  match Build (log_config (NewOptions opts)) with
  | Ok l => Ret l
  | Err e => Panic ("Log init fail: " ++ e)
  end.

(** ** Spans *)

Record TraceSpan := mkTraceSpan { Trace : string; Span : string }.

Definition CreateTrace (trace span : string) : TraceSpan := mkTraceSpan trace span.

(** A new span of the same trace; [generated] is the id drawn for it. *)
Definition ExtractSpan (generated : string) (t : TraceSpan) : TraceSpan := mkTraceSpan (Trace t) generated.

(** [Span] of [log/field.go]: the field of a message that names its span. *)
Definition span_field (t : TraceSpan) : string * string := ("span", Trace t ++ "." ++ Span t)%string.

(** ** What holds *)

Section Options.
Context {Setting FileName : Type}.

(** An option gives back the one that undoes it, and that one the first again. *)
Lemma apply_undoes (o : Option Setting FileName) cc :
  let '(cc', back) := apply o cc in apply back cc' = (cc, o).
Proof. by destruct o, cc. Qed.

(** All that options did is undone by their results, applied the other way round. *)
Fixpoint apply_all (opts : list (Option Setting FileName)) (cc : Options Setting FileName) : Options Setting FileName * list (Option Setting FileName) :=
  match opts with
  | [] => (cc, [])
  | o :: opts => let '(cc, back) := apply o cc in let '(cc, backs) := apply_all opts cc in (cc, backs ++ [back])
  end.

Lemma apply_all_undoes opts : forall cc, foldl (fun cc o => (apply o cc).1) (apply_all opts cc).1 (apply_all opts cc).2 = cc.
Proof.
  induction opts as [|o opts IH]; intros cc; [done|]. cbn. pose proof (apply_undoes o cc) as H. destruct (apply o cc) as [cc1 back].
  specialize (IH cc1). destruct (apply_all opts cc1) as [cc2 backs]. cbn in *. rewrite foldl_app, IH. cbn. by rewrite H.
Qed.

(** [NewOptions] takes the last value given of every setting. *)
Lemma NewOptions_last (opts : list (Option Setting FileName)) : let o := NewOptions opts in
  Debug o = default false (last (omap (fun x => match x with WithDebug v => Some v | _ => None end) opts)) /\
  ProcessID o = default "" (last (omap (fun x => match x with WithProcessID v => Some v | _ => None end) opts)) /\
  LogDir o = default "" (last (omap (fun x => match x with WithLogDir v => Some v | _ => None end) opts)).
Proof.
  unfold NewOptions. induction opts as [|o opts IH] using rev_ind; [done|]. rewrite foldl_app, !omap_app. destruct IH as (H1 & H2 & H3).
  destruct o; cbn [omap list_omap]; rewrite ?app_nil_r, ?last_snoc; split_and!; first [reflexivity | exact H1 | exact H2 | exact H3].
Qed.
End Options.

Lemma string_length_app (a b : string) : String.length (a ++ b) = (String.length a + String.length b)%nat.
Proof. induction a as [|c a IH]; [done|]. exact (f_equal S IH). Qed.

(** The caller's column is never narrower than its blanks, and a longer path is kept. *)
Lemma caller_column_width path : String.length (caller_column path) = Nat.max (String.length callerBlank) (String.length path) /\
  String.prefix path (caller_column path) = true.
Proof.
  unfold caller_column. assert (Hp : forall a b, String.prefix a (a ++ b) = true).
  { induction a as [|c a IH]; intros b; [by destruct b|]. change (String.prefix (String c a) (String c (a ++ b)) = true). cbn. destruct (ascii_dec c c); [apply IH|done]. }
  destruct (Nat.ltb_spec (String.length path) (String.length callerBlank)) as [Hlt|Hge].
  - split; [|apply Hp]. rewrite string_length_app. 
    assert (Hs : forall n, (n <= 36)%nat -> String.length (String.substring n (36 - n) callerBlank) = (36 - n)%nat).
    { intros n Hn. do 37 (destruct n as [|n]; [reflexivity|]). lia. }
    change (String.length callerBlank) with 36%nat in *. rewrite Hs by lia. lia.
  - split; [lia|]. assert (Happ : forall a, (a ++ "")%string = a) by (induction a as [|c a IH]; [done|exact (f_equal (String c) IH)]). rewrite <- (Happ path) at 2. apply Hp.
Qed.

(** What a message of a span carries names its trace: the spans extracted from one
    another share the part before the dot. *)
Lemma span_field_of_trace ids t :
  let t' := foldl (fun t id => ExtractSpan id t) t ids in
  span_field t' = ("span", Trace t ++ "." ++ List.last ids (Span t))%string.
Proof.
  cbn zeta. unfold span_field. f_equal. revert t. induction ids as [|id ids IH]; intros t; [done|]. cbn [foldl]. rewrite IH.
  cbn [ExtractSpan Trace Span]. destruct ids as [|id' ids]; [done|]. f_equal. f_equal. clear. revert id'. induction ids as [|x ids IH]; intros y; [done|exact (IH x)].
Qed.
