(* ===== verification/MiniFmt.v ===== *)
(** * Named fields in a format

    [Sprintf] of [utils/minifmt.go]: the fields, written as a word in braces, that the format
    holds are looked up, and each value found takes the place of the first such field the
    text then holds.  [extra] are the values as [%v] prints them. *)
From Stdlib Require Import Strings.Ascii.
From S2P Require Import Prelude.
#[local] Open Scope mq_scope.
#[local] Open Scope list_scope.
#[local] Open Scope Z_scope.

Abbreviation chars := (list ascii).

Definition open_brace : ascii := "{"%char.
Definition close_brace : ascii := "}"%char.

(** [\w] *)
Definition is_word (c : ascii) : bool :=
  let n := N_of_ascii c in
  ((48 <=? n) && (n <=? 57) || (65 <=? n) && (n <=? 90) || (97 <=? n) && (n <=? 122) || (n =? 95))%N.

(** The word characters at the beginning. *)
Fixpoint span_word (s : chars) : chars * chars :=
  match s with
  | [] => ([], [])
  | c :: rest => if is_word c then let '(w, r) := span_word rest in (c :: w, r) else ([], s)
  end.

(** A match of the field's expression at the beginning: the word, and what follows. *)
Definition field_at (s : chars) : option (chars * chars) :=
  match s with
  | c :: rest =>
      if decide (c = open_brace) then
        match span_word rest with
        | (w :: ws, d :: r) => if decide (d = close_brace) then Some (w :: ws, r) else None
        | _ => None
        end
      else None
  | [] => None
  end.

Definition braced (field : chars) : chars := open_brace :: field ++ [close_brace].

(** A format as its fields and the characters between them; a step consumes a character
    at least. *)
Inductive token := Lit (c : ascii) | Field (name : chars).

Fixpoint tokens (fuel : nat) (s : chars) : list token :=
  match fuel, s with
  | S fuel, c :: rest =>
      match field_at s with
      | Some (w, r) => Field w :: tokens fuel r
      | None => Lit c :: tokens fuel rest
      end
  | _, _ => []
  end.

(** [FindAllString] *)
Definition find_fields (s : chars) : list chars :=
  omap (fun t => match t with Field w => Some w | Lit _ => None end) (tokens (length s) s).

Fixpoint has_prefix (sub s : chars) : bool :=
  match sub, s with
  | [], _ => true
  | a :: sub, b :: s => bool_decide (a = b) && has_prefix sub s
  | _, [] => false
  end.

(** [strings.Replace] of the first occurrence. *)
Fixpoint replace_first (sub by_ s : chars) : chars :=
  if has_prefix sub s then by_ ++ drop (length sub) s
  else match s with [] => [] | c :: s => c :: replace_first sub by_ s end.

Definition fill (extra : chars -> option chars) (ret field : chars) : chars :=
  match extra field with
  | None => ret
  | Some v => replace_first (braced field) v ret
  end.

Definition Sprintf (format : chars) (extra : chars -> option chars) : chars :=
  foldl (fill extra) format (find_fields format).

(** ** What holds

    [Sprintf] is the substitution of the fields, as long as braces stand for fields only. *)

(** ** The reference *)

Definition unparse (t : token) : chars := match t with Lit c => [c] | Field w => braced w end.

Definition subst (extra : chars -> option chars) (t : token) : chars :=
  match t with
  | Lit c => [c]
  | Field w => match extra w with Some v => v | None => braced w end
  end.

(** ** Tokens *)

Lemma span_word_app s w r : span_word s = (w, r) -> s = w ++ r /\ Forall (fun c => is_word c = true) w.
Proof.
  revert w r. induction s as [|c s IH]; intros w r H; cbn in H; [by injection H as <- <-|].
  destruct (is_word c) eqn:Ec; [|by injection H as <- <-]. destruct (span_word s) as [w' r']. injection H as <- <-.
  destruct (IH w' r' eq_refl) as [-> Hw]. by split; [|constructor].
Qed.

Lemma field_at_spec s w r : field_at s = Some (w, r) -> s = braced w ++ r /\ Forall (fun c => is_word c = true) w.
Proof.
  unfold field_at. destruct s as [|c s]; [done|]. case_decide as Hc; [|done]. destruct (span_word s) as [[|a ws] [|d r']] eqn:E; try done.
  case_decide as Hd; [|done]. intros [= <- <-]. destruct (span_word_app _ _ _ E) as [-> Hw]. subst. split; [|done].
  unfold braced. cbn. by rewrite <- app_assoc.
Qed.

(** The tokens are the format, and fields are words. *)
Lemma tokens_unparse fuel s : (length s <= fuel)%nat ->
  flat_map unparse (tokens fuel s) = s /\ Forall (fun t => match t with Field w => Forall (fun c => is_word c = true) w | Lit _ => True end) (tokens fuel s).
Proof.
  revert s. induction fuel as [|fuel IH]; intros [|c s] Hf; cbn [length] in Hf; try done; [lia|]. cbn [tokens].
  destruct (field_at (c :: s)) as [[w r]|] eqn:E.
  - destruct (field_at_spec _ _ _ E) as [Hs Hw]. assert (Hl : (length r <= fuel)%nat).
    { apply (f_equal length) in Hs. rewrite length_app in Hs. unfold braced in Hs. cbn in Hs. rewrite length_app in Hs. lia. }
    destruct (IH r Hl) as [H1 H2]. cbn. split; [by rewrite H1|by constructor].
  - destruct (IH s ltac:(lia)) as [H1 H2]. cbn. split; [by rewrite H1|by constructor].
Qed.

(** ** Replacing *)

Lemma has_prefix_app a b : has_prefix a (a ++ b) = true.
Proof. induction a as [|x a IH]; [done|]. cbn. by rewrite bool_decide_true. Qed.

Lemma has_prefix_spec a s : has_prefix a s = true -> exists b, s = a ++ b.
Proof.
  revert s. induction a as [|x a IH]; intros [|y s] H; try done; [by exists []|by exists (y :: s)|]. cbn in H.
  apply andb_prop in H as [H1%bool_decide_eq_true H2]. subst. destruct (IH s H2) as (b & ->). by exists b.
Qed.

Lemma replace_here sub v rest : replace_first sub v (sub ++ rest) = v ++ rest.
Proof. pose proof (has_prefix_app sub rest) as H. destruct (sub ++ rest) eqn:E; cbn [replace_first]; rewrite H, <- E; by rewrite drop_app_length. Qed.

Definition word (w : chars) : Prop := close_brace ∉ w.

Lemma word_is_word w : Forall (fun c => is_word c = true) w -> word w.
Proof. rewrite Forall_forall. intros H Hin. by specialize (H _ Hin). Qed.

(** Text that does not hold the field, so that the search goes past it. *)
Definition skipped (w t : chars) : Prop := forall v rest, replace_first (braced w) v (t ++ rest) = t ++ replace_first (braced w) v rest.

Lemma skipped_nil w : skipped w [].
Proof. done. Qed.

Lemma skipped_app w t u : skipped w t -> skipped w u -> skipped w (t ++ u).
Proof. intros H1 H2 v rest. by rewrite <- !app_assoc, H1, H2. Qed.

Lemma replace_past sub v c s : has_prefix sub (c :: s) = false -> replace_first sub v (c :: s) = c :: replace_first sub v s.
Proof. intros H. cbn [replace_first]. by rewrite H. Qed.

Lemma skipped_char w c : c <> open_brace -> skipped w [c].
Proof.
  intros Hc v rest. cbn [app]. apply replace_past. cbn. by rewrite bool_decide_false.
Qed.

Lemma skipped_text w t : open_brace ∉ t -> skipped w t.
Proof.
  induction t as [|c t IH]; intros H; [done|]. apply not_elem_of_cons in H as [Hc Ht]. apply (skipped_app w [c] t); [|by apply IH].
  apply skipped_char. congruence.
Qed.

Lemma app_close_inj a b x y : word a -> word b -> a ++ close_brace :: x = b ++ close_brace :: y -> a = b.
Proof.
  unfold word. revert b. induction a as [|c a IH]; intros [|d b] Ha Hb E; cbn in E; [done| | |].
  - injection E as <- _. exfalso. apply Hb, list_elem_of_here.
  - injection E as -> _. exfalso. apply Ha, list_elem_of_here.
  - injection E as -> E. f_equal. apply not_elem_of_cons in Ha as [_ Ha], Hb as [_ Hb]. by apply IH.
Qed.

Lemma skipped_field w x : word w -> word x -> open_brace ∉ x -> w <> x -> skipped w (braced x).
Proof.
  intros Hw Hx Ho Hn v rest. unfold braced at 2 3. cbn [app]. rewrite replace_past.
  - f_equal. apply skipped_text. rewrite elem_of_app, list_elem_of_singleton. intros [?|?]; [done|discriminate].
  - apply not_true_iff_false. intros (b & Hb)%has_prefix_spec. unfold braced in Hb. cbn [app] in Hb. injection Hb as Hb.
    rewrite <- !app_assoc in Hb. cbn [app] in Hb. symmetry in Hb. by apply app_close_inj in Hb.
Qed.

(** ** [Sprintf] *)

(** Every character outside a field and in a value is not an opening brace. *)
Definition plain_token (t : token) : Prop := match t with Lit c => c <> open_brace | Field _ => True end.

Lemma fill_tokens extra toks : forall before,
  Forall plain_token toks -> Forall (fun t => match t with Field w => Forall (fun c => is_word c = true) w | Lit _ => True end) toks ->
  (forall w v, extra w = Some v -> open_brace ∉ v) -> (forall w v, extra w = Some v -> word w -> skipped w before) ->
  foldl (fill extra) (before ++ flat_map unparse toks) (omap (fun t => match t with Field w => Some w | Lit _ => None end) toks)
    = before ++ flat_map (subst extra) toks.
Proof.
  induction toks as [|t toks IH]; intros before Hp Hw He Hb; [done|]. apply Forall_cons in Hp as [Ht Hp], Hw as [Hf Hw]. destruct t as [c|w]; cbn [omap list_omap flat_map foldl unparse subst app].
  - change (c :: flat_map unparse toks) with ([c] ++ flat_map unparse toks). change (c :: flat_map (subst extra) toks) with ([c] ++ flat_map (subst extra) toks).
    rewrite !app_assoc. apply IH; try done. intros w v Hv Hx. apply skipped_app; [by eapply Hb|]. by apply skipped_char.
  - destruct (extra w) as [v|] eqn:Ev; unfold fill at 2; rewrite Ev.
    + rewrite (Hb w v Ev (word_is_word w Hf)).
      rewrite replace_here, !app_assoc. apply IH; try done. intros w' v' Hv' Hx. apply skipped_app; [by eapply Hb|]. apply skipped_text. by eapply He.
    + rewrite !app_assoc. apply IH; try done. intros w' v' Hv' Hx. apply skipped_app; [by eapply Hb|]. apply skipped_field; [done|by apply word_is_word| |congruence].
      rewrite Forall_forall in Hf. intros Hin. by specialize (Hf _ Hin).
Qed.

(** Every field that has a value becomes that value, and everything else stays, if braces
    open fields only, in the format and in no value. *)
Lemma Sprintf_substitutes format extra :
  Forall plain_token (tokens (length format) format) -> (forall w v, extra w = Some v -> open_brace ∉ v) ->
  Sprintf format extra = flat_map (subst extra) (tokens (length format) format).
Proof.
  intros Hp He. destruct (tokens_unparse (length format) format (le_n _)) as [Hs Hw]. unfold Sprintf, find_fields.
  rewrite <- Hs at 1. by apply (fill_tokens extra _ []).
Qed.

(** A value with a brace is searched for the fields that follow. *)
Example value_with_field :
  let a := String.list_ascii_of_string "a" in let b := String.list_ascii_of_string "b" in
  Sprintf (braced a ++ braced b) (fun w => if decide (w = a) then Some (braced b) else if decide (w = b) then Some ["1"%char] else None)
    = "1"%char :: braced b.
Proof. vm_compute. reflexivity. Qed.
