(* ===== verification/GoReflect.v ===== *)
(** * Go values as [reflect] shows them

    What [utils/fatih/structs] uses of Go's [reflect]: types with their kinds, values with
    pointers into a heap, [Elem], [Interface], [FieldByName] with promoted fields, and the
    comparison with a type's zero value.  A slice's and a map's contents stand in the value
    itself, as nothing here writes into them; what is written, through a [Field], are
    structures, and these are in the heap. *)
From stdpp Require Import pretty.
From S2P Require Import Prelude.
#[local] Open Scope mq_scope.
#[local] Open Scope string_scope.
#[local] Open Scope list_scope.
#[local] Open Scope Z_scope.

(** ** Types *)

(** The kinds; [KBasic] those of the plain types, by their names. *)
Inductive Kind := KInvalid | KBasic (name : string) | KArray | KChan | KFunc | KInterface | KMap | KPtr | KSlice | KStruct.

#[export] Instance Kind_eq_dec : EqDecision Kind.
Proof. solve_decision. Defined.

(** A structure's fields are found by its layout, so that a type can hold pointers to
    itself; a named type has its underlying type inside.  Functions and interfaces are
    given as they print. *)
Inductive GoType :=
| TBasic (name : string) | TArray (elem : GoType) (size : nat) | TChan (elem : GoType) | TFunc (text : string)
| TInterface (text : string) | TMap (key elem : GoType) | TPtr (elem : GoType) | TSlice (elem : GoType)
| TStruct (layout : positive) | TNamed (name : string) (under : GoType).

#[export] Instance GoType_eq_dec : EqDecision GoType.
Proof. solve_decision. Defined.

Record StructField := mkStructField {
  sf_Name : string; sf_PkgPath : string; sf_Type : GoType; sf_Tag : list (string * string); sf_Anonymous : bool }.

(** How an unnamed structure type prints, and its fields. *)
Record Layout := mkLayout { ly_text : string; ly_fields : list StructField }.

Abbreviation layouts := (gmap positive Layout).

Fixpoint underlying (t : GoType) : GoType := match t with TNamed _ u => underlying u | _ => t end.

Definition type_kind (t : GoType) : Kind :=
  match underlying t with
  | TBasic k => KBasic k | TArray _ _ => KArray | TChan _ => KChan | TFunc _ => KFunc | TInterface _ => KInterface
  | TMap _ _ => KMap | TPtr _ => KPtr | TSlice _ => KSlice | TStruct _ => KStruct | TNamed _ _ => KInvalid
  end.

(** [Type.Elem] *)
Definition type_Elem (t : GoType) : outcome GoType :=
  match underlying t with
  | TArray e _ | TChan e | TMap _ e | TPtr e | TSlice e => Ret e
  | _ => Panic "reflect: Elem of invalid type"
  end.

(** [Type.Name]: plain types have one, too. *)
Definition type_Name (t : GoType) : string := match t with TNamed n _ => n | TBasic k => k | _ => "" end.

Fixpoint type_text (types : layouts) (t : GoType) : string :=
  match t with
  | TBasic k => k
  | TArray e n => "[" +:+ pretty n +:+ "]" +:+ type_text types e
  | TChan e => "chan " +:+ type_text types e
  | TFunc s | TInterface s => s
  | TMap k e => "map[" +:+ type_text types k +:+ "]" +:+ type_text types e
  | TPtr e => "*" +:+ type_text types e
  | TSlice e => "[]" +:+ type_text types e
  | TStruct l => match types !! l with Some ly => ly_text ly | None => "struct {}" end
  | TNamed n _ => n
  end.

Definition exported (d : StructField) : bool := bool_decide (sf_PkgPath d = "").

(** [StructTag.Get]; a tag is given as its keys and values. *)
Fixpoint tag_Get (tag : list (string * string)) (key : string) : string :=
  match tag with
  | [] => ""
  | (k, v) :: tag => if decide (k = key) then v else tag_Get tag key
  end.

(** ** Values *)

(** A place: an object of the heap, and the way to a part of it. *)
Abbreviation place := (positive * list nat)%type.

(** Floating-point numbers by their bits. *)
Inductive const := CBool (b : bool) | CInt (z : Z) | CFloat (bits : Z) | CComplex (re im : Z) | CStr (s : string).

(** [VRef]: a channel, function or unsafe pointer. *)
Inductive Val :=
| VBasic (c : const)
| VStruct (fields : list Val)
| VArray (elems : list Val)
| VSlice (elems : option (list Val))
| VMap (entries : option (list (Val * Val)))
| VPtr (target : option place)
| VIface (dyn : option (GoType * Val))
| VRef (id : option positive).

Abbreviation heap := (gmap positive Val).

(** An [interface{}] *)
Abbreviation any := (option (GoType * Val)).

(** Where a [reflect.Value] takes its data: a copy, or an addressable place. *)
Inductive source := Held (x : Val) | At (p : place).

(** Whether a value came through an unexported field; an embedded field's mark does not
    pass to the fields in it. *)
Inductive access := RW | EmbedRO | StickyRO.

Record Value := mkValue { v_type : GoType; v_src : source; v_ro : access }.

(** The zero [reflect.Value] is [None]. *)
Definition v_Kind (v : option Value) : Kind := match v with Some v => type_kind (v_type v) | None => KInvalid end.

Definition ValueOf (i : any) : option Value :=
  match i with Some (t, x) => Some (mkValue t (Held x) RW) | None => None end.

Fixpoint follow (x : Val) (path : list nat) : option Val :=
  match path with
  | [] => Some x
  | i :: path =>
      match x with
      | VStruct xs | VArray xs => match xs !! i with Some y => follow y path | None => None end
      | _ => None
      end
  end.

Fixpoint store_at (x : Val) (path : list nat) (new : Val) : option Val :=
  match path with
  | [] => Some new
  | i :: path =>
      match x with
      | VStruct xs => match xs !! i with Some y => y' ← store_at y path new; Some (VStruct (<[i := y']> xs)) | None => None end
      | VArray xs => match xs !! i with Some y => y' ← store_at y path new; Some (VArray (<[i := y']> xs)) | None => None end
      | _ => None
      end
  end.

(** What no well-typed program does. *)
Definition ill_typed {A} : outcome A := Panic "ill-typed value".

Definition valid (v : option Value) : outcome Value :=
  match v with Some v => Ret v | None => Panic "reflect: call of method on zero Value" end.

Section Reflect.
Context (types : layouts) (h : heap).

Definition data (v : Value) : outcome Val :=
  match v_src v with
  | Held x => Ret x
  | At (r, path) => match h !! r with Some x => from_option Ret ill_typed (follow x path) | None => ill_typed end
  end.

(** [Value.Elem] of a pointer. *)
Definition v_Elem (v : Value) : outcome (option Value) :=
  match underlying (v_type v) with
  | TPtr e =>
      x <- data v;
      match x with
      | VPtr None => Ret None
      | VPtr (Some p) => Ret (Some (mkValue e (At p) (v_ro v)))
      | _ => ill_typed
      end
  | _ => Panic "reflect: call of reflect.Value.Elem"
  end.

(** [Value.Interface]: the dynamic value, of an interface. *)
Definition v_Interface (v : Value) : outcome any :=
  match v_ro v with
  | RW =>
      x <- data v;
      match type_kind (v_type v), x with
      | KInterface, VIface d => Ret d
      | KInterface, _ => ill_typed
      | _, _ => Ret (Some (v_type v, x))
      end
  | _ => Panic "reflect.Value.Interface: cannot return value obtained from unexported field or method"
  end.

Definition v_Addr (v : Value) : outcome Value :=
  match v_src v with
  | At p => Ret (mkValue (TPtr (v_type v)) (Held (VPtr (Some p))) (v_ro v))
  | Held _ => Panic "reflect.Value.Addr of unaddressable value"
  end.

Definition v_CanSet (v : Value) : bool :=
  match v_src v, v_ro v with At _, RW => true | _, _ => false end.

(** ** Fields *)

Definition struct_fields (t : GoType) : outcome (list StructField) :=
  match underlying t with
  | TStruct l => match types !! l with Some ly => Ret (ly_fields ly) | None => ill_typed end
  | _ => Panic "reflect: NumField of non-struct type"
  end.

Definition field_access (parent : access) (d : StructField) : access :=
  match parent, exported d with
  | StickyRO, _ => StickyRO
  | _, true => RW
  | _, false => if sf_Anonymous d then EmbedRO else StickyRO
  end.

(** [Value.Field] *)
Definition v_Field (v : Value) (i : nat) : outcome Value :=
  fs <- struct_fields (v_type v);
  match fs !! i with
  | None => Panic "reflect: Field index out of range"
  | Some d =>
      match v_src v with
      | At (r, path) => Ret (mkValue (sf_Type d) (At (r, path ++ [i])) (field_access (v_ro v) d))
      | Held (VStruct xs) =>
          match xs !! i with Some x => Ret (mkValue (sf_Type d) (Held x) (field_access (v_ro v) d)) | None => ill_typed end
      | Held _ => ill_typed
      end
  end.

(** The structure embedded by a field, or pointed to. *)
Definition embedded (d : StructField) : option GoType :=
  if sf_Anonymous d then
    let t := match underlying (sf_Type d) with TPtr e => e | _ => sf_Type d end in
    if decide (type_kind t = KStruct) then Some t else None
  else None.

(** A level of the breadth-first search of [FieldByNameFunc]: what was found, and the
    embedded types of the next level with the number of times each occurs. *)
Record level := mkLevel { lv_found : option (StructField * list nat); lv_next : list (GoType * list nat); lv_count : list (GoType * nat) }.

Definition count_of (cs : list (GoType * nat)) (t : GoType) : nat :=
  match list_find (fun c => c.1 = t) cs with Some (_, c) => c.2 | None => 0%nat end.

(** One field of a type of the level; [None] if the name is ambiguous. *)
Definition scan_field (name : string) (multiple : bool) (index : list nat) (i : nat) (d : StructField) (lv : level) : option level :=
  if decide (sf_Name d = name) then
    if multiple || bool_decide (is_Some (lv_found lv)) then None
    else Some (mkLevel (Some (d, index ++ [i])) (lv_next lv) (lv_count lv))
  else
    match lv_found lv, embedded d with
    | None, Some t =>
        if decide (count_of (lv_count lv) t = 0%nat) then
          Some (mkLevel None (lv_next lv ++ [(t, index ++ [i])]) ((t, if multiple then 2%nat else 1%nat) :: lv_count lv))
        else Some (mkLevel None (lv_next lv) ((t, 2%nat) :: lv_count lv))
    | _, _ => Some lv
    end.

Fixpoint scan_fields (name : string) (multiple : bool) (index : list nat) (i : nat) (ds : list StructField) (lv : level) : option level :=
  match ds with
  | [] => Some lv
  | d :: ds => lv ← scan_field name multiple index i d lv; scan_fields name multiple index (S i) ds lv
  end.

Fixpoint scan_types (name : string) (count : list (GoType * nat)) (current : list (GoType * list nat)) (visited : list GoType) (lv : level)
    : option (list GoType * level) :=
  match current with
  | [] => Some (visited, lv)
  | (t, index) :: current =>
      if decide (t ∈ visited) then scan_types name count current visited lv
      else
        match struct_fields t with
        | Ret ds => lv ← scan_fields name (Nat.ltb 1 (count_of count t)) index 0 ds lv; scan_types name count current (t :: visited) lv
        | Panic _ => None
        end
  end.

(** The levels; every level but the last visits a new type. *)
Fixpoint search (fuel : nat) (name : string) (count : list (GoType * nat)) (current : list (GoType * list nat)) (visited : list GoType)
    : option (StructField * list nat) :=
  match fuel, current with
  | S fuel, _ :: _ =>
      r ← scan_types name count current visited (mkLevel None [] []);
      match lv_found r.2 with
      | Some f => Some f
      | None => search fuel name (lv_count r.2) (lv_next r.2) r.1
      end
  | _, _ => None
  end.

(** A level more than there are types that a field embeds. *)
Definition levels : nat := map_fold (fun _ ly n => (length (ly_fields ly) + n)%nat) 2%nat types.

(** [Type.FieldByName]: a field of the type's own, or else one promoted from an embedded
    structure. *)
Definition type_FieldByName (t : GoType) (name : string) : outcome (option (StructField * list nat)) :=
  ds <- struct_fields t;
  match list_find (fun d => sf_Name d = name) ds with
  | Some (i, d) => Ret (if decide (name = "") then None else Some (d, [i]))
  | None => Ret (search levels name [] [(t, [])] [])
  end.

(** [Value.FieldByIndex] *)
Fixpoint v_FieldByIndex (v : Value) (first : bool) (index : list nat) : outcome Value :=
  match index with
  | [] => Ret v
  | i :: index =>
      v <- (if first then Ret v
            else match underlying (v_type v) with
                 | TPtr _ => p <- v_Elem v; match p with Some v => Ret v | None => Panic "reflect: indirection through nil pointer to embedded struct" end
                 | _ => Ret v
                 end);
      f <- v_Field v i;
      v_FieldByIndex f false index
  end.

(** [Value.FieldByName] *)
Definition v_FieldByName (v : Value) (name : string) : outcome (option Value) :=
  f <- type_FieldByName (v_type v) name;
  match f with
  | Some (_, index) => f <- v_FieldByIndex v true index; Ret (Some f)
  | None => Ret None
  end.
End Reflect.

(** ** Zero values *)

(** Negative zero compares equal to zero. *)
Definition float_zero (bits : Z) : bool := (bits =? 0) || (bits =? 2 ^ 63).

Definition const_zero (c : const) : bool :=
  match c with
  | CBool b => negb b | CInt z => z =? 0 | CFloat b => float_zero b | CComplex a b => float_zero a && float_zero b
  | CStr s => bool_decide (s = "")
  end.

(** [DeepEqual] of a value and the zero value of its type: every part of it is zero, and
    what can be nil is nil. *)
Fixpoint zero_data (x : Val) : bool :=
  match x with
  | VBasic c => const_zero c
  | VStruct xs | VArray xs => forallb zero_data xs
  | VSlice s => match s with None => true | Some _ => false end
  | VMap s => match s with None => true | Some _ => false end
  | VPtr p => match p with None => true | Some _ => false end
  | VIface d => match d with None => true | Some _ => false end
  | VRef r => match r with None => true | Some _ => false end
  end.

Definition const_Zero (c : const) : const :=
  match c with CBool _ => CBool false | CInt _ => CInt 0 | CFloat _ => CFloat 0 | CComplex _ _ => CComplex 0 0 | CStr _ => CStr "" end.

(** [reflect.Zero] of a value's type, which has the structures and arrays the value has. *)
Fixpoint Zero (x : Val) : Val :=
  match x with
  | VBasic c => VBasic (const_Zero c)
  | VStruct xs => VStruct (map Zero xs)
  | VArray xs => VArray (map Zero xs)
  | VSlice _ => VSlice None
  | VMap _ => VMap None
  | VPtr _ => VPtr None
  | VIface _ => VIface None
  | VRef _ => VRef None
  end.

(** [reflect.DeepEqual(current, zero)] for the value of a field: a field of interface type
    gives what it holds, and [nil] for its zero. *)
Definition is_zero (h : heap) (v : Value) : outcome bool :=
  cur <- v_Interface h v;
  match type_kind (v_type v), cur with
  | KInterface, d => Ret (bool_decide (d = None))
  | _, Some (_, x) => Ret (zero_data x)
  | _, None => ill_typed
  end.

(** ** Assigning *)

(** Plain types are named, too. *)
Definition has_name (t : GoType) : bool := match t with TNamed _ _ | TBasic _ => true | _ => false end.

Definition assignable (dst src : GoType) : bool :=
  bool_decide (dst = src) || (negb (has_name dst && has_name src) && bool_decide (underlying dst = underlying src)).

(** [Value.Set] *)
Definition v_Set (h : heap) (v : Value) (t : GoType) (x : Val) : outcome heap :=
  match v_src v with
  | At (r, path) =>
      if assignable (v_type v) t then
        match h !! r with
        | Some old => match store_at old path x with Some new => Ret (<[r := new]> h) | None => ill_typed end
        | None => ill_typed
        end
      else Panic "reflect.Set: value of type is not assignable to type"
  | Held _ => Panic "reflect.Set using unaddressable value"
  end.

(** ** What holds

    A value that is of its type, and whose pointers end somewhere, can be looked into
    without a panic: [Elem], [Interface] and the fields of such a value are of their types
    again.  What is set is what is read. *)

(** ** Values of a type *)

Definition const_of (k : string) (c : const) : bool :=
  match c with
  | CStr _ => bool_decide (k = "string") | CBool _ => bool_decide (k = "bool")
  | CFloat _ => bool_decide (k ∈ ["float32"; "float64"]) | CComplex _ _ => bool_decide (k ∈ ["complex64"; "complex128"])
  | CInt _ => negb (bool_decide (k ∈ ["string"; "bool"; "float32"; "float64"; "complex64"; "complex128"]))
  end.

Definition all2 {A B} (f : A -> B -> bool) : list A -> list B -> bool :=
  fix go l k := match l, k with
                | [], [] => true
                | a :: l, b :: k => f a b && go l k
                | _, _ => false
                end.

(** [x] is of type [t], and nothing is more than [n] steps inside it, through pointers,
    too. *)
Fixpoint well_formed (types : layouts) (h : heap) (n : nat) (t : GoType) (x : Val) : bool :=
  match n with
  | O => false
  | S n =>
      match underlying t, x with
      | TBasic k, VBasic c => const_of k c
      | TStruct l, VStruct xs =>
          match types !! l with Some ly => all2 (fun d x => well_formed types h n (sf_Type d) x) (ly_fields ly) xs | None => false end
      | TArray e k, VArray xs => bool_decide (length xs = k) && forallb (well_formed types h n e) xs
      | TSlice e, VSlice xs => forallb (well_formed types h n e) (default [] xs)
      | TMap k e, VMap es => forallb (fun p => well_formed types h n k p.1 && well_formed types h n e p.2) (default [] es)
      | TPtr _, VPtr None => true
      | TPtr e, VPtr (Some (r, path)) =>
          match h !! r with
          | Some x => match follow x path with Some y => well_formed types h n e y | None => false end
          | None => false
          end
      | TInterface _, VIface None => true
      | TInterface _, VIface (Some (t, x)) => negb (bool_decide (type_kind t = KInterface)) && well_formed types h n t x
      | (TChan _ | TFunc _), VRef _ => true
      | _, _ => false
      end
  end.

(** Field names are distinct, but for the blank ones, which no other package sees. *)
Definition wf_layout (ly : Layout) : Prop :=
  forall i d, ly_fields ly !! i = Some d -> exported d = true ->
    sf_Name d <> "" /\ forall j d', ly_fields ly !! j = Some d' -> sf_Name d' = sf_Name d -> j = i.

Definition wf_layouts (types : layouts) : Prop := map_Forall (fun _ ly => wf_layout ly) types.

Section WellFormed.
Context (types : layouts) (h : heap) (Hty : wf_layouts types).

Abbreviation wf := (well_formed types h).

Lemma all2_lookup {A B} (f : A -> B -> bool) l k i a : all2 f l k = true -> l !! i = Some a -> exists b, k !! i = Some b /\ f a b = true.
Proof.
  revert k i. induction l as [|x l IH]; intros [|y k] i H Hi; try done. cbn in H. apply andb_prop in H as [H1 H2].
  destruct i as [|i]; [injection Hi as <-; by exists y|exact (IH k i H2 Hi)].
Qed.

Lemma all2_impl {A B} (f g : A -> B -> bool) l k : (forall a b, f a b = true -> g a b = true) -> all2 f l k = true -> all2 g l k = true.
Proof.
  intros Hfg. revert k. induction l as [|x l IH]; intros [|y k] H; try done. cbn [all2] in H |- *. apply andb_prop in H as [H1 H2]. rewrite (Hfg _ _ H1). exact (IH k H2).
Qed.

Lemma forallb_impl {A} (f g : A -> bool) l : (forall a, f a = true -> g a = true) -> forallb f l = true -> forallb g l = true.
Proof. intros Hfg. rewrite !forallb_forall. auto. Qed.

(** More steps do no harm. *)
Lemma well_formed_S n : forall t x, wf n t x = true -> wf (S n) t x = true.
Proof.
  induction n as [|n IH]; intros t x H; [done|]. change (wf (S (S n)) t x) with
    (match underlying t, x with
      | TBasic k, VBasic c => const_of k c
      | TStruct l, VStruct xs => match types !! l with Some ly => all2 (fun d x => wf (S n) (sf_Type d) x) (ly_fields ly) xs | None => false end
      | TArray e k, VArray xs => bool_decide (length xs = k) && forallb (wf (S n) e) xs
      | TSlice e, VSlice xs => forallb (wf (S n) e) (default [] xs)
      | TMap k e, VMap es => forallb (fun p => wf (S n) k p.1 && wf (S n) e p.2) (default [] es)
      | TPtr _, VPtr None => true
      | TPtr e, VPtr (Some (r, path)) =>
          match h !! r with Some x => match follow x path with Some y => wf (S n) e y | None => false end | None => false end
      | TInterface _, VIface None => true
      | TInterface _, VIface (Some (t, x)) => negb (bool_decide (type_kind t = KInterface)) && wf (S n) t x
      | (TChan _ | TFunc _), VRef _ => true
      | _, _ => false
      end).
  cbn [well_formed] in H. destruct (underlying t), x; try done.
  - apply andb_prop in H as [-> H]. by eapply forallb_impl; [apply IH|].
  - destruct dyn as [[t' x]|]; [|done]. apply andb_prop in H as [-> H]. by apply IH.
  - eapply forallb_impl; [|exact H]. intros p [H1 H2]%andb_prop. by rewrite (IH _ _ H1), (IH _ _ H2).
  - destruct target as [[r path]|]; [|done]. destruct (h !! r) as [y|]; [|done]. destruct (follow y path); [|done]. by apply IH.
  - by eapply forallb_impl; [apply IH|].
  - destruct (types !! layout); [|done]. eapply all2_impl; [|exact H]. intros d z. apply IH.
Qed.

(** ** Looking into values *)

(** An [interface{}] never holds an interface. *)
Definition any_ok (n : nat) (i : any) : Prop :=
  match i with Some (t, x) => wf n t x = true /\ type_kind t <> KInterface | None => True end.

Definition value_ok (n : nat) (v : Value) : Prop := v_ro v = RW /\ exists x, data h v = Ret x /\ wf n (v_type v) x = true.

Lemma any_ok_S n i : any_ok n i -> any_ok (S n) i.
Proof. destruct i as [[t x]|]; [|done]. intros [H1 H2]. split; [by apply well_formed_S|done]. Qed.

Lemma value_ok_S n v : value_ok n v -> value_ok (S n) v.
Proof. intros (Hr & x & Hx & Hw). split; [done|]. exists x. split; [done|]. by apply well_formed_S. Qed.

Lemma value_ok_held n t x : wf n t x = true -> value_ok n (mkValue t (Held x) RW).
Proof. intros H. split; [done|]. by exists x. Qed.

(** What [Interface] gives: the value, or what an interface holds. *)
Lemma v_Interface_ok n v : value_ok n v ->
  exists i, v_Interface h v = Ret i /\ any_ok n i /\
    (type_kind (v_type v) <> KInterface -> exists x, data h v = Ret x /\ i = Some (v_type v, x)).
Proof.
  intros (Hr & x & Hx & Hw). unfold v_Interface. rewrite Hr, Hx. cbn [outcome_bind].
  destruct (decide (type_kind (v_type v) = KInterface)) as [Hk|Hk].
  - rewrite Hk. destruct n as [|n]; [done|]. cbn [well_formed] in Hw. unfold type_kind in Hk.
    destruct (underlying (v_type v)); try done. destruct x as [| | | | | |d|]; try done. exists d. split; [done|]. split; [|done].
    destruct d as [[t x]|]; [|done]. apply andb_prop in Hw as [H1 H2]. split; [by apply well_formed_S|]. by apply negb_true_iff, bool_decide_eq_false in H1.
  - exists (Some (v_type v, x)). split; [by destruct (type_kind (v_type v))|]. split; [done|]. intros _. by exists x.
Qed.

Lemma v_Elem_ok n v e : value_ok (S n) v -> underlying (v_type v) = TPtr e ->
  v_Elem h v = Ret None \/ exists p, v_Elem h v = Ret (Some p) /\ v_type p = e /\ value_ok n p.
Proof.
  intros (Hr & x & Hx & Hw) Hu. unfold v_Elem. rewrite Hu, Hx. cbn [outcome_bind]. cbn [well_formed] in Hw. rewrite Hu in Hw.
  destruct x as [| | | | |[[r path]|]| |]; try done; [right|by left]. eexists. split; [done|]. split; [done|]. split; [done|]. cbn.
  destruct (h !! r) as [y|]; [|done]. destruct (follow y path) as [z|]; [|done]. by exists z.
Qed.

(** ** Fields *)

Lemma follow_app x p q : follow x (p ++ q) = follow x p ≫= fun y => follow y q.
Proof.
  revert x. induction p as [|i p IH]; intros x; [done|]. cbn [app follow]. destruct x as [|xs|xs| | | | |]; try done; destruct (xs !! i); done || apply IH.
Qed.

Lemma struct_fields_ok n v : value_ok n v -> type_kind (v_type v) = KStruct ->
  exists ly, wf_layout ly /\ struct_fields types (v_type v) = Ret (ly_fields ly).
Proof.
  intros (_ & x & _ & Hw) Hk. destruct n as [|n]; [done|]. unfold type_kind in Hk. unfold struct_fields. cbn [well_formed] in Hw.
  destruct (underlying (v_type v)); try done. destruct x; try done. destruct (types !! layout) as [ly|] eqn:E; [|done]. exists ly. split; [|done]. by apply (Hty _ _ E).
Qed.

Lemma v_Field_ok n v ds i d : value_ok (S n) v -> struct_fields types (v_type v) = Ret ds -> ds !! i = Some d -> exported d = true ->
  exists f, v_Field types v i = Ret f /\ v_type f = sf_Type d /\ value_ok n f.
Proof.
  intros (Hr & x & Hx & Hw) Hds Hi He. unfold v_Field. rewrite Hds. cbn [outcome_bind]. rewrite Hi. cbn [well_formed] in Hw. unfold struct_fields in Hds.
  destruct (underlying (v_type v)); try done. destruct x as [|xs| | | | | |]; try done. destruct (types !! layout) as [ly|]; [|done]. injection Hds as <-.
  destruct (all2_lookup _ _ _ _ _ Hw Hi) as (y & Hy & Hwy). unfold field_access. rewrite Hr, He. unfold data in Hx. destruct (v_src v) as [z|[r path]].
  - injection Hx as ->. rewrite Hy. eexists. split; [done|]. split; [done|]. by apply value_ok_held.
  - eexists. split; [done|]. split; [done|]. split; [done|]. cbn [data v_src]. exists y. split; [|done].
    destruct (h !! r) as [o|] eqn:Er; [|done]. rewrite follow_app. destruct (follow o path) as [z|]; [|done]. cbn in Hx. injection Hx as ->. cbn. by rewrite Hy.
Qed.

(** A structure's own field is found by its name, whatever is embedded. *)
Lemma own_field_found n v ly i d : value_ok (S n) v -> wf_layout ly -> struct_fields types (v_type v) = Ret (ly_fields ly) ->
  ly_fields ly !! i = Some d -> exported d = true ->
  exists f, v_FieldByName types h v (sf_Name d) = Ret (Some f) /\ v_type f = sf_Type d /\ value_ok n f /\ v_Field types v i = Ret f.
Proof.
  intros Hv Hly Hds Hi He. destruct (Hly i d Hi He) as [Hne Huniq]. destruct (v_Field_ok n v _ i d Hv Hds Hi He) as (f & Hf & Ht & Hok).
  exists f. split; [|done]. unfold v_FieldByName, type_FieldByName. rewrite Hds. cbn [outcome_bind].
  destruct (list_find_elem_of (fun d' => sf_Name d' = sf_Name d) (ly_fields ly) d) as [[j d'] Hj]; [by eapply list_elem_of_lookup_2|done|].
  rewrite Hj. apply list_find_Some in Hj as (Hj & Hn & _). rewrite (Huniq _ _ Hj Hn). rewrite decide_False by done. cbn [outcome_bind v_FieldByIndex].
  by rewrite Hf.
Qed.
End WellFormed.

(** ** Zero *)

Section Val_ind.
Context (P : Val -> Prop)
  (Hbasic : forall c, P (VBasic c)) (Hstruct : forall xs, Forall P xs -> P (VStruct xs)) (Harray : forall xs, Forall P xs -> P (VArray xs))
  (Hslice : forall xs, P (VSlice xs)) (Hmap : forall es, P (VMap es)) (Hptr : forall p, P (VPtr p)) (Hiface : forall d, P (VIface d)) (Href : forall r, P (VRef r)).

(** Induction through structures and arrays. *)
Fixpoint Val_parts_ind (x : Val) : P x :=
  let all := fix go xs : Forall P xs := match xs with [] => Forall_nil_2 P | x :: xs => Forall_cons_2 P x xs (Val_parts_ind x) (go xs) end in
  match x with
  | VBasic c => Hbasic c | VStruct xs => Hstruct xs (all xs) | VArray xs => Harray xs (all xs)
  | VSlice xs => Hslice xs | VMap es => Hmap es | VPtr p => Hptr p | VIface d => Hiface d | VRef r => Href r
  end.
End Val_ind.

(** The zero value is zero, and it is the only value that is, up to the sign of a
    floating-point zero. *)
Fixpoint same_zero (x : Val) : Val :=
  match x with
  | VBasic (CFloat b) => VBasic (CFloat (if float_zero b then 0 else b))
  | VBasic (CComplex a b) => VBasic (CComplex (if float_zero a then 0 else a) (if float_zero b then 0 else b))
  | VStruct xs => VStruct (map same_zero xs)
  | VArray xs => VArray (map same_zero xs)
  | x => x
  end.

Lemma zero_data_spec x : zero_data x = true <-> same_zero x = Zero x.
Proof.
  induction x as [c|xs IH|xs IH|xs|es|p|d|r] using Val_parts_ind; try by (destruct_or?; cbn; repeat case_match; naive_solver).
  - destruct c as [b|z|b|a b|s]; cbn.
    + by destruct b.
    + rewrite Z.eqb_eq. split; [by intros ->|by intros [=]].
    + unfold float_zero. destruct ((b =? 0) || (b =? 2 ^ 63)) eqn:E; [done|]. split; [done|]. intros [=->]. done.
    + destruct (float_zero a) eqn:Ea, (float_zero b) eqn:Eb; cbn; (split; [done|]); intros H; try done; injection H; intros; subst; done.
    + rewrite bool_decide_eq_true. split; [by intros ->|by intros [=]].
  - cbn. assert (forallb zero_data xs = true <-> map same_zero xs = map Zero xs) as ->; [|split; [by intros ->|by intros [=]]].
    induction IH as [|x xs Hx _ IH]; [done|]. cbn. rewrite andb_true_iff, Hx, IH. split; [by intros [-> ->]|by intros [=]].
  - cbn. assert (forallb zero_data xs = true <-> map same_zero xs = map Zero xs) as ->; [|split; [by intros ->|by intros [=]]].
    induction IH as [|x xs Hx _ IH]; [done|]. cbn. rewrite andb_true_iff, Hx, IH. split; [by intros [-> ->]|by intros [=]].
Qed.

(** ** Setting *)

Lemma store_then_follow x path new x' : store_at x path new = Some x' -> follow x' path = Some new.
Proof.
  revert x x'. induction path as [|i path IH]; intros x x' H; [by injection H as ->|]. cbn [store_at] in H.
  destruct x as [|xs|xs| | | | |]; try done; destruct (xs !! i) as [y|] eqn:E; try done; apply bind_Some in H as (y' & Hy & [= <-]);
    cbn [follow]; rewrite list_lookup_insert_eq by (by eapply lookup_lt_Some); by apply IH with y.
Qed.

(** A part beside the one that is stored stays. *)
Lemma store_beside x path new x' i j rest : store_at x (path ++ [i]) new = Some x' -> i <> j ->
  follow x' (path ++ j :: rest) = follow x (path ++ j :: rest).
Proof.
  revert x x'. induction path as [|k path IH]; intros x x' H Hij; cbn [app] in *; cbn [store_at] in H.
  - destruct x as [|xs|xs| | | | |]; try done; destruct (xs !! i) as [y|] eqn:E; try done; injection H as <-; cbn [follow]; by rewrite list_lookup_insert_ne.
  - destruct x as [|xs|xs| | | | |]; try done; destruct (xs !! k) as [y|] eqn:E; try done; apply bind_Some in H as (y' & Hy & [= <-]);
      cbn [follow]; rewrite list_lookup_insert_eq by (by eapply lookup_lt_Some); rewrite E; by apply IH.
Qed.
