(* ===== verification/Structs.v ===== *)
(** * Structures as maps

    [utils/fatih/structs]: [structs.go], [field.go] and [tags.go].  A structure, or a pointer to
    one, as a map, a list of values, its fields; and a field as something to read and to
    set.  A method [String] of a type is a parameter.  A recursion into what fields hold
    has fuel, one for each value below another, and runs out of it only when pointers lead
    back to where they came from. *)
From Stdlib Require Import Strings.Ascii.
From S2P Require Import Prelude GoReflect.
#[local] Open Scope mq_scope.
#[local] Open Scope string_scope.
#[local] Open Scope list_scope.
#[local] Open Scope Z_scope.

(** ** Calls that may not return *)

Definition fuelled (A : Type) : Type := option (outcome A).

Definition lift {A} (m : outcome A) : fuelled A := Some m.

Definition fuelled_bind {A B} (m : fuelled A) (k : A -> fuelled B) : fuelled B :=
  match m with
  | None => None
  | Some (Panic p) => Some (Panic p)
  | Some (Ret a) => k a
  end.

Notation "'let!' x := m 'in' k" := (fuelled_bind m (fun x => k))
  (at level 200, x name, m at level 100, k at level 200) : mq_scope.

(** ** Tags *)

Abbreviation tagOptions := (list string).

Fixpoint Has (t : tagOptions) (opt : string) : bool :=
  match t with
  | [] => false
  | tagOpt :: t => if decide (tagOpt = opt) then true else Has t opt
  end.

Definition parseTag (tag : string) : string * tagOptions :=
  match split_on ","%char tag "" with
  | name :: opts => (name, opts)
  | [] => ("", [])
  end.

Definition DefaultTagName : string := "structs".

(** ** Structures *)

Record Struct := mkStruct { s_raw : any; s_value : Value; s_TagName : string }.

(** What a map or list made here holds: Go values as they are, maps and lists. *)
Inductive Out := OVal (i : any) | OMap (m : gmap string Out) | OList (l : list Out).

Definition string_value (s : string) : any := Some (TBasic "string", VBasic (CStr s)).

Section Structs.
Context (types : layouts) (h : heap) (Stringer : GoType * Val -> option string).

(** Through all pointers. *)
Fixpoint deref_all (t : GoType) (v : Value) : outcome Value :=
  match t with
  | TNamed _ u => deref_all u v
  | TPtr e =>
      o <- v_Elem h v;
      match o with Some v => deref_all e v | None => Panic "not struct" end
  | TStruct _ => Ret v
  | _ => Panic "not struct"
  end.

Definition strctVal (s : any) : outcome Value :=
  match ValueOf s with
  | Some v => deref_all (v_type v) v
  | None => Panic "not struct"
  end.

Definition New (s : any) : outcome Struct :=
  v <- strctVal s; Ret (mkStruct s v DefaultTagName).

(** One pointer only. *)
Definition indirect (s : any) : outcome (option Value) :=
  match ValueOf s with
  | Some v => if decide (type_kind (v_type v) = KPtr) then v_Elem h v else Ret (Some v)
  | None => Ret None
  end.

Definition IsStruct (s : any) : outcome bool :=
  v <- indirect s; Ret (bool_decide (v_Kind v = KStruct)).

Definition structFields (s : Struct) : outcome (list StructField) :=
  fs <- struct_fields types (v_type (s_value s));
  Ret (List.filter (fun f => exported f && negb (bool_decide (tag_Get (sf_Tag f) (s_TagName s) = "-"))) fs).

Definition field_value (s : Struct) (f : StructField) : outcome Value :=
  v <- v_FieldByName types h (s_value s) (sf_Name f); valid v.

Definition field_tag (s : Struct) (f : StructField) : string * tagOptions := parseTag (tag_Get (sf_Tag f) (s_TagName s)).

(** A field that is to be left out. *)
Definition omitted (opts : tagOptions) (val : Value) : outcome bool :=
  if Has opts "omitempty" then is_zero h val else Ret false.

(** *** [Map] *)

(** The key of a map as a string: what [Value.String] gives of other values names their type. *)
Definition key_string (kt : GoType) (k : Val) : string :=
  match type_kind kt, k with
  | KBasic "string", VBasic (CStr s) => s
  | _, _ => "<" +:+ type_text types kt +:+ " Value>"
  end.

Definition anymap_type : GoType := TMap (TBasic "string") (TInterface "interface {}").

(** [finalVal.(map[string]interface{})] *)
Definition as_map (o : Out) : outcome (gmap string Out) :=
  match o with
  | OMap m => Ret m
  | OVal (Some (t, VMap es)) =>
      if decide (t = anymap_type) then
        Ret (foldl (fun m e => match e with
                               | (VBasic (CStr k), VIface d) => <[k := OVal d]> m
                               | _ => m
                               end) ∅ (default [] es))
      else Panic "interface conversion"
  | _ => Panic "interface conversion"
  end.

Section With.
Context (nested : string -> Value -> fuelled Out).

Definition fill_field (s : Struct) (field : StructField) (out : gmap string Out) : fuelled (gmap string Out) :=
  let! val := lift (field_value s field) in
  let tag := field_tag s field in
  let name := if decide (tag.1 = "") then sf_Name field else tag.1 in
  let! omit := lift (omitted tag.2 val) in
  if (omit : bool) then lift (Ret out) else
  let! final := (if Has tag.2 "omitnested" then
                   let! i := lift (v_Interface h val) in lift (Ret (OVal i, false))
                 else
                   let! f := nested (s_TagName s) val in
                   let! i := lift (v_Interface h val) in
                   let! v := lift (indirect i) in
                   lift (Ret (f, bool_decide (v_Kind v = KMap) || bool_decide (v_Kind v = KStruct)))) in
  if Has tag.2 "string" then
    let! i := lift (v_Interface h val) in
    lift (Ret (match i ≫= Stringer with Some text => <[name := OVal (string_value text)]> out | None => out end))
  else if final.2 && Has tag.2 "flatten" then
    let! m := lift (as_map final.1) in lift (Ret (m ∪ out))
  else lift (Ret (<[name := final.1]> out)).

Fixpoint fill_fields (s : Struct) (fields : list StructField) (out : gmap string Out) : fuelled (gmap string Out) :=
  match fields with
  | [] => lift (Ret out)
  | field :: fields => let! out := fill_field s field out in fill_fields s fields out
  end.

(** [FillMap]; a nil map stays. *)
Definition FillMap_with (s : Struct) (out : option (gmap string Out)) : fuelled (option (gmap string Out)) :=
  match out with
  | None => lift (Ret None)
  | Some out =>
      let! fields := lift (structFields s) in
      let! out := fill_fields s fields out in
      lift (Ret (Some out))
  end.

Definition Map_with (s : Struct) : fuelled (gmap string Out) :=
  let! m := FillMap_with s (Some ∅) in lift (Ret (default ∅ m)).

(** The elements of a slice or array, and the entries of a map in the order of the range. *)
Fixpoint nested_all (tagName : string) (t : GoType) (xs : list Val) : fuelled (list Out) :=
  match xs with
  | [] => lift (Ret [])
  | x :: xs =>
      let! o := nested tagName (mkValue t (Held x) RW) in
      let! os := nested_all tagName t xs in
      lift (Ret (o :: os))
  end.

Fixpoint nested_entries (tagName : string) (kt t : GoType) (es : list (Val * Val)) (m : gmap string Out) : fuelled (gmap string Out) :=
  match es with
  | [] => lift (Ret m)
  | (k, x) :: es =>
      let! o := nested tagName (mkValue t (Held x) RW) in
      nested_entries tagName kt t es (<[key_string kt k := o]> m)
  end.

(** Whether a map's or slice's elements are structures, as the code looks for them. *)
Definition is_ptr_to_struct (t : GoType) : bool :=
  match underlying t with TPtr e => bool_decide (type_kind e = KStruct) | _ => false end.

Definition map_elem (t : GoType) : outcome GoType :=
  if decide (type_kind t ∈ [KPtr; KArray; KMap; KSlice; KChan]) then
    e <- type_Elem t;
    if decide (type_kind e = KPtr) then type_Elem e else Ret e
  else Ret t.

Definition iterated_elem (t : GoType) : outcome bool :=
  if decide (type_kind t = KStruct) then Ret true
  else if decide (type_kind t = KSlice) then e <- type_Elem t; Ret (bool_decide (type_kind e = KStruct))
  else Ret false.

Definition nested_with (tagName : string) (val : Value) : fuelled Out :=
  let! i := lift (v_Interface h val) in
  let! v := lift (indirect i) in
  match v_Kind v with
  | KStruct =>
      let! n := lift (New i) in
      let! m := Map_with (mkStruct (s_raw n) (s_value n) tagName) in
      lift (Ret (if decide (size m = 0%nat) then OVal i else OMap m))
  | KMap =>
      let! e := lift (map_elem (v_type val)) in
      let! iter := lift (iterated_elem e) in
      if (iter : bool) then
        let! x := lift (data h val) in
        match underlying (v_type val), x with
        | TMap kt t, VMap es => let! m := nested_entries tagName kt t (default [] es) ∅ in lift (Ret (OMap m))
        | _, _ => lift (Panic "reflect: call of reflect.Value.MapKeys")
        end
      else lift (Ret (OVal i))
  | KSlice | KArray =>
      if decide (type_kind (v_type val) = KInterface) then lift (Ret (OVal i))
      else
        let! e := lift (type_Elem (v_type val)) in
        if negb (bool_decide (type_kind e = KStruct)) && negb (is_ptr_to_struct e) then lift (Ret (OVal i))
        else
          let! x := lift (data h val) in
          match x with
          | VSlice (Some xs) | VArray xs => let! os := nested_all tagName e xs in lift (Ret (OList os))
          | VSlice None => lift (Ret (OList []))
          | _ => lift (Panic "reflect: call of reflect.Value.Len")
          end
  | _ => lift (Ret (OVal i))
  end.
End With.

Fixpoint nested (fuel : nat) (tagName : string) (val : Value) : fuelled Out :=
  match fuel with
  | O => None
  | S fuel => nested_with (nested fuel) tagName val
  end.

Definition FillMap (fuel : nat) (s : Struct) (out : option (gmap string Out)) : fuelled (option (gmap string Out)) := FillMap_with (nested fuel) s out.
Definition Map (fuel : nat) (s : Struct) : fuelled (gmap string Out) := Map_with (nested fuel) s.

(** *** [Values], [IsZero], [HasZero] *)

Section Values.
Context (Values_of : any -> fuelled (list any)).

Fixpoint values_loop (s : Struct) (fields : list StructField) (t : list any) : fuelled (list any) :=
  match fields with
  | [] => lift (Ret t)
  | field :: fields =>
      let! val := lift (field_value s field) in
      let opts := (field_tag s field).2 in
      let! omit := lift (omitted opts val) in
      if (omit : bool) then values_loop s fields t else
      let! i := lift (v_Interface h val) in
      if Has opts "string" then
        values_loop s fields (match i ≫= Stringer with Some text => t ++ [string_value text] | None => t end)
      else
        let! sub := lift (IsStruct i) in
        if (sub : bool) && negb (Has opts "omitnested") then
          let! embeddedVals := Values_of i in values_loop s fields (t ++ embeddedVals)
        else values_loop s fields (t ++ [i])
  end.
End Values.

Fixpoint Values (fuel : nat) (s : Struct) : fuelled (list any) :=
  match fuel with
  | O => None
  | S fuel =>
      let! fields := lift (structFields s) in
      values_loop (fun i => let! n := lift (New i) in Values fuel n) s fields []
  end.

Section Zeros.
Context (IsZero_of HasZero_of : any -> fuelled bool).

Fixpoint is_zero_loop (s : Struct) (fields : list StructField) : fuelled bool :=
  match fields with
  | [] => lift (Ret true)
  | field :: fields =>
      let! val := lift (field_value s field) in
      let! i := lift (v_Interface h val) in
      let! sub := lift (IsStruct i) in
      let! ok := (if (sub : bool) && negb (Has (field_tag s field).2 "omitnested") then IsZero_of i else lift (is_zero h val)) in
      if (ok : bool) then is_zero_loop s fields else lift (Ret false)
  end.

Fixpoint has_zero_loop (s : Struct) (fields : list StructField) : fuelled bool :=
  match fields with
  | [] => lift (Ret false)
  | field :: fields =>
      let! val := lift (field_value s field) in
      let! i := lift (v_Interface h val) in
      let! sub := lift (IsStruct i) in
      let! ok := (if (sub : bool) && negb (Has (field_tag s field).2 "omitnested") then HasZero_of i else lift (is_zero h val)) in
      if (ok : bool) then lift (Ret true) else has_zero_loop s fields
  end.
End Zeros.

Fixpoint IsZero (fuel : nat) (s : Struct) : fuelled bool :=
  match fuel with
  | O => None
  | S fuel =>
      let! fields := lift (structFields s) in
      is_zero_loop (fun i => let! n := lift (New i) in IsZero fuel n) s fields
  end.

Fixpoint HasZero (fuel : nat) (s : Struct) : fuelled bool :=
  match fuel with
  | O => None
  | S fuel =>
      let! fields := lift (structFields s) in
      has_zero_loop (fun i => let! n := lift (New i) in HasZero fuel n) s fields
  end.

(** *** The rest of a structure *)

(** [Name] *)
Definition struct_Name (s : Struct) : string := type_Name (v_type (s_value s)).

(** The functions of the package: [New], and the method. *)
Definition Map_of (fuel : nat) (s : any) : fuelled (gmap string Out) := let! n := lift (New s) in Map fuel n.
Definition Values_of (fuel : nat) (s : any) : fuelled (list any) := let! n := lift (New s) in Values fuel n.
Definition IsZero_of (fuel : nat) (s : any) : fuelled bool := let! n := lift (New s) in IsZero fuel n.
Definition HasZero_of (fuel : nat) (s : any) : fuelled bool := let! n := lift (New s) in HasZero fuel n.
Definition Name_of (s : any) : outcome string := n <- New s; Ret (struct_Name n).

(** ** Fields *)

Record Field := mkField { f_value : Value; f_field : StructField; f_defaultTag : string }.

(** The fields of a structure, or of one pointed to, unexported ones too. *)
Fixpoint get_fields (v : Value) (tagName : string) (fs : list StructField) : outcome (list Field) :=
  match fs with
  | [] => Ret []
  | f :: fs =>
      if decide (tag_Get (sf_Tag f) tagName = "-") then get_fields v tagName fs
      else
        x <- v_FieldByName types h v (sf_Name f);
        x <- valid x;
        rest <- get_fields v tagName fs;
        Ret (mkField x f "" :: rest)
  end.

Definition getFields (v : Value) (tagName : string) : outcome (list Field) :=
  o <- (if decide (type_kind (v_type v) = KPtr) then v_Elem h v else Ret (Some v));
  v <- valid o;
  fs <- struct_fields types (v_type v);
  get_fields v tagName fs.

Definition Fields (s : Struct) : outcome (list Field) := getFields (s_value s) (s_TagName s).

Definition Names (s : Struct) : outcome (list string) :=
  fs <- getFields (s_value s) (s_TagName s); Ret (map (fun f => sf_Name (f_field f)) fs).

Definition Fields_of (s : any) : outcome (list Field) := n <- New s; Fields n.
Definition Names_of (s : any) : outcome (list string) := n <- New s; Names n.

Definition find_field (v : Value) (name : string) (tag : string) : outcome (option Field) :=
  f <- type_FieldByName types (v_type v) name;
  match f with
  | None => Ret None
  | Some (f, _) => x <- v_FieldByName types h v name; x <- valid x; Ret (Some (mkField x f tag))
  end.

(** [Struct.FieldOk], [Struct.Field] *)
Definition FieldOk (s : Struct) (name : string) : outcome (option Field) := find_field (s_value s) name (s_TagName s).

Definition field_or_panic (f : outcome (option Field)) : outcome Field :=
  f <- f; match f with Some f => Ret f | None => Panic "field not found" end.

Definition Struct_Field (s : Struct) (name : string) : outcome Field := field_or_panic (FieldOk s name).

(** [Field.Tag], [Value], [IsEmbedded], [IsExported], [IsZero], [Name], [Kind] *)
Definition f_Tag (f : Field) (key : string) : string := tag_Get (sf_Tag (f_field f)) key.
Definition f_Value (f : Field) : outcome any := v_Interface h (f_value f).
Definition f_IsEmbedded (f : Field) : bool := sf_Anonymous (f_field f).
Definition f_IsExported (f : Field) : bool := exported (f_field f).
Definition f_IsZero (f : Field) : outcome bool := is_zero h (f_value f).
Definition f_Name (f : Field) : string := sf_Name (f_field f).
Definition f_Kind (f : Field) : Kind := type_kind (v_type (f_value f)).

Inductive set_error := errNotExported | errNotSettable | WrongKind (got want : Kind).

(** [Field.Set]: the heap afterwards, or an error. *)
Definition f_Set (f : Field) (val : any) : outcome (result set_error heap) :=
  if negb (f_IsExported f) then Ret (Err errNotExported)
  else if negb (v_CanSet (f_value f)) then Ret (Err errNotSettable)
  else
    let given := ValueOf val in
    if decide (f_Kind f = v_Kind given) then
      match val with
      | Some (t, x) => h' <- v_Set h (f_value f) t x; Ret (Ok h')
      | None => Panic "reflect.Value.Set of zero Value"
      end
    else Ret (Err (WrongKind (v_Kind given) (f_Kind f))).

(** What an interface holds when the zero value of the field's type is put into it. *)
Definition zero_any (v : Value) : outcome any :=
  x <- data h v;
  Ret (if decide (type_kind (v_type v) = KInterface) then None else Some (v_type v, Zero x)).

(** [Field.Zero] *)
Definition f_Zero (f : Field) : outcome (result set_error heap) := zero <- zero_any (f_value f); f_Set f zero.

(** [Field.Fields] *)
Definition f_Fields (f : Field) : outcome (list Field) := getFields (f_value f) (f_defaultTag f).

(** [Field.FieldOk]: of the structure at the field's own address, so that its fields can be set. *)
Definition f_FieldOk (f : Field) (name : string) : outcome (option Field) :=
  value <- (if decide (type_kind (v_type (f_value f)) = KPtr) then Ret (f_value f) else v_Addr (f_value f));
  i <- v_Interface h value;
  v <- strctVal i;
  find_field v name "".

Definition f_Field (f : Field) (name : string) : outcome Field := field_or_panic (f_FieldOk f name).
End Structs.
