(* ===== verification/StructsTheorems.v ===== *)
(** * Theorems about structures as maps

    Of a structure that is of its type and whose pointers end, [Map], [Values], [IsZero] and
    [HasZero] return; without flattening none of them panics.  The last three are one walk
    over the same leaves.  What [Map] has under a key is its field; what [Set] puts into a
    field is what the field then has. *)
From Stdlib Require Import Strings.Ascii.
From S2P Require Import Prelude GoReflect Structs.
#[local] Open Scope mq_scope.
#[local] Open Scope string_scope.
#[local] Open Scope list_scope.
#[local] Open Scope Z_scope.

(** ** Tags *)

Definition comma_free (s : string) : Prop := no_char ","%char s.

(** A tag is its name and its options, joined by commas. *)
Lemma parseTag_join name opts : Forall comma_free (name :: opts) ->
  parseTag (String.concat "," (name :: opts)) = (name, opts).
Proof. intros H. unfold parseTag. change "," with (String ","%char ""). by rewrite split_on_concat. Qed.

Lemma Has_spec t opt : Has t opt = true <-> opt ∈ t.
Proof.
  induction t as [|o t IH]; [by split; [|intros ?%not_elem_of_nil]|]. cbn. rewrite elem_of_cons. destruct (decide (o = opt)) as [->|H].
  - split; [by left|done].
  - rewrite IH. split; [by right|]. intros [->|?]; done.
Qed.

(** ** Calls that return *)

(** [m] returns, and without a panic if [P]. *)
Definition returns {A} (P : Prop) (m : fuelled A) : Prop := exists o, m = Some o /\ (P -> exists x, o = Ret x).

Lemma returns_ret {A} P (a : A) : returns P (lift (Ret a)).
Proof. exists (Ret a). split; [done|]. intros _. by exists a. Qed.

Lemma returns_lift {A} P (m : outcome A) : (P -> exists a, m = Ret a) -> returns P (lift m).
Proof. intros H. by exists m. Qed.

Lemma returns_bind {A B} P (m : fuelled A) (k : A -> fuelled B) :
  returns P m -> (forall a, m = Some (Ret a) -> returns P (k a)) -> returns P (fuelled_bind m k).
Proof.
  intros (o & -> & Ho) Hk. destruct o as [a|p]; [by apply Hk|]. exists (Panic p). split; [done|]. intros HP. by destruct (Ho HP).
Qed.

Lemma returns_eq {A B} P (m : outcome A) a (k : A -> fuelled B) : m = Ret a -> returns P (k a) -> returns P (let! x := lift m in k x).
Proof. by intros ->. Qed.

#[local] Hint Resolve returns_ret : core.

Section Returns.
Context (types : layouts) (h : heap) (Stringer : GoType * Val -> option string) (Hty : wf_layouts types).

Abbreviation any_ok := (any_ok types h).
Abbreviation value_ok := (value_ok types h).

(** ** Helpers of the package *)

Lemma indirect_ok n i : any_ok n i -> exists o, indirect h i = Ret o /\ forall v, o = Some v -> value_ok n v.
Proof.
  destruct i as [[t x]|]; [|by exists None]. intros [Hw Hk]. unfold indirect. cbn [ValueOf v_type]. destruct (decide (type_kind t = KPtr)) as [Hp|Hp].
  - destruct n as [|n]; [done|]. assert (exists e, underlying t = TPtr e) as (e & He). { unfold type_kind in Hp. destruct (underlying t); try done. by eexists. }
    destruct (v_Elem_ok types h n (mkValue t (Held x) RW) e (value_ok_held _ _ _ _ _ Hw) He) as [->|(p & -> & _ & Hp')]; [by exists None|].
    exists (Some p). split; [done|]. intros v [= <-]. by apply value_ok_S.
  - eexists. split; [done|]. intros v [= <-]. by apply value_ok_held.
Qed.

Lemma deref_all_struct t v : type_kind t = KStruct -> deref_all h t v = Ret v.
Proof. by induction t. Qed.

Lemma deref_all_ptr t v e p : underlying t = TPtr e -> v_Elem h v = Ret (Some p) -> deref_all h t v = deref_all h e p.
Proof. induction t; try done. intros [= ->] H. cbn. by rewrite H. Qed.

(** Behind one pointer at most, a structure is the one that [New] takes. *)
Lemma New_ok n i v : any_ok n i -> indirect h i = Ret (Some v) -> type_kind (v_type v) = KStruct -> New h i = Ret (mkStruct i v DefaultTagName).
Proof.
  intros Hok Hi Hk. unfold New, strctVal. destruct i as [[t x]|]; [|done]. unfold indirect in Hi. cbn [ValueOf v_type] in *.
  destruct (decide (type_kind t = KPtr)) as [Hp|Hp].
  - destruct n as [|n]; [by destruct Hok|]. assert (exists e, underlying t = TPtr e) as (e & He). { unfold type_kind in Hp. destruct (underlying t); try done. by eexists. }
    destruct (v_Elem_ok types h n (mkValue t (Held x) RW) e (value_ok_held _ _ _ _ _ (proj1 Hok)) He) as [H|(p & H & Ht & _)]; rewrite H in Hi; [done|].
    injection Hi as <-. rewrite (deref_all_ptr _ _ _ _ He H), deref_all_struct; [done|by rewrite <- Ht].
  - injection Hi as <-. by rewrite deref_all_struct.
Qed.

Lemma IsStruct_ok n i : any_ok n i -> exists b, IsStruct h i = Ret b /\
  (b = true -> exists v, indirect h i = Ret (Some v) /\ type_kind (v_type v) = KStruct /\ value_ok n v).
Proof.
  intros Hi. unfold IsStruct. destruct (indirect_ok n i Hi) as (o & -> & Ho). eexists. split; [done|]. intros Hb%bool_decide_eq_true.
  destruct o as [v|]; [|done]. exists v. auto.
Qed.

Lemma is_zero_ok n v : value_ok n v -> exists b, is_zero h v = Ret b.
Proof.
  intros Hv. unfold is_zero. destruct (v_Interface_ok types h n v Hv) as (i & -> & _ & Hi). cbn [outcome_bind].
  destruct (decide (type_kind (v_type v) = KInterface)) as [->|Hk]; [by eexists|]. destruct (Hi Hk) as (x & _ & ->). destruct (type_kind (v_type v)); by eexists.
Qed.

Lemma omitted_ok n opts v : value_ok n v -> exists b, omitted h opts v = Ret b.
Proof. intros Hv. unfold omitted. destruct (Has opts "omitempty"); [by apply (is_zero_ok n)|by eexists]. Qed.

(** The fields of a structure, with the values the loops take of them. *)
Lemma structFields_ok n s : value_ok (S n) (s_value s) -> type_kind (v_type (s_value s)) = KStruct ->
  exists ly, wf_layout ly /\ struct_fields types (v_type (s_value s)) = Ret (ly_fields ly) /\
    structFields types s = Ret (List.filter (fun f => exported f && negb (bool_decide (tag_Get (sf_Tag f) (s_TagName s) = "-"))) (ly_fields ly)) /\
    Forall (fun d => d ∈ ly_fields ly /\ exists val, field_value types h s d = Ret val /\ v_type val = sf_Type d /\ value_ok n val)
      (List.filter (fun f => exported f && negb (bool_decide (tag_Get (sf_Tag f) (s_TagName s) = "-"))) (ly_fields ly)).
Proof.
  intros Hv Hk. destruct (struct_fields_ok types h Hty _ _ Hv Hk) as (ly & Hly & Hds). exists ly. unfold structFields. rewrite Hds. split_and!; [done..|].
  apply List.Forall_forall. intros d [Hin [He _]%andb_prop]%filter_In. apply list_elem_of_In in Hin. split; [done|]. apply list_elem_of_lookup in Hin as (i & Hi).
  destruct (own_field_found types h n _ ly i d Hv Hly Hds Hi He) as (f & Hf & Ht & Hok & _). exists f. unfold field_value. by rewrite Hf.
Qed.

(** ** [Map] *)

(** No field asks to be flattened. *)
Definition no_flatten (tagName : string) : Prop :=
  map_Forall (fun _ ly => Forall (fun d => Has (parseTag (tag_Get (sf_Tag d) tagName)).2 "flatten" = false) (ly_fields ly)) types.

Lemma layout_of_fields t ds : struct_fields types t = Ret ds -> exists l ly, types !! l = Some ly /\ ds = ly_fields ly.
Proof. unfold struct_fields. destruct (underlying t); try done. destruct (types !! layout) as [ly|] eqn:E; [|done]. intros [= <-]. by exists layout, ly. Qed.

(** What stands behind a field's value: what its interface holds, itself, or what it
    points to. *)
Lemma indirect_cases n val i v : value_ok n val -> v_Interface h val = Ret i -> indirect h i = Ret (Some v) ->
  type_kind (v_type val) = KInterface \/ v_type v = v_type val \/ underlying (v_type val) = TPtr (v_type v).
Proof.
  intros Hv Hi Ho. destruct (v_Interface_ok types h n val Hv) as (j & Hj & _ & Hn). rewrite Hj in Hi. injection Hi as ->.
  destruct (decide (type_kind (v_type val) = KInterface)) as [Hk|Hk]; [by left|right]. destruct (Hn Hk) as (x & _ & ->).
  unfold indirect in Ho. cbn [ValueOf v_type] in Ho. destruct (decide (type_kind (v_type val) = KPtr)) as [Hp|Hp]; [|injection Ho as <-; by left].
  unfold v_Elem in Ho. cbn [v_type data v_src outcome_bind] in Ho. destruct (underlying (v_type val)) eqn:E; try done.
  destruct x as [| | | | |[p|]| |]; try done. injection Ho as <-. by right.
Qed.

Lemma data_of_kind n val : value_ok (S n) val -> exists x, data h val = Ret x /\
  match underlying (v_type val) with
  | TMap k e => exists es, x = VMap es /\ forallb (fun p => well_formed types h n k p.1 && well_formed types h n e p.2) (default [] es) = true
  | TSlice e => exists xs, x = VSlice xs /\ forallb (well_formed types h n e) (default [] xs) = true
  | TArray e k => exists xs, x = VArray xs /\ forallb (well_formed types h n e) xs = true
  | _ => True
  end.
Proof.
  intros (_ & x & Hx & Hw). exists x. split; [done|]. cbn [well_formed] in Hw. destruct (underlying (v_type val)), x; try done.
  - apply andb_prop in Hw as [_ Hw]. by eexists.
  - by eexists.
  - by eexists.
Qed.

Lemma map_elem_total t : exists e, map_elem t = Ret e.
Proof.
  assert (Helem : forall u, type_kind u ∈ [KPtr; KArray; KMap; KSlice; KChan] -> exists e, type_Elem u = Ret e).
  { intros u. unfold type_Elem, type_kind. destruct (underlying u); try (intros; by eexists); set_solver. }
  unfold map_elem. case_decide as H; [|by eexists]. destruct (Helem t H) as (e & ->). cbn [outcome_bind]. case_decide as H'; [|by eexists].
  apply Helem. rewrite H'. set_solver.
Qed.

Lemma iterated_elem_total t : exists b, iterated_elem t = Ret b.
Proof.
  unfold iterated_elem. case_decide as H1; [by eexists|]. case_decide as H; [|by eexists]. unfold type_Elem, type_kind in *. destruct (underlying t); try done. by eexists.
Qed.

(** The entries of a map are looked into only when the value's own type is a map's. *)
Lemma iterated_is_map n val i v e : value_ok n val -> v_Interface h val = Ret i -> indirect h i = Ret (Some v) -> type_kind (v_type v) = KMap ->
  map_elem (v_type val) = Ret e -> iterated_elem e = Ret true -> exists kt t, underlying (v_type val) = TMap kt t.
Proof.
  intros Hv Hi Ho Hk He Hit. unfold map_elem in He. destruct (indirect_cases _ _ _ _ Hv Hi Ho) as [H|[H|H]].
  - rewrite decide_False in He by (rewrite H; set_solver). injection He as <-. unfold iterated_elem in Hit. by rewrite H in Hit.
  - rewrite H in Hk. unfold type_kind in Hk. destruct (underlying (v_type val)); try done. by eexists _, _.
  - assert (Hp : type_kind (v_type val) = KPtr) by (unfold type_kind; by rewrite H).
    assert (Hel : type_Elem (v_type val) = Ret (v_type v)) by (unfold type_Elem; by rewrite H).
    rewrite decide_True in He by (rewrite Hp; set_solver). rewrite Hel in He. cbn [outcome_bind] in He. rewrite decide_False in He by (by rewrite Hk).
    injection He as <-. unfold iterated_elem in Hit. by rewrite Hk in Hit.
Qed.

Section Nested.
Context (n : nat) (tagName : string) (nested : string -> Value -> fuelled Out)
  (Hnested : forall val, value_ok n val -> returns (no_flatten tagName) (nested tagName val)).

Lemma fill_field_returns s d val out : s_TagName s = tagName -> field_value types h s d = Ret val -> value_ok n val ->
  (no_flatten tagName -> Has (field_tag s d).2 "flatten" = false) ->
  returns (no_flatten tagName) (fill_field types h Stringer nested s d out).
Proof.
  intros Ht Hf Hv Hnf. unfold fill_field. rewrite Hf. apply (returns_eq _ _ val); [done|]. cbn zeta. destruct (omitted_ok n (field_tag s d).2 val Hv) as (b & Hb).
  apply (returns_eq _ _ b); [done|]. destruct b; [apply returns_ret|]. destruct (v_Interface_ok types h n val Hv) as (i & Hi & Hiok & _). rewrite Ht.
  apply returns_bind.
  - destruct (Has _ "omitnested"); [by apply (returns_eq _ _ i), returns_ret|]. apply returns_bind; [by apply Hnested|]. intros f _. apply (returns_eq _ _ i); [done|].
    destruct (indirect_ok n i Hiok) as (o & Ho & _). by apply (returns_eq _ _ o), returns_ret.
  - intros final _. destruct (Has _ "string"); [by apply (returns_eq _ _ i), returns_ret|]. destruct (Has _ "flatten") eqn:E; [|rewrite andb_false_r; apply returns_ret].
    destruct final.2; [|apply returns_ret]. apply returns_bind; [|intros; apply returns_ret]. apply returns_lift. intros HP. by specialize (Hnf HP).
Qed.

Lemma fill_fields_returns s ds out : s_TagName s = tagName ->
  Forall (fun d => exists val, field_value types h s d = Ret val /\ value_ok n val /\ (no_flatten tagName -> Has (field_tag s d).2 "flatten" = false)) ds ->
  returns (no_flatten tagName) (fill_fields types h Stringer nested s ds out).
Proof.
  intros Ht H. revert out. induction H as [|d ds (val & Hf & Hv & Hnf) _ IH]; intros out; [apply returns_ret|]. cbn [fill_fields].
  apply returns_bind; [by apply (fill_field_returns s d val)|]. intros m _. apply IH.
Qed.

Lemma Map_with_returns s : s_TagName s = tagName -> value_ok (S n) (s_value s) -> type_kind (v_type (s_value s)) = KStruct ->
  returns (no_flatten tagName) (Map_with types h Stringer nested s).
Proof.
  intros Ht Hv Hk. unfold Map_with, FillMap_with. apply returns_bind; [|intros; apply returns_ret].
  destruct (structFields_ok n s Hv Hk) as (ly & _ & Hds & Hfs & Hall). apply (returns_eq _ _ _ _ Hfs). apply returns_bind; [|intros; apply returns_ret].
  apply fill_fields_returns; [done|]. eapply Forall_impl; [exact Hall|]. cbn. intros d (Hin & val & Hf & _ & Hok). exists val. split_and!; [done..|].
  intros Hnf. unfold field_tag. rewrite Ht. destruct (layout_of_fields _ _ Hds) as (l & ly' & Hl & E). specialize (Hnf _ _ Hl). cbn in Hnf. rewrite <- E in Hnf.
  rewrite Forall_forall in Hnf. by apply Hnf.
Qed.

Lemma nested_all_returns t xs : forallb (well_formed types h n t) xs = true -> returns (no_flatten tagName) (nested_all nested tagName t xs).
Proof.
  induction xs as [|x xs IH]; intros H; [apply returns_ret|]. cbn in H. apply andb_prop in H as [Hx H]. cbn [nested_all].
  apply returns_bind; [by apply Hnested, value_ok_held|]. intros o _. apply returns_bind; [by apply IH|]. intros; apply returns_ret.
Qed.

Lemma nested_entries_returns kt t es m : forallb (fun p => well_formed types h n kt p.1 && well_formed types h n t p.2) es = true ->
  returns (no_flatten tagName) (nested_entries types nested tagName kt t es m).
Proof.
  revert m. induction es as [|[k x] es IH]; intros m H; [apply returns_ret|]. cbn in H. apply andb_prop in H as [[_ Hx]%andb_prop H]. cbn [nested_entries].
  apply returns_bind; [by apply Hnested, value_ok_held|]. intros o _. by apply IH.
Qed.

Lemma nested_map_returns val i v : value_ok (S n) val -> v_Interface h val = Ret i -> indirect h i = Ret (Some v) -> type_kind (v_type v) = KMap ->
  returns (no_flatten tagName)
    (let! e := lift (map_elem (v_type val)) in
     let! iter := lift (iterated_elem e) in
     if (iter : bool) then
       let! x := lift (data h val) in
       match underlying (v_type val), x with
       | TMap kt t, VMap es => let! m := nested_entries types nested tagName kt t (default [] es) ∅ in lift (Ret (OMap m))
       | _, _ => lift (Panic "reflect: call of reflect.Value.MapKeys")
       end
     else lift (Ret (OVal i))).
Proof.
  intros Hv Hi Ho Hk. destruct (map_elem_total (v_type val)) as (e & He). apply (returns_eq _ _ _ _ He).
  destruct (iterated_elem_total e) as (b & Hb). apply (returns_eq _ _ _ _ Hb). destruct b; [|apply returns_ret].
  destruct (iterated_is_map _ _ _ _ _ Hv Hi Ho Hk He Hb) as (kt & t & Ht). destruct (data_of_kind _ _ Hv) as (x & Hx & Hshape).
  apply (returns_eq _ _ _ _ Hx). rewrite Ht in *. destruct Hshape as (es & -> & Hes). apply returns_bind; [by apply nested_entries_returns|].
  intros m _. apply returns_ret.
Qed.

Lemma nested_seq_returns val i v : value_ok (S n) val -> v_Interface h val = Ret i -> indirect h i = Ret (Some v) -> type_kind (v_type v) ∈ [KSlice; KArray] ->
  returns (no_flatten tagName)
    (if decide (type_kind (v_type val) = KInterface) then lift (Ret (OVal i))
     else
       let! e := lift (type_Elem (v_type val)) in
       if negb (bool_decide (type_kind e = KStruct)) && negb (is_ptr_to_struct e) then lift (Ret (OVal i))
       else
         let! x := lift (data h val) in
         match x with
         | VSlice (Some xs) | VArray xs => let! os := nested_all nested tagName e xs in lift (Ret (OList os))
         | VSlice None => lift (Ret (OList []))
         | _ => lift (Panic "reflect: call of reflect.Value.Len")
         end).
Proof.
  intros Hv Hi Ho Hk. destruct (decide (type_kind (v_type val) = KInterface)) as [|Hni]; [apply returns_ret|].
  destruct (indirect_cases _ _ _ _ Hv Hi Ho) as [H|[H|H]]; [done| |].
  - rewrite H in Hk. destruct (data_of_kind _ _ Hv) as (x & Hx & Hshape).
    assert (exists e xs, type_Elem (v_type val) = Ret e /\ (x = VSlice xs \/ exists ys, x = VArray ys /\ xs = Some ys) /\
      forallb (well_formed types h n e) (default [] xs) = true) as (e & xs & -> & Hxs & Hf).
    { clear -Hk Hshape. unfold type_Elem, type_kind in *. destruct (underlying (v_type val)) as [|e k| | | | | |e| |]; try (exfalso; set_solver); destruct Hshape as (xs & -> & Hf).
      - exists e, (Some xs). split_and!; [done| |done]. right. by exists xs.
      - exists e, xs. split_and!; [done| |done]. by left. }
    apply (returns_eq _ _ e); [done|]. destruct (_ && _); [apply returns_ret|]. apply (returns_eq _ _ _ _ Hx).
    destruct Hxs as [->|(ys & -> & ->)].
    + destruct xs as [xs|]; [|apply returns_ret]. apply returns_bind; [by apply nested_all_returns|]. intros; apply returns_ret.
    + apply returns_bind; [by apply nested_all_returns|]. intros; apply returns_ret.
  - apply (returns_eq _ _ (v_type v)); [unfold type_Elem; by rewrite H|]. rewrite bool_decide_false by (intros E; rewrite E in Hk; set_solver).
    unfold is_ptr_to_struct. unfold type_kind in Hk. destruct (underlying (v_type v)); try set_solver; apply returns_ret.
Qed.

Lemma nested_with_returns val : value_ok (S n) val -> returns (no_flatten tagName) (nested_with types h Stringer nested tagName val).
Proof.
  intros Hv. unfold nested_with. destruct (v_Interface_ok types h _ val Hv) as (i & Hi & Hiok & _). apply (returns_eq _ _ i); [done|].
  destruct (indirect_ok _ i Hiok) as (o & Ho & Hok). apply (returns_eq _ _ o); [done|]. destruct o as [v|]; [|apply returns_ret]. cbn [v_Kind].
  specialize (Hok v eq_refl). pose proof (indirect_cases _ _ _ _ Hv Hi Ho) as Hc. destruct (type_kind (v_type v)) eqn:Ek; try apply returns_ret.
  - apply (nested_seq_returns val i v Hv Hi Ho). rewrite Ek. set_solver.
  - by apply (nested_map_returns val i v).
  - apply (nested_seq_returns val i v Hv Hi Ho). rewrite Ek. set_solver.
  - apply (returns_eq _ _ _ _ (New_ok _ _ _ Hiok Ho Ek)). apply returns_bind; [by apply Map_with_returns|]. intros m _. apply returns_ret.
Qed.
End Nested.

(** [nested] returns, with fuel for everything that is inside the value. *)
Lemma nested_returns n tagName : forall val, value_ok n val -> returns (no_flatten tagName) (nested types h Stringer n tagName val).
Proof.
  induction n as [|n IH]; intros val Hv; [by destruct Hv as (_ & ? & _ & ?)|]. by apply (nested_with_returns n tagName (nested types h Stringer n) IH).
Qed.

(** A structure, or a pointer to one, and the [Struct] that [New] makes of it. *)
Lemma New_of_struct n i : any_ok n i -> IsStruct h i = Ret true ->
  exists v, New h i = Ret (mkStruct i v DefaultTagName) /\ type_kind (v_type v) = KStruct /\ value_ok n v.
Proof.
  intros Hok Hs. destruct (IsStruct_ok n i Hok) as (b & Hb & Hv). rewrite Hs in Hb. injection Hb as <-. destruct (Hv eq_refl) as (v & Ho & Hk & Hvok).
  exists v. split; [by eapply New_ok|done].
Qed.

Lemma Map_of_returns n i : any_ok (S n) i -> IsStruct h i = Ret true -> returns (no_flatten DefaultTagName) (Map_of types h Stringer n i).
Proof.
  intros Hok Hs. destruct (New_of_struct _ i Hok Hs) as (v & Hn & Hk & Hv). unfold Map_of. apply (returns_eq _ _ _ _ Hn).
  by apply (Map_with_returns n DefaultTagName (nested types h Stringer n) (nested_returns n DefaultTagName)).
Qed.

(** ** What a value becomes *)

(** The type of elements, behind one pointer at most. *)
Definition through_ptr (t : GoType) : GoType := match underlying t with TPtr e => e | _ => t end.

(** A list of structures or of pointers to them; a map of those, or of lists of structures. *)
Definition list_of_structs (t : GoType) : bool :=
  match underlying t with TSlice e | TArray e _ => bool_decide (type_kind (through_ptr e) = KStruct) | _ => false end.
Definition map_of_structs (t : GoType) : bool :=
  match underlying t with
  | TMap _ e => bool_decide (type_kind (through_ptr e) = KStruct) ||
                match underlying (through_ptr e) with TSlice x => bool_decide (type_kind x = KStruct) | _ => false end
  | _ => false
  end.

(** What a value becomes in a map: a structure (behind a pointer or an interface, too) its own
    map, or itself when that is empty; a list and a map of structures theirs; all else
    itself. *)
Inductive becomes : nat -> Value -> Out -> Prop :=
| becomes_map n val i m : v_Interface h val = Ret i -> IsStruct h i = Ret true -> Map_of types h Stringer n i = Some (Ret m) ->
    becomes (S n) val (if decide (size m = 0%nat) then OVal i else OMap m)
| becomes_list n val e x xs os : underlying (v_type val) = TSlice e /\ x = VSlice xs \/ (exists k ys, underlying (v_type val) = TArray e k /\ x = VArray ys /\ xs = Some ys) ->
    list_of_structs (v_type val) = true -> data h val = Ret x ->
    Forall2 (fun y o => becomes n (mkValue e (Held y) RW) o) (default [] xs) os -> becomes (S n) val (OList os)
| becomes_entries n val k e es os : underlying (v_type val) = TMap k e -> map_of_structs (v_type val) = true -> data h val = Ret (VMap es) ->
    Forall2 (fun y o => becomes n (mkValue e (Held y) RW) o) (default [] es).*2 os ->
    becomes (S n) val (OMap (foldl (fun m p => <[p.1 := p.2]> m) ∅ (zip (key_string types k <$> (default [] es).*1) os)))
| becomes_itself n val i : v_Interface h val = Ret i -> IsStruct h i = Ret false -> list_of_structs (v_type val) = false -> map_of_structs (v_type val) = false ->
    becomes (S n) val (OVal i).

Lemma fuelled_bind_ret {A B} (m : fuelled A) (k : A -> fuelled B) b : fuelled_bind m k = Some (Ret b) -> exists a, m = Some (Ret a) /\ k a = Some (Ret b).
Proof. destruct m as [[a|p]|]; try done. by exists a. Qed.

(** A value whose type says what it is holds itself. *)
Lemma held_itself n val i : value_ok n val -> v_Interface h val = Ret i -> list_of_structs (v_type val) || map_of_structs (v_type val) = true ->
  exists v, indirect h i = Ret (Some v) /\ v_type v = v_type val.
Proof.
  intros Hv Hi Hc. destruct (v_Interface_ok types h n val Hv) as (j & Hj & _ & Hn). rewrite Hj in Hi. injection Hi as ->.
  assert (type_kind (v_type val) ∈ [KSlice; KArray; KMap]) as Hk.
  { unfold list_of_structs, map_of_structs, type_kind in *. destruct (underlying (v_type val)); try done; set_solver. }
  destruct Hn as (x & _ & ->); [intros E; rewrite E in Hk; set_solver|]. eexists. unfold indirect. cbn [ValueOf v_type].
  rewrite decide_False by (intros E; rewrite E in Hk; set_solver). by split.
Qed.

Lemma not_struct_false i o : indirect h i = Ret o -> v_Kind o <> KStruct -> IsStruct h i = Ret false.
Proof. intros Hi Hk. unfold IsStruct. rewrite Hi. cbn [outcome_bind]. by rewrite bool_decide_false. Qed.

Lemma map_of_structs_iterated t kt e e' b : underlying t = TMap kt e -> map_elem t = Ret e' -> iterated_elem e' = Ret b -> map_of_structs t = b.
Proof.
  intros Ht. unfold map_elem, map_of_structs. assert (Hk : type_kind t = KMap) by (unfold type_kind; by rewrite Ht).
  rewrite decide_True by (rewrite Hk; set_solver). unfold type_Elem at 1. rewrite Ht. cbn [outcome_bind]. intros He.
  assert (e' = through_ptr e) as ->.
  { unfold through_ptr, type_Elem, type_kind in *. destruct (underlying e); cbn in He; by injection He as <-. }
  unfold iterated_elem. destruct (decide (type_kind (through_ptr e) = KStruct)) as [H1|H1]; [intros H; injection H as H; by rewrite bool_decide_true|].
  rewrite bool_decide_false by done. cbn [orb]. destruct (decide (type_kind (through_ptr e) = KSlice)) as [H2|H2].
  - unfold type_Elem, type_kind in *. destruct (underlying (through_ptr e)); try done. cbn [outcome_bind]. intros H. by injection H.
  - intros H. injection H as <-. unfold type_kind in H2. by destruct (underlying (through_ptr e)).
Qed.

Lemma list_of_structs_elem t e : underlying t = TSlice e \/ (exists k, underlying t = TArray e k) ->
  list_of_structs t = negb (negb (bool_decide (type_kind e = KStruct)) && negb (is_ptr_to_struct e)).
Proof.
  intros Ht. assert (list_of_structs t = bool_decide (type_kind (through_ptr e) = KStruct)) as -> by (unfold list_of_structs; by destruct Ht as [->|(k & ->)]).
  unfold through_ptr, is_ptr_to_struct, type_kind. destruct (underlying e) eqn:E; cbn; rewrite ?E; try done.
  rewrite (bool_decide_false (KPtr = KStruct)) by done. cbn [negb andb]. by rewrite negb_involutive.
Qed.

Section Becomes.
Context (n : nat) (IH : forall val o, value_ok n val -> nested types h Stringer n DefaultTagName val = Some (Ret o) -> becomes n val o).

Lemma nested_all_becomes e xs os : forallb (well_formed types h n e) xs = true ->
  nested_all (nested types h Stringer n) DefaultTagName e xs = Some (Ret os) -> Forall2 (fun y o => becomes n (mkValue e (Held y) RW) o) xs os.
Proof.
  revert os. induction xs as [|x xs IHx]; intros os Hw H; [by injection H as <-|]. cbn in Hw. apply andb_prop in Hw as [Hx Hw]. cbn [nested_all] in H.
  apply fuelled_bind_ret in H as (o & Ho & (os' & Hos & H)%fuelled_bind_ret). injection H as <-. constructor; [|by apply IHx].
  apply IH; [by apply value_ok_held|done].
Qed.

Lemma nested_entries_becomes k e es m m0 : forallb (fun p => well_formed types h n k p.1 && well_formed types h n e p.2) es = true ->
  nested_entries types (nested types h Stringer n) DefaultTagName k e es m0 = Some (Ret m) ->
  exists os, Forall2 (fun y o => becomes n (mkValue e (Held y) RW) o) es.*2 os /\ m = foldl (fun m p => <[p.1 := p.2]> m) m0 (zip (key_string types k <$> es.*1) os).
Proof.
  revert m0. induction es as [|[a x] es IHx]; intros m0 Hw H; [injection H as <-; by exists []|].
  cbn in Hw. apply andb_prop in Hw as [[_ Hx]%andb_prop Hw]. cbn [nested_entries] in H. apply fuelled_bind_ret in H as (o & Ho & H).
  destruct (IHx _ Hw H) as (os & Hos & ->). exists (o :: os). split; [|done]. cbn. constructor; [|done]. apply IH; [by apply value_ok_held|done].
Qed.

Lemma seq_becomes val i v o : value_ok (S n) val -> v_Interface h val = Ret i -> indirect h i = Ret (Some v) -> type_kind (v_type v) ∈ [KSlice; KArray] ->
  nested types h Stringer (S n) DefaultTagName val = Some (Ret o) -> becomes (S n) val o.
Proof.
  intros Hv Hi Ho Hk H. assert (Hns : IsStruct h i = Ret false) by (eapply not_struct_false; [exact Ho|cbn; intros E; rewrite E in Hk; set_solver]).
  cbn [nested] in H. unfold nested_with in H. rewrite Hi in H. cbn [fuelled_bind lift] in H. rewrite Ho in H. cbn [fuelled_bind lift v_Kind] in H.
  assert (H' : (if decide (type_kind (v_type val) = KInterface) then lift (Ret (OVal i))
     else
       let! e := lift (type_Elem (v_type val)) in
       if negb (bool_decide (type_kind e = KStruct)) && negb (is_ptr_to_struct e) then lift (Ret (OVal i))
       else
         let! x := lift (data h val) in
         match x with
         | VSlice (Some xs) | VArray xs => let! os := nested_all (nested types h Stringer n) DefaultTagName e xs in lift (Ret (OList os))
         | VSlice None => lift (Ret (OList []))
         | _ => lift (Panic "reflect: call of reflect.Value.Len")
         end) = Some (Ret o)) by (destruct (type_kind (v_type v)); (exact H || (exfalso; clear -Hk; set_solver))).
  clear H. rename H' into H.
  assert (Hitself : (~ exists e, underlying (v_type val) = TSlice e \/ exists k, underlying (v_type val) = TArray e k) -> becomes (S n) val (OVal i)).
  { intros Hno. apply becomes_itself; [done..| |].
    - unfold list_of_structs. destruct (underlying (v_type val)) eqn:E; try done; exfalso; apply Hno; eauto.
    - destruct (map_of_structs (v_type val)) eqn:Em; [|done]. destruct (held_itself _ _ _ Hv Hi) as (v' & Hv' & Et); [rewrite Em; apply orb_true_r|].
      rewrite Ho in Hv'. injection Hv' as <-. rewrite Et in Hk. exfalso. unfold map_of_structs, type_kind in *. destruct (underlying (v_type val)); try done; set_solver. }
  destruct (decide (type_kind (v_type val) = KInterface)) as [Hki|Hki].
  { injection H as <-. apply Hitself. unfold type_kind in Hki. intros (e & [E|(k & E)]); by rewrite E in Hki. }
  destruct (indirect_cases _ _ _ _ Hv Hi Ho) as [?|[Et|Ep]]; [done| |].
  2: { unfold type_Elem in H. rewrite Ep in H. cbn [fuelled_bind lift] in H.
       rewrite bool_decide_false in H by (intros E; rewrite E in Hk; set_solver).
       assert (is_ptr_to_struct (v_type v) = false) as Hp.
       { unfold is_ptr_to_struct. unfold type_kind in Hk. destruct (underlying (v_type v)); try done. set_solver. }
       rewrite Hp in H. injection H as <-. apply Hitself. intros (e & [E|(k & E)]); congruence. }
  rewrite Et in Hk. destruct (data_of_kind _ _ Hv) as (x & Hx & Hshape).
  assert (exists e xs, type_Elem (v_type val) = Ret e /\ (underlying (v_type val) = TSlice e \/ exists k, underlying (v_type val) = TArray e k) /\
    (underlying (v_type val) = TSlice e /\ x = VSlice xs \/ exists k ys, underlying (v_type val) = TArray e k /\ x = VArray ys /\ xs = Some ys) /\
    forallb (well_formed types h n e) (default [] xs) = true) as (e & xs & He & Hte & Hxs & Hf).
  { clear -Hk Hshape. unfold type_Elem, type_kind in *. destruct (underlying (v_type val)) as [|e k| | | | | |e| |]; try (exfalso; set_solver); destruct Hshape as (xs & -> & Hf).
    - exists e, (Some xs). split_and!; [done|right; by exists k|right; by exists k, xs|done].
    - exists e, xs. split_and!; [done|by left|by left|done]. }
  rewrite He in H. cbn [fuelled_bind lift] in H. pose proof (list_of_structs_elem _ _ Hte) as Hl. destruct (_ && _); cbn [negb] in Hl.
  - injection H as <-. apply becomes_itself; [done..|]. unfold map_of_structs. by destruct Hte as [->|(k & ->)].
  - rewrite Hx in H. cbn [fuelled_bind lift] in H. destruct Hxs as [[Hts ->]|(k & ys & Hta & -> & ->)].
    + destruct xs as [xs|].
      * apply fuelled_bind_ret in H as (os & Hos & H). injection H as <-. eapply (becomes_list n val e _ (Some xs)); [by left|done|done|]. by apply nested_all_becomes.
      * injection H as <-. eapply (becomes_list n val e _ None); [by left|done|done|constructor].
    + apply fuelled_bind_ret in H as (os & Hos & H). injection H as <-. eapply (becomes_list n val e _ (Some ys)); [right; by exists k, ys|done|done|]. by apply nested_all_becomes.
Qed.

Lemma map_becomes val i v o : value_ok (S n) val -> v_Interface h val = Ret i -> indirect h i = Ret (Some v) -> type_kind (v_type v) = KMap ->
  nested types h Stringer (S n) DefaultTagName val = Some (Ret o) -> becomes (S n) val o.
Proof.
  intros Hv Hi Ho Hk H. assert (Hns : IsStruct h i = Ret false) by (eapply not_struct_false; [exact Ho|cbn; by rewrite Hk]).
  assert (Hnl : list_of_structs (v_type val) = false).
  { destruct (list_of_structs (v_type val)) eqn:El; [|done]. destruct (held_itself _ _ _ Hv Hi) as (v' & Hv' & Et); [by rewrite El|].
    rewrite Ho in Hv'. injection Hv' as <-. rewrite Et in Hk. unfold list_of_structs, type_kind in *. by destruct (underlying (v_type val)). }
  cbn [nested] in H. unfold nested_with in H. rewrite Hi in H. cbn [fuelled_bind lift] in H. rewrite Ho in H. cbn [fuelled_bind lift v_Kind] in H. rewrite Hk in H.
  destruct (map_elem_total (v_type val)) as (e & He). rewrite He in H. cbn [fuelled_bind lift] in H.
  destruct (iterated_elem_total e) as (b & Hb). rewrite Hb in H. cbn [fuelled_bind lift] in H. destruct b.
  - destruct (iterated_is_map _ _ _ _ _ Hv Hi Ho Hk He Hb) as (kt & t & Ht). destruct (data_of_kind _ _ Hv) as (x & Hx & Hshape).
    rewrite Hx in H. cbn [fuelled_bind lift] in H. rewrite Ht in H, Hshape. destruct Hshape as (es & -> & Hes).
    apply fuelled_bind_ret in H as (m & Hm & H). injection H as <-. destruct (nested_entries_becomes _ _ _ _ _ Hes Hm) as (os & Hos & ->).
    eapply becomes_entries; [done| |done|done]. by eapply map_of_structs_iterated.
  - injection H as <-. apply becomes_itself; [done..|]. destruct (underlying (v_type val)) as [| | | |kt t| | | | |] eqn:E;
      try (unfold map_of_structs; by rewrite E). by eapply map_of_structs_iterated.
Qed.
End Becomes.

Lemma nested_becomes n : forall val o, value_ok n val -> nested types h Stringer n DefaultTagName val = Some (Ret o) -> becomes n val o.
Proof.
  induction n as [|n IH]; intros val o Hv H; [done|]. destruct (v_Interface_ok types h _ val Hv) as (i & Hi & Hiok & _).
  destruct (indirect_ok _ i Hiok) as (v & Ho & _).
  assert (Hplain : v_Kind v <> KStruct -> v_Kind v ∉ [KSlice; KArray; KMap] -> becomes (S n) val (OVal i)).
  { intros Hs Hk. destruct (list_of_structs (v_type val) || map_of_structs (v_type val)) eqn:E.
    - exfalso. destruct (held_itself _ _ _ Hv Hi E) as (v' & Hv' & Et). rewrite Ho in Hv'. injection Hv' as ->. cbn [v_Kind] in Hk. rewrite Et in Hk.
      unfold list_of_structs, map_of_structs, type_kind in *. destruct (underlying (v_type val)); try done; set_solver.
    - apply orb_false_iff in E as [E1 E2]. apply becomes_itself; [done| |done..]. by eapply not_struct_false. }
  destruct v as [v|].
  2: { cbn [nested] in H. unfold nested_with in H. rewrite Hi in H. cbn [fuelled_bind lift] in H. rewrite Ho in H. injection H as <-. apply Hplain; cbn; [done|set_solver]. }
  cbn [v_Kind] in Hplain. destruct (decide (type_kind (v_type v) ∈ [KSlice; KArray])) as [Hk|Hk]; [by eapply seq_becomes|].
  destruct (decide (type_kind (v_type v) = KMap)) as [Hm|Hm]; [by eapply map_becomes|].
  cbn [nested] in H. unfold nested_with in H. rewrite Hi in H. cbn [fuelled_bind lift] in H. rewrite Ho in H. cbn [fuelled_bind lift v_Kind] in H.
  destruct (decide (type_kind (v_type v) = KStruct)) as [Hs|Hs].
  - rewrite Hs in H. pose proof (New_ok _ _ _ Hiok Ho Hs) as Hnew. rewrite Hnew in H. cbn [fuelled_bind lift] in H.
    apply fuelled_bind_ret in H as (m & Hm' & H). injection H as <-. apply (becomes_map n val i m); [done| |].
    + unfold IsStruct. rewrite Ho. cbn [outcome_bind v_Kind]. by rewrite bool_decide_true.
    + unfold Map_of. rewrite Hnew. exact Hm'.
  - assert (H' : o = OVal i) by (destruct (type_kind (v_type v)); try (exfalso; clear -Hk Hm Hs; (done || set_solver)); by injection H as <-).
    subst o. apply Hplain; [done|]. set_solver.
Qed.

(** ** What [Map] has *)

Definition key (s : Struct) (d : StructField) : string := if decide ((field_tag s d).1 = "") then sf_Name d else (field_tag s d).1.

(** What a field comes to, if anything. *)
Definition entry (n : nat) (s : Struct) (d : StructField) : fuelled (option Out) :=
  let! val := lift (field_value types h s d) in
  let! omit := lift (omitted h (field_tag s d).2 val) in
  if (omit : bool) then lift (Ret None)
  else
    let! i := lift (v_Interface h val) in
    if Has (field_tag s d).2 "string" then lift (Ret (i ≫= fun x => (fun text => OVal (string_value text)) <$> Stringer x))
    else if Has (field_tag s d).2 "omitnested" then lift (Ret (Some (OVal i)))
    else let! o := nested types h Stringer n (s_TagName s) val in lift (Ret (Some o)).

(** The same said of the field: nothing if it is zero and may be left out, its text if it is to be
    printed and can be, itself if it is not to be looked into, otherwise what it becomes. *)
Definition comes_to (n : nat) (s : Struct) (d : StructField) (o : option Out) : Prop :=
  exists val i z, field_value types h s d = Ret val /\ v_Interface h val = Ret i /\ is_zero h val = Ret z /\
    if Has (field_tag s d).2 "omitempty" && z then o = None
    else if Has (field_tag s d).2 "string" then o = (i ≫= fun x => (fun text => OVal (string_value text)) <$> Stringer x)
    else if Has (field_tag s d).2 "omitnested" then o = Some (OVal i)
    else exists out, o = Some out /\ becomes n val out.

Lemma entry_comes_to n s d val o : s_TagName s = DefaultTagName -> field_value types h s d = Ret val -> value_ok n val ->
  entry n s d = Some (Ret o) -> comes_to n s d o.
Proof.
  intros Ht Hf Hv H. destruct (v_Interface_ok types h n val Hv) as (i & Hi & _). destruct (is_zero_ok n val Hv) as (z & Hz).
  exists val, i, z. split_and!; [done..|]. unfold entry in H. rewrite Hf in H. cbn [fuelled_bind lift] in H. unfold omitted in H.
  assert (Ho : (if Has (field_tag s d).2 "omitempty" then is_zero h val else Ret false) = Ret (Has (field_tag s d).2 "omitempty" && z))
    by (rewrite Hz; by destruct (Has _ _)).
  rewrite Ho in H. cbn [fuelled_bind lift] in H. destruct (_ && z); [by injection H as <-|]. rewrite Hi in H. cbn [fuelled_bind lift] in H.
  destruct (Has _ "string"); [by injection H as <-|]. destruct (Has _ "omitnested"); [by injection H as <-|].
  apply fuelled_bind_ret in H as (out & Hout & H). injection H as <-. exists out. split; [done|]. apply nested_becomes; [done|]. by rewrite <- Ht.
Qed.

Lemma fill_field_entry n s d out m : Has (field_tag s d).2 "flatten" = false ->
  fill_field types h Stringer (nested types h Stringer n) s d out = Some (Ret m) ->
  exists e, entry n s d = Some (Ret e) /\ m = match e with Some o => <[key s d := o]> out | None => out end.
Proof.
  unfold fill_field, entry, key. intros Hf (val & Hval & (omit & Homit & H)%fuelled_bind_ret)%fuelled_bind_ret. rewrite Hval. cbn [fuelled_bind]. rewrite Homit.
  cbn [fuelled_bind]. destruct omit; [injection H as <-; by exists None|]. apply fuelled_bind_ret in H as (final & Hfin & H).
  destruct (Has _ "string") eqn:Es.
  - apply fuelled_bind_ret in H as (i & Hi & H). rewrite Hi. cbn [fuelled_bind]. injection H as <-. eexists. split; [done|]. destruct i as [x|]; [|done]. cbn. by destruct (Stringer x).
  - rewrite Hf, andb_false_r in H. injection H as <-. destruct (Has _ "omitnested").
    + apply fuelled_bind_ret in Hfin as (i & Hi & Hfin). rewrite Hi. injection Hfin as <-. by exists (Some (OVal i)).
    + apply fuelled_bind_ret in Hfin as (o & Ho & (i & Hi & (v & _ & Hfin)%fuelled_bind_ret)%fuelled_bind_ret). rewrite Hi, Ho. injection Hfin as <-. by exists (Some o).
Qed.

Lemma fill_fields_lookup n s ds : forall out m, Forall (fun d => Has (field_tag s d).2 "flatten" = false) ds -> NoDup (key s <$> ds) ->
  fill_fields types h Stringer (nested types h Stringer n) s ds out = Some (Ret m) ->
  (forall d, d ∈ ds -> exists e, entry n s d = Some (Ret e) /\ m !! key s d = match e with Some o => Some o | None => out !! key s d end) /\
  (forall k, k ∉ key s <$> ds -> m !! k = out !! k).
Proof.
  induction ds as [|d ds IH]; intros out m Hf Hnd H; [injection H as <-; split; [by intros ? ?%not_elem_of_nil|done]|].
  apply Forall_cons in Hf as [Hd Hf]. rewrite fmap_cons, NoDup_cons in Hnd. destruct Hnd as [Hnot Hnd]. cbn [fill_fields] in H.
  apply fuelled_bind_ret in H as (out' & Hout & H). destruct (fill_field_entry _ _ _ _ _ Hd Hout) as (e & He & Hout'). destruct (IH _ _ Hf Hnd H) as [H1 H2].
  split.
  - intros x Hx. apply elem_of_cons in Hx as [->|Hx].
    + exists e. split; [done|]. rewrite (H2 _ Hnot), Hout'. destruct e as [o|]; [|done]. by rewrite lookup_insert_eq.
    + destruct (H1 x Hx) as (e' & He' & Hl). exists e'. split; [done|]. rewrite Hl. destruct e' as [|]; [done|]. rewrite Hout'. destruct e as [o|]; [|done].
      apply lookup_insert_ne. intros Hk. apply Hnot. rewrite Hk. by apply list_elem_of_fmap_2.
  - intros k Hk. rewrite fmap_cons, not_elem_of_cons in Hk. destruct Hk as [Hk1 Hk2]. rewrite (H2 k Hk2), Hout'. destruct e; [|done]. by apply lookup_insert_ne.
Qed.

(** ** One walk *)

Section Leaves.
Context (leaves_of : any -> fuelled (list (any * bool))).

Fixpoint leaves_loop (s : Struct) (fields : list StructField) : fuelled (list (any * bool)) :=
  match fields with
  | [] => lift (Ret [])
  | field :: fields =>
      let! val := lift (field_value types h s field) in
      let! i := lift (v_Interface h val) in
      let! sub := lift (IsStruct h i) in
      let! here := (if (sub : bool) && negb (Has (field_tag s field).2 "omitnested") then leaves_of i
                    else let! z := lift (is_zero h val) in lift (Ret [(i, z)])) in
      let! rest := leaves_loop s fields in
      lift (Ret (here ++ rest))
  end.
End Leaves.

(** The values below a structure that are not taken apart, and whether they are zero. *)
Fixpoint leaves (fuel : nat) (s : Struct) : fuelled (list (any * bool)) :=
  match fuel with
  | O => None
  | S fuel =>
      let! fields := lift (structFields types s) in
      leaves_loop (fun i => let! n := lift (New h i) in leaves fuel n) s fields
  end.

Lemma leaves_loop_returns n P of_ s ds :
  (forall i, any_ok n i -> IsStruct h i = Ret true -> returns P (of_ i)) ->
  Forall (fun d => exists val, field_value types h s d = Ret val /\ value_ok n val) ds ->
  returns P (leaves_loop of_ s ds).
Proof.
  intros Hof H. induction H as [|d ds (val & Hf & Hv) _ IH]; [apply returns_ret|]. cbn [leaves_loop]. apply (returns_eq _ _ _ _ Hf).
  destruct (v_Interface_ok types h n val Hv) as (i & Hi & Hiok & _). apply (returns_eq _ _ _ _ Hi).
  destruct (IsStruct_ok n i Hiok) as (b & Hb & _). apply (returns_eq _ _ _ _ Hb). apply returns_bind.
  - destruct b; cbn [andb]; [destruct (negb _); [by apply Hof|]|]; destruct (is_zero_ok n val Hv) as (z & Hz); apply (returns_eq _ _ _ _ Hz); apply returns_ret.
  - intros here _. apply returns_bind; [done|]. intros rest _. apply returns_ret.
Qed.

Lemma leaves_returns n : forall s, value_ok n (s_value s) -> type_kind (v_type (s_value s)) = KStruct -> returns True (leaves n s).
Proof.
  induction n as [|n IH]; intros s Hv Hk; [by destruct Hv as (_ & ? & _ & ?)|]. cbn [leaves].
  destruct (structFields_ok n s Hv Hk) as (ly & _ & _ & Hfs & Hall). apply (returns_eq _ _ _ _ Hfs). apply (leaves_loop_returns n).
  - intros i Hok Hs. destruct (New_of_struct n i Hok Hs) as (v & Hn & Hk' & Hv'). apply (returns_eq _ _ _ _ Hn). by apply IH.
  - eapply Forall_impl; [exact Hall|]. cbn. intros d (_ & val & H1 & _ & H2). by exists val.
Qed.

(** The walk of [IsZero] ends where the leaves do, or earlier. *)
Lemma is_zero_loop_leaves of_ zof s ds ls : (forall i l, of_ i = Some (Ret l) -> zof i = Some (Ret (forallb snd l))) ->
  leaves_loop of_ s ds = Some (Ret ls) -> is_zero_loop types h zof s ds = Some (Ret (forallb snd ls)).
Proof.
  intros Hof. revert ls. induction ds as [|d ds IH]; intros ls H; [by injection H as <-|]. cbn [leaves_loop is_zero_loop] in *.
  apply fuelled_bind_ret in H as (val & Hval & (i & Hi & (b & Hb & (here & Hhere & (rest & Hrest & H)%fuelled_bind_ret)%fuelled_bind_ret)%fuelled_bind_ret)%fuelled_bind_ret).
  injection H as <-. rewrite Hval. cbn [fuelled_bind]. rewrite Hi. cbn [fuelled_bind]. rewrite Hb. cbn [fuelled_bind]. rewrite forallb_app.
  destruct (b && negb _).
  - rewrite (Hof _ _ Hhere). cbn [fuelled_bind]. destruct (forallb snd here); [by apply IH|done].
  - apply fuelled_bind_ret in Hhere as (z & Hz & Hhere). injection Hhere as <-. rewrite Hz. cbn. destruct z; [by apply IH|done].
Qed.

Lemma has_zero_loop_leaves of_ zof s ds ls : (forall i l, of_ i = Some (Ret l) -> zof i = Some (Ret (existsb snd l))) ->
  leaves_loop of_ s ds = Some (Ret ls) -> has_zero_loop types h zof s ds = Some (Ret (existsb snd ls)).
Proof.
  intros Hof. revert ls. induction ds as [|d ds IH]; intros ls H; [by injection H as <-|]. cbn [leaves_loop has_zero_loop] in *.
  apply fuelled_bind_ret in H as (val & Hval & (i & Hi & (b & Hb & (here & Hhere & (rest & Hrest & H)%fuelled_bind_ret)%fuelled_bind_ret)%fuelled_bind_ret)%fuelled_bind_ret).
  injection H as <-. rewrite Hval. cbn [fuelled_bind]. rewrite Hi. cbn [fuelled_bind]. rewrite Hb. cbn [fuelled_bind]. rewrite existsb_app.
  destruct (b && negb _).
  - rewrite (Hof _ _ Hhere). cbn [fuelled_bind]. destruct (existsb snd here); [done|by apply IH].
  - apply fuelled_bind_ret in Hhere as (z & Hz & Hhere). injection Hhere as <-. rewrite Hz. cbn. destruct z; [done|by apply IH].
Qed.

(** No field is left out or printed. *)
Definition plain_tags (tagName : string) : Prop :=
  map_Forall (fun _ ly => Forall (fun d => Has (parseTag (tag_Get (sf_Tag d) tagName)).2 "omitempty" = false /\
                                          Has (parseTag (tag_Get (sf_Tag d) tagName)).2 "string" = false) (ly_fields ly)) types.

Lemma values_loop_leaves of_ vof s ds : (forall i l, of_ i = Some (Ret l) -> vof i = Some (Ret (map fst l))) ->
  Forall (fun d => Has (field_tag s d).2 "omitempty" = false /\ Has (field_tag s d).2 "string" = false) ds ->
  forall ls t, leaves_loop of_ s ds = Some (Ret ls) -> values_loop types h Stringer vof s ds t = Some (Ret (t ++ map fst ls)).
Proof.
  intros Hof Hp. induction Hp as [|d ds [Hom Hst] _ IH]; intros ls t H; [injection H as <-; by rewrite app_nil_r|]. cbn [leaves_loop values_loop] in *.
  apply fuelled_bind_ret in H as (val & Hval & (i & Hi & (b & Hb & (here & Hhere & (rest & Hrest & H)%fuelled_bind_ret)%fuelled_bind_ret)%fuelled_bind_ret)%fuelled_bind_ret).
  injection H as <-. rewrite Hval. cbn [fuelled_bind]. unfold omitted. rewrite Hom. change (lift (Ret false)) with (Some (Ret false)). cbn [fuelled_bind]. rewrite Hi. cbn [fuelled_bind].
  rewrite Hst, Hb. cbn [fuelled_bind]. rewrite map_app, app_assoc. destruct (b && negb _).
  - rewrite (Hof _ _ Hhere). cbn [fuelled_bind]. by apply IH.
  - apply fuelled_bind_ret in Hhere as (z & _ & Hhere). injection Hhere as <-. by apply IH.
Qed.

Lemma fields_forall (P : StructField -> Prop) s ly : struct_fields types (v_type (s_value s)) = Ret (ly_fields ly) ->
  map_Forall (fun _ ly => Forall P (ly_fields ly)) types ->
  Forall P (List.filter (fun f => exported f && negb (bool_decide (tag_Get (sf_Tag f) (s_TagName s) = "-"))) (ly_fields ly)).
Proof.
  intros Hds H. destruct (layout_of_fields _ _ Hds) as (l & ly' & Hl & E). specialize (H _ _ Hl). cbn in H. rewrite <- E in H.
  rewrite Forall_forall in H. apply List.Forall_forall. intros d [Hd _]%filter_In. by apply H, list_elem_of_In.
Qed.

Lemma structFields_inv s ds : structFields types s = Ret ds -> exists ly, struct_fields types (v_type (s_value s)) = Ret (ly_fields ly) /\
  ds = List.filter (fun f => exported f && negb (bool_decide (tag_Get (sf_Tag f) (s_TagName s) = "-"))) (ly_fields ly).
Proof.
  unfold structFields. destruct (struct_fields types _) as [fs|p] eqn:E; [|done]. intros [= <-]. destruct (layout_of_fields _ _ E) as (_ & ly & _ & ->). by exists ly.
Qed.

Lemma leaves_walks n : forall s ls, s_TagName s = DefaultTagName -> leaves n s = Some (Ret ls) ->
  IsZero types h n s = Some (Ret (forallb snd ls)) /\ HasZero types h n s = Some (Ret (existsb snd ls)) /\
  (plain_tags DefaultTagName -> Values types h Stringer n s = Some (Ret (map fst ls))).
Proof.
  induction n as [|n IH]; intros s ls Ht H; [done|]. cbn [leaves IsZero HasZero Values] in *.
  apply fuelled_bind_ret in H as (ds & Hds & H). rewrite Hds. cbn [fuelled_bind].
  assert (Hrec : forall i l, (let! n' := lift (New h i) in leaves n n') = Some (Ret l) -> exists s', New h i = Ret s' /\ s_TagName s' = DefaultTagName /\ leaves n s' = Some (Ret l)).
  { intros i l (s' & Hs' & Hl)%fuelled_bind_ret. injection Hs' as Hs'. exists s'. split_and!; [done| |done]. unfold New in Hs'. destruct (strctVal h i); [|done]. by injection Hs' as <-. }
  split_and!.
  - eapply is_zero_loop_leaves; [|exact H]. intros i l (s' & Hn & Hd & Hl)%Hrec. rewrite Hn. by apply IH.
  - eapply has_zero_loop_leaves; [|exact H]. intros i l (s' & Hn & Hd & Hl)%Hrec. rewrite Hn. by apply IH.
  - intros Hplain. rewrite <- (app_nil_l (map fst ls)). eapply values_loop_leaves; [| |exact H].
    + intros i l (s' & Hn & Hd & Hl)%Hrec. rewrite Hn. by apply IH.
    + injection Hds as Hds. destruct (structFields_inv _ _ Hds) as (ly & Hly & ->). unfold field_tag. rewrite Ht. rewrite <- Ht. apply fields_forall; [done|].
      rewrite Ht. exact Hplain.
Qed.

(** ** Fields *)

Lemma f_Set_inv f val h' : f_Set h f val = Ret (Ok h') -> exists t x r path old new,
  val = Some (t, x) /\ v_src (f_value f) = At (r, path) /\ v_ro (f_value f) = RW /\ type_kind (v_type (f_value f)) = type_kind t /\
  assignable (v_type (f_value f)) t = true /\ h !! r = Some old /\ store_at old path x = Some new /\ h' = <[r := new]> h.
Proof.
  unfold f_Set, v_CanSet, f_Kind, v_Set. destruct (f_IsExported f); [|done]. cbn [negb]. destruct (v_src (f_value f)) as [|[r path]]; [done|].
  destruct (v_ro (f_value f)); try done. cbn [negb]. case_decide as Hk; [|done]. destruct val as [[t x]|]; [|done]. cbn [outcome_bind].
  destruct (assignable _ t) eqn:Ea; [|done]. destruct (h !! r) as [old|] eqn:Er; [|done]. destruct (store_at old path x) as [new|] eqn:Es; [|done].
  intros [= <-]. by exists t, x, r, path, old, new.
Qed.
End Returns.

Section Theorems.
Context (types : layouts) (h : heap) (Stringer : GoType * Val -> option string) (Hty : wf_layouts types).


(** C40. [IsZero], [HasZero] and [Values] make the same walk over a structure, or a pointer to
    one, that is of its type and has nothing more than [n] steps inside it, pointers
    followed (so that none leads back to where it came from): there is a list of leaves, the
    fields' values where structures are taken apart, so that a structure is zero if all of
    them are and has a zero if one is, and its values are the leaves themselves, if no
    field is to be left out or printed.  All of it is returned without a panic. *)
Theorem one_walk n i : any_ok types h n i -> IsStruct h i = Ret true ->
  exists s ls, New h i = Ret s /\ leaves types h n s = Some (Ret ls) /\
    IsZero_of types h n i = Some (Ret (forallb snd ls)) /\ HasZero_of types h n i = Some (Ret (existsb snd ls)) /\
    (plain_tags types DefaultTagName -> Values_of types h Stringer n i = Some (Ret (map fst ls))).
Proof.
  intros Hok Hs. destruct (New_of_struct types h n i Hok Hs) as (v & Hn & Hk & Hv). set (s := mkStruct i v DefaultTagName) in *.
  destruct (leaves_returns types h Hty n s Hv Hk) as (o & Hl & Ho). destruct (Ho Logic.I) as (ls & ->). exists s, ls.
  destruct (leaves_walks types h Stringer n s ls eq_refl Hl) as (H1 & H2 & H3). unfold IsZero_of, HasZero_of, Values_of. rewrite Hn. by split_and!.
Qed.

(** A field that was set has the value, and no other object changed, nor another field of
    its structure. *)
Lemma set_field_is_read f t x h' : f_Set h f (Some (t, x)) = Ret (Ok h') -> type_kind t <> KInterface ->
  f_Value h' f = Ret (Some (v_type (f_value f), x)) /\
  exists r path, v_src (f_value f) = At (r, path) /\ (forall r', r' <> r -> h' !! r' = h !! r') /\
    forall up i j rest, path = up ++ [i] -> i <> j ->
      data h' (mkValue (v_type (f_value f)) (At (r, up ++ j :: rest)) RW) = data h (mkValue (v_type (f_value f)) (At (r, up ++ j :: rest)) RW).
Proof.
  intros Hset Ht. destruct (f_Set_inv _ _ _ _ Hset) as (t' & x' & r & path & old & new & [= <- <-] & Hsrc & Hro & Hk & _ & Hold & Hst & ->). split.
  - unfold f_Value, v_Interface. rewrite Hro. unfold data. rewrite Hsrc, lookup_insert_eq, (store_then_follow _ _ _ _ Hst). cbn. rewrite Hk. by destruct (type_kind t).
  - exists r, path. split_and!; [done|intros r' Hr; by apply lookup_insert_ne|]. intros up i j rest -> Hij. unfold data. cbn [v_src]. rewrite lookup_insert_eq, Hold.
    by rewrite (store_beside _ _ _ _ _ _ _ Hst Hij).
Qed.
End Theorems.

(** ** Concrete structures *)

Module Samples.
Definition tag (s : string) : list (string * string) := [(DefaultTagName, s)].
Definition field (name : string) (t : GoType) (tag : list (string * string)) : StructField := mkStructField name "" t tag false.

(** [type Item struct { ID int; Note string `structs:"note,omitempty"`; seen bool }] and
    [type Box struct { First Item; Rest []*Item; Any interface{}; Skip int `structs:"-"` }];
    [type Loop struct { Next *Loop }], and one with a field of [time.Time]'s kind,
    [type Event struct { When Stamp `structs:",flatten"` }]. *)
Definition Item : GoType := TNamed "Item" (TStruct 1).
Definition Box : GoType := TNamed "Box" (TStruct 2).
Definition Loop : GoType := TNamed "Loop" (TStruct 3).
Definition Stamp : GoType := TNamed "Stamp" (TStruct 4).
Definition Event : GoType := TNamed "Event" (TStruct 5).

Definition int : GoType := TBasic "int".
Definition str : GoType := TBasic "string".

Definition item_layout := mkLayout "" [field "ID" int []; field "Note" str (tag "note,omitempty"); mkStructField "seen" "main" (TBasic "bool") [] false].
Definition box_layout := mkLayout "" [field "First" Item []; field "Rest" (TSlice (TPtr Item)) []; field "Any" (TInterface "interface {}") []; field "Skip" int (tag "-")].

Definition types : layouts := {[ 1%positive := item_layout; 2%positive := box_layout ]}.

Definition item (id : Z) (note : string) : Val := VStruct [VBasic (CInt id); VBasic (CStr note); VBasic (CBool true)].
Definition h : heap := {[ 1%positive := item 2 "b" ]}.
Definition box : Val := VStruct [item 1 ""; VSlice (Some [VPtr (Some (1%positive, []))]); VIface None; VBasic (CInt 7)].

Lemma types_wf : wf_layouts types.
Proof.
  unfold types. apply map_Forall_insert_2; [|apply map_Forall_singleton].
  - intros [|[|[|i]]] d [= <-] He; try done; (split; [done|]); by intros [|[|[|j]]] d' [= <-] ?.
  - intros [|[|[|[|i]]]] d [= <-] He; try done; (split; [done|]); by intros [|[|[|[|j]]]] d' [= <-] ?.
Qed.

Lemma types_no_flatten : no_flatten types DefaultTagName.
Proof. unfold no_flatten, types. apply map_Forall_insert_2; [|apply map_Forall_singleton]; repeat constructor. Qed.

Definition to_string (x : GoType * Val) : option string := None.

(** The whole of [Map]'s result for a box. *)
Example map_of_box :
  Map_of types h to_string 6 (Some (Box, box)) =
    Some (Ret {[ "First" := OMap {[ "ID" := OVal (Some (int, VBasic (CInt 1))) ]};
                 "Rest" := OList [OMap {[ "ID" := OVal (Some (int, VBasic (CInt 2))); "note" := OVal (Some (str, VBasic (CStr "b"))) ]}];
                 "Any" := OVal None ]}).
Proof. vm_compute. reflexivity. Qed.


Lemma one_walk_witness : exists s ls, New h (Some (Box, box)) = Ret s /\ leaves types h 6 s = Some (Ret ls) /\
  IsZero_of types h 6 (Some (Box, box)) = Some (Ret (forallb snd ls)) /\ HasZero_of types h 6 (Some (Box, box)) = Some (Ret (existsb snd ls)) /\
  (plain_tags types DefaultTagName -> Values_of types h to_string 6 (Some (Box, box)) = Some (Ret (map fst ls))).
Proof.
  apply (one_walk types h to_string types_wf 6 (Some (Box, box))).
  - split; [vm_compute; reflexivity|discriminate].
  - vm_compute. reflexivity.
Defined.

(** [New(&item).Field("ID")] *)
Definition id_field : Field := mkField (mkValue int (At (1%positive, [0%nat])) RW) (field "ID" int []) DefaultTagName.

Example id_field_found : (s <- New h (Some (TPtr Item, VPtr (Some (1%positive, [])))); Struct_Field types h s "ID") = Ret id_field.
Proof. vm_compute. reflexivity. Qed.

Definition h_set : heap := {[ 1%positive := item 9 "b" ]}.

Lemma set_field_is_read_witness : f_Value h_set id_field = Ret (Some (int, VBasic (CInt 9))) /\
  exists r path, v_src (f_value id_field) = At (r, path) /\ (forall r', r' <> r -> h_set !! r' = h !! r') /\
    forall up i j rest, path = up ++ [i] -> i <> j ->
      data h_set (mkValue int (At (r, up ++ j :: rest)) RW) = data h (mkValue int (At (r, up ++ j :: rest)) RW).
Proof. apply (set_field_is_read h id_field int (VBasic (CInt 9)) h_set); [vm_compute; reflexivity|discriminate]. Defined.

(** ** Where the package does not do what it says *)

Definition more_types : layouts := {[
  3%positive := mkLayout "" [field "Next" (TPtr Loop) []];
  4%positive := mkLayout "" [mkStructField "wall" "time" (TBasic "uint64") [] false];
  5%positive := mkLayout "" [field "When" Stamp (tag ",flatten")];
  6%positive := mkLayout "" [field "Inner" (TStruct 7) []; field "I" (TInterface "interface {}") []];
  7%positive := mkLayout "" [field "A" int [("json", "-")]] ]}.

(** A structure that points to itself has a map of maps without end. *)
Definition loop_heap : heap := {[ 1%positive := VStruct [VPtr (Some (1%positive, []))] ]}.

Definition next_value : Value := mkValue (TPtr Loop) (At (1%positive, [0%nat])) RW.

(** A map that does not have the map of what [Next] points to has none. *)
Lemma loop_waits f tagName : f tagName next_value = None ->
  nested_with more_types loop_heap to_string f tagName next_value = None.
Proof. intros H. vm_compute in H |- *. by rewrite H. Qed.

Lemma nested_loop tagName n : nested more_types loop_heap to_string n tagName next_value = None.
Proof. induction n as [|n IH]; [done|]. exact (loop_waits _ _ IH). Qed.

Lemma map_of_cycle_never_returns n : Map_of more_types loop_heap to_string n (Some (TPtr Loop, VPtr (Some (1%positive, [])))) = None.
Proof.
  pose proof (nested_loop DefaultTagName n) as H. unfold Map_of, Map. set (f := nested more_types loop_heap to_string n) in *. clearbody f.
  vm_compute in H |- *. by rewrite H.
Qed.

(** The documentation's example, a flattened [time.Time], panics: a structure without
    exported fields is no map. *)
Example flatten_time_panics :
  Map_of more_types ∅ to_string 9 (Some (Event, VStruct [VStruct [VBasic (CInt 5)]])) = Some (Panic "interface conversion").
Proof. vm_compute. reflexivity. Qed.

(** The entries of a map whose keys are not strings all get the same key. *)
Example int_keys_collide :
  nested types ∅ to_string 9 DefaultTagName
    (mkValue (TMap int Item) (Held (VMap (Some [(VBasic (CInt 1), item 1 "a"); (VBasic (CInt 2), item 2 "b")]))) RW) =
  Some (Ret (OMap {[ "<int Value>" := OMap {[ "ID" := OVal (Some (int, VBasic (CInt 2))); "note" := OVal (Some (str, VBasic (CStr "b"))) ]} ]})).
Proof. vm_compute. reflexivity. Qed.

(** A field of interface type cannot be set, nor set to zero: the given value's kind is
    never an interface's. *)
Lemma interface_fields_are_not_settable h f val : f_Kind f = KInterface -> match val with Some (t, _) => type_kind t <> KInterface | None => True end ->
  f_IsExported f = true -> v_CanSet (f_value f) = true -> f_Set h f val = Ret (Err (WrongKind (v_Kind (ValueOf val)) KInterface)).
Proof.
  intros Hk Hval He Hc. unfold f_Set. rewrite He, Hc, Hk. cbn [negb]. rewrite decide_False; [done|]. destruct val as [[t x]|]; [|done]. cbn. congruence.
Qed.

Example zero_of_interface_field :
  (s <- New {[ 1%positive := box ]} (Some (TPtr Box, VPtr (Some (1%positive, [])))); f <- Struct_Field types {[ 1%positive := box ]} s "Any"; f_Zero {[ 1%positive := box ]} f)
    = Ret (Err (WrongKind KInvalid KInterface)).
Proof. vm_compute. reflexivity. Qed.

(** A value of the right kind and another type is not refused: [Set] panics. *)
Example set_other_type_panics : f_Set h id_field (Some (TNamed "Age" int, VBasic (CInt 1))) = Panic "reflect.Set: value of type is not assignable to type".
Proof. vm_compute. reflexivity. Qed.

(** [Values] takes an embedded structure apart by the default tag, where [Map] keeps the
    tag that was chosen. *)
Example values_lose_the_tag :
  let v := VStruct [VStruct [VBasic (CInt 1)]; VIface None] in
  let s := mkStruct (Some (TStruct 6, v)) (mkValue (TStruct 6) (Held v) RW) "json" in
  Values more_types ∅ to_string 9 s = Some (Ret [Some (int, VBasic (CInt 1)); None]) /\
  Map more_types ∅ to_string 9 s = Some (Ret {[ "Inner" := OVal (Some (TStruct 7, VStruct [VBasic (CInt 1)])); "I" := OVal None ]}).
Proof. vm_compute. split; reflexivity. Qed.

(** A field of a list of fields has no default tag: its own fields are listed even when
    their tag excludes them. *)
Example fields_of_fields_keep_all :
  let v := VStruct [box] in
  let types' := <[8%positive := mkLayout "" [field "Box" Box []]]> types in
  (fs <- Fields_of types' ∅ (Some (TStruct 8, v)); match fs with f :: _ => fs' <- f_Fields types' ∅ f; Ret (map f_Name fs') | [] => Ret [] end)
    = Ret ["First"; "Rest"; "Any"; "Skip"] /\
  (fs' <- Fields_of types' ∅ (Some (Box, box)); Ret (map f_Name fs')) = Ret ["First"; "Rest"; "Any"].
Proof. vm_compute. split; reflexivity. Qed.

(** The field of a field, of a structure given by value, panics: it has no address. *)
Example field_of_field_needs_a_pointer :
  (s <- New ∅ (Some (Box, box)); f <- Struct_Field types ∅ s "First"; f_FieldOk types ∅ f "ID") = Panic "reflect.Value.Addr of unaddressable value".
Proof. vm_compute. reflexivity. Qed.

(** A promoted field is found through an embedded pointer. *)
Example promoted_field :
  let types' := <[9%positive := mkLayout "" [field "Name" str []; mkStructField "Item" "" (TPtr Item) [] true]]> types in
  let v := VStruct [VBasic (CStr "x"); VPtr (Some (1%positive, []))] in
  (s <- New h (Some (TStruct 9, v)); f <- Struct_Field types' h s "ID"; f_Value h f) = Ret (Some (int, VBasic (CInt 2))).
Proof. vm_compute. reflexivity. Qed.
End Samples.
