(* ===== verification/RpcSetup.v ===== *)
(** * Setting up rpc

    [subscribeNatsReady] of [rpc/base/nats_subscription.go], and the constructors over it:
    [NewNatsServer], [NewRPCServer], [NewNatsClient], [NewRPCClient].  The connection keeps the
    subscriptions that are on it; whether it accepts one, and whether the server confirms
    it in time, are given.  [RPCServer.Done] and what runs afterwards are in [RpcLife],
    [NatsServer] and [NatsClient]. *)
From S2P Require Import Prelude RpcArgs NatsClient RpcServer NatsServer.
#[local] Open Scope mq_scope.
#[local] Open Scope string_scope.
#[local] Open Scope list_scope.
#[local] Open Scope Z_scope.

(** The subscriptions of a connection, by their numbers, and the inboxes handed out. *)
Record transport := mkTransport { tp_subs : gmap nat string; tp_next : nat; tp_inboxes : nat }.

#[export] Instance eta_transport : Eta transport := fun t => mkTransport (tp_subs t) (tp_next t) (tp_inboxes t).

Section Setup.
Context (SubscribeSync FlushTimeout : string -> nat -> option string) (NewInbox : nat -> string).

(** [nats.NewInbox] *)
Definition inbox (t : transport) : string * transport :=
  let n := tp_inboxes t in (NewInbox n, t <| tp_inboxes := S n |>).

(** The subscription is used only once the server has answered after it; otherwise it is
    taken back. *)
Definition subscribeNatsReady (subject : string) (t : transport) : result string nat * transport :=
  let n := tp_next t in
  match SubscribeSync subject n with
  | Some err => (Err err, t)
  | None =>
      let subs := tp_subs t in
      let t := t <| tp_subs := <[n := subject]> subs |> <| tp_next := S n |> in
      match FlushTimeout subject n with
      | Some err => (Err err, t <| tp_subs := delete n (tp_subs t) |>)
      | None => (Ok n, t)
      end
  end.

(** What a constructor makes: the object, its inbox and its subscription. *)
Definition made (A : Type) : Type := A * string * nat.

Definition subscribed {A} (what : string) (x : A) (t : transport) : result string (made A) * transport :=
  let '(addr, t) := inbox t in
  match subscribeNatsReady addr t with
  | (Err err, t) => (Err (what ++ ": " ++ err)%string, t)
  | (Ok n, t) => (Ok (x, addr, n), t)
  end.

(** [NewNatsServer], for the rpc server [s]. *)
Definition new_nats_server {W} (s : W) (t : transport) : result string (made (NatsServer W)) * transport :=
  subscribed "initialize RPC request subscription" (NewNatsServer s) t.

Definition new_rpc_state {V} : RPCServer V := mkRPCServer ∅ 0 0 0 [] [] [].

(** [NewRPCServer]: the error of its [NatsServer] is its own. *)
Definition new_rpc_server {V} (t : transport) : result string (made (NatsServer (RPCServer V))) * transport :=
  new_nats_server new_rpc_state t.

Definition new_nats_client (t : transport) : result string (made NatsClient) * transport :=
  subscribed "initialize RPC reply subscription" NewNatsClient t.

Definition new_rpc_client (t : transport) : result string (made NatsClient) * transport := new_nats_client t.

(** *** Calls without an answer *)

(** [NatsClient.CallNR]: what [Publish] answers, unless the client is closed. *)
Definition CallNR (publish : option string) (c : NatsClient) : option string :=
  if isClose c then Some "NatsClient is closed" else publish.

(** [CallNRArgs]: the message, which asks for no reply and names the host as its caller. *)
Definition CallNRArgs (hostname cid : string) (start rpc_expired : Z) (publish : RPCInfo -> option string) (fn : string)
    (argsType : list string) (args : list bytes) (c : NatsClient) : RPCInfo * option string :=
  let info := call_info hostname cid None start rpc_expired false fn argsType args in
  (info, CallNR (publish info) c).
End Setup.

(** ** What holds

    A constructor that fails leaves no subscription on the connection; one that succeeds
    leaves one, of its own inbox, that the server has confirmed. *)

(** No number beyond those handed out is taken. *)
Definition numbered (t : transport) : Prop := forall n, (tp_next t <= n)%nat -> tp_subs t !! n = None.

Section Setup.
Context (SubscribeSync FlushTimeout : string -> nat -> option string) (NewInbox : nat -> string).
Abbreviation ready := (subscribeNatsReady SubscribeSync FlushTimeout).

Lemma subscribeNatsReady_spec subject t : numbered t ->
  match ready subject t with
  | (Ok n, t') => n = tp_next t /\ tp_subs t' = <[n := subject]> (tp_subs t) /\ SubscribeSync subject n = None /\ FlushTimeout subject n = None
  | (Err _, t') => tp_subs t' = tp_subs t
  end /\ numbered (ready subject t).2.
Proof.
  intros Ht. unfold subscribeNatsReady. destruct (SubscribeSync subject (tp_next t)) eqn:E1; [done|].
  assert (Hn : numbered (t <| tp_subs := <[tp_next t := subject]> (tp_subs t) |> <| tp_next := S (tp_next t) |>)).
  { intros n Hn. cbn in *. rewrite lookup_insert_ne by lia. apply Ht. lia. }
  destruct (FlushTimeout subject (tp_next t)) eqn:E2; [|done]. split.
  - cbn. apply delete_insert_id. by apply Ht.
  - intros n Hn'. cbn in *. apply lookup_delete_None. right. by apply Hn.
Qed.

(** Set up, an object listens on the inbox it was given; its set-up failed, nothing of it
    is on the connection. *)
Lemma set_up_or_nothing {A} what (x : A) t : numbered t ->
  match subscribed SubscribeSync FlushTimeout NewInbox what x t with
  | (Ok (y, addr, n), t') => y = x /\ addr = NewInbox (tp_inboxes t) /\ tp_subs t' = <[n := addr]> (tp_subs t) /\ tp_subs t !! n = None /\
      FlushTimeout addr n = None
  | (Err _, t') => tp_subs t' = tp_subs t
  end /\ numbered (subscribed SubscribeSync FlushTimeout NewInbox what x t).2.
Proof.
  intros Ht. unfold subscribed, inbox. set (t0 := t <| tp_inboxes := _ |>). assert (Ht0 : numbered t0) by done.
  pose proof (subscribeNatsReady_spec (NewInbox (tp_inboxes t)) t0 Ht0) as [H Hn]. destruct (ready _ t0) as [[n|e] t']; cbn in *; (split; [|done]).
  - destruct H as (-> & H1 & _ & H2). split_and!; try done. by apply Ht.
  - done.
Qed.

(** Any number of rpc servers and clients: those that were set up, and no others, are
    subscribed, each on its own inbox. *)
Fixpoint set_up_all (whats : list string) (t : transport) : list (string * nat) * transport :=
  match whats with
  | [] => ([], t)
  | what :: whats =>
      match subscribed SubscribeSync FlushTimeout NewInbox what tt t with
      | (Ok (_, addr, n), t) => let '(l, t) := set_up_all whats t in ((addr, n) :: l, t)
      | (Err _, t) => set_up_all whats t
      end
  end.

Lemma set_up_all_subs whats : forall t, numbered t ->
  let '(l, t') := set_up_all whats t in forall n s, tp_subs t' !! n = Some s <-> tp_subs t !! n = Some s \/ (s, n) ∈ l.
Proof.
  induction whats as [|what whats IH]; intros t Ht; cbn [set_up_all].
  - intros n s. split; [by left|]. intros [?|?%not_elem_of_nil]; done.
  - pose proof (set_up_or_nothing what tt t Ht) as [H Hn]. destruct (subscribed _ _ _ what tt t) as [[[[u addr] m]|e] t1]; cbn [snd] in Hn.
    + destruct H as (_ & _ & Hs & Hm & _). specialize (IH t1 Hn). destruct (set_up_all whats t1) as [l t']. intros n s. rewrite IH, Hs, elem_of_cons.
      destruct (decide (n = m)) as [->|Hne].
      * rewrite lookup_insert_eq. split; [intros [[= ->]|?]; auto|]. intros [?|[[= ->]|?]]; [congruence|auto|auto].
      * rewrite lookup_insert_ne by done. split; [tauto|]. intros [?|[[= _ ->]|?]]; [auto|done|auto].
    + specialize (IH t1 Hn). destruct (set_up_all whats t1) as [l t']. intros n s. by rewrite IH, H.
Qed.

(** A call without an answer fails exactly when the client is closed or the message could
    not be published. *)
Lemma CallNR_fails publish c : CallNR publish c = None <-> isClose c = false /\ publish = None.
Proof. unfold CallNR. destruct (isClose c); naive_solver. Qed.
End Setup.
