(* ===== verification/SelectorOptions.v ===== *)
(** * The options of a selector

    [selector/options.go], [default.go], [cache/options.go] and the constructors: which registry,
    strategy, watcher and expiry a selector has, and what [Select] does with the options of
    a call.  A strategy makes a [Next] of the services; a registry is what its [GetService]
    answers.  [Selector] has the rest of both selectors. *)
From S2P Require Import Prelude Registry Selector.
#[local] Open Scope mq_scope.
#[local] Open Scope string_scope.
#[local] Open Scope list_scope.
#[local] Open Scope Z_scope.

Section Options.
Context {Next Watcher : Type}.

Abbreviation Strategy := (list Service -> Next).
Abbreviation GetService := (string -> result sel_err (list Service)).

(** [o_TTL] is the value under the context's key of [cache.TTL]. *)
Record Options := mkOptions {
  o_Watcher : option Watcher; o_Registry : option GetService; o_Strategy : option Strategy; o_TTL : option Z }.

#[export] Instance eta_Options : Eta Options := fun o => mkOptions (o_Watcher o) (o_Registry o) (o_Strategy o) (o_TTL o).

Record SelectOptions := mkSelectOptions { s_Filters : list Filter; s_Strategy : option Strategy }.

#[export] Instance eta_SelectOptions : Eta SelectOptions := fun o => mkSelectOptions (s_Filters o) (s_Strategy o).

Definition Option : Type := Options -> Options.
Definition SelectOption : Type := SelectOptions -> SelectOptions.

Definition Registry (r : option GetService) : Option := fun o => o <| o_Registry := r |>.
Definition SetStrategy (fn : option Strategy) : Option := fun o => o <| o_Strategy := fn |>.
Definition SetWatcher (fn : option Watcher) : Option := fun o => o <| o_Watcher := fn |>.
Definition TTL (t : Z) : Option := fun o => o <| o_TTL := Some t |>.

Definition WithFilter (fn : list Filter) : SelectOption := fun o => let l := s_Filters o in o <| s_Filters := l ++ fn |>.
Definition WithStrategy (fn : option Strategy) : SelectOption := fun o => o <| s_Strategy := fn |>.

(** [for _, o := range opts { o(&so) }] *)
Definition apply_options {A} (opts : list (A -> A)) (so : A) : A := foldl (fun so o => o so) so opts.

Context (Random : Strategy) (DefaultRegistry : GetService) (DefaultTTL : Z).

(** The options both constructors end with. *)
Definition new_options (opts : list Option) : Options :=
  let sopts := apply_options opts (mkOptions None None (Some Random) None) in
  match o_Registry sopts with None => sopts <| o_Registry := Some DefaultRegistry |> | Some _ => sopts end.

Definition newDefaultSelector (opts : list Option) : Options := new_options opts.

(** [cache.NewSelector]: an expiry given is the one taken. *)
Definition newCacheSelector (opts : list Option) : Options * cacheSelector :=
  let sopts := new_options opts in
  (sopts, NewSelector (default DefaultTTL (o_TTL sopts)) (bool_decide (is_Some (o_Watcher sopts)))).

(** [Init] of the default selector. *)
Definition default_Init (opts : list Option) (so : Options) : Options := apply_options opts so.

(** [Init] of the caching selector, whose watch loops then watch again ([CacheWatch]). *)
Definition cache_Init (opts : list Option) (s : Options * cacheSelector) : Options * cacheSelector := (apply_options opts s.1, s.2).

(** The end of [Select], with the services the selector has found. *)
Definition select_from (so : Options) (opts : list SelectOption) (services : result sel_err (list Service)) : outcome (result sel_err Next) :=
  let sopts := apply_options opts (mkSelectOptions [] (o_Strategy so)) in
  match services with
  | Err e => Ret (Err e)
  | Ok services =>
      match candidates (s_Filters sopts) services with
      | Err e => Ret (Err e)
      | Ok services =>
          match s_Strategy sopts with
          | Some strategy => Ret (Ok (strategy services))
          | None => Panic "nil strategy"
          end
      end
  end.

(** [defaultSelector.Select]; a registry that [Init] took away is a nil one. *)
Definition default_select (so : Options) (service : string) (opts : list SelectOption) : outcome (result sel_err Next) :=
  match o_Registry so with
  | None => Panic "nil registry"
  | Some registry => select_from so opts (registry service)
  end.

(** [cacheSelector.Select] *)
Definition cache_select (so : Options) (now : Z) (service : string) (opts : list SelectOption) (c : cacheSelector) :
    outcome (result sel_err Next * cacheSelector) :=
  match o_Registry so with
  | None => Panic "nil registry"
  | Some registry =>
      let '(services, _, c) := get registry now service c in
      r <- select_from so opts services; Ret (r, c)
  end.
End Options.
Arguments Options : clear implicits.
Arguments SelectOptions : clear implicits.
Arguments Option : clear implicits.

(** ** What holds

    What is not set is Random over the default registry, the last setting of each option
    wins, filters add up; and the caching selector with nothing cached selects as the
    default one does. *)

Section Theorems.
Context {Next Watcher : Type} (Random : list Service -> Next) (DefaultRegistry : string -> result sel_err (list Service)) (DefaultTTL : Z).

Abbreviation Options := (SelectorOptions.Options Next Watcher).

(** The settings, as data. *)
Inductive setting :=
| SRegistry (r : option (string -> result sel_err (list Service))) | SStrategy (fn : option (list Service -> Next))
| SWatcher (fn : option Watcher) | STTL (t : Z).

Definition option_of (s : setting) : Options -> Options :=
  match s with SRegistry r => SelectorOptions.Registry r | SStrategy fn => SetStrategy fn | SWatcher fn => SetWatcher fn | STTL t => TTL t end.

Definition last_of {A} (f : setting -> option A) (l : list setting) (d : A) : A := default d (last (omap f l)).

Lemma apply_settings l : apply_options (option_of <$> l) (mkOptions None None (Some Random) None) = mkOptions
  (last_of (fun s => match s with SWatcher w => Some w | _ => None end) l None)
  (last_of (fun s => match s with SRegistry r => Some r | _ => None end) l None)
  (last_of (fun s => match s with SStrategy f => Some f | _ => None end) l (Some Random))
  (last_of (fun s => match s with STTL t => Some (Some t) | _ => None end) l None).
Proof.
  unfold apply_options, last_of. induction l as [|s l IH] using rev_ind; [done|]. rewrite fmap_app, foldl_app, IH, !omap_app.
  destruct s; cbn [omap list_omap]; rewrite ?app_nil_r, ?last_snoc; reflexivity.
Qed.

(** The last setting of each option is taken; without one, or with a nil registry, the
    defaults are. *)
Lemma selector_settings l : let '(so, c) := newCacheSelector Random DefaultRegistry DefaultTTL (option_of <$> l) in
  so = newDefaultSelector Random DefaultRegistry (option_of <$> l) /\
  o_Registry so = Some (default DefaultRegistry (last_of (fun s => match s with SRegistry r => Some r | _ => None end) l None)) /\
  o_Strategy so = last_of (fun s => match s with SStrategy f => Some f | _ => None end) l (Some Random) /\
  ttl c = default DefaultTTL (last_of (fun s => match s with STTL t => Some (Some t) | _ => None end) l None) /\
  (has_watcher c = true <-> is_Some (last_of (fun s => match s with SWatcher w => Some w | _ => None end) l None)) /\
  cache c = ∅ /\ ttls c = ∅ /\ watched c = ∅ /\ exited c = false.
Proof.
  unfold newCacheSelector, newDefaultSelector, new_options. rewrite apply_settings. cbn [o_Registry].
  destruct (last_of (fun s => match s with SRegistry r => Some r | _ => None end) l None); cbn; split_and!; try done; by rewrite bool_decide_eq_true.
Qed.

(** [Init] changes what a caching selector selects with, but not its expiry, whatever
    [TTL] says. *)
Lemma Init_keeps_the_expiry l l' : let s := newCacheSelector Random DefaultRegistry DefaultTTL (option_of <$> l) in
  ttl (cache_Init (option_of <$> l') s).2 = ttl s.2 /\
  o_Strategy (cache_Init (option_of <$> l') s).1 = last_of (fun s => match s with SStrategy f => Some f | _ => None end) l' (o_Strategy s.1).
Proof.
  cbn zeta. split; [done|]. unfold cache_Init, apply_options, last_of. cbn [fst]. set (so := (newCacheSelector _ _ _ _).1). clearbody so.
  induction l' as [|x l' IH] using rev_ind; [done|]. rewrite fmap_app, foldl_app, omap_app. destruct x; cbn [omap list_omap]; rewrite ?app_nil_r, ?last_snoc; [exact IH|done|exact IH|exact IH].
Qed.

(** Filters are applied in the order they were given, in one option or in several. *)
Lemma filters_add_up (so : option (list Service -> Next)) fss :
  s_Filters (apply_options (WithFilter <$> fss) (mkSelectOptions [] so)) = mjoin fss.
Proof.
  unfold apply_options. induction fss as [|fs fss IH] using rev_ind; [done|]. rewrite fmap_app, foldl_app, join_app. cbn. rewrite IH. by rewrite app_nil_r.
Qed.

(** A selection answers, and does not panic, if there is a strategy; it takes the one of
    the call before the selector's. *)
Lemma select_from_answers (so : Options) opts services strategy :
  s_Strategy (apply_options opts (mkSelectOptions [] (o_Strategy so))) = Some strategy ->
  select_from so opts services = Ret (match services with
    | Err e => Err e
    | Ok l => match candidates (s_Filters (apply_options opts (mkSelectOptions [] (o_Strategy so)))) l with Err e => Err e | Ok l => Ok (strategy l) end
    end).
Proof. intros H. unfold select_from. destruct services as [l|e]; [|done]. destruct (candidates _ l); [|done]. by rewrite H. Qed.

(** With nothing of the service in its cache, the caching selector asks the registry and
    selects what the default one would. *)
Lemma cache_select_fresh (so : Options) now service opts c r : cache c !! service = None -> o_Registry so = Some r ->
  cache_select so now service opts c = (x <- default_select so service opts; Ret (x, (get r now service c).2)).
Proof.
  intros Hc Hr. unfold cache_select, default_select. rewrite Hr.
  assert (Hg : (get r now service c).1.1 = r service).
  { unfold get. assert (cache (if negb (bool_decide (service ∈ watched c)) then c <| watched := {[ service ]} ∪ watched c |> else c) !! service = None) as ->
      by (by destruct (negb _)). unfold fetch. by destruct (r service). }
  destruct (get r now service c) as [[services b] c']. cbn in Hg. by subst.
Qed.
End Theorems.
